(* ===== verification/_CoqProject ===== *)
-Q . S2P
Prelude.v
Heap.v
GoFloat.v
GoText.v
GoDuration.v
Flags.v
Api.v
DeepCopy.v
K8s.v
Correlation.v
Leakage.v
Drain.v
Hpa.v
Cgroup.v
ProbeLag.v
Dns.v
Pdb.v
Probe.v
Chaos.v
LoadPhase.v
LoadConfig.v
Schedule.v
Collector.v
Endpoints.v
Report.v
LoadProfile.v
Status.v
Lifecycle.v
Effects.v
EndpointWatch.v
Interleave.v
Dashboard.v
Clients.v
Pool.v
Observer.v
Session.v
TrafficVerdict.v
Cluster.v
Target.v
Shadow.v
LoadgenJob.v
Manager.v
Commands.v
Wiring.v
Entry.v
JobShape.v
Controller.v
Refinement.v
Metrics.v
Guarantees.v
Scenarios.v
Wakeup.v
Isolation.v
ApiServer.v
EndToEnd.v
Lifetime.v
