(* ===== verification/Prelude.v ===== *)
(** * Scale Sentry, verified

    Scale Sentry is a Kubernetes operator (Go).  A ScaleValidation object names a workload and an
    SLA; the controller starts a Job with two containers, a load generator and an observer
    sidecar; the observer writes a report to its log; the controller reads it, puts verdicts and
    diagnostics on the object's status, and may run the validation again on a schedule or after a
    spec edit.  Halfway, it may delete a pod of the workload on purpose.

    This library models the program's own logic and proves what makes it correct.

    ** Parts, files and sources

    Language and libraries:
    - [Prelude]: machine integers with wrap-around, durations and instants, errors, the result
      monad [res], shared lemmas, tactics and hints.
    - [GoFloat]: float64 as IEEE 754 binary64 with round to nearest even, exact on a fixed grid.
    - [GoText], [GoDuration]: strconv, strings, %q, Duration.String and time.ParseDuration.
    - [K8s]: the Kubernetes objects the code reads, and a class [K8sLib] for the library functions
      it calls (selectors, status conditions, finalizers, cron), with their laws in [K8sLaws]; an
      executable instance [SimpleLib] shows the laws consistent.
    - [Flags]: command-line flags; the parser (spf13/pflag) is a class [Pflag] whose law says that
      a rendered command line is read back, with an executable instance [SimpleFlags].
    - [Effects]: programs that call out, as trees over calls with typed answers; runs, execution
      against an environment, and a weakest precondition with a condition on every call.
    - [Heap]: a heap of typed Go objects, pointers, slices with their backing arrays, and places
      (fields and elements of objects); what reading from a place in depth gives, and which
      writes it is independent of.
    - [Interleave]: any number of such programs as threads over a shared state, and the ledger
      argument that their atomic additions lose nothing.

    Data: [Api] (api/v1beta1/scalevalidation_types.go), as immutable values, which is how the
    components use them; [DeepCopy] (zz_generated.deepcopy.go), where the same types live on the
    heap, with nil and shared pointers and slices.

    Load generator (internal/loadgen): [LoadPhase] (phase.go), [LoadConfig] (config.go, url.go and
    the header flags of cmd/loadgen), [Schedule] (schedule.go), [Collector] (generator.go,
    result.go, classify of client.go), [Pool] (the emitter, the bounded channel and the workers of
    generator.go as a state machine), [Clients] (client.go, h2client.go, grpcclient.go and New).
    The controller's side of it is [LoadProfile] (controller/loadprofile.go).

    Analyzers (internal/analyzer): [Correlation] (the scan shared by two of them), [Leakage],
    [Drain], [Hpa], [Cgroup], [ProbeLag], [Dns], [Pdb], [Probe]; [Chaos] is internal/chaos.

    Observer (internal/observer): [Endpoints] (the tracker of endpoints.go), [EndpointWatch] (its
    watch goroutine), [Report] (the report line of observer.go), [Observer] (observer.go,
    target.go, kubelet.go), [Session] (a session and its watch goroutine as two threads),
    [TrafficVerdict] (exactness of the failure figures).

    Controller (internal/controller): [Status] (the pure status updates), [Lifecycle] (the abstract
    state machine of an object), [Cluster] (the calls a pass makes), [Target] (target.go),
    [LoadgenJob] (job.go), [Controller] (scalevalidation_controller.go, schedule.go, disruption.go,
    conditions.go), [Shadow] (shadow_controller.go), [JobShape] (the Job that [LoadgenJob] builds),
    [Refinement], [Guarantees], [Metrics] (internal/metrics and what passes make of it), [Wakeup]
    (the watches of SetupWithManager and why no validation is left behind), [Scenarios] (sample
    clusters), [Isolation] (which objects a pass touches), [ApiServer] (passes, users and stale
    reads on a server with resource versions), [EndToEnd] (a validation from creation to verdict,
    through all the parts), [Lifetime] (its later runs, and its deletion).

    Commands: [Commands] (cmd/loadgen, cmd/observer), [Manager] (cmd/scale-sentry/controller.go and
    the registration of the API types), [Entry] (the three mains and their exit codes),
    [Dashboard] (internal/report and cmd/scale-sentry/report.go), [Wiring] (what passes between the
    controller and the two containers: arguments, the result file, the report line).

    Definitions keep the names of the Go functions and types; fields carry a short prefix, and a
    loop body or a branch that is a definition of its own has a lower-case name with underscores.
    A reconcile pass or an observer session is a program of [Effects]: what the API server, the
    clock or a file answers is up to the environment, so a theorem about every run covers stale
    reads, conflicts and failures at every call.

    ** What the theorems show

    - The controller refines the lifecycle machine: every status write of every pass is a
      transition of [Lifecycle.status_write] ([Guarantees.reconcile_status_writes]), and every
      object that such writes, spec edits and deletion lead to satisfies the invariant
      ([Guarantees.stored_objects_inv]).  What that assumes of the API server is derived for a
      server with optimistic concurrency on which any number of passes interleave call by call with
      users, with stale reads, lost answers and conflicts: no pass undoes an edit or a deletion
      ([ApiServer.api_server_refines_lifecycle]).  A pass touches no other validation and no other
      Job ([Isolation.passes_isolated]).  Jobs, pods and the finalizer are created, deleted and dropped
      only under the conditions of [Refinement.guard] ([reconcile_job_creation],
      [reconcile_disruption], [reconcile_teardown]).
    - End to end: a validation created in a healthy cluster gets its verdict in four passes, from
      the Job through the observer's command line and log line back to the status
      ([EndToEnd.validation_gets_verdict]); a finished one whose spec was edited or whose schedule is
      due gets its next verdict ([Lifetime.next_verdict]), and a deleted one is released
      ([Lifetime.deleted_is_released]); and no pass, whatever it meets, leaves a validation
      behind that no timer, event or retry will bring back ([Wakeup.no_lost_wakeup]), where being
      at rest means finished, with the spec observed, and suspended or without a schedule.  What a
      healthy cluster must have is in [Guarantees.start_answers] and [buildable]: every call
      answers, the target is ready, the probe, the CA bundle and the encoded profile are there if
      the spec asks for them.
    - Progress: a startable validation starts, a finished Job's report reaches the status, the
      schedule, a spec edit and suspension decide what follows ([run_starts],
      [report_reaches_status], [schedule_decides], [spec_change_reruns], [suspended_is_parked],
      [one_shot_left_alone]).  The shadow reconciler creates at most the one object it should,
      and its event filter drops only what it would ignore ([Wakeup.filter_agrees]).
    - What a pass counts agrees with what it writes, once per run ([Metrics.passes_count_runs]);
      two exceptions are in [Scenarios].
    - A deep copy of any API object equals the original and shares no memory with it
      ([DeepCopy.deep_copies_isolated]).
    - The parts fit together: the Job satisfies the API server's rules exactly when the names and
      references it is built from do ([JobShape.job_well_formed]), each container reads back the
      arguments it is given, and the load generator starts exactly when the phases the CR asks for
      are valid and then runs exactly those ([Wiring.loadgen_container_runs],
      [observer_container_watches]); the CRD itself lets invalid ones through.  The result of the load
      reaches the observer and its report the controller ([result_reaches_observer],
      [observer_report_reaches_controller]); the controller's command starts its parts in order,
      and what the exit codes of the three processes say is in [Entry].
    - The linear scans of the leakage and drain analyzers compute their quadratic specification;
      the HPA watcher equals its declarative reading; alert bands are exact in spite of
      floating-point rounding and of int64 products.
    - The observer's report is what its own calls gave: the verdicts, durations and totals are
      those of the HPA history it polled and of the load result it read
      ([Observer.session_report_sound]).
    - The load generator: spike profiles become phases that offer the specified rate at every
      instant, and are valid exactly when every spike has a length; schedules of every pattern are ordered and stay inside their phase, the collector
      counts every measured request once, and a validated configuration runs.  Under every
      interleaving of emitter and workers, a phase loses and repeats no arrival, terminates and
      never deadlocks ([Pool.pool_conserves], [pool_terminates], [run_sends_scheduled]).
    - The clients: under every interleaving of workers the HTTP/2 counters lose nothing (of the
      GOAWAY errors they count those that errors.As finds, which are none when the library returns
      them by value, [Clients.h2_goaways_missed]) and a KeepAlive gRPC client dials once; a gRPC
      request succeeds exactly when the target answered that it serves; a client trusts exactly the
      CA bundle it was configured with, or is not built.
    - The endpoint watch sees through restarts, and under every interleaving with it a session
      reports on a consistent snapshot of its events ([Session.session_report_consistent]); the
      dashboard shows every alert once, the gravest first.
    - Round trips: cpu.stat text, the observer's report line, printed durations and annotations.

    ** Bounds and fuel

    - Loops over Go slices are structural.  [itoa] has as much fuel as the number has bits,
      [ParseDuration] as much as its text has characters; [GoText.parse_itoa_nonneg] and
      [GoDuration.ParseDuration_string] show both enough.
    - An arrival schedule is cut off by a [budget], the number of sends the receiver takes before
      the phase is cancelled; theorems hold for every budget, or say how large it must be.
    - The observer polls the HPA until it is stopped: [ticks] is the number of polls; the endpoint
      goroutine opens at most [watches] watches and reads at most [fuel] messages.  Both would go
      on for ever in a cluster that never stops them, and the theorems hold for every number.
    - The worker pool has no fuel: its runs are sequences of actions of any length, and
      [Pool.pool_terminates] bounds them.
    - Arithmetic hypotheses (at most 2^51 requests, windows of 2^47 periods, probe periods below
      2^30 s, phases of 2^62 ns, exponential draws up to 2^30) are where float64 or int64 would
      start to round or wrap.

    ** Not modelled

    Third-party transports and formats are calls or parameters, with a law where the code relies
    on one: fasthttp, net/http and grpc-go, URL parsing, the HDR histogram, JSON and Prometheus
    text, cron, pflag, lipgloss, the Prometheus collectors and controller-runtime's work queue (a
    class [ControllerRuntime] with the laws of its requests; otherwise it may run a pass at any
    time).  The deep copies of apimachinery types (ObjectMeta, Time, Condition) are parameters of
    [DeepCopy].  cobra is a class [Cobra] that finds a subcommand; the scheme that the API types are
    registered with is controller-runtime's.  The API server of [ApiServer] stores ScaleValidations
    only; what other objects are like is up to the environment.  Left out: the end-to-end test
    helpers (test/e2e, fixtures for a live cluster) and log lines.  Metrics are counted per pass;
    their sums over a life of an object are not stated, because a refused status write makes a
    failed run count twice ([Scenarios.refused_failure_counted]). *)

From stdpp Require Export prelude strings gmap sorting.
From Stdlib Require Export ZArith Lia.

Open Scope Z_scope.

(** ** Machine integers

    Go's [int64]/[int32] arithmetic wraps around; [uint64] arithmetic is modulo 2^64. *)
Definition int64 (z : Z) : Z := (z + 2 ^ 63) mod 2 ^ 64 - 2 ^ 63.

Definition int32 (z : Z) : Z := (z + 2 ^ 31) mod 2 ^ 32 - 2 ^ 31.

Definition uint64 (z : Z) : Z := z mod 2 ^ 64.

Definition in_int64 (z : Z) : Prop := - 2 ^ 63 <= z < 2 ^ 63.

Definition in_int32 (z : Z) : Prop := - 2 ^ 31 <= z < 2 ^ 31.

Definition in_uint64 (z : Z) : Prop := 0 <= z < 2 ^ 64.

(** Arithmetic on [int64] and [time.Duration] operands. *)
Declare Scope go_scope.
Delimit Scope go_scope with go.

Notation "x ⊕ y" := (int64 (x + y)) (at level 50, left associativity) : go_scope.
Notation "x ⊖ y" := (int64 (x - y)) (at level 50, left associativity) : go_scope.
Notation "x ⊗ y" := (int64 (x * y)) (at level 40, left associativity) : go_scope.

Lemma int64_id z : in_int64 z → int64 z = z.
Proof. unfold in_int64, int64. intros. rewrite Z.mod_small; lia. Qed.

Lemma int32_id z : in_int32 z → int32 z = z.
Proof. unfold in_int32, int32. intros. rewrite Z.mod_small; lia. Qed.

Lemma int64_range z : in_int64 (int64 z).
Proof. unfold in_int64, int64. pose proof (Z.mod_pos_bound (z + 2 ^ 63) (2 ^ 64)). lia. Qed.

(** ** Time

    [time.Duration] is an [int64] count of nanoseconds.  [time.Time] is an instant, counted in
    nanoseconds on an unbounded line (the range of Go's type exceeds that of its durations), so
    [Add] is exact while [Sub] saturates at the extreme durations, as documented. *)
Definition Duration := Z.

Definition Time := Z.

Definition Microsecond : Duration := 1000.

Definition Millisecond : Duration := 1000 * Microsecond.

Definition Second : Duration := 1000 * Millisecond.

Definition Minute : Duration := 60 * Second.

Definition minDuration : Duration := - 2 ^ 63.

Definition maxDuration : Duration := 2 ^ 63 - 1.

(** The zero [time.Time], January 1 of year 1; instants count from the Unix epoch. *)
Definition zeroTime : Time := - 62135596800 * Second.

(** Closes range side conditions of the wrap-around operations. *)
Ltac solve_range := unfold in_int64, in_int32, in_uint64, minDuration, maxDuration in *; lia.

(** The hints that undo a wrap-around whose result fits. *)
Create HintDb go.

#[export] Hint Rewrite int64_id int32_id using solve_range : go.

Definition time_add (t : Time) (d : Duration) : Time := t + d.

Definition time_sub (t u : Time) : Duration := Z.max minDuration (Z.min maxDuration (t - u)).

Definition time_before (t u : Time) : bool := t <? u.

Definition time_after (t u : Time) : bool := u <? t.

(** ** Errors

    What the code observes of a Go [error]: which of the API machinery's predicates it
    satisfies (they look through [%w] wrapping), whether [errTargetUnresolvable] is in its
    chain, and its text. *)
Inductive errkind :=
| NotFound
| NoMatch
| Forbidden
| OtherErr.

#[export] Instance errkind_eq_dec : EqDecision errkind.
Proof. solve_decision. Defined.

Record goerr := GoErr {
  err_kind : errkind;
  err_unresolvable : bool;
  err_text : string
}.

#[export] Instance goerr_eq_dec : EqDecision goerr.
Proof. solve_decision. Defined.

Definition errorf (msg : string) : goerr := GoErr OtherErr false msg.

(** [fmt.Errorf("prefix: %w", err)] keeps the wrapped error in the chain. *)
Definition wrapf (prefix : string) (e : goerr) : goerr :=
  GoErr (err_kind e) (err_unresolvable e) (prefix +:+ ": " +:+ err_text e).

Definition IsNotFound (e : goerr) : bool := bool_decide (err_kind e = NotFound).

Inductive res (A : Type) :=
| Ok (a : A)
| Err (e : goerr).

Arguments Ok {A} _.
Arguments Err {A} _.

#[export] Instance res_ret : MRet res := @Ok.

#[export] Instance res_bind : MBind res := λ A B f m,
  match m with Ok a => f a | Err e => Err e end.

Definition is_ok {A} (r : res A) : bool := match r with Ok _ => true | Err _ => false end.

(** ** Lists *)

Lemma Exists_filter_and {A} (P Q : A → Prop) `{∀ x, Decision (P x)} (l : list A) :
  Exists Q (filter P l) ↔ Exists (λ x, P x ∧ Q x) l.
Proof. rewrite !Exists_exists. setoid_rewrite list_elem_of_filter. firstorder. Qed.

Lemma take_zip_fst {A B} (l : list A) (k : list B) n :
  length k = length l → (take n (zip l k)).*1 = take n l.
Proof.
  intros Hlen. rewrite zip_with_take. apply fst_zip. rewrite !length_take. lia.
Qed.

Lemma length_omap_le {A B} (f : A → option B) (l : list A) : (length (omap f l) <= length l)%nat.
Proof. induction l as [|x l IH]; csimpl; [done|]. destruct (f x); csimpl; lia. Qed.
