(* ===== verification/Heap.v ===== *)
(** * Memory with sharing

    Go structs hold pointers and slices, so two values can share memory.  The heap maps locations
    to typed cells; a [place] is an assignable part of a cell (a variable, a field, an element),
    given by a lens into it.  [copy_pointer] and [copy_slice] are the two statements that
    generated deep copies are made of; [deep] says what it means for a copy to be deep, in
    separation-logic style: everything the copy reaches lies in memory that was not allocated
    before. *)

From S2P Require Import Prelude.

Open Scope Z_scope.

#[local] Obligation Tactic := idtac.

(** ** Lenses *)

(** A part of an [S] that is a [T]; [lens_get] is partial because an index may be out of range. *)
Record lens (S T : Type) := mkLens {
  lens_get : S → option T;
  lens_set : T → S → S;
  lens_get_set t s : is_Some (lens_get s) → lens_get (lens_set t s) = Some t;
  lens_set_set t t' s : lens_set t (lens_set t' s) = lens_set t s;
  lens_set_get t s : lens_get s = Some t → lens_set t s = s
}.

Arguments lens_get {S T}.
Arguments lens_set {S T}.
Arguments mkLens {S T}.

(** A field of a struct. *)
Program Definition field {S T} (get : S → T) (set : T → S → S)
    (Hgs : ∀ t s, get (set t s) = t) (Hss : ∀ t t' s, set t (set t' s) = set t s)
    (Hsg : ∀ s, set (get s) s = s) : lens S T :=
  mkLens (λ s, Some (get s)) set _ _ _.
Next Obligation. intros S T get set Hgs Hss Hsg t s _. simpl. by rewrite Hgs. Qed.
Next Obligation. intros S T get set Hgs Hss Hsg t t' s. apply Hss. Qed.
Next Obligation. intros S T get set Hgs Hss Hsg t s [= <-]. apply Hsg. Qed.

Program Definition lens_id {T} : lens T T := mkLens Some (λ t _, t) _ _ _.
Next Obligation. by intros. Qed.
Next Obligation. by intros. Qed.
Next Obligation. by intros ? ? ? [= ->]. Qed.

(** The part [g] of the part [f]. *)
Program Definition lens_comp {A B C} (f : lens A B) (g : lens B C) : lens A C :=
  mkLens (λ a, b ← lens_get f a; lens_get g b)
    (λ c a, from_option (λ b, lens_set f (lens_set g c b) a) a (lens_get f a)) _ _ _.
Next Obligation.
  intros A B C f g c a [c' (b & Hb & Hg)%bind_Some]. rewrite Hb. simpl.
  rewrite (lens_get_set _ _ f) by done. simpl. by rewrite (lens_get_set _ _ g).
Qed.
Next Obligation.
  intros A B C f g c c' a. simpl. destruct (lens_get f a) as [b|] eqn:Hb; simpl; [|by rewrite Hb].
  rewrite (lens_get_set _ _ f) by done. simpl. by rewrite (lens_set_set _ _ f), (lens_set_set _ _ g).
Qed.
Next Obligation.
  intros A B C f g c a (b & Hb & Hg)%bind_Some. simpl. rewrite Hb. simpl.
  rewrite (lens_set_get _ _ g) by done. by apply lens_set_get.
Qed.

(** Element [i] of an array. *)
Program Definition element {T} (i : nat) : lens (list T) T := mkLens (λ l, l !! i) (λ t l, <[ i := t ]> l) _ _ _.
Next Obligation. intros T i t l [? ?%lookup_lt_Some]. by apply list_lookup_insert_eq. Qed.
Next Obligation. intros T i t t' l. apply list_insert_insert_eq. Qed.
Next Obligation. intros T i t l Hl. by apply list_insert_id. Qed.

(** ** Heaps *)

Definition loc := positive.

(** A pointer is nil or a location; a slice is nil or a window into an array. *)
Definition ptr := option loc.

Record window := mkWindow { sl_array : loc; sl_off : nat; sl_len : nat; sl_cap : nat }.

Definition slice := option window.

(** The types of cells: codes, with the values they stand for. *)
Class CellTypes := {
  code : Type;
  code_eq_dec :: EqDecision code;
  denote : code → Type
}.

(** A cell holds one variable, or a backing array. *)
Inductive cell `{CellTypes} :=
| Var (t : code) (v : denote t)
| Array (t : code) (vs : list (denote t)).

Notation heap := (gmap loc cell).

Section heap.
Context `{CellTypes}.

(** The allocator: any that returns unused memory. *)
Class Allocator := {
  alloc : heap → loc;
  alloc_fresh h : h !! alloc h = None
}.

Definition cast {t u : code} (e : t = u) : denote t → denote u := match e with eq_refl => λ v, v end.

Definition as_var (t : code) (c : cell) : option (denote t) :=
  match c with
  | Var u v => match decide (u = t) with left e => Some (cast e v) | right _ => None end
  | Array _ _ => None
  end.

Definition as_array (t : code) (c : cell) : option (list (denote t)) :=
  match c with
  | Array u vs => match decide (u = t) with left e => Some (cast e <$> vs) | right _ => None end
  | Var _ _ => None
  end.

Lemma cast_id t (e : t = t) v : cast e v = v.
Proof. by rewrite (proof_irrel e eq_refl). Qed.

Lemma as_var_Var t v : as_var t (Var t v) = Some v.
Proof. simpl. destruct (decide (t = t)); [|done]. by rewrite cast_id. Qed.

Lemma as_array_Array t vs : as_array t (Array t vs) = Some vs.
Proof.
  simpl. destruct (decide (t = t)) as [e|]; [|done]. f_equal. rewrite (proof_irrel e eq_refl).
  induction vs as [|v vs IH]; [done|]. simpl. by f_equal.
Qed.

Lemma as_var_Some t c v : as_var t c = Some v → c = Var t v.
Proof. destruct c as [u w|]; [|done]. simpl. destruct (decide (u = t)) as [->|]; [|done]. by intros [= <-]. Qed.

Lemma as_array_Some t c vs : as_array t c = Some vs → c = Array t vs.
Proof.
  destruct c as [|u ws]; [done|]. simpl. destruct (decide (u = t)) as [->|]; [|done]. simpl. intros [= <-].
  f_equal. clear. induction ws as [|w ws IH]; [done|]. simpl. by f_equal.
Qed.

Arguments as_var : simpl never.

Arguments as_array : simpl never.

(** The whole of a cell as a part of it. *)
Program Definition var_lens (t : code) : lens cell (denote t) :=
  mkLens (as_var t) (λ v c, from_option (λ _, Var t v) c (as_var t c)) _ _ _.
Next Obligation. intros t v c [w Hw]. simpl. rewrite Hw. apply as_var_Var. Qed.
Next Obligation. intros t v v' c. simpl. destruct (as_var t c) eqn:Hc; simpl; [by rewrite as_var_Var|by rewrite Hc]. Qed.
Next Obligation. intros t v c Hc. simpl in *. rewrite Hc. symmetry. by apply as_var_Some. Qed.

Program Definition array_lens (t : code) : lens cell (list (denote t)) :=
  mkLens (as_array t) (λ v c, from_option (λ _, Array t v) c (as_array t c)) _ _ _.
Next Obligation. intros t v c [w Hw]. simpl. rewrite Hw. apply as_array_Array. Qed.
Next Obligation. intros t v v' c. simpl. destruct (as_array t c) eqn:Hc; simpl; [by rewrite as_array_Array|by rewrite Hc]. Qed.
Next Obligation. intros t v c Hc. simpl in *. rewrite Hc. symmetry. by apply as_array_Some. Qed.

(** ** Places *)

Record place (T : Type) := mkPlace { pl_loc : loc; pl_lens : lens cell T }.

Arguments mkPlace {T}.
Arguments pl_loc {T}.
Arguments pl_lens {T}.

(** [*p], [x.f] and [s[i]] as places. *)
Definition deref (t : code) (l : loc) : place (denote t) := mkPlace l (var_lens t).

Definition dot {S T} (p : place S) (f : lens S T) : place T := mkPlace (pl_loc p) (lens_comp (pl_lens p) f).

Definition at_index (t : code) (w : window) (i : nat) : place (denote t) :=
  mkPlace (sl_array w) (lens_comp (array_lens t) (element (sl_off w + i))).

Definition get_place {T} (p : place T) (h : heap) : option T := c ← h !! pl_loc p; lens_get (pl_lens p) c.

Definition put_place {T} (p : place T) (v : T) (h : heap) : heap := alter (lens_set (pl_lens p) v) (pl_loc p) h.

(** ** Programs; [None] is a panic *)

Definition HM (A : Type) := heap → option (A * heap).

#[global] Instance HM_ret : MRet HM := λ A a h, Some (a, h).

#[global] Instance HM_bind : MBind HM := λ A B f p h, match p h with Some (a, h') => f a h' | None => None end.

Definition load {T} (p : place T) : HM T := λ h, v ← get_place p h; Some (v, h).

Definition store {T} (p : place T) (v : T) : HM unit := λ h, _ ← get_place p h; Some (tt, put_place p v h).

(** [*out = *in] *)
Definition assign {T} (i o : place T) : HM unit := v ← load i; store o v.

Context `{Allocator}.

Definition new_cell (c : cell) : HM loc := λ h, let l := alloc h in Some (l, <[ l := c ]> h).

(** [if in.F != nil { in, out := &in.F, &out.F; *out = new(T); into( *in, *out) }] *)
Definition copy_pointer (t : code) (zero : denote t) (into : place (denote t) → place (denote t) → HM unit)
    (i o : place ptr) : HM unit :=
  p ← load i;
  match p with
  | None => mret tt
  | Some _ =>
      l ← new_cell (Var t zero); _ ← store o (Some l);
      p ← load i; q ← load o;
      match p, q with
      | Some p, Some q => into (deref t p) (deref t q)
      | _, _ => λ _, None
      end
  end.

Fixpoint for_range (n : nat) (i : nat) (body : nat → HM unit) : HM unit :=
  match n with
  | O => mret tt
  | S n => _ ← body i; for_range n (S i) body
  end.

(** [if in.F != nil { in, out := &in.F, &out.F; *out = make([]T, len( *in)); for i := range *in {
    into(&( *in)[i], &( *out)[i]) } }]; the builtin [copy] is the loop that assigns. *)
Definition copy_slice (t : code) (zero : denote t) (into : place (denote t) → place (denote t) → HM unit)
    (i o : place slice) : HM unit :=
  s ← load i;
  match s with
  | None => mret tt
  | Some w =>
      l ← new_cell (Array t (replicate (sl_len w) zero));
      _ ← store o (Some (mkWindow l 0 (sl_len w) (sl_len w)));
      for_range (sl_len w) 0 (λ j,
        s ← load i; d ← load o;
        match s, d with
        | Some s, Some d => into (at_index t s j) (at_index t d j)
        | _, _ => λ _, None
        end)
  end.

(** [func (in *T) DeepCopy() *T] over [DeepCopyInto]. *)
Definition deep_copy (t : code) (zero : denote t) (into : place (denote t) → place (denote t) → HM unit)
    (i : ptr) : HM ptr :=
  match i with
  | None => mret None
  | Some l => out ← new_cell (Var t zero); _ ← into (deref t l) (deref t out); mret (Some out)
  end.
End heap.

Arguments mkPlace {_ T}.
Arguments pl_loc {_ T}.
Arguments pl_lens {_ T}.

Arguments as_var {_} t c : simpl never.
Arguments as_array {_} t c : simpl never.

(** Allocation of the least unused location. *)
#[export] Program Instance fresh_allocator `{CellTypes} : Allocator := {| alloc h := fresh (dom h) |}.
Next Obligation. intros ? h. cbv beta. apply (not_elem_of_dom_1 (M := gmap loc) (D := gset loc)), is_fresh. Qed.

(** ** What memory holds *)

Section read.
Context `{CellTypes}.

(** The value of an [S] in a heap, with everything it points to. *)
Definition reader (S V : Type) := heap → S → option V.

Definition read_plain {T} : reader T T := λ _ v, Some v.

Definition read_pointer {V} (t : code) (r : reader (denote t) V) : reader ptr (option V) := λ h p,
  match p with
  | None => Some None
  | Some l => s ← get_place (deref t l) h; v ← r h s; Some (Some v)
  end.

Definition read_array {V} (t : code) (r : reader (denote t) V) (h : heap) (w : window) : option (list V) :=
  c ← h !! sl_array w; vs ← as_array t c;
  if (sl_off w + sl_len w <=? length vs)%nat then mapM (r h) (take (sl_len w) (drop (sl_off w) vs)) else None.

Definition read_slice {V} (t : code) (r : reader (denote t) V) : reader slice (option (list V)) := λ h s,
  match s with
  | None => Some None
  | Some w => l ← read_array t r h w; Some (Some l)
  end.

(** More memory changes nothing. *)
Class Mono {S V} (r : reader S V) : Prop :=
  mono h h' s v : h ⊆ h' → r h s = Some v → r h' s = Some v.

#[export] Instance read_plain_mono {T} : Mono (@read_plain T).
Proof. by intros h h' s v _. Qed.

Lemma get_place_mono {T} (p : place T) h h' v : h ⊆ h' → get_place p h = Some v → get_place p h' = Some v.
Proof. intros Hs (c & Hc & Hv)%bind_Some. unfold get_place. by rewrite (lookup_weaken _ _ _ _ Hc Hs). Qed.

#[export] Instance read_pointer_mono {V} t (r : reader (denote t) V) : Mono r → Mono (read_pointer t r).
Proof.
  intros Hr h h' [l|] v Hs; [|done]. intros (s & Hg & (x & Hx & [= <-])%bind_Some)%bind_Some. simpl.
  rewrite (get_place_mono _ _ _ _ Hs Hg). simpl. by rewrite (mono _ _ _ _ Hs Hx).
Qed.

Lemma mapM_mono {S V} (r : reader S V) h h' l vs : Mono r → h ⊆ h' → mapM (r h) l = Some vs → mapM (r h') l = Some vs.
Proof.
  intros Hr Hs. rewrite !mapM_Some. intros Hl. eapply Forall2_impl; [exact Hl|]. intros s v. by apply mono.
Qed.

#[export] Instance read_slice_mono {V} t (r : reader (denote t) V) : Mono r → Mono (read_slice t r).
Proof.
  intros Hr h h' [w|] v Hs; [|done]. intros (l & Hl & [= <-])%bind_Some.
  apply bind_Some in Hl as (c & Hc & (vs & Hvs & Hl)%bind_Some). simpl. unfold read_array.
  rewrite (lookup_weaken _ _ _ _ Hc Hs). simpl. rewrite Hvs. simpl. case_match; [|done].
  by rewrite (mapM_mono r _ _ _ _ _ Hs Hl).
Qed.

(** ** Memory laws *)

Lemma get_place_dom {T} (p : place T) h v : get_place p h = Some v → is_Some (h !! pl_loc p).
Proof. intros (c & Hc & _)%bind_Some. by exists c. Qed.

Lemma get_put {T} (p : place T) v h : is_Some (get_place p h) → get_place p (put_place p v h) = Some v.
Proof.
  intros [w (c & Hc & Hw)%bind_Some]. unfold get_place, put_place. rewrite lookup_alter_eq, Hc. simpl.
  by apply lens_get_set.
Qed.

Lemma get_put_other {T U} (p : place T) (q : place U) v h :
  pl_loc p ≠ pl_loc q → get_place p (put_place q v h) = get_place p h.
Proof. intros Hne. unfold get_place, put_place. by rewrite lookup_alter_ne. Qed.

Lemma put_put {T} (p : place T) v w h : put_place p v (put_place p w h) = put_place p v h.
Proof.
  apply map_eq. intros l. unfold put_place. destruct (decide (pl_loc p = l)) as [<-|Hne].
  - rewrite !lookup_alter_eq. destruct (h !! pl_loc p); [|done]. simpl. by rewrite lens_set_set.
  - by rewrite !lookup_alter_ne.
Qed.

Lemma put_union {T} (p : place T) v (fresh h : heap) :
  fresh !! pl_loc p = None → put_place p v (fresh ∪ h) = fresh ∪ put_place p v h.
Proof.
  intros Hf. apply map_eq. intros l. unfold put_place. rewrite lookup_union. destruct (decide (pl_loc p = l)) as [<-|Hne].
  - rewrite !lookup_alter_eq, lookup_union, Hf. by rewrite !(left_id_L None _).
  - by rewrite !lookup_alter_ne, lookup_union.
Qed.

Lemma get_union {T} (p : place T) (fresh h : heap) :
  fresh !! pl_loc p = None → get_place p (fresh ∪ h) = get_place p h.
Proof. intros Hf. unfold get_place. by rewrite lookup_union_r. Qed.

Lemma delete_put {T} (p : place T) v h : delete (pl_loc p) (put_place p v h) = delete (pl_loc p) h.
Proof.
  apply map_eq. intros l. destruct (decide (pl_loc p = l)) as [<-|Hne]; [by rewrite !lookup_delete_eq|].
  rewrite !lookup_delete_ne by done. unfold put_place. by rewrite lookup_alter_ne.
Qed.

Lemma dom_put {T} (p : place T) v h : dom (put_place p v h) = dom h.
Proof. apply dom_alter_L. Qed.

Lemma put_disjoint {T} (p : place T) v (fresh h : heap) : fresh ##ₘ put_place p v h ↔ fresh ##ₘ h.
Proof. rewrite !map_disjoint_dom. by rewrite dom_put. Qed.

Lemma get_dot {S T} (p : place S) (f : lens S T) h : get_place (dot p f) h = s ← get_place p h; lens_get f s.
Proof. unfold get_place. simpl. by destruct (h !! pl_loc p). Qed.

Lemma put_dot {S T} (p : place S) (f : lens S T) t s h :
  get_place p h = Some s → put_place (dot p f) t h = put_place p (lens_set f t s) h.
Proof.
  intros (c & Hc & Hs)%bind_Some. unfold put_place. apply alter_ext. intros c' Hc'. simpl in *. simplify_eq.
  by rewrite Hs.
Qed.

Lemma put_same {T} (p : place T) v h : get_place p h = Some v → put_place p v h = h.
Proof.
  intros (c & Hc & Hv)%bind_Some. unfold put_place. apply map_eq. intros l.
  destruct (decide (pl_loc p = l)) as [<-|Hne]; [|by rewrite lookup_alter_ne].
  rewrite lookup_alter_eq, Hc. simpl. by rewrite lens_set_get.
Qed.

Lemma fresh_not {T} (p : place T) (fresh h : heap) v : fresh ##ₘ h → get_place p h = Some v → fresh !! pl_loc p = None.
Proof. intros Hd [c Hc]%get_place_dom. by eapply map_disjoint_Some_r. Qed.

Lemma run_bind {A B} (p : HM A) (f : A → HM B) h a h' : p h = Some (a, h') → (p ≫= f) h = f a h'.
Proof. intros Hp. unfold mbind, HM_bind. by rewrite Hp. Qed.

Lemma run_load {T} (p : place T) h v : get_place p h = Some v → load p h = Some (v, h).
Proof. intros Hp. unfold load. by rewrite Hp. Qed.

Lemma run_store {T} (p : place T) v w h : get_place p h = Some w → store p v h = Some (tt, put_place p v h).
Proof. intros Hp. unfold store. by rewrite Hp. Qed.

(** ** Deep copies

    [into i o] leaves at [o] a value equal to the one at [i], all of whose indirections are to
    memory [fresh] that was unused before, and changes nothing else.  A shallow one is given an
    [o] to which [*out = *in] has been copied already. *)
Definition deep {S V} (shallow : Prop) (r : reader S V) (into : place S → place S → HM unit) : Prop :=
  ∀ h i o s s0 v,
    get_place i h = Some s → r (delete (pl_loc o) h) s = Some v → pl_loc i ≠ pl_loc o →
    get_place o h = Some s0 → (shallow → s0 = s) →
    ∃ s' fresh, into i o h = Some (tt, fresh ∪ put_place o s' h) ∧ fresh ##ₘ h ∧ r fresh s' = Some v.

Notation copies := (deep False).
Notation completes := (deep True).

Lemma copies_completes {S V} (r : reader S V) into : copies r into → completes r into.
Proof. intros Hc h i o s s0 v Hi Hr Hne Ho _. by eapply Hc. Qed.

Lemma assign_copies {T} : copies (@read_plain T) assign.
Proof.
  intros h i o s s0 v Hi [= ->] Hne Ho _. exists v, ∅. split_and!; [|apply map_disjoint_empty_l|done].
  unfold assign. rewrite (run_bind _ _ _ _ _ (run_load _ _ _ Hi)), (run_store _ _ _ _ Ho). by rewrite (left_id_L ∅ _).
Qed.

(** One field of a struct whose copy has come to [fresh ∪ put_place o s h]. *)
Lemma copy_field {S T V} (f : lens S T) (r : reader T V) `{!Mono r} into (h fresh : heap) (i o : place S) si s s0 t v :
  completes r into → get_place i h = Some si → get_place o h = Some s0 → pl_loc i ≠ pl_loc o →
  fresh ##ₘ h → lens_get f si = Some t → lens_get f s = Some t → r (delete (pl_loc o) h) t = Some v →
  ∃ t' fresh', into (dot i f) (dot o f) (fresh ∪ put_place o s h) = Some (tt, fresh' ∪ put_place o (lens_set f t' s) h) ∧
    fresh' ##ₘ h ∧ fresh ⊆ fresh' ∧ r fresh' t' = Some v.
Proof.
  intros Hc Hi Ho Hne Hd Hfi Hfs Hr.
  assert (Hoput : get_place o (fresh ∪ put_place o s h) = Some s).
  { rewrite get_union by (by eapply fresh_not). by apply get_put. }
  destruct (Hc (fresh ∪ put_place o s h) (dot i f) (dot o f) t t v) as (t' & new & Heq & Hnew & Hv); [|..|done|].
  - rewrite get_dot, get_union by (by eapply (fresh_not i)). rewrite get_put_other, Hi by done. done.
  - eapply mono; [|exact Hr]. simpl. rewrite delete_union, delete_put.
    apply map_union_subseteq_r. eapply map_disjoint_weaken; [exact Hd|apply delete_subseteq..].
  - done.
  - rewrite get_dot, Hoput. done.
  - apply map_disjoint_union_r in Hnew as [Hnf Hnh]. apply put_disjoint in Hnh.
    exists t', (new ∪ fresh). split_and!.
    + rewrite Heq. do 2 f_equal. rewrite (put_dot o f _ s) by done.
      rewrite put_union by (by eapply fresh_not). by rewrite put_put, (assoc_L _).
    + by apply map_disjoint_union_l_2.
    + by apply map_union_subseteq_r.
    + eapply mono; [|exact Hv]. apply map_union_subseteq_l.
Qed.

(** Allocation and the two kinds of indirection. *)
Context `{!Allocator}.

Lemma run_new (c : cell) h : new_cell c h = Some (alloc h, {[ alloc h := c ]} ∪ h).
Proof. unfold new_cell. by rewrite insert_union_singleton_l. Qed.

Lemma delete_fresh {T} (o : place T) v a c (h : heap) :
  h !! a = None → delete (pl_loc o) h ⊆ delete a ({[ a := c ]} ∪ put_place o v h).
Proof.
  intros Ha. rewrite <- (delete_put o v h). rewrite delete_union, delete_singleton_eq, (left_id_L ∅ _).
  rewrite (delete_id (put_place o v h) a); [apply delete_subseteq|].
  apply not_elem_of_dom. rewrite dom_put. by apply not_elem_of_dom.
Qed.

Lemma get_deref t (v : denote t) a (h : heap) : get_place (deref t a) ({[ a := Var t v ]} ∪ h) = Some v.
Proof. unfold get_place. simpl. rewrite lookup_union_l'; rewrite lookup_singleton_eq; [apply as_var_Var|done]. Qed.

Lemma get_single t (v : denote t) a : get_place (deref t a) {[ a := Var t v ]} = Some v.
Proof. rewrite <- (right_id_L ∅ (∪) {[ a := _ ]}). apply get_deref. Qed.

(** What is in memory is not where the next allocation goes. *)
Lemma alloc_ne {T} (p : place T) (h : heap) v : get_place p h = Some v → pl_loc p ≠ alloc h.
Proof. intros [c Hc]%get_place_dom Heq. rewrite Heq, alloc_fresh in Hc. done. Qed.

Lemma put_deref t (v w : denote t) a (h : heap) :
  put_place (deref t a) v ({[ a := Var t w ]} ∪ h) = {[ a := Var t v ]} ∪ h.
Proof.
  rewrite <- !insert_union_singleton_l. unfold put_place. simpl. rewrite alter_insert_eq. by rewrite as_var_Var.
Qed.

Lemma get_frame {T} (p : place T) a c (h : heap) v :
  h !! a = None → get_place p h = Some v → get_place p ({[ a := c ]} ∪ h) = Some v.
Proof.
  intros Ha Hp. rewrite get_union; [done|]. apply lookup_singleton_ne. intros ->.
  apply get_place_dom in Hp. rewrite Ha in Hp. by destruct Hp.
Qed.

Lemma get_delete {T} (p : place T) l (h : heap) v :
  get_place p (delete l h) = Some v → pl_loc p ≠ l ∧ get_place p h = Some v.
Proof.
  intros Hp. split; [|by eapply get_place_mono; [apply delete_subseteq|]].
  intros <-. apply get_place_dom in Hp. rewrite lookup_delete_eq in Hp. by destruct Hp.
Qed.

Lemma put_None {T} (o : place T) v (h : heap) a : h !! a = None → put_place o v h !! a = None.
Proof. intros Ha. apply not_elem_of_dom. rewrite dom_put. by apply not_elem_of_dom. Qed.

Lemma copy_pointer_completes {V} t zero (r : reader (denote t) V) `{!Mono r} into :
  copies r into → completes (read_pointer t r) (copy_pointer t zero into).
Proof.
  intros Hc h i o p p0 v Hi Hr Hne Ho Hsh. rewrite (Hsh I) in Ho. clear p0 Hsh. unfold copy_pointer.
  rewrite (run_bind _ _ _ _ _ (run_load _ _ _ Hi)). destruct p as [l|].
  2:{ injection Hr as <-. exists None, ∅. split_and!; [|apply map_disjoint_empty_l|done].
      by rewrite put_same, (left_id_L ∅ _) by done. }
  apply bind_Some in Hr as (s & [Hl Hs]%get_delete & (x & Hx & [= <-])%bind_Some). simpl in Hl.
  set (a := alloc h). assert (Ha : h !! a = None) by apply alloc_fresh.
  rewrite (run_bind _ _ _ _ _ (run_new _ _)). fold a.
  assert (Hao : ({[ a := Var t zero ]} : heap) !! pl_loc o = None).
  { apply lookup_singleton_ne. intros Heq. by apply (alloc_ne _ _ _ Ho). }
  rewrite (run_bind _ _ _ tt _ (run_store _ _ _ _ (get_frame _ _ _ _ _ Ha Ho))), put_union by done.
  set (h1 := put_place o (Some a) h). assert (Ha1 : h1 !! a = None) by by apply put_None.
  rewrite (run_bind _ _ _ (Some l) _ (run_load _ _ _ (get_frame i a _ h1 _ Ha1 (eq_trans (get_put_other _ _ _ _ Hne) Hi)))).
  assert (Ho1 : get_place o h1 = Some (Some a)) by (by apply get_put).
  rewrite (run_bind _ _ _ (Some a) _ (run_load _ _ _ (get_frame o a _ h1 _ Ha1 Ho1))).
  destruct (Hc ({[ a := Var t zero ]} ∪ h1) (deref t l) (deref t a) s zero x) as (s' & new & Heq & Hd & Hv); try done.
  - apply get_frame; [done|]. unfold h1. by rewrite get_put_other.
  - eapply mono; [|exact Hx]. by apply delete_fresh.
  - exact (alloc_ne _ _ _ Hs).
  - apply get_deref.
  - rewrite put_deref in Heq. apply map_disjoint_union_r in Hd as [Hda Hdh].
    exists (Some a), (new ∪ {[ a := Var t s' ]}). split_and!.
    + by rewrite Heq, (assoc_L _).
    + apply map_disjoint_union_l_2; [by eapply put_disjoint|by apply map_disjoint_singleton_l].
    + simpl. rewrite get_union by (by apply map_disjoint_singleton_r in Hda). rewrite get_single. simpl.
      by rewrite (mono new _ s' x (map_union_subseteq_l _ _) Hv).
Qed.

(** *** Slices *)

Lemma get_index t es w j (h : heap) :
  h !! sl_array w = Some (Array t es) → get_place (at_index t w j) h = es !! (sl_off w + j)%nat.
Proof. intros Ha. unfold get_place. simpl. rewrite Ha. simpl. by rewrite as_array_Array. Qed.

Lemma put_index t es a j n c v (h : heap) :
  put_place (at_index t (mkWindow a 0 n c) j) v ({[ a := Array t es ]} ∪ h) = {[ a := Array t (<[ j := v ]> es) ]} ∪ h.
Proof.
  rewrite <- !insert_union_singleton_l. unfold put_place. simpl. rewrite alter_insert_eq. by rewrite as_array_Array.
Qed.

(** The loop over the elements of the window [w] of the array [es] into the new array [a]. *)
Section elements.
Context {V : Type} (t : code) (zero : denote t) (r : reader (denote t) V) `{!Mono r}.
Context (into : place (denote t) → place (denote t) → HM unit) (h : heap) (i o : place slice) (w : window) (a : loc).
Context (es : list (denote t)) (vs : list V).
Context (Hc : copies r into) (Hne : pl_loc i ≠ pl_loc o) (Hi : get_place i h = Some (Some w)).
Context (Ho : is_Some (get_place o h)) (Ha : h !! a = None).
Context (Hes : delete (pl_loc o) h !! sl_array w = Some (Array t es)).
Context (Hvs : mapM (r (delete (pl_loc o) h)) (take (sl_len w) (drop (sl_off w) es)) = Some vs).
Context (Hlen : (sl_off w + sl_len w <= length es)%nat).

Let w' := mkWindow a 0 (sl_len w) (sl_len w).
Let h1 := put_place o (Some w') h.

Let body (j : nat) : HM unit :=
  s ← load i; d ← load o;
  match s, d with
  | Some s, Some d => into (at_index t s j) (at_index t d j)
  | _, _ => λ _, None
  end.

(** The heap when the new array holds [cs] and the elements copied so far point into [rest]. *)
Definition stage (rest : heap) (cs : list (denote t)) : heap := rest ∪ ({[ a := Array t cs ]} ∪ h1).

Definition copied_to (rest : heap) (copied : list (denote t)) : Prop :=
  rest ##ₘ h ∧ rest !! a = None ∧ Forall2 (λ d v, r rest d = Some v) copied (take (length copied) vs).

Lemma h1_None : h1 !! a = None.
Proof. by apply put_None. Qed.

Lemma stage_get {U} (p : place U) v rest cs : rest ##ₘ h → get_place p h1 = Some v → get_place p (stage rest cs) = Some v.
Proof.
  intros Hd Hp. unfold stage. rewrite get_union; [apply get_frame; [apply h1_None|done]|].
  apply get_place_dom in Hp as [c Hp]. eapply map_disjoint_Some_r; [by apply (put_disjoint o)|exact Hp].
Qed.

Lemma stage_array rest cs : rest !! a = None → stage rest cs !! a = Some (Array t cs).
Proof.
  intros Hr. unfold stage. rewrite lookup_union_r by done.
  by rewrite lookup_union_l', lookup_singleton_eq by (by rewrite lookup_singleton_eq).
Qed.

Lemma stage_source rest cs : rest ##ₘ h → sl_array w ≠ a ∧ stage rest cs !! sl_array w = Some (Array t es).
Proof.
  intros Hd. apply lookup_delete_Some in Hes as [Hwo Hw].
  assert (Hwa : sl_array w ≠ a) by (intros Heq; rewrite Heq in Hw; congruence). split; [done|].
  unfold stage. rewrite lookup_union_r by (by eapply map_disjoint_Some_r).
  rewrite lookup_union_r by (by apply lookup_singleton_ne). unfold h1, put_place. by rewrite lookup_alter_ne.
Qed.

Lemma stage_delete rest cs : rest ##ₘ h → rest !! a = None → delete (pl_loc o) h ⊆ delete a (stage rest cs).
Proof.
  intros Hd Hr. unfold stage. rewrite delete_union, (delete_id rest) by done.
  etrans; [apply (delete_fresh o (Some w') a (Array t cs) h Ha)|]. apply map_union_subseteq_r.
  rewrite delete_union, delete_singleton_eq, (left_id_L ∅ _).
  eapply map_disjoint_weaken_r; [by apply (put_disjoint o)|apply delete_subseteq].
Qed.

Lemma stage_put rest copied zeros e : rest !! a = None →
  put_place (at_index t w' (length copied)) e (stage rest (copied ++ zero :: zeros)) = stage rest ((copied ++ [e]) ++ zeros).
Proof.
  intros Hr. unfold stage. rewrite put_union by done. unfold w'. rewrite put_index. do 4 f_equal.
  rewrite insert_app_r_alt, Nat.sub_diag by done. by rewrite <- (assoc_L (++)).
Qed.

(** Element [j] in the old array, with its value. *)
Lemma source_element j : (j < sl_len w)%nat → ∃ e v,
  es !! (sl_off w + j)%nat = Some e ∧ vs !! j = Some v ∧ r (delete (pl_loc o) h) e = Some v.
Proof.
  intros Hj. pose proof (mapM_Some_1 _ _ _ Hvs) as Hall. pose proof (Forall2_length _ _ _ Hall) as Hn.
  rewrite length_take, length_drop in Hn.
  assert (is_Some (vs !! j)) as [v Hv] by (apply lookup_lt_is_Some; lia).
  assert (is_Some (es !! (sl_off w + j)%nat)) as [e He] by (apply lookup_lt_is_Some; lia).
  exists e, v. split_and!; [done..|]. apply (Forall2_lookup_lr _ _ _ j e v Hall); [|exact Hv].
  by rewrite lookup_take_lt, lookup_drop by lia.
Qed.

Lemma copy_element copied rest n : (length copied + Datatypes.S n = sl_len w)%nat → copied_to rest copied → ∃ e rest',
  body (length copied) (stage rest (copied ++ zero :: replicate n zero))
    = Some (tt, stage rest' ((copied ++ [e]) ++ replicate n zero)) ∧ copied_to rest' (copied ++ [e]).
Proof.
  intros Hn (Hd & Hr & Hcopied). destruct (source_element (length copied)) as (e & v & He & Hv & Hev); [lia|].
  set (cs := copied ++ zero :: replicate n zero). destruct (stage_source rest cs Hd) as [Hwa Hsrc].
  destruct (Hc (stage rest cs) (at_index t w (length copied)) (at_index t w' (length copied)) e zero v)
    as (e' & new & Heq & Hnew & Hv'); try done.
  - by rewrite (get_index _ _ _ _ _ Hsrc).
  - eapply mono; [|exact Hev]. by apply stage_delete.
  - rewrite (get_index _ _ w' _ _ (stage_array rest cs Hr)). simpl. unfold cs.
    by rewrite lookup_app_r, Nat.sub_diag by done.
  - unfold cs in Heq. rewrite stage_put in Heq by done.
    apply map_disjoint_union_r in Hnew as [Hnr [Hna Hnh]%map_disjoint_union_r].
    exists e', (new ∪ rest). split; [|split_and!].
    + unfold body. rewrite (run_bind _ _ _ _ _ (run_load _ _ _ (stage_get i _ rest cs Hd (eq_trans (get_put_other _ _ _ _ Hne) Hi)))).
      rewrite (run_bind _ _ _ _ _ (run_load _ _ _ (stage_get o _ rest cs Hd (get_put _ _ _ Ho)))).
      fold cs in Heq. rewrite Heq. unfold stage. by rewrite (assoc_L _).
    + apply map_disjoint_union_l_2; [by apply (put_disjoint o) in Hnh|done].
    + rewrite lookup_union_None. split; [by apply map_disjoint_singleton_r in Hna|done].
    + rewrite length_app. simpl. rewrite Nat.add_1_r, (take_S_r _ _ v) by done. apply Forall2_app.
      * eapply Forall2_impl; [exact Hcopied|]. intros d x Hx. eapply mono; [|exact Hx]. by apply map_union_subseteq_r.
      * constructor; [|done]. eapply mono; [|exact Hv']. apply map_union_subseteq_l.
Qed.

Lemma copy_elements n : ∀ copied rest, (length copied + n = sl_len w)%nat → copied_to rest copied → ∃ copied' rest',
  for_range n (length copied) body (stage rest (copied ++ replicate n zero)) = Some (tt, stage rest' copied') ∧
  copied_to rest' copied' ∧ length copied' = sl_len w.
Proof.
  induction n as [|n IH]; intros copied rest Hn Hd.
  - exists copied, rest. rewrite app_nil_r. split_and!; [done|done|lia].
  - destruct (copy_element copied rest n Hn Hd) as (e & rest1 & Hb & Hd1).
    destruct (IH (copied ++ [e]) rest1) as (copied' & rest' & Hl & HP); [rewrite length_app; simpl; lia|done|].
    exists copied', rest'. split; [|done]. cbn [for_range replicate].
    rewrite (run_bind _ _ _ _ _ Hb). rewrite <- Hl, length_app. simpl. by rewrite Nat.add_1_r.
Qed.
End elements.

Lemma copy_slice_completes {V} t zero (r : reader (denote t) V) `{!Mono r} into :
  copies r into → completes (read_slice t r) (copy_slice t zero into).
Proof.
  intros Hc h i o p p0 v Hi Hr Hne Ho Hsh. rewrite (Hsh I) in Ho. clear p0 Hsh. unfold copy_slice.
  rewrite (run_bind _ _ _ _ _ (run_load _ _ _ Hi)). destruct p as [w|].
  2:{ injection Hr as <-. exists None, ∅. split_and!; [|apply map_disjoint_empty_l|done].
      by rewrite put_same, (left_id_L ∅ _) by done. }
  apply bind_Some in Hr as (vs & (c & Hw & (es & ->%as_array_Some & Hvs)%bind_Some)%bind_Some & [= <-]).
  destruct (Nat.leb_spec (sl_off w + sl_len w) (length es)) as [Hlen|]; [|done].
  set (a := alloc h). assert (Ha : h !! a = None) by apply alloc_fresh.
  rewrite (run_bind _ _ _ _ _ (run_new _ _)). fold a.
  assert (Hao : ({[ a := Array t (replicate (sl_len w) zero) ]} : heap) !! pl_loc o = None).
  { apply lookup_singleton_ne. intros Heq. by apply (alloc_ne _ _ _ Ho). }
  rewrite (run_bind _ _ _ tt _ (run_store _ _ _ _ (get_frame _ _ _ _ _ Ha Ho))), put_union by done.
  destruct (copy_elements t zero r into h i o w a es vs Hc Hne Hi (ex_intro _ _ Ho) Ha Hw Hvs Hlen (sl_len w) [] ∅)
    as (copied & rest & Hloop & (Hd & Hra & Hall) & Hcl); [done| |].
  { split_and!; [apply map_disjoint_empty_l|done|constructor]. }
  unfold stage in Hloop at 1. simpl in Hloop. rewrite (left_id_L ∅ _) in Hloop.
  exists (Some (mkWindow a 0 (sl_len w) (sl_len w))), (rest ∪ {[ a := Array t copied ]}). split_and!.
  - rewrite Hloop. unfold stage. by rewrite (assoc_L _).
  - apply map_disjoint_union_l_2; [done|by apply map_disjoint_singleton_l].
  - assert (Hn : length vs = sl_len w).
    { pose proof (Forall2_length _ _ _ (mapM_Some_1 _ _ _ Hvs)) as Hl. rewrite length_take, length_drop in Hl. lia. }
    simpl. unfold read_array. simpl. rewrite lookup_union_r, lookup_singleton_eq by done. simpl.
    rewrite as_array_Array. simpl. rewrite Hcl, Nat.leb_refl, (take_ge copied) by lia.
    rewrite (proj2 (mapM_Some _ _ vs)); [done|].
    rewrite Hcl, take_ge in Hall by lia. eapply Forall2_impl; [exact Hall|].
    intros d x Hx. eapply mono; [|exact Hx]. apply map_union_subseteq_l.
Qed.

(** [DeepCopy]: nothing for nil; otherwise a new object all of whose memory is new. *)
Lemma deep_copy_fresh {V} t zero (r : reader (denote t) V) `{!Mono r} into (h : heap) (p : ptr) v :
  copies r into → read_pointer t r h p = Some v →
  ∃ q fresh, deep_copy t zero into p h = Some (q, fresh ∪ h) ∧ fresh ##ₘ h ∧ read_pointer t r fresh q = Some v.
Proof.
  intros Hc Hr. destruct p as [l|]; simpl in *.
  2:{ exists None, ∅. split_and!; [by rewrite (left_id_L ∅ _)|apply map_disjoint_empty_l|done]. }
  apply bind_Some in Hr as (s & Hs & (x & Hx & [= <-])%bind_Some).
  rewrite (run_bind _ _ _ _ _ (run_new _ _)). set (a := alloc h). assert (Ha : h !! a = None) by apply alloc_fresh.
  destruct (Hc ({[ a := Var t zero ]} ∪ h) (deref t l) (deref t a) s zero x) as (s' & new & Heq & Hd & Hv); try done.
  - by apply get_frame.
  - eapply mono; [|exact Hx]. simpl. rewrite delete_union, delete_singleton_eq, (left_id_L ∅ _).
    by rewrite delete_id.
  - exact (alloc_ne _ _ _ Hs).
  - apply get_deref.
  - rewrite put_deref in Heq. apply map_disjoint_union_r in Hd as [Hda Hdh].
    exists (Some a), (new ∪ {[ a := Var t s' ]}). split_and!.
    + rewrite (run_bind _ _ _ _ _ Heq). by rewrite <- (assoc_L _).
    + apply map_disjoint_union_l_2; [done|by apply map_disjoint_singleton_l].
    + simpl. rewrite get_union by (by apply map_disjoint_singleton_r in Hda). rewrite get_single. simpl.
      by rewrite (mono new _ s' x (map_union_subseteq_l _ _) Hv).
Qed.

(** [*out = ( *in).DeepCopy()] under [if in.F != nil] *)
Definition copy_call (dc : ptr → HM ptr) (i o : place ptr) : HM unit :=
  p ← load i;
  match p with
  | None => mret tt
  | Some _ => q ← dc p; store o q
  end.

Definition returns_copy {V} (r : reader ptr V) (dc : ptr → HM ptr) : Prop := ∀ (h : heap) p v, r h p = Some v →
  ∃ q fresh, dc p h = Some (q, fresh ∪ h) ∧ fresh ##ₘ h ∧ r fresh q = Some v.

Lemma copy_call_completes {V} t (r : reader (denote t) V) `{!Mono r} dc :
  returns_copy (read_pointer t r) dc → completes (read_pointer t r) (copy_call dc).
Proof.
  intros Hdc h i o p p0 v Hi Hr Hne Ho Hsh. rewrite (Hsh I) in Ho. clear p0 Hsh. unfold copy_call.
  rewrite (run_bind _ _ _ _ _ (run_load _ _ _ Hi)). destruct p as [l|].
  2:{ injection Hr as <-. exists None, ∅. split_and!; [|apply map_disjoint_empty_l|done].
      by rewrite put_same, (left_id_L ∅ _) by done. }
  destruct (Hdc h (Some l) v) as (q & fresh & Heq & Hd & Hv).
  { eapply mono; [|exact Hr]. apply delete_subseteq. }
  exists q, fresh. split_and!; [|done|done]. rewrite (run_bind _ _ _ _ _ Heq).
  pose proof (fresh_not _ _ _ _ Hd Ho) as Hf. rewrite (run_store _ _ (Some l)) by (by rewrite get_union).
  by rewrite put_union.
Qed.

(** ** Structs

    The statements [k] that remain of a struct's copy, from [fresh ∪ put_place o s h] on, end in
    a copy with the value [v]. *)
Definition reaches {S V} (r : reader S V) (h : heap) (o : place S) (v : V) (k : HM unit) (fresh : heap) (s : S) : Prop :=
  ∃ s' fr, k (fresh ∪ put_place o s h) = Some (tt, fr ∪ put_place o s' h) ∧ fr ##ₘ h ∧ r fr s' = Some v.

Lemma reaches_done {S V} (r : reader S V) (h : heap) o v fresh s :
  fresh ##ₘ h → r fresh s = Some v → reaches r h o v (mret tt) fresh s.
Proof. intros Hd Hv. by exists s, fresh. Qed.

Lemma reaches_field {S V T X} (r : reader S V) (f : lens S T) (rf : reader T X) `{!Mono rf} into (h fresh : heap)
    (i o : place S) si s s0 t x v k :
  completes rf into → get_place i h = Some si → get_place o h = Some s0 → pl_loc i ≠ pl_loc o → fresh ##ₘ h →
  rf (delete (pl_loc o) h) t = Some x → lens_get f si = Some t → lens_get f s = Some t →
  (∀ t' fresh', fresh' ##ₘ h → fresh ⊆ fresh' → rf fresh' t' = Some x → reaches r h o v k fresh' (lens_set f t' s)) →
  reaches r h o v (_ ← into (dot i f) (dot o f); k) fresh s.
Proof.
  intros Hc Hi Ho Hne Hd Hx Hfi Hfs Hk.
  destruct (copy_field f rf into h fresh i o si s s0 t x) as (t' & fresh' & Heq & Hd' & Hsub & Ht'); try done.
  destruct (Hk t' fresh' Hd' Hsub Ht') as (s' & fr & Hrun & HP). exists s', fr. split; [|done].
  by rewrite (run_bind _ _ _ _ _ Heq).
Qed.

Lemma reaches_assign {S V T} (r : reader S V) (f : lens S T) (h fresh : heap) (i o : place S) si s s0 t v k :
  get_place i h = Some si → get_place o h = Some s0 → pl_loc i ≠ pl_loc o → fresh ##ₘ h →
  lens_get f si = Some t → lens_get f s = Some t →
  reaches r h o v k fresh (lens_set f t s) → reaches r h o v (_ ← assign (dot i f) (dot o f); k) fresh s.
Proof.
  intros Hi Ho Hne Hd Hfi Hfs (s' & fr & Hrun & HP). exists s', fr. split; [|done]. rewrite <- Hrun.
  assert (Hp : get_place o (fresh ∪ put_place o s h) = Some s).
  { rewrite get_union by (by eapply fresh_not). by apply get_put. }
  apply (run_bind _ (λ _, k) _ tt). unfold assign.
  rewrite (run_bind _ _ _ t (fresh ∪ put_place o s h)), (run_store _ _ t); [| |apply run_load].
  - do 2 f_equal. rewrite (put_dot _ _ _ _ _ Hp), put_union by (by eapply fresh_not). by rewrite put_put.
  - by rewrite get_dot, Hp.
  - rewrite get_dot, get_union by (by eapply (fresh_not i)). by rewrite get_put_other, Hi.
Qed.

Lemma copies_struct {S V} (r : reader S V) (k : place S → place S → HM unit) :
  (∀ h i o s s0 v, get_place i h = Some s → get_place o h = Some s0 → pl_loc i ≠ pl_loc o →
     r (delete (pl_loc o) h) s = Some v → reaches r h o v (k i o) ∅ s) →
  copies r (λ i o, _ ← assign i o; k i o).
Proof.
  intros Hk h i o s s0 v Hi Hr Hne Ho _. destruct (Hk h i o s s0 v) as (s' & fr & Hrun & HP); try done.
  exists s', fr. split; [|done]. rewrite <- Hrun, (left_id_L ∅ _).
  apply (run_bind (assign i o) (λ _, k i o) _ tt). unfold assign. by rewrite (run_bind _ _ _ _ _ (run_load _ _ _ Hi)), (run_store _ _ _ _ Ho).
Qed.
End read.

Notation copies := (deep False).
Notation completes := (deep True).
