(* ===== verification/GoFloat.v ===== *)
(** * Go's [float64]: IEEE 754 binary64 with round-to-nearest-even

    Every finite binary64 number is an integer multiple of 2^-1074, so a finite value is kept as
    that integer ([Fin v] is v * 2^-1074); the two zeroes are identified, which no code of the
    repository can observe.  The operations round the exact result as IEEE 754 prescribes, with
    gradual underflow and overflow to infinity.  The lemmas give what the components need:
    rounding is monotone, exact on representable values, and within half an ulp. *)

From S2P Require Import Prelude.

Open Scope Z_scope.

Inductive f64 :=
| Fin (v : Z)
| Inf (neg : bool)
| NaN.

#[export] Instance f64_eq_dec : EqDecision f64.
Proof. solve_decision. Defined.

(** The grid units of 1.0. *)
Definition one : Z := 2 ^ 1074.

(** The integer nearest to n/d (d > 0), ties to even. *)
Definition rne (n d : Z) : Z :=
  let q := n / d in
  let r := n mod d in
  if 2 * r <? d then q
  else if d <? 2 * r then q + 1
  else if Z.even q then q else q + 1.

(** Exponent of the last place of N/d in grid units: 53 significant bits, never below the
    grid itself. *)
Definition ulp_exp (N d : Z) : Z := Z.max (Z.log2 (Z.abs N / d) - 52) 0.

(** N/d grid units rounded to 53 significant bits. *)
Definition grid_round (N d : Z) : Z :=
  let E := ulp_exp N d in
  rne N (d * 2 ^ E) * 2 ^ E.

(** Rounding with overflow to infinity at 2^1024. *)
Definition f64_round (N d : Z) : f64 :=
  let v := grid_round N d in
  if 2 ^ 2098 <=? Z.abs v then Inf (v <? 0) else Fin v.

(** The literal n/d of the source, e.g. [0.01]. *)
Definition f64_ratio (n d : Z) : f64 := f64_round (n * one) d.

(** Conversion from an integer type. *)
Definition f64_of_int (z : Z) : f64 := f64_ratio z 1.

Definition f64_div (x y : f64) : f64 :=
  match x, y with
  | Fin a, Fin b =>
      if b =? 0 then (if a =? 0 then NaN else Inf (a <? 0))
      else f64_round (a * one * Z.sgn b) (Z.abs b)
  | Inf s, Fin b => Inf (xorb s (b <? 0))
  | Fin _, Inf _ => Fin 0
  | _, _ => NaN
  end.

Definition f64_mul (x y : f64) : f64 :=
  match x, y with
  | Fin a, Fin b => f64_round (a * b) one
  | Inf s, Fin b | Fin b, Inf s => if b =? 0 then NaN else Inf (xorb s (b <? 0))
  | Inf s, Inf t => Inf (xorb s t)
  | _, _ => NaN
  end.

Definition f64_add (x y : f64) : f64 :=
  match x, y with
  | Fin a, Fin b => f64_round (a + b) 1
  | Inf s, Fin _ | Fin _, Inf s => Inf s
  | Inf s, Inf t => if Bool.eqb s t then Inf s else NaN
  | _, _ => NaN
  end.

Definition f64_lt (x y : f64) : bool :=
  match x, y with
  | Fin a, Fin b => a <? b
  | Inf s, Fin _ => s
  | Fin _, Inf s => negb s
  | Inf s, Inf t => s && negb t
  | _, _ => false
  end.

Definition f64_le (x y : f64) : bool :=
  match x, y with
  | Fin a, Fin b => a <=? b
  | Inf s, Fin _ => s
  | Fin _, Inf s => negb s
  | Inf s, Inf t => s || negb t
  | _, _ => false
  end.

(** [math.Round]: to the nearest integer, halves away from zero. *)
Definition f64_math_round (x : f64) : f64 :=
  match x with
  | Fin a => Fin (Z.sgn a * ((2 * Z.abs a + one) / (2 * one)) * one)
  | _ => x
  end.

(** [math.Ceil]. *)
Definition f64_math_ceil (x : f64) : f64 :=
  match x with Fin a => Fin (- (- a / one) * one) | _ => x end.

(** Conversion of a finite value to an integer type: truncation toward zero.  [None] where the
    language leaves the result to the implementation. *)
Definition f64_trunc (x : f64) : option Z :=
  match x with Fin a => Some (Z.quot a one) | _ => None end.

(** Conversion to [int64] (and [time.Duration]); [overflow] is the platform's result for a value
    that does not fit. *)
Definition f64_to_int64 (overflow : f64 → Z) (x : f64) : Z :=
  match f64_trunc x with
  | Some z => if (- 2 ^ 63 <=? z) && (z <? 2 ^ 63) then z else overflow x
  | None => overflow x
  end.

(** [Duration.Seconds]. *)
Definition seconds (d : Duration) : f64 :=
  f64_add (f64_of_int (Z.quot d Second)) (f64_div (f64_of_int (Z.rem d Second)) (f64_of_int Second)).

#[global] Arguments one : simpl never.
#[global] Arguments grid_round : simpl never.
#[global] Arguments f64_round : simpl never.
#[global] Arguments f64_ratio : simpl never.
#[global] Arguments f64_of_int : simpl never.

(** ** Rounding to an integer *)

Lemma rne_cases n d : 0 < d →
  (rne n d = n / d ∧ 2 * (n mod d) <= d) ∨ (rne n d = n / d + 1 ∧ d <= 2 * (n mod d)).
Proof.
  intros Hd. unfold rne.
  destruct (Z.ltb_spec (2 * (n mod d)) d); [left; lia|].
  destruct (Z.ltb_spec d (2 * (n mod d))); [right; lia|].
  destruct (Z.even (n / d)); [left|right]; lia.
Qed.

Lemma rne_err n d : 0 < d → 2 * Z.abs (rne n d * d - n) <= d.
Proof.
  intros Hd. pose proof (Z.div_mod n d ltac:(lia)) as Hdm.
  pose proof (Z.mod_pos_bound n d Hd).
  destruct (rne_cases n d Hd) as [[-> ?]|[-> ?]]; nia.
Qed.

Lemma rne_exact k d : 0 < d → rne (k * d) d = k.
Proof.
  intros Hd. unfold rne. rewrite Z.div_mul, Z.mod_mul by lia.
  destruct (Z.ltb_spec (2 * 0) d); lia.
Qed.

Lemma rne_le n1 d1 n2 d2 : 0 < d1 → 0 < d2 → n1 * d2 <= n2 * d1 → rne n1 d1 <= rne n2 d2.
Proof.
  intros H1 H2 Hle. destruct (Z.le_gt_cases (rne n1 d1) (rne n2 d2)) as [|Hgt]; [done|].
  exfalso.
  pose proof (Z.div_mod n1 d1 ltac:(lia)) as E1. pose proof (Z.div_mod n2 d2 ltac:(lia)) as E2.
  pose proof (Z.mod_pos_bound n1 d1 H1). pose proof (Z.mod_pos_bound n2 d2 H2).
  assert (Hq : n1 / d1 <= n2 / d2).
  { apply Z.div_le_lower_bound; [lia|].
    assert (d1 * (n1 / d1) * d2 <= n2 * d1) by nia. nia. }
  assert (n1 / d1 = n2 / d2 ∧ rne n1 d1 = n1 / d1 + 1 ∧ rne n2 d2 = n2 / d2) as (Hqq & Hr1 & Hr2).
  { destruct (rne_cases n1 d1 H1) as [[? _]|[? _]], (rne_cases n2 d2 H2) as [[? _]|[? _]]; lia. }
  assert (Hr : (n1 mod d1) * d2 <= (n2 mod d2) * d1) by (rewrite Hqq in *; nia).
  unfold rne in Hr1, Hr2. rewrite Hqq in Hr1.
  destruct (Z.ltb_spec (2 * (n1 mod d1)) d1); [lia|].
  destruct (Z.ltb_spec (2 * (n2 mod d2)) d2); [nia|].
  destruct (Z.ltb_spec d1 (2 * (n1 mod d1))); destruct (Z.ltb_spec d2 (2 * (n2 mod d2)));
    try nia; destruct (Z.even (n2 / d2)); nia.
Qed.

(** ** Rounding to 53 bits *)

Lemma one_pos : 0 < one.
Proof. apply Z.pow_pos_nonneg; lia. Qed.

Lemma ulp_exp_nonneg N d : 0 <= ulp_exp N d.
Proof. unfold ulp_exp. lia. Qed.

Lemma pow2_pos e : 0 <= e → 0 < 2 ^ e.
Proof. intros. apply Z.pow_pos_nonneg; lia. Qed.

Lemma ulp_exp_upper N d : 0 <= N → 0 < d → N < d * 2 ^ (ulp_exp N d + 53).
Proof.
  intros HN Hd. unfold ulp_exp. rewrite Z.abs_eq by done.
  set (q := N / d). assert (0 <= q) by (apply Z.div_pos; lia).
  assert (N < d * (q + 1)) by (pose proof (Z.mul_succ_div_gt N d Hd); unfold q; lia).
  assert (q < 2 ^ (Z.max (Z.log2 q - 52) 0 + 53)) as Hq; [|nia].
  destruct (Z.eq_dec q 0) as [->|]; [by vm_compute|].
  eapply Z.lt_le_trans; [apply (Z.log2_spec q); lia|].
  apply Z.pow_le_mono_r; lia.
Qed.

Lemma ulp_exp_lower N d : 0 <= N → 0 < d → 0 < ulp_exp N d → d * 2 ^ (ulp_exp N d + 52) <= N.
Proof.
  intros HN Hd. unfold ulp_exp. rewrite Z.abs_eq by done.
  set (q := N / d). intros HE. assert (0 <= q) by (apply Z.div_pos; lia).
  assert (d * q <= N) by (apply Z.mul_div_le; lia).
  assert (0 < q).
  { destruct (Z.eq_dec q 0) as [Hq|]; [|lia]. rewrite Hq in HE. vm_compute in HE. done. }
  assert (2 ^ (Z.max (Z.log2 q - 52) 0 + 52) <= q); [|nia].
  replace (Z.max (Z.log2 q - 52) 0 + 52) with (Z.log2 q) by lia.
  apply (Z.log2_spec q); lia.
Qed.

Lemma ulp_exp_mono N1 d1 N2 d2 : 0 <= N1 → 0 <= N2 → 0 < d1 → 0 < d2 →
  N1 * d2 <= N2 * d1 → ulp_exp N1 d1 <= ulp_exp N2 d2.
Proof.
  intros ???? Hle. unfold ulp_exp. rewrite !Z.abs_eq by done.
  assert (N1 / d1 <= N2 / d2).
  { apply Z.div_le_lower_bound; [lia|].
    pose proof (Z.mul_div_le N1 d1 ltac:(lia)).
    assert (d1 * (N1 / d1) * d2 <= N2 * d1) by nia. nia. }
  pose proof (Z.log2_le_mono (N1 / d1) (N2 / d2)). lia.
Qed.

Lemma grid_round_mono N1 d1 N2 d2 : 0 <= N1 → 0 <= N2 → 0 < d1 → 0 < d2 →
  N1 * d2 <= N2 * d1 → grid_round N1 d1 <= grid_round N2 d2.
Proof.
  intros HN1 HN2 Hd1 Hd2 Hle. unfold grid_round.
  pose proof (ulp_exp_mono N1 d1 N2 d2) as HE.
  pose proof (ulp_exp_upper N1 d1) as Hup. pose proof (ulp_exp_lower N2 d2) as Hlo.
  pose proof (ulp_exp_nonneg N1 d1) as H1. pose proof (ulp_exp_nonneg N2 d2) as H2.
  set (E1 := ulp_exp N1 d1) in *. set (E2 := ulp_exp N2 d2) in *.
  pose proof (pow2_pos E1 H1) as P1. pose proof (pow2_pos E2 H2) as P2.
  destruct (Z.eq_dec E1 E2) as [->|Hne].
  { apply Z.mul_le_mono_nonneg_r; [lia|]. apply rne_le; [nia..|]. nia. }
  assert (E1 < E2) by lia.
  assert (rne N1 (d1 * 2 ^ E1) <= 2 ^ 53) as Hr1.
  { rewrite <- (rne_exact (2 ^ 53) (d1 * 2 ^ E1)) by nia.
    apply rne_le; [nia..|]. rewrite Z.pow_add_r in Hup by lia. nia. }
  assert (2 ^ 52 <= rne N2 (d2 * 2 ^ E2)) as Hr2.
  { rewrite <- (rne_exact (2 ^ 52) (d2 * 2 ^ E2)) by nia.
    apply rne_le; [nia..|]. rewrite Z.pow_add_r in Hlo by lia. nia. }
  assert (2 * 2 ^ E1 <= 2 ^ E2).
  { replace (2 * 2 ^ E1) with (2 ^ (E1 + 1)) by (rewrite Z.pow_add_r by lia; lia).
    apply Z.pow_le_mono_r; lia. }
  nia.
Qed.

(** Values with at most 53 significant bits are unchanged. *)
Lemma grid_round_exact m e d : 0 <= m < 2 ^ 53 → 0 <= e → 0 < d →
  grid_round (m * 2 ^ e * d) d = m * 2 ^ e.
Proof.
  intros Hm He Hd. unfold grid_round.
  assert (ulp_exp (m * 2 ^ e * d) d <= e) as HE.
  { unfold ulp_exp. rewrite Z.abs_eq by (pose proof (pow2_pos e He); nia).
    rewrite Z.div_mul by lia.
    destruct (Z.eq_dec m 0) as [->|]; [rewrite Z.mul_0_l; simpl; lia|].
    assert (Z.log2 (m * 2 ^ e) < 53 + e); [|lia].
    apply Z.log2_lt_pow2; [pose proof (pow2_pos e He); nia|].
    rewrite Z.pow_add_r by lia. pose proof (pow2_pos e He); nia. }
  pose proof (ulp_exp_nonneg (m * 2 ^ e * d) d) as Hn.
  set (E := ulp_exp _ _) in *.
  replace (2 ^ e) with (2 ^ (e - E) * 2 ^ E) by (rewrite <- Z.pow_add_r by lia; f_equal; lia).
  replace (m * (2 ^ (e - E) * 2 ^ E) * d) with ((m * 2 ^ (e - E)) * (d * 2 ^ E)) by lia.
  rewrite rne_exact by (pose proof (pow2_pos E Hn); nia). lia.
Qed.

(** Relative error at most 2^-53 above the subnormal range. *)
Lemma grid_round_err N d : 0 <= N → 0 < d → d * 2 ^ 52 <= N →
  2 ^ 53 * Z.abs (grid_round N d * d - N) <= N.
Proof.
  intros HN Hd Hnorm. unfold grid_round.
  pose proof (ulp_exp_nonneg N d) as Hn. pose proof (ulp_exp_lower N d HN Hd) as Hlo.
  set (E := ulp_exp N d) in *. pose proof (pow2_pos E Hn) as HP.
  pose proof (rne_err N (d * 2 ^ E) ltac:(nia)) as Herr.
  assert (d * 2 ^ E * 2 ^ 52 <= N).
  { destruct (Z.eq_dec E 0) as [HE0|]; [rewrite HE0; lia|].
    rewrite Z.pow_add_r in Hlo by lia. lia. }
  replace (rne N (d * 2 ^ E) * 2 ^ E * d) with (rne N (d * 2 ^ E) * (d * 2 ^ E)) by lia.
  nia.
Qed.

Lemma grid_round_nonneg N d : 0 <= N → 0 < d → 0 <= grid_round N d.
Proof. intros HN Hd. apply (grid_round_mono 0 1 N d); lia. Qed.

(** Only the ratio matters. *)
Lemma grid_round_scale N d k : 0 <= N → 0 < d → 0 < k → grid_round (N * k) (d * k) = grid_round N d.
Proof. intros. apply Z.le_antisymm; apply grid_round_mono; nia. Qed.

(** ** Quotients of integers *)

Lemma grid_round_int z d : 0 <= z <= 2 ^ 53 → 0 < d → grid_round (z * one * d) d = z * one.
Proof.
  intros Hz Hd. unfold one. destruct (Z.eq_dec z (2 ^ 53)) as [->|].
  - replace (2 ^ 53 * 2 ^ 1074) with (2 ^ 52 * 2 ^ 1075) by (vm_compute; done).
    apply grid_round_exact; lia.
  - apply grid_round_exact; lia.
Qed.

Lemma grid_round_small N d : 0 <= N → 0 < d → N <= 2 ^ 60 * one * d → 0 <= grid_round N d <= 2 ^ 60 * one.
Proof.
  intros HN Hd Hle. split; [by apply grid_round_nonneg|].
  replace (2 ^ 60 * one) with (1 * 2 ^ 1134) by (vm_compute; done).
  rewrite <- (grid_round_exact 1 1134 1) by lia.
  pose proof (pow2_pos 1134). apply grid_round_mono; [lia..|].
  replace (1 * 2 ^ 1134 * 1) with (2 ^ 60 * one) by (vm_compute; done). lia.
Qed.

Lemma f64_round_small N d : 0 <= N → 0 < d → N <= 2 ^ 60 * one * d →
  f64_round N d = Fin (grid_round N d).
Proof.
  intros HN Hd Hle. unfold f64_round.
  pose proof (grid_round_small N d HN Hd Hle) as [? Hb]. rewrite Z.abs_eq by done.
  assert (2 ^ 60 * one < 2 ^ 2098) by (vm_compute; done).
  destruct (Z.leb_spec (2 ^ 2098) (grid_round N d)); [lia|done].
Qed.

Lemma f64_of_int_exact z : 0 <= z <= 2 ^ 53 → f64_of_int z = Fin (z * one).
Proof.
  intros Hz. pose proof one_pos. unfold f64_of_int, f64_ratio.
  rewrite f64_round_small by nia. f_equal.
  rewrite <- (grid_round_int z 1) at 2 by lia. f_equal. lia.
Qed.

Lemma f64_ratio_fin a b : 0 <= a <= 2 ^ 53 → 0 < b → f64_ratio a b = Fin (grid_round (a * one) b).
Proof. intros. pose proof one_pos. unfold f64_ratio. apply f64_round_small; nia. Qed.

(** Dividing two exactly represented integers rounds their exact ratio once. *)
Lemma f64_div_int a b : 0 <= a <= 2 ^ 53 → 0 < b <= 2 ^ 53 →
  f64_div (f64_of_int a) (f64_of_int b) = Fin (grid_round (a * one) b).
Proof.
  intros Ha Hb. pose proof one_pos. rewrite !f64_of_int_exact by lia. simpl.
  destruct (Z.eqb_spec (b * one) 0); [nia|].
  rewrite Z.sgn_pos, Z.abs_eq by nia. rewrite f64_round_small by nia. f_equal.
  rewrite Z.mul_1_r. apply grid_round_scale; nia.
Qed.

Lemma grid_round_ratio_err a b : 0 <= a → 0 < b → b * 2 ^ 52 <= a * one →
  2 ^ 53 * Z.abs (grid_round (a * one) b * b - a * one) <= a * one.
Proof. intros. pose proof one_pos. apply grid_round_err; nia. Qed.

(** The floor of a rounded quotient of integers is the quotient. *)
Lemma grid_round_quot a b : 0 <= a < 2 ^ 53 → 0 < b < 2 ^ 53 →
  grid_round (a * one) b / one = a / b.
Proof.
  intros Ha Hb. pose proof one_pos.
  assert (Hbig : 2 ^ 105 < one) by (vm_compute; done).
  pose proof (Z.mul_div_le a b ltac:(lia)). pose proof (Z.mul_succ_div_gt a b ltac:(lia)).
  assert (0 <= a / b <= a) by (split; [apply Z.div_pos; lia|apply Z.div_le_upper_bound; nia]).
  symmetry. apply (Z.div_unique_pos _ one _ (grid_round (a * one) b - one * (a / b))); [|lia].
  assert (a / b * one <= grid_round (a * one) b).
  { rewrite <- (grid_round_int (a / b) 1) by lia. apply grid_round_mono; nia. }
  split; [lia|].
  destruct (Z.eq_dec a 0) as [->|].
  { change (0 * one) with (0 * one * b). rewrite grid_round_int, Z.div_0_l by lia. lia. }
  pose proof (grid_round_ratio_err a b ltac:(lia) ltac:(lia) ltac:(nia)).
  assert (2 ^ 53 * (grid_round (a * one) b * b) <= 2 ^ 53 * (a * one) + a * one) by lia.
  assert (2 ^ 53 * (grid_round (a * one) b * b) < 2 ^ 53 * ((a / b + 1) * one * b)); [|nia].
  nia.
Qed.

Lemma f64_trunc_quot a b : 0 <= a < 2 ^ 53 → 0 < b < 2 ^ 53 →
  f64_trunc (f64_div (f64_of_int a) (f64_of_int b)) = Some (a / b).
Proof.
  intros. pose proof one_pos. rewrite f64_div_int by lia. simpl.
  rewrite Z.quot_div_nonneg; [|apply grid_round_nonneg; nia|lia].
  by rewrite grid_round_quot.
Qed.
