(* ===== verification/GoText.v ===== *)
(** * Go's text primitives: strconv, strings, fmt, time.Duration printing

    Strings are byte strings.  The functions are those the sources call, on the inputs they are
    called on: white space and case folding are those of ASCII, and bytes above 127 are treated
    as parts of printable runes. *)

From Stdlib Require Import Ascii String.
From S2P Require Import Prelude GoFloat.

Open Scope Z_scope.

(** ** strconv *)

Definition byte_val (c : ascii) : Z := Z.of_N (N_of_ascii c).

Definition digit_char (d : Z) : ascii := ascii_of_N (Z.to_N (d + 48)).

Definition is_digit (c : ascii) : bool := (48 <=? byte_val c) && (byte_val c <=? 57).

Fixpoint itoa_loop (fuel : nat) (n : Z) (acc : string) : string :=
  match fuel with
  | O => acc
  | S f =>
      let acc := String (digit_char (n mod 10)) acc in
      if n <? 10 then acc else itoa_loop f (n / 10) acc
  end.

(** Decimal digits of n >= 0; a number has at most as many decimal digits as bits. *)
Definition itoa_nonneg (n : Z) : string := itoa_loop (S (Z.to_nat (Z.log2 n))) n "".

(** [strconv.Itoa], [%d]. *)
Definition itoa (z : Z) : string :=
  if z <? 0 then "-" +:+ itoa_nonneg (- z) else itoa_nonneg z.

Definition hex_char (d : Z) : ascii :=
  ascii_of_N (Z.to_N (if d <? 10 then d + 48 else d + 87)).

Definition nl : ascii := "010"%char.

Definition dquote : ascii := "034"%char.

Fixpoint quote_body (s : string) : string :=
  match s with
  | EmptyString => EmptyString
  | String c r =>
      let v := byte_val c in
      let esc (x : ascii) := String "\"%char (String x (quote_body r)) in
      if v =? 34 then esc dquote
      else if v =? 92 then esc "\"%char
      else if v =? 7 then esc "a"%char
      else if v =? 8 then esc "b"%char
      else if v =? 12 then esc "f"%char
      else if v =? 10 then esc "n"%char
      else if v =? 13 then esc "r"%char
      else if v =? 9 then esc "t"%char
      else if v =? 11 then esc "v"%char
      else if (v <? 32) || (v =? 127) then
        String "\"%char (String "x"%char (String (hex_char (v / 16)) (String (hex_char (v mod 16)) (quote_body r))))
      else String c (quote_body r)
  end.

(** [strconv.Quote], [%q]. *)
Definition quote (s : string) : string := String dquote (quote_body s +:+ String dquote "").

Fixpoint parse_digits (s : string) (acc : Z) : option Z :=
  match s with
  | EmptyString => Some acc
  | String c r => if is_digit c then parse_digits r (10 * acc + (byte_val c - 48)) else None
  end.

Definition num_error (fn s what : string) : goerr :=
  errorf ("strconv." +:+ fn +:+ ": parsing " +:+ quote s +:+ ": " +:+ what).

Definition parse_nonempty (s : string) : option Z :=
  match s with EmptyString => None | _ => parse_digits s 0 end.

(** [strconv.ParseUint(s, 10, 64)]. *)
Definition ParseUint64 (s : string) : res Z :=
  match parse_nonempty s with
  | None => Err (num_error "ParseUint" s "invalid syntax")
  | Some v => if v <? 2 ^ 64 then Ok v else Err (num_error "ParseUint" s "value out of range")
  end.

Definition parse_signed (s : string) : option Z :=
  match s with
  | String c r =>
      if byte_val c =? 45 then Z.opp <$> parse_nonempty r
      else if byte_val c =? 43 then parse_nonempty r
      else parse_nonempty s
  | EmptyString => None
  end.

Definition parse_int (fn : string) (bits : Z) (s : string) : res Z :=
  match parse_signed s with
  | None => Err (num_error fn s "invalid syntax")
  | Some v =>
      if (- 2 ^ (bits - 1) <=? v) && (v <? 2 ^ (bits - 1)) then Ok v
      else Err (num_error fn s "value out of range")
  end.

(** [strconv.ParseInt(s, 10, 32)] and [strconv.Atoi] on a 64-bit platform. *)
Definition ParseInt32 : string → res Z := parse_int "ParseInt" 32.

Definition Atoi : string → res Z := parse_int "Atoi" 64.

(** ** strings *)

Definition is_space (c : ascii) : bool :=
  let v := byte_val c in ((9 <=? v) && (v <=? 13)) || (v =? 32).

Fixpoint trim_left (s : string) : string :=
  match s with
  | String c r => if is_space c then trim_left r else s
  | EmptyString => EmptyString
  end.

Fixpoint trim_right (s : string) : string :=
  match s with
  | EmptyString => EmptyString
  | String c r =>
      match trim_right r with
      | EmptyString => if is_space c then EmptyString else String c EmptyString
      | r' => String c r'
      end
  end.

Definition TrimSpace (s : string) : string := trim_right (trim_left s).

Fixpoint CutPrefix (s p : string) : option string :=
  match p, s with
  | EmptyString, _ => Some s
  | String c p', String d s' => if Ascii.eqb c d then CutPrefix s' p' else None
  | _, EmptyString => None
  end.

Definition HasPrefix (s p : string) : bool := bool_decide (is_Some (CutPrefix s p)).

(** [strings.Cut] at a one-byte separator. *)
Fixpoint Cut (s : string) (sep : ascii) : option (string * string) :=
  match s with
  | EmptyString => None
  | String c r =>
      if Ascii.eqb c sep then Some (EmptyString, r)
      else '(a, b) ← Cut r sep; Some (String c a, b)
  end.

Fixpoint Contains (s p : string) : bool :=
  HasPrefix s p || match s with EmptyString => false | String _ r => Contains r p end.

(** [strings.Split] at a one-byte separator: never empty. *)
Fixpoint Split (s : string) (sep : ascii) : list string :=
  match s with
  | EmptyString => [EmptyString]
  | String c r =>
      if Ascii.eqb c sep then EmptyString :: Split r sep
      else match Split r sep with
           | l :: ls => String c l :: ls
           | [] => [String c EmptyString]
           end
  end.

Definition to_lower (c : ascii) : ascii :=
  let v := byte_val c in
  if (65 <=? v) && (v <=? 90) then ascii_of_N (Z.to_N (v + 32)) else c.

Fixpoint map_string (f : ascii → ascii) (s : string) : string :=
  match s with EmptyString => EmptyString | String c r => String (f c) (map_string f r) end.

Definition EqualFold (s t : string) : bool :=
  String.eqb (map_string to_lower s) (map_string to_lower t).

(** ** time.Duration.String *)

Fixpoint fmt_frac (prec : nat) (v : Z) (print : bool) (buf : string) : string * Z :=
  match prec with
  | O => (if print then String "."%char buf else buf, v)
  | S p =>
      let digit := v mod 10 in
      let print := print || negb (digit =? 0) in
      fmt_frac p (v / 10) print (if print then String (digit_char digit) buf else buf)
  end.

Definition duration_abs_string (u : Z) : string :=
  if u =? 0 then "0s"
  else if u <? Second then
    let '(prec, unit) :=
      if u <? Microsecond then (0%nat, "ns")
      else if u <? Millisecond then (3%nat, String "194"%char (String "181"%char "s"))
      else (6%nat, "ms") in
    let '(frac, v) := fmt_frac prec u false unit in itoa_nonneg v +:+ frac
  else
    let '(frac, secs) := fmt_frac 9 u false "s" in
    let s := itoa_nonneg (secs mod 60) +:+ frac in
    let mins := secs / 60 in
    if 0 <? mins then
      let s := itoa_nonneg (mins mod 60) +:+ "m" +:+ s in
      let hours := mins / 60 in
      if 0 <? hours then itoa_nonneg hours +:+ "h" +:+ s else s
    else s.

Definition duration_string (d : Duration) : string :=
  (if d <? 0 then "-" else "") +:+ duration_abs_string (Z.abs d).

(** ** fmt's [%.Nf] on finite values *)

Definition pad_left (n : nat) (s : string) : string :=
  String.concat "" (replicate (n - String.length s) "0") +:+ s.

Definition fmt_fixed (prec : nat) (x : f64) : string :=
  match x with
  | Fin v =>
      let k := 10 ^ Z.of_nat prec in
      let r := rne (Z.abs v * k) one in
      (if v <? 0 then "-" else "") +:+ itoa_nonneg (r / k) +:+ "." +:+ pad_left prec (itoa_nonneg (r mod k))
  | Inf neg => if neg then "-Inf" else "+Inf"
  | NaN => "NaN"
  end.

Example duration_string_ex :
  (duration_string (90 * Second), duration_string 1500000, duration_string (5 * Minute),
   duration_string (3600 * Second + 1))
  = ("1m30s", "1.5ms", "5m0s", "1h0m0.000000001s").
Proof. vm_compute. reflexivity. Qed.

Example fmt_fixed_ex : fmt_fixed 2 (f64_ratio 1 8) = "0.12" ∧ fmt_fixed 1 (f64_ratio 31 4) = "7.8".
Proof. vm_compute. done. Qed.

(** ** Printing and parsing decimal numbers *)

Lemma byte_val_range c : 0 <= byte_val c < 256.
Proof. unfold byte_val. pose proof (N_ascii_bounded c). lia. Qed.

Lemma byte_val_digit d : 0 <= d <= 9 → byte_val (digit_char d) = d + 48.
Proof. intros. unfold byte_val, digit_char. rewrite N_ascii_embedding; lia. Qed.

Lemma is_digit_digit d : 0 <= d <= 9 → is_digit (digit_char d) = true.
Proof. intros. unfold is_digit. rewrite byte_val_digit by done. lia. Qed.

Lemma is_digit_not_space c : is_digit c = true → is_space c = false.
Proof. unfold is_digit, is_space. lia. Qed.

Lemma parse_digits_digit d s acc : 0 <= d <= 9 →
  parse_digits (String (digit_char d) s) acc = parse_digits s (10 * acc + d).
Proof. intros. simpl. rewrite is_digit_digit, byte_val_digit by done. f_equal. lia. Qed.

Lemma parse_itoa_loop f n acc : 0 <= n < 10 ^ Z.of_nat f →
  parse_digits (itoa_loop f n acc) 0 = parse_digits acc n.
Proof.
  revert n acc. induction f as [|f IH]; intros n acc Hn; [simpl in Hn; f_equal; lia|].
  pose proof (Z.mod_pos_bound n 10 ltac:(lia)). cbn [itoa_loop].
  destruct (Z.ltb_spec n 10).
  - rewrite parse_digits_digit by lia. rewrite Z.mod_small by lia. f_equal; lia.
  - rewrite IH.
    + rewrite parse_digits_digit by lia. f_equal. pose proof (Z.div_mod n 10). lia.
    + split; [apply Z.div_pos; lia|]. apply Z.div_lt_upper_bound; [lia|].
      rewrite Nat2Z.inj_succ, Z.pow_succ_r in Hn by lia. lia.
Qed.

Lemma itoa_fuel n : 0 <= n → n < 10 ^ Z.of_nat (S (Z.to_nat (Z.log2 n))).
Proof.
  intros. rewrite Nat2Z.inj_succ, Z2Nat.id by apply Z.log2_nonneg.
  destruct (Z.eq_dec n 0) as [->|]; [done|].
  eapply Z.lt_le_trans; [apply Z.log2_spec; lia|].
  apply Z.pow_le_mono_l. lia.
Qed.

Lemma itoa_loop_cons f n acc : ∃ c s, itoa_loop (S f) n acc = String c s.
Proof.
  revert n acc. induction f as [|f IH]; intros n acc; cbn [itoa_loop]; destruct (n <? 10); eauto.
Qed.

Lemma parse_itoa_nonneg n : 0 <= n → parse_nonempty (itoa_nonneg n) = Some n.
Proof.
  intros Hn. unfold itoa_nonneg. pose proof (itoa_fuel n Hn).
  pose proof (parse_itoa_loop (S (Z.to_nat (Z.log2 n))) n "" ltac:(lia)) as Hp.
  destruct (itoa_loop_cons (Z.to_nat (Z.log2 n)) n "") as (c & s & Hc).
  rewrite Hc in *. exact Hp.
Qed.

Lemma ParseUint64_itoa n : in_uint64 n → ParseUint64 (itoa_nonneg n) = Ok n.
Proof.
  intros Hn. unfold ParseUint64. rewrite parse_itoa_nonneg by apply Hn.
  destruct (Z.ltb_spec n (2 ^ 64)); [done|]. unfold in_uint64 in Hn. lia.
Qed.

(** Printed numbers are read back. *)
Lemma parse_signed_itoa z : parse_signed (itoa z) = Some z.
Proof.
  unfold itoa. destruct (Z.ltb_spec z 0).
  - change ("-" +:+ ?s) with (String "-"%char s). cbn [parse_signed]. change (byte_val "-"%char =? 45) with true. cbv match.
    rewrite parse_itoa_nonneg by lia. simpl. f_equal. lia.
  - pose proof (parse_itoa_nonneg z ltac:(lia)) as Hd. destruct (itoa_nonneg z) as [|c s]; [done|].
    cbn [parse_signed]. assert (Hc : is_digit c = true) by (cbn in Hd; by destruct (is_digit c)).
    unfold is_digit in Hc. rewrite (proj2 (Z.eqb_neq _ 45)), (proj2 (Z.eqb_neq _ 43)) by lia. done.
Qed.

Lemma ParseInt32_itoa z : in_int32 z → ParseInt32 (itoa z) = Ok z.
Proof.
  unfold in_int32. intros Hz. unfold ParseInt32, parse_int. rewrite parse_signed_itoa.
  destruct (Z.leb_spec (- 2 ^ (32 - 1)) z), (Z.ltb_spec z (2 ^ (32 - 1))); done || lia.
Qed.

Lemma Atoi_itoa z : in_int64 z → Atoi (itoa z) = Ok z.
Proof.
  unfold in_int64. intros Hz. unfold Atoi, parse_int. rewrite parse_signed_itoa.
  destruct (Z.leb_spec (- 2 ^ (64 - 1)) z), (Z.ltb_spec z (2 ^ (64 - 1))); done || lia.
Qed.

(** A property of every byte of a string. *)
Fixpoint all_bytes (P : ascii → bool) (s : string) : bool :=
  match s with EmptyString => true | String c r => P c && all_bytes P r end.

Lemma itoa_loop_digits f n acc : 0 <= n → all_bytes is_digit acc = true →
  all_bytes is_digit (itoa_loop f n acc) = true.
Proof.
  revert n acc. induction f as [|f IH]; intros n acc Hn Hacc; [done|].
  pose proof (Z.mod_pos_bound n 10 ltac:(lia)). cbn [itoa_loop].
  assert (all_bytes is_digit (String (digit_char (n mod 10)) acc) = true).
  { cbn [all_bytes]. rewrite is_digit_digit by lia. done. }
  destruct (n <? 10); [done|]. apply IH; [apply Z.div_pos; lia|done].
Qed.

Lemma itoa_nonneg_digits n : 0 <= n → all_bytes is_digit (itoa_nonneg n) = true.
Proof. intros. by apply itoa_loop_digits. Qed.

Lemma itoa_nonneg_inj n m : 0 <= n → 0 <= m → itoa_nonneg n = itoa_nonneg m → n = m.
Proof.
  intros Hn Hm Heq. pose proof (parse_itoa_nonneg n Hn) as H1.
  rewrite Heq, parse_itoa_nonneg in H1 by done. by simplify_eq.
Qed.

(** ** Splitting and trimming concatenations *)

Lemma all_bytes_impl (P Q : ascii → bool) s :
  (∀ c, P c = true → Q c = true) → all_bytes P s = true → all_bytes Q s = true.
Proof.
  intros HPQ. induction s as [|c s IH]; simpl; [done|].
  intros [Hc Hs]%andb_true_iff. by rewrite HPQ, IH.
Qed.

Lemma Split_app s t sep : all_bytes (λ c, negb (Ascii.eqb c sep)) s = true →
  Split (s +:+ String sep t) sep = s :: Split t sep.
Proof.
  induction s as [|c s IH]; simpl; [by rewrite Ascii.eqb_refl|].
  intros [Hc Hs]%andb_true_iff. apply negb_true_iff in Hc. by rewrite Hc, IH.
Qed.

Lemma Cut_app s t sep : all_bytes (λ c, negb (Ascii.eqb c sep)) s = true →
  Cut (s +:+ String sep t) sep = Some (s, t).
Proof.
  induction s as [|c s IH]; simpl; [by rewrite Ascii.eqb_refl|].
  intros [Hc Hs]%andb_true_iff. apply negb_true_iff in Hc. by rewrite Hc, IH.
Qed.

Lemma trim_right_nonspace s : all_bytes (λ c, negb (is_space c)) s = true → trim_right s = s.
Proof.
  induction s as [|c s IH]; simpl; [done|].
  intros [Hc Hs]%andb_true_iff. apply negb_true_iff in Hc. rewrite IH by done.
  destruct s; [by rewrite Hc|done].
Qed.

Lemma trim_right_app s t : t ≠ "" → all_bytes (λ c, negb (is_space c)) t = true →
  trim_right (s +:+ t) = s +:+ t.
Proof.
  intros Ht Hall. induction s as [|c s IH]; simpl; [by apply trim_right_nonspace|].
  rewrite IH. destruct s, t; done.
Qed.

Lemma TrimSpace_nonspace s : all_bytes (λ c, negb (is_space c)) s = true → TrimSpace s = s.
Proof.
  intros Hs. unfold TrimSpace. destruct s as [|c s]; [done|].
  assert (is_space c = false) as Hc by (simpl in Hs; apply andb_true_iff in Hs as [Hc _]; by apply negb_true_iff).
  cbn [trim_left]. rewrite Hc. by apply trim_right_nonspace.
Qed.

Lemma TrimSpace_app c s t : is_space c = false → t ≠ "" →
  all_bytes (λ c, negb (is_space c)) t = true → TrimSpace (String c s +:+ t) = String c s +:+ t.
Proof.
  intros Hc Ht Hall. unfold TrimSpace. simpl trim_left. rewrite Hc.
  by apply (trim_right_app (String c s)).
Qed.

Lemma itoa_nonneg_nonspace n : 0 <= n → all_bytes (λ c, negb (is_space c)) (itoa_nonneg n) = true.
Proof.
  intros. eapply all_bytes_impl, itoa_nonneg_digits; [|done].
  intros c Hc. by rewrite is_digit_not_space.
Qed.

Lemma itoa_nonneg_nonempty n : itoa_nonneg n ≠ "".
Proof. unfold itoa_nonneg. by destruct (itoa_loop_cons (Z.to_nat (Z.log2 n)) n "") as (c & s & ->). Qed.

Lemma itoa_loop_length f n acc : (String.length (itoa_loop f n acc) <= f + String.length acc)%nat.
Proof.
  revert n acc. induction f as [|f IH]; intros n acc; [done|]. cbn [itoa_loop].
  destruct (n <? 10); [simpl; lia|]. etrans; [apply IH|]. simpl. lia.
Qed.

Lemma length_append s t : String.length (s +:+ t) = (String.length s + String.length t)%nat.
Proof. induction s; simpl; [done|]. by f_equal. Qed.

Lemma append_assoc (s t u : string) : (s +:+ t) +:+ u = s +:+ (t +:+ u).
Proof. induction s as [|c s IH]; [done|]. exact (f_equal (String c) IH). Qed.

Lemma all_bytes_app P s t : all_bytes P (s +:+ t) = all_bytes P s && all_bytes P t.
Proof. induction s; simpl; [done|]. by rewrite IHs, andb_assoc. Qed.

Lemma itoa_nonneg_length n : in_uint64 n → (String.length (itoa_nonneg n) <= 64)%nat.
Proof.
  intros [Hn Hlt]. unfold itoa_nonneg. etrans; [apply itoa_loop_length|]. simpl.
  assert (Z.log2 n < 64); [|lia].
  destruct (Z.eq_dec n 0) as [->|]; [by vm_compute|]. apply Z.log2_lt_pow2; lia.
Qed.

Lemma CutPrefix_app p s : CutPrefix (p +:+ s) p = Some s.
Proof.
  induction p as [|c p IH]; simpl; [by destruct s|].
  change (String c p +:+ s) with (String c (p +:+ s)). simpl.
  by rewrite Ascii.eqb_refl.
Qed.

(** ** ASCII text *)

Definition plain_text (s : string) : Prop := all_bytes (λ c, byte_val c <? 128) s = true.

Lemma plain_app s t : plain_text s → plain_text t → plain_text (s +:+ t).
Proof. unfold plain_text. intros Hs Ht. by rewrite all_bytes_app, Hs, Ht. Qed.

Lemma plain_itoa n : 0 <= n → plain_text (itoa n).
Proof.
  intros Hn. unfold itoa. rewrite (proj2 (Z.ltb_ge _ _)) by done.
  apply (all_bytes_impl is_digit); [|by apply itoa_nonneg_digits]. intros c. unfold is_digit. lia.
Qed.
