(* ===== verification/GoDuration.v ===== *)
(** * time.ParseDuration, and that it reads back what Duration.String prints

    The controller hands durations to the containers it starts as command-line flags, printed by
    [Duration.String] and read by [time.ParseDuration]; shadow annotations are read the same way.
    The parser keeps Go's unsigned 64-bit accumulators, its overflow checks and its floating-point
    product for fractions. *)

From Stdlib Require Import Ascii String.
From S2P Require Import Prelude GoFloat GoText.

Open Scope Z_scope.

Definition is_dot (c : ascii) : bool := byte_val c =? 46.

(** [leadingInt]; [None] is its overflow error. *)
Fixpoint leadingInt (s : string) (x : Z) : option (Z * string) :=
  match s with
  | String c r =>
      if is_digit c then
        if 2 ^ 63 / 10 <? x then None
        else
          let x := x * 10 + (byte_val c - 48) in
          if 2 ^ 63 <? x then None else leadingInt r x
      else Some (x, s)
  | EmptyString => Some (x, s)
  end.

(** [leadingFraction]: digits past what fits are dropped.  The scale is a power of ten up to
    10^19, which a float64 holds exactly. *)
Fixpoint leadingFraction (s : string) (x scale : Z) (overflow : bool) : Z * Z * string :=
  match s with
  | String c r =>
      if is_digit c then
        if overflow then leadingFraction r x scale true
        else if (2 ^ 63 - 1) / 10 <? x then leadingFraction r x scale true
        else
          let y := x * 10 + (byte_val c - 48) in
          if 2 ^ 63 <? y then leadingFraction r x scale true
          else leadingFraction r y (scale * 10) false
      else (x, scale, s)
  | EmptyString => (x, scale, s)
  end.

Fixpoint take_unit (s : string) : string * string :=
  match s with
  | String c r => if is_dot c || is_digit c then (EmptyString, s)
                  else let '(u, rest) := take_unit r in (String c u, rest)
  | EmptyString => (EmptyString, EmptyString)
  end.

Definition micro_sign : string := String "194"%char (String "181"%char "s").

Definition greek_mu : string := String "206"%char (String "188"%char "s").

Definition unitMap (u : string) : option Z :=
  if decide (u = "ns") then Some 1
  else if decide (u = "us" ∨ u = micro_sign ∨ u = greek_mu) then Some Microsecond
  else if decide (u = "ms") then Some Millisecond
  else if decide (u = "s") then Some Second
  else if decide (u = "m") then Some Minute
  else if decide (u = "h") then Some (60 * Minute)
  else None.

(** [uint64(float64(f) * (float64(unit) / scale))]; the product is finite and below 2^63. *)
Definition fraction_value (f unit scale : Z) : Z :=
  match f64_trunc (f64_mul (f64_of_int f) (f64_div (f64_of_int unit) (f64_of_int scale))) with
  | Some z => uint64 z
  | None => 0
  end.

Definition invalid_duration (orig : string) : goerr := errorf ("time: invalid duration " +:+ quote orig).

(** One number with its unit: its value and what follows. *)
Definition parse_segment (orig s : string) : res (Z * string) :=
  match s with
  | EmptyString => Err (invalid_duration orig)
  | String c _ =>
      if negb (is_dot c || is_digit c) then Err (invalid_duration orig)
      else
        match leadingInt s 0 with
        | None => Err (invalid_duration orig)
        | Some (v, s1) =>
            let pre := negb (String.length s1 =? String.length s)%nat in
            let '(f, scale, s2, post) :=
              match s1 with
              | String c' r =>
                  if is_dot c' then
                    let '(f, scale, s2) := leadingFraction r 0 1 false in
                    (f, scale, s2, negb (String.length s2 =? String.length r)%nat)
                  else (0, 1, s1, false)
              | EmptyString => (0, 1, s1, false)
              end in
            if negb pre && negb post then Err (invalid_duration orig)
            else
              let '(u, rest) := take_unit s2 in
              if decide (u = "") then Err (errorf ("time: missing unit in duration " +:+ quote orig))
              else
                match unitMap u with
                | None => Err (errorf ("time: unknown unit " +:+ quote u +:+ " in duration " +:+ quote orig))
                | Some unit =>
                    if 2 ^ 63 / unit <? v then Err (invalid_duration orig)
                    else
                      let v := v * unit in
                      let w := if 0 <? f then uint64 (v + fraction_value f unit scale) else v in
                      if (0 <? f) && (2 ^ 63 <? w) then Err (invalid_duration orig) else Ok (w, rest)
                end
        end
  end.

(** The loop over the segments; every segment is consumed, so the length of the text is fuel
    enough. *)
Fixpoint parse_segments (fuel : nat) (orig s : string) (d : Z) : res Z :=
  match s, fuel with
  | EmptyString, _ => Ok d
  | _, O => Err (invalid_duration orig)
  | _, S n =>
      match parse_segment orig s with
      | Err e => Err e
      | Ok (v, rest) =>
          let d := uint64 (d + v) in
          if 2 ^ 63 <? d then Err (invalid_duration orig) else parse_segments n orig rest d
      end
  end.

Definition ParseDuration (orig : string) : res Duration :=
  let '(neg, s) := match orig with
                   | String c r => if byte_val c =? 45 then (true, r)
                                   else if byte_val c =? 43 then (false, r) else (false, orig)
                   | EmptyString => (false, orig)
                   end in
  if decide (s = "0") then Ok 0
  else if decide (s = "") then Err (invalid_duration orig)
  else
    match parse_segments (String.length s) orig s 0 with
    | Err e => Err e
    | Ok d =>
        if neg then Ok (int64 (- d))
        else if 2 ^ 63 - 1 <? d then Err (invalid_duration orig) else Ok d
    end.

Example parse_examples :
  ParseDuration "1h15m30.918s" = Ok (4530918 * Millisecond) ∧ ParseDuration "-1.5h" = Ok (- 90 * Minute) ∧
  ParseDuration "+5s" = Ok (5 * Second) ∧ ParseDuration "0" = Ok 0 ∧
  is_ok (ParseDuration "3000000h") = false ∧ is_ok (ParseDuration "5") = false ∧
  is_ok (ParseDuration ".s") = false ∧ is_ok (ParseDuration "") = false.
Proof. split_and!; vm_compute; reflexivity. Qed.

(** ** Reading back what Duration.String prints *)

(** What follows a number or a unit: nothing, or a character of the other kind. *)
Definition stops (P : ascii → bool) (s : string) : Prop :=
  match s with String c _ => P c = false | EmptyString => True end.

Definition unit_char (c : ascii) : bool := negb (is_dot c || is_digit c).

Lemma parse_digits_ge s acc v : 0 <= acc → parse_digits s acc = Some v → acc <= v.
Proof.
  revert acc. induction s as [|c s IH]; intros acc Ha; simpl; [intros [= ->]; lia|].
  destruct (is_digit c) eqn:Hc; [|done]. unfold is_digit in Hc. intros Hp.
  apply IH in Hp; lia.
Qed.

Lemma leadingInt_digits s x v rest : 0 <= x → parse_digits s x = Some v → v <= 2 ^ 63 → stops is_digit rest →
  leadingInt (s +:+ rest) x = Some (v, rest).
Proof.
  intros Hx Hp Hv Hr. revert x Hx Hp. induction s as [|c s IH]; intros x Hx; simpl.
  - intros [= ->]. destruct rest as [|c r]; [done|]. simpl in *. by rewrite Hr.
  - destruct (is_digit c) eqn:Hc; [|done]. intros Hp. unfold is_digit in Hc.
    assert (10 * x + (byte_val c - 48) <= v) by (apply (parse_digits_ge s); [lia|done]).
    change (2 ^ 63 / 10) with 922337203685477580.
    destruct (Z.ltb_spec 922337203685477580 x); [lia|]. destruct (Z.ltb_spec (2 ^ 63) (x * 10 + (byte_val c - 48))); [lia|].
    apply IH; [lia|]. by replace (x * 10) with (10 * x) by lia.
Qed.

Lemma leadingInt_itoa v rest : 0 <= v <= 2 ^ 63 → stops is_digit rest →
  leadingInt (itoa_nonneg v +:+ rest) 0 = Some (v, rest).
Proof.
  intros Hv Hr. apply leadingInt_digits; [lia| |lia|done].
  pose proof (parse_itoa_nonneg v ltac:(lia)) as Hp. unfold parse_nonempty in Hp.
  by destruct (itoa_nonneg v).
Qed.

Lemma take_unit_app u rest : all_bytes unit_char u = true → stops unit_char rest → take_unit (u +:+ rest) = (u, rest).
Proof.
  intros Hu Hr. induction u as [|c u IH]; simpl in *.
  - destruct rest as [|c r]; [done|]. simpl in *. unfold unit_char in Hr. by destruct (is_dot c || is_digit c).
  - apply andb_true_iff in Hu as [Hc Hu]. unfold unit_char in Hc. destruct (is_dot c || is_digit c); [done|].
    by rewrite (IH Hu).
Qed.

(** *** Fractions *)

(** The [p] low decimal digits of [v], in front of [acc]. *)
Fixpoint pad_digits (p : nat) (v : Z) (acc : string) : string :=
  match p with
  | O => acc
  | S p => pad_digits p (v / 10) (String (digit_char (v mod 10)) acc)
  end.

Lemma mod_pow10_succ v p : v mod 10 ^ Z.of_nat (S p) = 10 * ((v / 10) mod 10 ^ Z.of_nat p) + v mod 10.
Proof.
  rewrite Nat2Z.inj_succ, Z.pow_succ_r by lia. rewrite Z.rem_mul_r by lia. lia.
Qed.

Lemma div_pow10_succ v p : v / 10 ^ Z.of_nat (S p) = v / 10 / 10 ^ Z.of_nat p.
Proof. rewrite Nat2Z.inj_succ, Z.pow_succ_r by lia. by rewrite Z.div_div by lia. Qed.

Lemma fmt_frac_print p v buf : fmt_frac p v true buf = (String "."%char (pad_digits p v buf), v / 10 ^ Z.of_nat p).
Proof.
  revert v buf. induction p as [|p IH]; intros v buf; [simpl; by rewrite Z.div_1_r|].
  rewrite div_pow10_succ. simpl. apply IH.
Qed.

(** The fraction without its trailing zeroes: none, or the [k] leading digits. *)
Lemma fmt_frac_trim p v buf : 0 <= v →
  (v mod 10 ^ Z.of_nat p = 0 ∧ fmt_frac p v false buf = (buf, v / 10 ^ Z.of_nat p)) ∨
  ∃ k, (0 < k <= p)%nat ∧
    v mod 10 ^ Z.of_nat p = (v / 10 ^ Z.of_nat (p - k)) mod 10 ^ Z.of_nat k * 10 ^ Z.of_nat (p - k) ∧
    fmt_frac p v false buf = (String "."%char (pad_digits k (v / 10 ^ Z.of_nat (p - k)) buf), v / 10 ^ Z.of_nat p).
Proof.
  revert v buf. induction p as [|p IH]; intros v buf Hv.
  { left. simpl. by rewrite Z.mod_1_r, Z.div_1_r. }
  rewrite div_pow10_succ. cbn [fmt_frac]. destruct (Z.eqb_spec (v mod 10) 0) as [Hz|Hz]; cbn [orb negb].
  - destruct (IH (v / 10) buf) as [[Hm Hf]|(k & Hk & Hm & Hf)]; [apply Z.div_pos; lia|left|right].
    + rewrite mod_pow10_succ, Hm, Hz, Hf. done.
    + exists k. split; [lia|]. rewrite mod_pow10_succ, Hm, Hz, Hf.
      replace (S p - k)%nat with (S (p - k)) by lia. rewrite !div_pow10_succ. split; [|done].
      rewrite Nat2Z.inj_succ, Z.pow_succ_r by lia. lia.
  - right. exists (S p). split; [lia|]. rewrite Nat.sub_diag, Z.div_1_r, Z.mul_1_r. split; [done|].
    rewrite fmt_frac_print. done.
Qed.

Lemma leadingFraction_pad p v x scale rest : 0 <= x → (x + 1) * 10 ^ Z.of_nat p <= 10 ^ 9 →
  leadingFraction (pad_digits p v rest) x scale false =
  leadingFraction rest (x * 10 ^ Z.of_nat p + v mod 10 ^ Z.of_nat p) (scale * 10 ^ Z.of_nat p) false.
Proof.
  revert v rest. induction p as [|p IH]; intros v rest Hx Hp.
  { cbn [pad_digits]. rewrite Z.mod_1_r, !Z.mul_1_r, Z.add_0_r. done. }
  cbn [pad_digits]. rewrite mod_pow10_succ. rewrite Nat2Z.inj_succ, Z.pow_succ_r in * by lia.
  pose proof (Z.mod_pos_bound v 10). pose proof (Z.mod_pos_bound (v / 10) (10 ^ Z.of_nat p)).
  assert (0 < 10 ^ Z.of_nat p) by (apply Z.pow_pos_nonneg; lia).
  rewrite IH by nia. cbn [leadingFraction]. rewrite is_digit_digit, byte_val_digit by lia.
  set (q := 10 ^ Z.of_nat p) in *. set (y := (v / 10) mod q) in *.
  change ((2 ^ 63 - 1) / 10) with 922337203685477580.
  destruct (Z.ltb_spec 922337203685477580 (x * q + y)); [nia|].
  replace ((x * q + y) * 10 + (v mod 10 + 48 - 48)) with (x * (10 * q) + (10 * y + v mod 10)) by lia.
  destruct (Z.ltb_spec (2 ^ 63) (x * (10 * q) + (10 * y + v mod 10))); [nia|].
  f_equal. lia.
Qed.

(** Fractions of a unit of [10^p] nanoseconds are exact: the two operations on float64 do not round. *)
Lemma fraction_value_exact f p k : (k <= p <= 9)%nat → 0 <= f < 10 ^ Z.of_nat k →
  fraction_value f (10 ^ Z.of_nat p) (10 ^ Z.of_nat k) = f * 10 ^ Z.of_nat (p - k).
Proof.
  intros Hp Hf. pose proof one_pos as Hone. unfold fraction_value.
  set (K := 10 ^ Z.of_nat k) in *. set (Q := 10 ^ Z.of_nat (p - k)).
  assert (HP : 10 ^ Z.of_nat p = Q * K) by (unfold Q, K; rewrite <- Z.pow_add_r by lia; f_equal; lia).
  assert (0 < K) by (apply Z.pow_pos_nonneg; lia). assert (0 < Q) by (apply Z.pow_pos_nonneg; lia).
  assert (HB : Q * K <= 10 ^ 9) by (rewrite <- HP; apply Z.pow_le_mono_r; lia).
  assert (K <= 10 ^ 9 ∧ Q <= 10 ^ 9 ∧ 0 <= f * Q < 10 ^ 9) as (HK & HQ & HfQ) by (split_and!; nia).
  change (10 ^ 9) with 1000000000 in *. rewrite HP, f64_div_int by lia.
  replace (Q * K * one) with (Q * one * K) by lia.
  rewrite grid_round_int, f64_of_int_exact by lia. cbn [f64_mul].
  replace (f * one * (Q * one)) with (f * Q * one * one) by lia. generalize dependent (f * Q). intros fQ HfQ.
  rewrite f64_round_small, grid_round_int by nia. cbn [f64_trunc].
  rewrite Z.quot_mul by lia. unfold uint64. rewrite Z.mod_small; lia.
Qed.

(** *** Segments *)

Lemma append_nil_r (s : string) : s +:+ "" = s.
Proof. induction s as [|c s IH]; [done|]. exact (f_equal (String c) IH). Qed.

Lemma itoa_head v rest : 0 <= v → ∃ c s, itoa_nonneg v +:+ rest = String c s ∧ is_digit c = true.
Proof.
  intros Hv. pose proof (itoa_nonneg_digits v Hv) as Hd. pose proof (itoa_nonneg_nonempty v) as Hn.
  destruct (itoa_nonneg v) as [|c s]; [done|]. simpl in *. apply andb_true_iff in Hd as [Hc _]. eauto.
Qed.

Lemma itoa_consumed v rest : (String.length rest =? String.length (itoa_nonneg v +:+ rest))%nat = false.
Proof.
  pose proof (itoa_nonneg_nonempty v). rewrite length_append. apply Nat.eqb_neq.
  destruct (itoa_nonneg v); [done|]. simpl. lia.
Qed.

Lemma unit_stops_digits u rest : u ≠ "" → all_bytes unit_char u = true → stops is_digit (u +:+ rest).
Proof.
  intros Hne Hu. destruct u as [|c u]; [done|]. simpl in *. apply andb_true_iff in Hu as [Hc _].
  unfold unit_char in Hc. by destruct (is_digit c), (is_dot c).
Qed.

Lemma leadingFraction_stop u f scale : u ≠ "" → all_bytes unit_char u = true →
  leadingFraction u f scale false = (f, scale, u).
Proof.
  intros Hne Hu. pose proof (unit_stops_digits u "" Hne Hu) as Hs. rewrite append_nil_r in Hs.
  destruct u as [|c u]; [done|]. cbn [leadingFraction stops] in *. by rewrite Hs.
Qed.

(** A whole number of a unit. *)
Lemma parse_whole orig v u unit rest : 0 <= v → 0 < unit → v * unit <= 2 ^ 63 → u ≠ "" → unitMap u = Some unit →
  all_bytes unit_char u = true → stops unit_char rest →
  parse_segment orig (itoa_nonneg v +:+ (u +:+ rest)) = Ok (v * unit, rest).
Proof.
  intros Hv Hunit Hb Hne Hm Hu Hr. unfold parse_segment.
  destruct (itoa_head v (u +:+ rest) Hv) as (c & s & Heq & Hc). rewrite Heq at 1. rewrite Hc, orb_true_r. cbn [negb].
  rewrite leadingInt_itoa; [|nia|by apply unit_stops_digits]. rewrite itoa_consumed. cbn [negb].
  replace (match u +:+ rest with
           | String c' r => if is_dot c'
               then let '(f, scale, s2) := leadingFraction r 0 1 false in
                    (f, scale, s2, negb (String.length s2 =? String.length r)%nat)
               else (0, 1, u +:+ rest, false)
           | "" => (0, 1, u +:+ rest, false) end) with (0, 1, u +:+ rest, false).
  2: { destruct u as [|c' u']; [done|]. simpl in *. apply andb_true_iff in Hu as [Hc' _].
       unfold unit_char in Hc'. by destruct (is_dot c'). }
  cbn [andb]. rewrite take_unit_app by done. rewrite decide_False by done. rewrite Hm.
  destruct (Z.ltb_spec (2 ^ 63 / unit) v) as [Hlt|]; [|done].
  assert (v <= 2 ^ 63 / unit) by (apply Z.div_le_lower_bound; lia). lia.
Qed.

(** A number of units of [10^p] nanoseconds with the fraction Duration.String prints. *)
Lemma parse_fraction orig n p t u : (p <= 9)%nat → 0 <= n → 0 <= t → (n + 1) * 10 ^ Z.of_nat p <= 2 ^ 63 →
  u ≠ "" → unitMap u = Some (10 ^ Z.of_nat p) → all_bytes unit_char u = true →
  parse_segment orig (itoa_nonneg n +:+ (fmt_frac p t false u).1) = Ok (n * 10 ^ Z.of_nat p + t mod 10 ^ Z.of_nat p, "").
Proof.
  intros Hp Hn Ht Hb Hne Hm Hu. assert (0 < 10 ^ Z.of_nat p) by (apply Z.pow_pos_nonneg; lia).
  destruct (fmt_frac_trim p t u Ht) as [[Hz ->]|(k & Hk & Hz & ->)]; cbn [fst].
  { rewrite Hz, Z.add_0_r. pose proof (parse_whole orig n u (10 ^ Z.of_nat p) "") as Hw.
    rewrite append_nil_r in Hw. apply Hw; nia || done. }
  rewrite Hz. set (F := (t / 10 ^ Z.of_nat (p - k)) mod 10 ^ Z.of_nat k).
  assert (0 < 10 ^ Z.of_nat k) by (apply Z.pow_pos_nonneg; lia).
  assert (HF : 0 <= F < 10 ^ Z.of_nat k) by (apply Z.mod_pos_bound; lia).
  assert (HT : t mod 10 ^ Z.of_nat p < 10 ^ Z.of_nat p) by (apply Z.mod_pos_bound; lia).
  unfold parse_segment.
  set (frac := String "."%char _). destruct (itoa_head n frac Hn) as (c & s & Heq & Hc).
  rewrite Heq at 1. rewrite Hc, orb_true_r. cbn [negb].
  rewrite leadingInt_itoa by (nia || done). rewrite itoa_consumed. cbn [negb]. subst frac. cbn [is_dot byte_val].
  change (is_dot "."%char) with true. cbv match.
  assert (10 ^ Z.of_nat k <= 10 ^ 9) by (apply Z.pow_le_mono_r; lia).
  rewrite leadingFraction_pad by lia. rewrite Z.mul_0_l, Z.add_0_l, Z.mul_1_l. fold F.
  rewrite leadingFraction_stop by done. cbn [andb].
  pose proof (take_unit_app u "" Hu I) as Htu. rewrite append_nil_r in Htu.
  rewrite Htu, decide_False by done. rewrite Hm.
  destruct (Z.ltb_spec (2 ^ 63 / 10 ^ Z.of_nat p) n) as [Hlt|].
  { assert (n <= 2 ^ 63 / 10 ^ Z.of_nat p) by (apply Z.div_le_lower_bound; nia). lia. }
  destruct (Z.ltb_spec 0 F); cbn [andb].
  - rewrite fraction_value_exact by lia. unfold uint64. rewrite Z.mod_small by nia.
    destruct (Z.ltb_spec (2 ^ 63) (n * 10 ^ Z.of_nat p + F * 10 ^ Z.of_nat (p - k))); [nia|done].
  - replace F with 0 by lia. do 2 f_equal. lia.
Qed.

(** *** Whole texts *)

Lemma parse_segments_step n orig s d v rest : s ≠ "" → parse_segment orig s = Ok (v, rest) →
  0 <= d → 0 <= v → d + v <= 2 ^ 63 →
  parse_segments (S n) orig s d = parse_segments n orig rest (d + v).
Proof.
  intros Hne Hp Hd Hv Hb. destruct s as [|c s]; [done|]. cbn [parse_segments]. rewrite Hp.
  unfold uint64. rewrite Z.mod_small by lia. by destruct (Z.ltb_spec (2 ^ 63) (d + v)); [lia|].
Qed.

Lemma itoa_app_nonempty v s : itoa_nonneg v +:+ s ≠ "".
Proof. pose proof (itoa_nonneg_nonempty v). by destruct (itoa_nonneg v). Qed.

Lemma itoa_stops v s : 0 <= v → stops unit_char (itoa_nonneg v +:+ s).
Proof.
  intros Hv. destruct (itoa_head v s Hv) as (c & t & -> & Hc). simpl. unfold unit_char. rewrite Hc. by rewrite orb_true_r.
Qed.

(** A text that is one number with a fraction, below one second. *)
Lemma parse_below_second orig p u t m : (p <= 9)%nat → 0 < t < Second → u ≠ "" →
  unitMap u = Some (10 ^ Z.of_nat p) → all_bytes unit_char u = true →
  parse_segments (S m) orig (itoa_nonneg (t / 10 ^ Z.of_nat p) +:+ (fmt_frac p t false u).1) 0 = Ok t.
Proof.
  intros Hp Ht Hne Hm Hu. assert (0 < 10 ^ Z.of_nat p) by (apply Z.pow_pos_nonneg; lia).
  pose proof (Z.div_mod t (10 ^ Z.of_nat p)). pose proof (Z.mod_pos_bound t (10 ^ Z.of_nat p)).
  assert (0 <= t / 10 ^ Z.of_nat p) by (apply Z.div_pos; lia).
  assert (10 ^ Z.of_nat p <= 10 ^ 9) by (apply Z.pow_le_mono_r; lia). change Second with 1000000000 in *.
  erewrite parse_segments_step; [| apply itoa_app_nonempty | apply parse_fraction; nia || done | nia..].
  destruct m; simpl; f_equal; lia.
Qed.

(** Linear arithmetic over the units. *)
Ltac dur_lia := change Minute with 60000000000 in *; change Second with 1000000000 in *; lia.

Section from_one_second.
Context (orig : string) (u : Z) (Hu : Second <= u <= 2 ^ 63).

Definition secs : Z := u / Second.

Definition secs_text : string := itoa_nonneg (secs mod 60) +:+ (fmt_frac 9 u false "s").1.

Definition mins_text : string := itoa_nonneg ((secs / 60) mod 60) +:+ ("m" +:+ secs_text).

Lemma secs_split : 0 <= secs mod 60 < 60 ∧ 0 <= (secs / 60) mod 60 < 60 ∧ 0 <= secs / 60 / 60 ∧ 0 <= u mod Second ∧
  u = secs / 60 / 60 * (60 * Minute) + (secs / 60) mod 60 * Minute + ((secs mod 60) * Second + u mod Second).
Proof.
  pose proof (Z.div_mod u Second). pose proof (Z.mod_pos_bound u Second). fold secs in *.
  pose proof (Z.div_mod secs 60). pose proof (Z.mod_pos_bound secs 60).
  pose proof (Z.div_mod (secs / 60) 60). pose proof (Z.mod_pos_bound (secs / 60) 60).
  change Minute with (60 * Second). change Second with 1000000000 in *. lia.
Qed.

Lemma parse_secs m d : 0 <= d → d + ((secs mod 60) * Second + u mod Second) <= 2 ^ 63 →
  parse_segments (S m) orig secs_text d = Ok (d + ((secs mod 60) * Second + u mod Second)).
Proof.
  intros Hd Hb. destruct secs_split as (? & _ & _ & ? & _).
  rewrite (parse_segments_step m orig secs_text d ((secs mod 60) * Second + u mod Second) "");
    [by destruct m|apply itoa_app_nonempty| |done| |done].
  - apply (parse_fraction orig _ 9); try done; change Second with 1000000000 in *; lia.
  - change Second with 1000000000 in *. lia.
Qed.

Lemma parse_mins m d : 0 <= d →
  d + ((secs / 60) mod 60 * Minute + ((secs mod 60) * Second + u mod Second)) <= 2 ^ 63 →
  parse_segments (S (S m)) orig mins_text d
  = Ok (d + ((secs / 60) mod 60 * Minute + ((secs mod 60) * Second + u mod Second))).
Proof.
  intros Hd Hb. destruct secs_split as (? & ? & _ & ? & _).
  rewrite (parse_segments_step (S m) orig mins_text d ((secs / 60) mod 60 * Minute) secs_text);
    [|apply itoa_app_nonempty|apply parse_whole; try done; [dur_lia..|apply itoa_stops; lia]|dur_lia..].
  rewrite parse_secs by dur_lia. f_equal. lia.
Qed.

Lemma parse_hours m :
  parse_segments (S (S (S m))) orig (itoa_nonneg (secs / 60 / 60) +:+ ("h" +:+ mins_text)) 0 = Ok u.
Proof.
  destruct secs_split as (? & ? & ? & ? & Heq).
  rewrite (parse_segments_step (S (S m)) orig _ 0 (secs / 60 / 60 * (60 * Minute)) mins_text);
    [|apply itoa_app_nonempty|apply parse_whole; try done; [dur_lia..|apply itoa_stops; lia]|dur_lia..].
  rewrite parse_mins by dur_lia. f_equal. lia.
Qed.

(** The printed text, by its number of segments. *)
Lemma long_string : duration_abs_string u =
  if 0 <? secs / 60 then
    if 0 <? secs / 60 / 60 then itoa_nonneg (secs / 60 / 60) +:+ ("h" +:+ mins_text) else mins_text
  else secs_text.
Proof.
  unfold duration_abs_string. change Second with 1000000000 in *.
  rewrite (proj2 (Z.eqb_neq u 0)), (proj2 (Z.ltb_ge u 1000000000)) by lia.
  assert (Hs : (fmt_frac 9 u false "s").2 = secs).
  { destruct (fmt_frac_trim 9 u "s") as [[_ ->]|(k & _ & _ & ->)]; [lia|done..]. }
  unfold mins_text, secs_text. destruct (fmt_frac 9 u false "s") as [frac v]. cbn [fst snd] in *. by subst v.
Qed.

Lemma length_itoa_app v s : ∃ n, String.length (itoa_nonneg v +:+ s) = S (n + String.length s).
Proof.
  pose proof (itoa_nonneg_nonempty v). rewrite length_append. destruct (itoa_nonneg v) as [|c t]; [done|].
  exists (String.length t). done.
Qed.

Lemma parse_long : parse_segments (String.length (duration_abs_string u)) orig (duration_abs_string u) 0 = Ok u.
Proof.
  rewrite long_string. destruct secs_split as (? & ? & ? & ? & Heq).
  pose proof (length_itoa_app (secs mod 60) (fmt_frac 9 u false "s").1) as [n1 Hn1]. fold secs_text in Hn1.
  pose proof (length_itoa_app ((secs / 60) mod 60) ("m" +:+ secs_text)) as [n2 Hn2]. fold mins_text in Hn2.
  rewrite length_append, Hn1 in Hn2. change (String.length "m") with 1%nat in Hn2.
  destruct (Z.ltb_spec 0 (secs / 60)) as [Hm|Hm]; [destruct (Z.ltb_spec 0 (secs / 60 / 60)) as [Hh|Hh]|].
  - destruct (length_itoa_app (secs / 60 / 60) ("h" +:+ mins_text)) as [n3 Hn3].
    rewrite Hn3, length_append, Hn2, !Nat.add_succ_r. apply parse_hours.
  - rewrite Hn2, !Nat.add_succ_r, parse_mins by dur_lia. f_equal. dur_lia.
  - assert (secs / 60 = 0) as Hz by (pose proof (Z.div_mod (secs / 60) 60); lia).
    rewrite Hz in *. change (0 mod 60) with 0 in *. change (0 / 60) with 0 in *.
    rewrite Hn1, parse_secs by dur_lia. f_equal. lia.
Qed.
End from_one_second.

Lemma fmt_frac_parts p v buf : 0 <= v → buf ≠ "" →
  (fmt_frac p v false buf).1 ≠ "" ∧ (fmt_frac p v false buf).2 = v / 10 ^ Z.of_nat p.
Proof. intros Hv Hb. by destruct (fmt_frac_trim p v buf Hv) as [[_ ->]|(k & _ & _ & ->)]. Qed.

Lemma short_string u : 0 < u < Second →
  ∃ p unit, (p <= 9)%nat ∧ unit ≠ "" ∧ unitMap unit = Some (10 ^ Z.of_nat p) ∧ all_bytes unit_char unit = true ∧
    duration_abs_string u = itoa_nonneg (u / 10 ^ Z.of_nat p) +:+ (fmt_frac p u false unit).1.
Proof.
  intros Hu. unfold duration_abs_string. rewrite (proj2 (Z.eqb_neq u 0)), (proj2 (Z.ltb_lt u Second)) by lia.
  assert (Hsnd : ∀ p unit, unit ≠ "" → (let '(frac, v) := fmt_frac p u false unit in itoa_nonneg v +:+ frac)
    = itoa_nonneg (u / 10 ^ Z.of_nat p) +:+ (fmt_frac p u false unit).1).
  { intros p unit Hn. destruct (fmt_frac_parts p u unit ltac:(lia) Hn) as [_ <-]. by destruct (fmt_frac p u false unit). }
  destruct (u <? Microsecond); [|destruct (u <? Millisecond)].
  - exists 0%nat, "ns". split_and!; [lia|done..|by apply Hsnd].
  - exists 3%nat, micro_sign. split_and!; [lia|done..|by apply Hsnd].
  - exists 6%nat, "ms". split_and!; [lia|done..|by apply Hsnd].
Qed.

Lemma duration_abs_parses orig u : 0 < u <= 2 ^ 63 →
  parse_segments (String.length (duration_abs_string u)) orig (duration_abs_string u) 0 = Ok u.
Proof.
  intros Hu. destruct (Z.lt_ge_cases u Second); [|apply parse_long; lia].
  destruct (short_string u) as (p & unit & Hp & Hne & Hm & Hc & ->); [lia|].
  destruct (length_itoa_app (u / 10 ^ Z.of_nat p) (fmt_frac p u false unit).1) as [n ->].
  apply parse_below_second; done || lia.
Qed.

(** A printed duration is a number followed by something. *)
Lemma duration_abs_head u : 0 < u <= 2 ^ 63 → ∃ v t, 0 <= v ∧ t ≠ "" ∧ duration_abs_string u = itoa_nonneg v +:+ t.
Proof.
  intros Hu. destruct (Z.lt_ge_cases u Second).
  - destruct (short_string u) as (p & unit & _ & Hne & _ & _ & ->); [lia|]. eexists _, _. split; [|split; [|done]].
    + apply Z.div_pos; [lia|]. apply Z.pow_pos_nonneg; lia.
    + apply fmt_frac_parts; [lia|done].
  - rewrite long_string by lia. destruct (secs_split u) as (? & ? & ? & _); [lia|].
    destruct (0 <? secs u / 60); [destruct (0 <? secs u / 60 / 60)|]; eexists _, _;
      (split; [|split; [|reflexivity]]); try lia; try done.
    apply fmt_frac_parts; [lia|done].
Qed.

Lemma ParseDuration_abs u : 0 < u <= 2 ^ 63 → u < 2 ^ 63 → ParseDuration (duration_abs_string u) = Ok u.
Proof.
  intros Hu Hmax. unfold ParseDuration. pose proof (duration_abs_parses (duration_abs_string u) u Hu) as Hp.
  destruct (duration_abs_head u Hu) as (v & t & Hv & Ht & Heq).
  destruct (itoa_head v t Hv) as (c & s & Hcs & Hc). rewrite Heq, Hcs in *. unfold is_digit in Hc.
  rewrite (proj2 (Z.eqb_neq _ 45)), (proj2 (Z.eqb_neq _ 43)) by lia.
  rewrite decide_False, decide_False, Hp; [|done|].
  - by destruct (Z.ltb_spec (2 ^ 63 - 1) u); [lia|].
  - intros [= -> ->]. pose proof (itoa_nonneg_nonempty v). destruct (itoa_nonneg v) as [|c' s'] eqn:Hi; [done|].
    destruct s'; simpl in Hcs; by simplify_eq.
Qed.

(** time.ParseDuration reads back every duration that Duration.String prints. *)
Lemma ParseDuration_string d : in_int64 d → ParseDuration (duration_string d) = Ok d.
Proof.
  intros Hd. unfold in_int64 in Hd. unfold duration_string.
  destruct (Z.ltb_spec d 0) as [Hneg|Hpos].
  - rewrite Z.abs_neq by lia. change ("-" +:+ ?s) with (String "-"%char s).
    pose proof (duration_abs_parses (String "-"%char (duration_abs_string (- d))) (- d) ltac:(lia)) as Hp.
    destruct (duration_abs_head (- d)) as (v & t & Hv & Ht & Heq); [lia|].
    unfold ParseDuration. change (byte_val "-"%char =? 45) with true. cbv match.
    rewrite decide_False, decide_False, Hp.
    + rewrite int64_id; [f_equal; lia|unfold in_int64; lia].
    + rewrite Heq. apply itoa_app_nonempty.
    + rewrite Heq. pose proof (itoa_nonneg_nonempty v). destruct (itoa_nonneg v) as [|c' s'] eqn:Hi; [done|].
      destruct s'; simpl; intros [=]; by subst.
  - rewrite Z.abs_eq by lia. destruct (Z.eq_dec d 0) as [->|]; [vm_compute; reflexivity|].
    apply ParseDuration_abs; lia.
Qed.
