(* ===== verification/Flags.v ===== *)
(** * Command-line flags

    The commands declare their flags with spf13/pflag and mark some as required with cobra.
    Neither is part of the repository: [Pflag] is the parser they provide, [PflagLaws] its
    documented behaviour on the command lines that matter here, those made of [--name value] pairs
    and of switches, and [SimpleFlags] an instance. *)

From Stdlib Require Import String.
From S2P Require Import Prelude GoText GoDuration.

Open Scope Z_scope.

Inductive flag_value :=
| VString (s : string)
| VInt (z : Z)
| VDuration (d : Duration)
| VBool (b : bool)
| VStrings (l : list string).

(** A flag is declared with its default, whose shape is its type. *)
Record flag := mkFlag { fl_name : string; fl_default : flag_value }.

Notation flags_map := (gmap string flag_value).

(** The values a command starts from, the defaults of its flags. *)
Definition defaults (fs : list flag) : flags_map := list_to_map ((λ f, (fl_name f, fl_default f)) <$> fs).

(** One flag of a command line with the value it is given. *)
Inductive setting :=
| Assign (name text : string) (v : flag_value)
| Switch (name : string).

Definition setting_name (s : setting) : string := match s with Assign n _ _ => n | Switch n => n end.

Definition setting_value (s : setting) : flag_value := match s with Assign _ _ v => v | Switch _ => VBool true end.

Definition render (s : setting) : list string :=
  match s with Assign n text _ => ["--" +:+ n; text] | Switch n => ["--" +:+ n] end.

Definition command_line (ss : list setting) : list string := concat (render <$> ss).

(** Later settings win. *)
Definition assign (m : flags_map) (s : setting) : flags_map := <[ setting_name s := setting_value s ]> m.

Definition assigned (fs : list flag) (ss : list setting) : flags_map := foldl assign (defaults fs) ss.

(** What a text is read as, by the type of the flag: strings as they are, decimal integers, and
    durations as time.ParseDuration reads them. *)
Definition reads_as (default : flag_value) (text : string) (v : flag_value) : Prop :=
  match default with
  | VString _ => v = VString text
  | VInt _ => ∃ z, in_int64 z ∧ text = itoa z ∧ v = VInt z
  | VDuration _ => ∃ d, ParseDuration text = Ok d ∧ v = VDuration d
  | _ => False
  end.

Definition well_formed (fs : list flag) (s : setting) : Prop :=
  match s with
  | Assign n text v => ∃ f, f ∈ fs ∧ fl_name f = n ∧ reads_as (fl_default f) text v
  | Switch n => ∃ f b, f ∈ fs ∧ fl_name f = n ∧ fl_default f = VBool b
  end.

(** The declared flags, those marked required, and the arguments. *)
Class Pflag := { ParseFlags : list flag → list string → list string → res flags_map }.

Class PflagLaws `{Pflag} : Prop := {
  parse_settings : ∀ fs required ss,
    NoDup (fl_name <$> fs) → Forall (well_formed fs) ss → required ⊆ (setting_name <$> ss) →
    ParseFlags fs required (command_line ss) = Ok (assigned fs ss)
}.

(** ** Reading values back *)

Definition get_string (m : flags_map) (n : string) : string :=
  match m !! n with Some (VString s) => s | _ => "" end.

Definition get_int (m : flags_map) (n : string) : Z := match m !! n with Some (VInt z) => z | _ => 0 end.

Definition get_duration (m : flags_map) (n : string) : Duration :=
  match m !! n with Some (VDuration d) => d | _ => 0 end.

Definition get_bool (m : flags_map) (n : string) : bool := match m !! n with Some (VBool b) => b | _ => false end.

Definition get_strings (m : flags_map) (n : string) : list string :=
  match m !! n with Some (VStrings l) => l | _ => [] end.

(** The value the settings give a flag, if any. *)
Fixpoint setting_for (n : string) (ss : list setting) : option flag_value :=
  match ss with
  | [] => None
  | s :: rest =>
      match setting_for n rest with
      | Some v => Some v
      | None => if String.eqb (setting_name s) n then Some (setting_value s) else None
      end
  end.

Lemma setting_for_app n l k :
  setting_for n (l ++ k) = match setting_for n k with Some v => Some v | None => setting_for n l end.
Proof. induction l as [|s l IH]; simpl; [by destruct (setting_for n k)|]. rewrite IH. by destruct (setting_for n k). Qed.

Lemma assigned_lookup fs ss n :
  assigned fs ss !! n = match setting_for n ss with Some v => Some v | None => defaults fs !! n end.
Proof.
  unfold assigned. generalize (defaults fs). induction ss as [|s ss IH]; intros m; simpl; [done|].
  rewrite IH. destruct (setting_for n ss); [done|]. unfold assign.
  destruct (String.eqb_spec (setting_name s) n) as [->|Hne].
  - by rewrite lookup_insert, decide_True.
  - by rewrite lookup_insert_ne.
Qed.

(** ** Settings by type of flag *)

Definition find_flag (fs : list flag) (n : string) : option flag := head (filter (λ f, fl_name f = n) fs).

Lemma find_flag_Some fs n f : find_flag fs n = Some f → f ∈ fs ∧ fl_name f = n.
Proof.
  unfold find_flag. intros Hf. apply head_Some_elem_of in Hf. apply list_elem_of_filter in Hf. tauto.
Qed.

Definition text (n s : string) : setting := Assign n s (VString s).

Definition number (n : string) (z : Z) : setting := Assign n (itoa z) (VInt z).

Definition period (n : string) (d : Duration) : setting := Assign n (duration_string d) (VDuration d).

(** The declared default of a flag, when there is one. *)
Definition declared (fs : list flag) (n : string) : option flag_value := fl_default <$> find_flag fs n.

Lemma declared_flag fs n v : declared fs n = Some v → ∃ f, f ∈ fs ∧ fl_name f = n ∧ fl_default f = v.
Proof.
  unfold declared. destruct (find_flag fs n) as [f|] eqn:Hf; [|done]. intros [= <-].
  apply find_flag_Some in Hf as [? ?]. by exists f.
Qed.

Lemma text_wf fs n s d : declared fs n = Some (VString d) → well_formed fs (text n s).
Proof. intros (f & ? & ? & Hd)%declared_flag. exists f. by rewrite Hd. Qed.

Lemma number_wf fs n z d : declared fs n = Some (VInt d) → in_int64 z → well_formed fs (number n z).
Proof. intros (f & ? & ? & Hd)%declared_flag Hz. exists f. rewrite Hd. split_and!; [done..|]. by exists z. Qed.

Lemma period_wf fs n p d : declared fs n = Some (VDuration d) → in_int64 p → well_formed fs (period n p).
Proof.
  intros (f & ? & ? & Hd)%declared_flag Hp. exists f. rewrite Hd. split_and!; [done..|].
  exists p. split; [by apply ParseDuration_string|done].
Qed.

Lemma switch_wf fs n b : declared fs n = Some (VBool b) → well_formed fs (Switch n).
Proof. intros (f & ? & ? & Hd)%declared_flag. by exists f, b. Qed.

(** A setting that is left out when [b] is false. *)
Definition optional (b : bool) (s : setting) : list setting := if b then [s] else [].

Lemma setting_for_optional n b s :
  setting_for n (optional b s) = if b && String.eqb (setting_name s) n then Some (setting_value s) else None.
Proof. by destruct b. Qed.

(** ** A simple parser *)

Definition read_value (default : flag_value) (text : string) : res flag_value :=
  match default with
  | VString _ => Ok (VString text)
  | VInt _ => z ← Atoi text; mret (VInt z)
  | VDuration _ => d ← ParseDuration text; mret (VDuration d)
  | _ => Err (errorf "unsupported flag type")
  end.

Fixpoint parse_args (fs : list flag) (args : list string) (m : flags_map) (seen : list string) :
    res (flags_map * list string) :=
  match args with
  | [] => Ok (m, seen)
  | a :: rest =>
      match (n ← CutPrefix a "--"; find_flag fs n) with
      | None => Err (errorf ("unknown flag: " +:+ a))
      | Some f =>
          match fl_default f with
          | VBool _ => parse_args fs rest (<[ fl_name f := VBool true ]> m) (seen ++ [fl_name f])
          | d =>
              match rest with
              | [] => Err (errorf ("flag needs an argument: " +:+ a))
              | text :: rest =>
                  v ← read_value d text;
                  parse_args fs rest (<[ fl_name f := v ]> m) (seen ++ [fl_name f])
              end
          end
      end
  end.

#[local] Instance SimpleFlags : Pflag := {|
  ParseFlags fs required args :=
    '(m, seen) ← parse_args fs args (defaults fs) [];
    if decide (required ⊆ seen) then Ok m else Err (errorf "required flag(s) not set")
|}.

Lemma find_flag_in fs f : NoDup (fl_name <$> fs) → f ∈ fs → find_flag fs (fl_name f) = Some f.
Proof.
  unfold find_flag. induction fs as [|g fs IH]; intros Hnd Hin; [by apply elem_of_nil in Hin|].
  rewrite fmap_cons in Hnd. apply NoDup_cons in Hnd as [Hg Hnd]. rewrite filter_cons.
  apply elem_of_cons in Hin as [<-|Hin]; [by rewrite decide_True|].
  rewrite decide_False; [by apply IH|]. intros Heq. apply Hg. rewrite Heq. by apply list_elem_of_fmap_2.
Qed.

Lemma read_value_reads d text v : reads_as d text v → read_value d text = Ok v ∧ ∀ b, d ≠ VBool b.
Proof.
  destruct d as [s0|z0|d0|b0|l0]; simpl; try done.
  - by intros ->.
  - intros (z & Hz & -> & ->). by rewrite Atoi_itoa.
  - by intros (d' & -> & ->).
Qed.

Lemma parse_args_settings fs ss m seen : NoDup (fl_name <$> fs) → Forall (well_formed fs) ss →
  parse_args fs (command_line ss) m seen = Ok (foldl assign m ss, seen ++ (setting_name <$> ss)).
Proof.
  intros Hnd Hss. revert m seen. induction Hss as [|s ss Hs _ IH]; intros m seen.
  { simpl. by rewrite app_nil_r. }
  unfold command_line. rewrite fmap_cons. cbn [concat]. fold (command_line ss).
  destruct s as [n text v|n]; simpl in Hs.
  - destruct Hs as (f & Hf & <- & Hv). apply read_value_reads in Hv as [Hv Hd]. cbn [render app parse_args].
    rewrite CutPrefix_app. cbn [mbind option_bind]. rewrite (find_flag_in fs f Hnd Hf).
    destruct (fl_default f) eqn:Hdef; try (by destruct (Hd b)); rewrite Hv; cbn [mbind res_bind setting_name]; rewrite IH; simpl;
      by rewrite <- app_assoc.
  - destruct Hs as (f & b & Hf & <- & Hd). cbn [render app parse_args].
    rewrite CutPrefix_app. cbn [mbind option_bind]. rewrite (find_flag_in fs f Hnd Hf), Hd, IH. simpl. by rewrite <- app_assoc.
Qed.

#[export] Instance SimpleFlagsLaws : PflagLaws.
Proof.
  split. intros fs required ss Hnd Hss Hreq. simpl. rewrite parse_args_settings by done. cbn.
  by rewrite decide_True.
Qed.
