(* ===== verification/Api.v ===== *)
(** * The ScaleValidation API (api/v1beta1)

    The records of api/v1beta1/scalevalidation_types.go, field by field.  The closed value sets
    of the API are named string types in Go ("every one is a string underneath"); they are the
    same here, so that code reading a value outside the set behaves as it does in Go. Pointers
    to optional values are [option]s. *)

From S2P Require Import Prelude.

Open Scope Z_scope.

(** ** Named string types and their constants *)

Definition TargetMode := string.
Definition TargetModeServiceDefault : TargetMode := "ServiceDefault".
Definition TargetModeAutoDiscoverProbe : TargetMode := "AutoDiscoverProbe".
Definition TargetModeCustomPath : TargetMode := "CustomPath".

Definition NetworkPath := string.
Definition NetworkPathClusterIP : NetworkPath := "ClusterIP".
Definition NetworkPathIngress : NetworkPath := "Ingress".
Definition NetworkPathGateway : NetworkPath := "Gateway".

Definition Protocol := string.
Definition ProtocolHTTP1 : Protocol := "HTTP1".
Definition ProtocolHTTP2 : Protocol := "HTTP2".
Definition ProtocolGRPC : Protocol := "GRPC".

Definition LoadPattern := string.
Definition LoadPatternConstant : LoadPattern := "Constant".
Definition LoadPatternPoisson : LoadPattern := "Poisson".
Definition LoadPatternRamp : LoadPattern := "Ramp".
Definition LoadPatternStep : LoadPattern := "Step".
Definition LoadPatternSpike : LoadPattern := "Spike".

Definition Severity := string.
Definition SeverityInfo : Severity := "Info".
Definition SeverityWarning : Severity := "Warning".
Definition SeverityCritical : Severity := "Critical".

Definition Verdict := string.
Definition VerdictPass : Verdict := "Pass".
Definition VerdictFail : Verdict := "Fail".
Definition VerdictUnknown : Verdict := "Unknown".

Definition Phase := string.
Definition PhasePending : Phase := "Pending".
Definition PhaseRunning : Phase := "Running".
Definition PhaseSucceeded : Phase := "Succeeded".
Definition PhaseFailed : Phase := "Failed".
Definition PhaseError : Phase := "Error".
Definition PhaseTerminating : Phase := "Terminating".

Definition FailureRateScale : Z := 10000.

Definition RunHistoryLimit : nat := 10.

(** ** Spec *)

Record CrossVersionObjectReference := mkRef {
  ref_APIVersion : string;
  ref_Kind : string;
  ref_Name : string
}.

Record GRPCConfig := mkGRPC { grpc_Service : string }.

Record ConfigMapKeyRef := mkCMRef { cm_Name : string; cm_Key : string }.

Record CABundleSource := mkCABundle { ca_ConfigMapRef : ConfigMapKeyRef }.

Record TLSConfig := mkTLS {
  tls_InsecureSkipVerify : bool;
  tls_CABundle : option CABundleSource
}.

Record TargetConfig := mkTarget {
  tc_Mode : TargetMode;
  tc_CustomPath : string;
  tc_Port : Z;
  tc_NetworkPath : NetworkPath;
  tc_Host : string;
  tc_Protocol : Protocol;
  tc_GRPC : option GRPCConfig;
  tc_TLS : option TLSConfig
}.

Record SpikeWindow := mkSpike {
  sw_At : Duration;
  sw_Duration : Duration;
  sw_RPS : Z
}.

Record LoadProfile := mkProfile {
  lp_Pattern : LoadPattern;
  lp_EndRPS : option Z;
  lp_RampDuration : option Duration;
  lp_StepRPS : option Z;
  lp_StepDuration : option Duration;
  lp_Spikes : list SpikeWindow
}.

Record LoadConfig := mkLoad {
  lc_BaseRPS : Z;
  lc_ConcurrencyFactor : Z;
  lc_Concurrency : Z;
  lc_WarmupDuration : option Duration;
  lc_Profile : option LoadProfile
}.

Record DisruptionConfig := mkDisruption {
  dc_InjectPodDeletion : bool;
  dc_MinReplicasForChaos : Z;
  dc_TriggerDelay : option Duration
}.

Record ScaleValidationSpec := mkSpec {
  sp_TargetRef : CrossVersionObjectReference;
  sp_SLA : Duration;
  sp_Target : TargetConfig;
  sp_Load : LoadConfig;
  sp_Disruption : option DisruptionConfig;
  sp_Schedule : string;
  sp_Suspend : bool
}.

(** ** Status *)

Record DiagnosticAlert := mkAlert {
  da_Type : string;
  da_Severity : Severity;
  da_Message : string;
  da_Recommendation : string
}.

Record RunSummary := mkRun {
  rs_FinishedAt : Time;
  rs_Phase : Phase;
  rs_SLAStatus : Verdict;
  rs_TrafficIntegrity : Verdict;
  rs_FailureRateBasisPoints : Z
}.

(** What the code writes of a metav1.Condition (its LastTransitionTime is filled in by the API
    machinery and never read here). *)
Record Condition := mkCondition {
  cd_Type : string;
  cd_Status : string;
  cd_ObservedGeneration : Z;
  cd_Reason : string;
  cd_Message : string
}.

Record ScaleValidationStatus := mkStatus {
  st_Phase : Phase;
  st_ScaleUpDuration : option Duration;
  st_SLAStatus : Verdict;
  st_TrafficIntegrity : Verdict;
  st_TotalRequests : Z;
  st_FailedRequests : Z;
  st_FailureRateBasisPoints : Z;
  st_Diagnostics : list DiagnosticAlert;
  st_LastRunTime : option Time;
  st_History : list RunSummary;
  st_NextRunTime : option Time;
  st_ObservedGeneration : Z;
  st_Conditions : list Condition
}.

(** ** The object *)

(** The part of metav1.ObjectMeta the reconcilers read or write. *)
Record ObjectMeta := mkMeta {
  om_Name : string;
  om_Namespace : string;
  om_Generation : Z;
  om_CreationTimestamp : Time;
  om_DeletionTimestamp : option Time;
  om_Labels : gmap string string;
  om_Annotations : gmap string string;
  om_OwnerReferences : list string;
  om_Finalizers : list string
}.

(** A metav1.ObjectMeta literal that sets the name, the namespace and the labels. *)
Definition new_meta (name namespace : string) (labels : gmap string string) : ObjectMeta :=
  mkMeta name namespace 0 zeroTime None labels ∅ [] [].

Record ScaleValidation := mkSV {
  sv_Meta : ObjectMeta;
  sv_Spec : ScaleValidationSpec;
  sv_Status : ScaleValidationStatus
}.

#[export] Instance alert_eq_dec : EqDecision DiagnosticAlert.
Proof. solve_decision. Defined.

#[export] Instance run_summary_eq_dec : EqDecision RunSummary.
Proof. solve_decision. Defined.

#[export] Instance condition_eq_dec : EqDecision Condition.
Proof. solve_decision. Defined.

(** ** Field updates *)

Definition set_Finalizers (f : list string) (m : ObjectMeta) : ObjectMeta :=
  mkMeta (om_Name m) (om_Namespace m) (om_Generation m) (om_CreationTimestamp m)
    (om_DeletionTimestamp m) (om_Labels m) (om_Annotations m) (om_OwnerReferences m) f.

Definition set_Meta (m : ObjectMeta) (cr : ScaleValidation) : ScaleValidation :=
  mkSV m (sv_Spec cr) (sv_Status cr).

Definition set_Status (s : ScaleValidationStatus) (cr : ScaleValidation) : ScaleValidation :=
  mkSV (sv_Meta cr) (sv_Spec cr) s.

Definition set_Phase (p : Phase) (s : ScaleValidationStatus) : ScaleValidationStatus :=
  mkStatus p (st_ScaleUpDuration s) (st_SLAStatus s) (st_TrafficIntegrity s) (st_TotalRequests s)
    (st_FailedRequests s) (st_FailureRateBasisPoints s) (st_Diagnostics s) (st_LastRunTime s)
    (st_History s) (st_NextRunTime s) (st_ObservedGeneration s) (st_Conditions s).

(** The result fields written together by one run. *)
Definition set_Results (up : option Duration) (sla traffic : Verdict) (total failed bp : Z)
    (s : ScaleValidationStatus) : ScaleValidationStatus :=
  mkStatus (st_Phase s) up sla traffic total failed bp (st_Diagnostics s) (st_LastRunTime s)
    (st_History s) (st_NextRunTime s) (st_ObservedGeneration s) (st_Conditions s).

Definition set_Diagnostics (d : list DiagnosticAlert) (s : ScaleValidationStatus) : ScaleValidationStatus :=
  mkStatus (st_Phase s) (st_ScaleUpDuration s) (st_SLAStatus s) (st_TrafficIntegrity s) (st_TotalRequests s)
    (st_FailedRequests s) (st_FailureRateBasisPoints s) d (st_LastRunTime s)
    (st_History s) (st_NextRunTime s) (st_ObservedGeneration s) (st_Conditions s).

Definition set_LastRunTime (t : option Time) (s : ScaleValidationStatus) : ScaleValidationStatus :=
  mkStatus (st_Phase s) (st_ScaleUpDuration s) (st_SLAStatus s) (st_TrafficIntegrity s) (st_TotalRequests s)
    (st_FailedRequests s) (st_FailureRateBasisPoints s) (st_Diagnostics s) t
    (st_History s) (st_NextRunTime s) (st_ObservedGeneration s) (st_Conditions s).

Definition set_History (h : list RunSummary) (s : ScaleValidationStatus) : ScaleValidationStatus :=
  mkStatus (st_Phase s) (st_ScaleUpDuration s) (st_SLAStatus s) (st_TrafficIntegrity s) (st_TotalRequests s)
    (st_FailedRequests s) (st_FailureRateBasisPoints s) (st_Diagnostics s) (st_LastRunTime s)
    h (st_NextRunTime s) (st_ObservedGeneration s) (st_Conditions s).

Definition set_NextRunTime (t : option Time) (s : ScaleValidationStatus) : ScaleValidationStatus :=
  mkStatus (st_Phase s) (st_ScaleUpDuration s) (st_SLAStatus s) (st_TrafficIntegrity s) (st_TotalRequests s)
    (st_FailedRequests s) (st_FailureRateBasisPoints s) (st_Diagnostics s) (st_LastRunTime s)
    (st_History s) t (st_ObservedGeneration s) (st_Conditions s).

Definition set_ObservedGeneration (g : Z) (s : ScaleValidationStatus) : ScaleValidationStatus :=
  mkStatus (st_Phase s) (st_ScaleUpDuration s) (st_SLAStatus s) (st_TrafficIntegrity s) (st_TotalRequests s)
    (st_FailedRequests s) (st_FailureRateBasisPoints s) (st_Diagnostics s) (st_LastRunTime s)
    (st_History s) (st_NextRunTime s) g (st_Conditions s).

Definition set_Conditions (c : list Condition) (s : ScaleValidationStatus) : ScaleValidationStatus :=
  mkStatus (st_Phase s) (st_ScaleUpDuration s) (st_SLAStatus s) (st_TrafficIntegrity s) (st_TotalRequests s)
    (st_FailedRequests s) (st_FailureRateBasisPoints s) (st_Diagnostics s) (st_LastRunTime s)
    (st_History s) (st_NextRunTime s) (st_ObservedGeneration s) c.

(** Update of the status of an object in place. *)
Definition on_Status (f : ScaleValidationStatus → ScaleValidationStatus) (cr : ScaleValidation) : ScaleValidation :=
  set_Status (f (sv_Status cr)) cr.

(** Shorthands for the chains of selectors the code writes. *)
Definition sv_Name (cr : ScaleValidation) : string := om_Name (sv_Meta cr).
Definition sv_Namespace (cr : ScaleValidation) : string := om_Namespace (sv_Meta cr).
Definition sv_Generation (cr : ScaleValidation) : Z := om_Generation (sv_Meta cr).
Definition sv_TargetRef (cr : ScaleValidation) : CrossVersionObjectReference := sp_TargetRef (sv_Spec cr).
Definition sv_Phase (cr : ScaleValidation) : Phase := st_Phase (sv_Status cr).
Definition sv_Conditions (cr : ScaleValidation) : list Condition := st_Conditions (sv_Status cr).
