(* ===== verification/DeepCopy.v ===== *)
(** * Deep copies of the API types (api/v1beta1/zz_generated.deepcopy.go)

    Client libraries hand out objects of a shared cache as deep copies, so that a reconcile pass
    may edit what it reads.  The structs are modelled as they lie in memory: a record takes its
    representation of pointers, slices and library types as a parameter, and has two instances,
    [mem] with locations in a [Heap] and [value] with everything read out.  The generated
    functions are programs over the heap, statement by statement.

    The types of k8s.io/apimachinery that the API embeds copy themselves; they are a class
    [ApiMachinery] with the law that their copies are deep. *)

From S2P Require Import Prelude Api Heap.

Open Scope Z_scope.

(** metav1.TypeMeta *)
Record TypeMeta := mkTypeMeta { tm_Kind : string; tm_APIVersion : string }.

(** The types of apimachinery that the API types hold. *)
Inductive lib := LObjectMeta | LListMeta | LCondition | LTime.

#[export] Instance lib_eq_dec : EqDecision lib.
Proof. solve_decision. Defined.

(** [lib_mem] is such a type in memory, [lib_value] with what it points to, [lib_code] the types
    of the cells of its own. *)
Class LibTypes := {
  lib_mem : lib → Type;
  lib_value : lib → Type;
  lib_zero l : lib_mem l;
  lib_code : Type;
  lib_code_eq_dec :: EqDecision lib_code;
  lib_denote : lib_code → Type
}.

(** ** The structs *)

(** How a struct represents a pointer to a [T], a slice of [T]s and a library type. *)
Record rep := mkRep { r_ptr : Type → Type; r_slice : Type → Type; r_lib : lib → Type }.

#[projections(primitive)] Record RunSummary (R : rep) := mkRunSummary {
  RunSummary_FinishedAt : r_lib R LTime;
  RunSummary_Phase : Phase;
  RunSummary_SLAStatus : Verdict;
  RunSummary_TrafficIntegrity : Verdict;
  RunSummary_FailureRateBasisPoints : Z
}.

#[projections(primitive)] Record LoadProfile (R : rep) := mkLoadProfile {
  LoadProfile_Pattern : LoadPattern;
  LoadProfile_EndRPS : r_ptr R Z;
  LoadProfile_RampDuration : r_ptr R Duration;
  LoadProfile_StepRPS : r_ptr R Z;
  LoadProfile_StepDuration : r_ptr R Duration;
  LoadProfile_Spikes : r_slice R SpikeWindow
}.

#[projections(primitive)] Record LoadConfig (R : rep) := mkLoadConfig {
  LoadConfig_BaseRPS : Z;
  LoadConfig_ConcurrencyFactor : Z;
  LoadConfig_Concurrency : Z;
  LoadConfig_WarmupDuration : r_ptr R Duration;
  LoadConfig_Profile : r_ptr R (LoadProfile R)
}.

#[projections(primitive)] Record DisruptionConfig (R : rep) := mkDisruptionConfig {
  DisruptionConfig_InjectPodDeletion : bool;
  DisruptionConfig_MinReplicasForChaos : Z;
  DisruptionConfig_TriggerDelay : r_ptr R Duration
}.

#[projections(primitive)] Record TLSConfig (R : rep) := mkTLSConfig {
  TLSConfig_InsecureSkipVerify : bool;
  TLSConfig_CABundle : r_ptr R CABundleSource
}.

#[projections(primitive)] Record TargetConfig (R : rep) := mkTargetConfig {
  TargetConfig_Mode : TargetMode;
  TargetConfig_CustomPath : string;
  TargetConfig_Port : Z;
  TargetConfig_NetworkPath : NetworkPath;
  TargetConfig_Host : string;
  TargetConfig_Protocol : Protocol;
  TargetConfig_GRPC : r_ptr R GRPCConfig;
  TargetConfig_TLS : r_ptr R (TLSConfig R)
}.

#[projections(primitive)] Record ScaleValidationSpec (R : rep) := mkScaleValidationSpec {
  ScaleValidationSpec_TargetRef : CrossVersionObjectReference;
  ScaleValidationSpec_SLA : Duration;
  ScaleValidationSpec_Target : TargetConfig R;
  ScaleValidationSpec_Load : LoadConfig R;
  ScaleValidationSpec_Disruption : r_ptr R (DisruptionConfig R);
  ScaleValidationSpec_Schedule : string;
  ScaleValidationSpec_Suspend : bool
}.

#[projections(primitive)] Record ScaleValidationStatus (R : rep) := mkScaleValidationStatus {
  ScaleValidationStatus_Phase : Phase;
  ScaleValidationStatus_ScaleUpDuration : r_ptr R Duration;
  ScaleValidationStatus_SLAStatus : Verdict;
  ScaleValidationStatus_TrafficIntegrity : Verdict;
  ScaleValidationStatus_TotalRequests : Z;
  ScaleValidationStatus_FailedRequests : Z;
  ScaleValidationStatus_FailureRateBasisPoints : Z;
  ScaleValidationStatus_Diagnostics : r_slice R DiagnosticAlert;
  ScaleValidationStatus_LastRunTime : r_ptr R (r_lib R LTime);
  ScaleValidationStatus_History : r_slice R (RunSummary R);
  ScaleValidationStatus_NextRunTime : r_ptr R (r_lib R LTime);
  ScaleValidationStatus_ObservedGeneration : Z;
  ScaleValidationStatus_Conditions : r_slice R (r_lib R LCondition)
}.

#[projections(primitive)] Record ScaleValidation (R : rep) := mkScaleValidation {
  ScaleValidation_TypeMeta : TypeMeta;
  ScaleValidation_ObjectMeta : r_lib R LObjectMeta;
  ScaleValidation_Spec : ScaleValidationSpec R;
  ScaleValidation_Status : ScaleValidationStatus R
}.

#[projections(primitive)] Record ScaleValidationList (R : rep) := mkScaleValidationList {
  ScaleValidationList_TypeMeta : TypeMeta;
  ScaleValidationList_ListMeta : r_lib R LListMeta;
  ScaleValidationList_Items : r_slice R (ScaleValidation R)
}.

Section deepcopy.
Context `{LibTypes}.

Definition mem : rep := mkRep (λ _, ptr) (λ _, slice) lib_mem.

(** A nil pointer or slice is [None]. *)
Definition value : rep := mkRep option (λ T, option (list T)) lib_value.

(** The types of variables and array elements. *)
Inductive api_code :=
| CInt32 | CDuration | CRef | CGRPC | CKeyRef | CBundle | CSpike | CAlert
| CRun | CProfile | CLoad | CDisruption | CTLS | CTarget | CSpec | CStatus | CSV | CList
| CLib (l : lib)
| COther (c : lib_code).

#[export] Instance api_code_eq_dec : EqDecision api_code.
Proof. solve_decision. Defined.

Definition api_denote (c : api_code) : Type :=
  match c with
  | CInt32 => Z
  | CDuration => Duration
  | CRef => CrossVersionObjectReference
  | CGRPC => GRPCConfig
  | CKeyRef => ConfigMapKeyRef
  | CBundle => CABundleSource
  | CSpike => SpikeWindow
  | CAlert => DiagnosticAlert
  | CRun => RunSummary mem
  | CProfile => LoadProfile mem
  | CLoad => LoadConfig mem
  | CDisruption => DisruptionConfig mem
  | CTLS => TLSConfig mem
  | CTarget => TargetConfig mem
  | CSpec => ScaleValidationSpec mem
  | CStatus => ScaleValidationStatus mem
  | CSV => ScaleValidation mem
  | CList => ScaleValidationList mem
  | CLib l => lib_mem l
  | COther c => lib_denote c
  end.

#[export] Instance api_cells : CellTypes := {| code := api_code; denote := api_denote |}.

(** *** Zero values *)

Definition zero_TypeMeta : TypeMeta := mkTypeMeta "" "".

Definition zero_CrossVersionObjectReference : CrossVersionObjectReference := mkRef "" "" "".

Definition zero_GRPCConfig : GRPCConfig := mkGRPC "".

Definition zero_ConfigMapKeyRef : ConfigMapKeyRef := mkCMRef "" "".

Definition zero_CABundleSource : CABundleSource := mkCABundle zero_ConfigMapKeyRef.

Definition zero_SpikeWindow : SpikeWindow := mkSpike 0 0 0.

Definition zero_DiagnosticAlert : DiagnosticAlert := mkAlert "" "" "" "".

Definition zero_RunSummary : RunSummary mem :=
  mkRunSummary mem (lib_zero LTime) "" "" "" 0.

Definition zero_LoadProfile : LoadProfile mem :=
  mkLoadProfile mem "" None None None None None.

Definition zero_LoadConfig : LoadConfig mem :=
  mkLoadConfig mem 0 0 0 None None.

Definition zero_DisruptionConfig : DisruptionConfig mem :=
  mkDisruptionConfig mem false 0 None.

Definition zero_TLSConfig : TLSConfig mem :=
  mkTLSConfig mem false None.

Definition zero_TargetConfig : TargetConfig mem :=
  mkTargetConfig mem "" "" 0 "" "" "" None None.

Definition zero_ScaleValidationSpec : ScaleValidationSpec mem :=
  mkScaleValidationSpec mem zero_CrossVersionObjectReference 0 zero_TargetConfig zero_LoadConfig None "" false.

Definition zero_ScaleValidationStatus : ScaleValidationStatus mem :=
  mkScaleValidationStatus mem "" None "" "" 0 0 0 None None None None 0 None.

Definition zero_ScaleValidation : ScaleValidation mem :=
  mkScaleValidation mem zero_TypeMeta (lib_zero LObjectMeta) zero_ScaleValidationSpec zero_ScaleValidationStatus.

Definition zero_ScaleValidationList : ScaleValidationList mem :=
  mkScaleValidationList mem zero_TypeMeta (lib_zero LListMeta) None.

(** *** Fields as places *)

Definition ConfigMapRef_ : lens CABundleSource ConfigMapKeyRef :=
  field ca_ConfigMapRef (λ v _, mkCABundle v) ltac:(done) ltac:(done) ltac:(by intros []).

Definition At_ : lens SpikeWindow Duration :=
  field sw_At (λ v s, mkSpike v (sw_Duration s) (sw_RPS s)) ltac:(done) ltac:(done) ltac:(by intros []).

Definition Duration_ : lens SpikeWindow Duration :=
  field sw_Duration (λ v s, mkSpike (sw_At s) v (sw_RPS s)) ltac:(done) ltac:(done) ltac:(by intros []).

Definition RunSummary_FinishedAt_ : lens (RunSummary mem) (lib_mem LTime) :=
  field (RunSummary_FinishedAt mem) (λ v '(mkRunSummary _ _ b c d e), mkRunSummary mem v b c d e)
    ltac:(done) ltac:(done) ltac:(done).

Definition LoadProfile_EndRPS_ : lens (LoadProfile mem) ptr :=
  field (LoadProfile_EndRPS mem) (λ v '(mkLoadProfile _ a _ c d e f), mkLoadProfile mem a v c d e f)
    ltac:(done) ltac:(done) ltac:(done).

Definition LoadProfile_RampDuration_ : lens (LoadProfile mem) ptr :=
  field (LoadProfile_RampDuration mem) (λ v '(mkLoadProfile _ a b _ d e f), mkLoadProfile mem a b v d e f)
    ltac:(done) ltac:(done) ltac:(done).

Definition LoadProfile_StepRPS_ : lens (LoadProfile mem) ptr :=
  field (LoadProfile_StepRPS mem) (λ v '(mkLoadProfile _ a b c _ e f), mkLoadProfile mem a b c v e f)
    ltac:(done) ltac:(done) ltac:(done).

Definition LoadProfile_StepDuration_ : lens (LoadProfile mem) ptr :=
  field (LoadProfile_StepDuration mem) (λ v '(mkLoadProfile _ a b c d _ f), mkLoadProfile mem a b c d v f)
    ltac:(done) ltac:(done) ltac:(done).

Definition LoadProfile_Spikes_ : lens (LoadProfile mem) slice :=
  field (LoadProfile_Spikes mem) (λ v '(mkLoadProfile _ a b c d e _), mkLoadProfile mem a b c d e v)
    ltac:(done) ltac:(done) ltac:(done).

Definition LoadConfig_WarmupDuration_ : lens (LoadConfig mem) ptr :=
  field (LoadConfig_WarmupDuration mem) (λ v '(mkLoadConfig _ a b c _ e), mkLoadConfig mem a b c v e)
    ltac:(done) ltac:(done) ltac:(done).

Definition LoadConfig_Profile_ : lens (LoadConfig mem) ptr :=
  field (LoadConfig_Profile mem) (λ v '(mkLoadConfig _ a b c d _), mkLoadConfig mem a b c d v)
    ltac:(done) ltac:(done) ltac:(done).

Definition DisruptionConfig_TriggerDelay_ : lens (DisruptionConfig mem) ptr :=
  field (DisruptionConfig_TriggerDelay mem) (λ v '(mkDisruptionConfig _ a b _), mkDisruptionConfig mem a b v)
    ltac:(done) ltac:(done) ltac:(done).

Definition TLSConfig_CABundle_ : lens (TLSConfig mem) ptr :=
  field (TLSConfig_CABundle mem) (λ v '(mkTLSConfig _ a _), mkTLSConfig mem a v)
    ltac:(done) ltac:(done) ltac:(done).

Definition TargetConfig_GRPC_ : lens (TargetConfig mem) ptr :=
  field (TargetConfig_GRPC mem) (λ v '(mkTargetConfig _ a b c d e f _ h), mkTargetConfig mem a b c d e f v h)
    ltac:(done) ltac:(done) ltac:(done).

Definition TargetConfig_TLS_ : lens (TargetConfig mem) ptr :=
  field (TargetConfig_TLS mem) (λ v '(mkTargetConfig _ a b c d e f g _), mkTargetConfig mem a b c d e f g v)
    ltac:(done) ltac:(done) ltac:(done).

Definition ScaleValidationSpec_TargetRef_ : lens (ScaleValidationSpec mem) CrossVersionObjectReference :=
  field (ScaleValidationSpec_TargetRef mem) (λ v '(mkScaleValidationSpec _ _ b c d e f g), mkScaleValidationSpec
      mem v b c d e f g)
    ltac:(done) ltac:(done) ltac:(done).

Definition ScaleValidationSpec_SLA_ : lens (ScaleValidationSpec mem) Duration :=
  field (ScaleValidationSpec_SLA mem) (λ v '(mkScaleValidationSpec _ a _ c d e f g), mkScaleValidationSpec mem a
      v c d e f g)
    ltac:(done) ltac:(done) ltac:(done).

Definition ScaleValidationSpec_Target_ : lens (ScaleValidationSpec mem) (TargetConfig mem) :=
  field (ScaleValidationSpec_Target mem) (λ v '(mkScaleValidationSpec _ a b _ d e f g), mkScaleValidationSpec
      mem a b v d e f g)
    ltac:(done) ltac:(done) ltac:(done).

Definition ScaleValidationSpec_Load_ : lens (ScaleValidationSpec mem) (LoadConfig mem) :=
  field (ScaleValidationSpec_Load mem) (λ v '(mkScaleValidationSpec _ a b c _ e f g), mkScaleValidationSpec mem
      a b c v e f g)
    ltac:(done) ltac:(done) ltac:(done).

Definition ScaleValidationSpec_Disruption_ : lens (ScaleValidationSpec mem) ptr :=
  field (ScaleValidationSpec_Disruption mem) (λ v '(mkScaleValidationSpec _ a b c d _ f g),
      mkScaleValidationSpec mem a b c d v f g)
    ltac:(done) ltac:(done) ltac:(done).

Definition ScaleValidationStatus_ScaleUpDuration_ : lens (ScaleValidationStatus mem) ptr :=
  field (ScaleValidationStatus_ScaleUpDuration mem) (λ v '(mkScaleValidationStatus _ a _ c d e f g h i j k l m),
      mkScaleValidationStatus mem a v c d e f g h i j k l m)
    ltac:(done) ltac:(done) ltac:(done).

Definition ScaleValidationStatus_Diagnostics_ : lens (ScaleValidationStatus mem) slice :=
  field (ScaleValidationStatus_Diagnostics mem) (λ v '(mkScaleValidationStatus _ a b c d e f g _ i j k l m),
      mkScaleValidationStatus mem a b c d e f g v i j k l m)
    ltac:(done) ltac:(done) ltac:(done).

Definition ScaleValidationStatus_LastRunTime_ : lens (ScaleValidationStatus mem) ptr :=
  field (ScaleValidationStatus_LastRunTime mem) (λ v '(mkScaleValidationStatus _ a b c d e f g h _ j k l m),
      mkScaleValidationStatus mem a b c d e f g h v j k l m)
    ltac:(done) ltac:(done) ltac:(done).

Definition ScaleValidationStatus_History_ : lens (ScaleValidationStatus mem) slice :=
  field (ScaleValidationStatus_History mem) (λ v '(mkScaleValidationStatus _ a b c d e f g h i _ k l m),
      mkScaleValidationStatus mem a b c d e f g h i v k l m)
    ltac:(done) ltac:(done) ltac:(done).

Definition ScaleValidationStatus_NextRunTime_ : lens (ScaleValidationStatus mem) ptr :=
  field (ScaleValidationStatus_NextRunTime mem) (λ v '(mkScaleValidationStatus _ a b c d e f g h i j _ l m),
      mkScaleValidationStatus mem a b c d e f g h i j v l m)
    ltac:(done) ltac:(done) ltac:(done).

Definition ScaleValidationStatus_Conditions_ : lens (ScaleValidationStatus mem) slice :=
  field (ScaleValidationStatus_Conditions mem) (λ v '(mkScaleValidationStatus _ a b c d e f g h i j k l _),
      mkScaleValidationStatus mem a b c d e f g h i j k l v)
    ltac:(done) ltac:(done) ltac:(done).

Definition ScaleValidation_TypeMeta_ : lens (ScaleValidation mem) TypeMeta :=
  field (ScaleValidation_TypeMeta mem) (λ v '(mkScaleValidation _ _ b c d), mkScaleValidation mem v b c d)
    ltac:(done) ltac:(done) ltac:(done).

Definition ScaleValidation_ObjectMeta_ : lens (ScaleValidation mem) (lib_mem LObjectMeta) :=
  field (ScaleValidation_ObjectMeta mem) (λ v '(mkScaleValidation _ a _ c d), mkScaleValidation mem a v c d)
    ltac:(done) ltac:(done) ltac:(done).

Definition ScaleValidation_Spec_ : lens (ScaleValidation mem) (ScaleValidationSpec mem) :=
  field (ScaleValidation_Spec mem) (λ v '(mkScaleValidation _ a b _ d), mkScaleValidation mem a b v d)
    ltac:(done) ltac:(done) ltac:(done).

Definition ScaleValidation_Status_ : lens (ScaleValidation mem) (ScaleValidationStatus mem) :=
  field (ScaleValidation_Status mem) (λ v '(mkScaleValidation _ a b c _), mkScaleValidation mem a b c v)
    ltac:(done) ltac:(done) ltac:(done).

Definition ScaleValidationList_TypeMeta_ : lens (ScaleValidationList mem) TypeMeta :=
  field (ScaleValidationList_TypeMeta mem) (λ v '(mkScaleValidationList _ _ b c), mkScaleValidationList mem v b c)
    ltac:(done) ltac:(done) ltac:(done).

Definition ScaleValidationList_ListMeta_ : lens (ScaleValidationList mem) (lib_mem LListMeta) :=
  field (ScaleValidationList_ListMeta mem) (λ v '(mkScaleValidationList _ a _ c), mkScaleValidationList mem a v c)
    ltac:(done) ltac:(done) ltac:(done).

Definition ScaleValidationList_Items_ : lens (ScaleValidationList mem) slice :=
  field (ScaleValidationList_Items mem) (λ v '(mkScaleValidationList _ a b _), mkScaleValidationList mem a b v)
    ltac:(done) ltac:(done) ltac:(done).

(** ** What apimachinery provides *)

Class ApiMachinery := {
  lib_DeepCopyInto (l : lib) : place (lib_mem l) → place (lib_mem l) → HM unit;
  Time_DeepCopy : ptr → HM ptr;
  lib_read (l : lib) : reader (lib_mem l) (lib_value l)
}.

Class ApiMachineryLaws `{ApiMachinery} : Prop := {
  lib_read_mono l :: Mono (lib_read l);
  lib_copies l : copies (lib_read l) (lib_DeepCopyInto l);
  Time_copies : returns_copy (read_pointer (CLib LTime) (lib_read LTime)) Time_DeepCopy
}.
End deepcopy.

(** ** The generated functions *)

Section generated.
Context `{LibTypes, !ApiMachinery, !Allocator}.

Definition CABundleSource_DeepCopyInto (i o : place CABundleSource) : HM unit :=
  _ ← assign i o;
  _ ← assign (dot i ConfigMapRef_) (dot o ConfigMapRef_);
  mret tt.

Definition CABundleSource_DeepCopy (i : ptr) : HM ptr := deep_copy CBundle zero_CABundleSource
    CABundleSource_DeepCopyInto i.

Definition ConfigMapKeyRef_DeepCopyInto (i o : place ConfigMapKeyRef) : HM unit := assign i o.

Definition ConfigMapKeyRef_DeepCopy (i : ptr) : HM ptr := deep_copy CKeyRef zero_ConfigMapKeyRef
    ConfigMapKeyRef_DeepCopyInto i.

Definition CrossVersionObjectReference_DeepCopyInto (i o : place CrossVersionObjectReference) : HM unit := assign i o.

Definition CrossVersionObjectReference_DeepCopy (i : ptr) : HM ptr := deep_copy CRef
    zero_CrossVersionObjectReference CrossVersionObjectReference_DeepCopyInto i.

Definition DiagnosticAlert_DeepCopyInto (i o : place DiagnosticAlert) : HM unit := assign i o.

Definition DiagnosticAlert_DeepCopy (i : ptr) : HM ptr := deep_copy CAlert zero_DiagnosticAlert
    DiagnosticAlert_DeepCopyInto i.

Definition GRPCConfig_DeepCopyInto (i o : place GRPCConfig) : HM unit := assign i o.

Definition GRPCConfig_DeepCopy (i : ptr) : HM ptr := deep_copy CGRPC zero_GRPCConfig GRPCConfig_DeepCopyInto i.

Definition SpikeWindow_DeepCopyInto (i o : place SpikeWindow) : HM unit :=
  _ ← assign i o;
  _ ← assign (dot i At_) (dot o At_);
  _ ← assign (dot i Duration_) (dot o Duration_);
  mret tt.

Definition SpikeWindow_DeepCopy (i : ptr) : HM ptr := deep_copy CSpike zero_SpikeWindow SpikeWindow_DeepCopyInto i.

Definition DisruptionConfig_DeepCopyInto (i o : place (DisruptionConfig mem)) : HM unit :=
  _ ← assign i o;
  _ ← copy_pointer CDuration 0 assign (dot i DisruptionConfig_TriggerDelay_) (dot o DisruptionConfig_TriggerDelay_);
  mret tt.

Definition DisruptionConfig_DeepCopy (i : ptr) : HM ptr := deep_copy CDisruption zero_DisruptionConfig
    DisruptionConfig_DeepCopyInto i.

Definition LoadProfile_DeepCopyInto (i o : place (LoadProfile mem)) : HM unit :=
  _ ← assign i o;
  _ ← copy_pointer CInt32 0 assign (dot i LoadProfile_EndRPS_) (dot o LoadProfile_EndRPS_);
  _ ← copy_pointer CDuration 0 assign (dot i LoadProfile_RampDuration_) (dot o LoadProfile_RampDuration_);
  _ ← copy_pointer CInt32 0 assign (dot i LoadProfile_StepRPS_) (dot o LoadProfile_StepRPS_);
  _ ← copy_pointer CDuration 0 assign (dot i LoadProfile_StepDuration_) (dot o LoadProfile_StepDuration_);
  _ ← copy_slice CSpike zero_SpikeWindow assign (dot i LoadProfile_Spikes_) (dot o LoadProfile_Spikes_);
  mret tt.

Definition LoadProfile_DeepCopy (i : ptr) : HM ptr := deep_copy CProfile zero_LoadProfile LoadProfile_DeepCopyInto i.

Definition LoadConfig_DeepCopyInto (i o : place (LoadConfig mem)) : HM unit :=
  _ ← assign i o;
  _ ← copy_pointer CDuration 0 assign (dot i LoadConfig_WarmupDuration_) (dot o LoadConfig_WarmupDuration_);
  _ ← copy_pointer CProfile zero_LoadProfile LoadProfile_DeepCopyInto (dot i LoadConfig_Profile_) (dot o
      LoadConfig_Profile_);
  mret tt.

Definition LoadConfig_DeepCopy (i : ptr) : HM ptr := deep_copy CLoad zero_LoadConfig LoadConfig_DeepCopyInto i.

Definition RunSummary_DeepCopyInto (i o : place (RunSummary mem)) : HM unit :=
  _ ← assign i o;
  _ ← lib_DeepCopyInto LTime (dot i RunSummary_FinishedAt_) (dot o RunSummary_FinishedAt_);
  mret tt.

Definition RunSummary_DeepCopy (i : ptr) : HM ptr := deep_copy CRun zero_RunSummary RunSummary_DeepCopyInto i.

Definition TLSConfig_DeepCopyInto (i o : place (TLSConfig mem)) : HM unit :=
  _ ← assign i o;
  _ ← copy_pointer CBundle zero_CABundleSource assign (dot i TLSConfig_CABundle_) (dot o TLSConfig_CABundle_);
  mret tt.

Definition TLSConfig_DeepCopy (i : ptr) : HM ptr := deep_copy CTLS zero_TLSConfig TLSConfig_DeepCopyInto i.

Definition TargetConfig_DeepCopyInto (i o : place (TargetConfig mem)) : HM unit :=
  _ ← assign i o;
  _ ← copy_pointer CGRPC zero_GRPCConfig assign (dot i TargetConfig_GRPC_) (dot o TargetConfig_GRPC_);
  _ ← copy_pointer CTLS zero_TLSConfig TLSConfig_DeepCopyInto (dot i TargetConfig_TLS_) (dot o TargetConfig_TLS_);
  mret tt.

Definition TargetConfig_DeepCopy (i : ptr) : HM ptr := deep_copy CTarget zero_TargetConfig
    TargetConfig_DeepCopyInto i.

Definition ScaleValidationSpec_DeepCopyInto (i o : place (ScaleValidationSpec mem)) : HM unit :=
  _ ← assign i o;
  _ ← assign (dot i ScaleValidationSpec_TargetRef_) (dot o ScaleValidationSpec_TargetRef_);
  _ ← assign (dot i ScaleValidationSpec_SLA_) (dot o ScaleValidationSpec_SLA_);
  _ ← TargetConfig_DeepCopyInto (dot i ScaleValidationSpec_Target_) (dot o ScaleValidationSpec_Target_);
  _ ← LoadConfig_DeepCopyInto (dot i ScaleValidationSpec_Load_) (dot o ScaleValidationSpec_Load_);
  _ ← copy_pointer CDisruption zero_DisruptionConfig DisruptionConfig_DeepCopyInto (dot i
      ScaleValidationSpec_Disruption_) (dot o ScaleValidationSpec_Disruption_);
  mret tt.

Definition ScaleValidationSpec_DeepCopy (i : ptr) : HM ptr := deep_copy CSpec zero_ScaleValidationSpec
    ScaleValidationSpec_DeepCopyInto i.

Definition ScaleValidationStatus_DeepCopyInto (i o : place (ScaleValidationStatus mem)) : HM unit :=
  _ ← assign i o;
  _ ← copy_pointer CDuration 0 assign (dot i ScaleValidationStatus_ScaleUpDuration_) (dot o
      ScaleValidationStatus_ScaleUpDuration_);
  _ ← copy_slice CAlert zero_DiagnosticAlert assign (dot i ScaleValidationStatus_Diagnostics_) (dot o
      ScaleValidationStatus_Diagnostics_);
  _ ← copy_call Time_DeepCopy (dot i ScaleValidationStatus_LastRunTime_) (dot o ScaleValidationStatus_LastRunTime_);
  _ ← copy_slice CRun zero_RunSummary RunSummary_DeepCopyInto (dot i ScaleValidationStatus_History_) (dot o
      ScaleValidationStatus_History_);
  _ ← copy_call Time_DeepCopy (dot i ScaleValidationStatus_NextRunTime_) (dot o ScaleValidationStatus_NextRunTime_);
  _ ← copy_slice (CLib LCondition) (lib_zero LCondition) (lib_DeepCopyInto LCondition) (dot i
      ScaleValidationStatus_Conditions_) (dot o ScaleValidationStatus_Conditions_);
  mret tt.

Definition ScaleValidationStatus_DeepCopy (i : ptr) : HM ptr := deep_copy CStatus zero_ScaleValidationStatus
    ScaleValidationStatus_DeepCopyInto i.

Definition ScaleValidation_DeepCopyInto (i o : place (ScaleValidation mem)) : HM unit :=
  _ ← assign i o;
  _ ← assign (dot i ScaleValidation_TypeMeta_) (dot o ScaleValidation_TypeMeta_);
  _ ← lib_DeepCopyInto LObjectMeta (dot i ScaleValidation_ObjectMeta_) (dot o ScaleValidation_ObjectMeta_);
  _ ← ScaleValidationSpec_DeepCopyInto (dot i ScaleValidation_Spec_) (dot o ScaleValidation_Spec_);
  _ ← ScaleValidationStatus_DeepCopyInto (dot i ScaleValidation_Status_) (dot o ScaleValidation_Status_);
  mret tt.

Definition ScaleValidation_DeepCopy (i : ptr) : HM ptr := deep_copy CSV zero_ScaleValidation
    ScaleValidation_DeepCopyInto i.

Definition ScaleValidationList_DeepCopyInto (i o : place (ScaleValidationList mem)) : HM unit :=
  _ ← assign i o;
  _ ← assign (dot i ScaleValidationList_TypeMeta_) (dot o ScaleValidationList_TypeMeta_);
  _ ← lib_DeepCopyInto LListMeta (dot i ScaleValidationList_ListMeta_) (dot o ScaleValidationList_ListMeta_);
  _ ← copy_slice CSV zero_ScaleValidation ScaleValidation_DeepCopyInto (dot i ScaleValidationList_Items_) (dot o
      ScaleValidationList_Items_);
  mret tt.

Definition ScaleValidationList_DeepCopy (i : ptr) : HM ptr := deep_copy CList zero_ScaleValidationList
    ScaleValidationList_DeepCopyInto i.

(** [DeepCopyObject]: an object of dynamic type [*ScaleValidation] or [*ScaleValidationList], or
    the nil interface. *)
Inductive runtime_Object :=
| IsScaleValidation (l : loc)
| IsScaleValidationList (l : loc).

Definition ScaleValidation_DeepCopyObject (i : ptr) : HM (option runtime_Object) :=
  c ← ScaleValidation_DeepCopy i;
  mret (IsScaleValidation <$> c).

Definition ScaleValidationList_DeepCopyObject (i : ptr) : HM (option runtime_Object) :=
  c ← ScaleValidationList_DeepCopy i;
  mret (IsScaleValidationList <$> c).

(** ** What the structs hold *)

Definition read_RunSummary : reader (RunSummary mem) (RunSummary value) := λ h s,
  x0 ← lib_read LTime h (RunSummary_FinishedAt _ s);
  Some (mkRunSummary value x0 (RunSummary_Phase _ s) (RunSummary_SLAStatus _ s) (RunSummary_TrafficIntegrity _
      s) (RunSummary_FailureRateBasisPoints _ s)).

Definition read_LoadProfile : reader (LoadProfile mem) (LoadProfile value) := λ h s,
  x1 ← read_pointer CInt32 read_plain h (LoadProfile_EndRPS _ s);
  x2 ← read_pointer CDuration read_plain h (LoadProfile_RampDuration _ s);
  x3 ← read_pointer CInt32 read_plain h (LoadProfile_StepRPS _ s);
  x4 ← read_pointer CDuration read_plain h (LoadProfile_StepDuration _ s);
  x5 ← read_slice CSpike read_plain h (LoadProfile_Spikes _ s);
  Some (mkLoadProfile value (LoadProfile_Pattern _ s) x1 x2 x3 x4 x5).

Definition read_LoadConfig : reader (LoadConfig mem) (LoadConfig value) := λ h s,
  x3 ← read_pointer CDuration read_plain h (LoadConfig_WarmupDuration _ s);
  x4 ← read_pointer CProfile read_LoadProfile h (LoadConfig_Profile _ s);
  Some (mkLoadConfig value (LoadConfig_BaseRPS _ s) (LoadConfig_ConcurrencyFactor _ s) (LoadConfig_Concurrency _
      s) x3 x4).

Definition read_DisruptionConfig : reader (DisruptionConfig mem) (DisruptionConfig value) := λ h s,
  x2 ← read_pointer CDuration read_plain h (DisruptionConfig_TriggerDelay _ s);
  Some (mkDisruptionConfig value (DisruptionConfig_InjectPodDeletion _ s) (DisruptionConfig_MinReplicasForChaos
      _ s) x2).

Definition read_TLSConfig : reader (TLSConfig mem) (TLSConfig value) := λ h s,
  x1 ← read_pointer CBundle read_plain h (TLSConfig_CABundle _ s);
  Some (mkTLSConfig value (TLSConfig_InsecureSkipVerify _ s) x1).

Definition read_TargetConfig : reader (TargetConfig mem) (TargetConfig value) := λ h s,
  x6 ← read_pointer CGRPC read_plain h (TargetConfig_GRPC _ s);
  x7 ← read_pointer CTLS read_TLSConfig h (TargetConfig_TLS _ s);
  Some (mkTargetConfig value (TargetConfig_Mode _ s) (TargetConfig_CustomPath _ s) (TargetConfig_Port _ s)
      (TargetConfig_NetworkPath _ s) (TargetConfig_Host _ s) (TargetConfig_Protocol _ s) x6 x7).

Definition read_ScaleValidationSpec : reader (ScaleValidationSpec mem) (ScaleValidationSpec value) := λ h s,
  x2 ← read_TargetConfig h (ScaleValidationSpec_Target _ s);
  x3 ← read_LoadConfig h (ScaleValidationSpec_Load _ s);
  x4 ← read_pointer CDisruption read_DisruptionConfig h (ScaleValidationSpec_Disruption _ s);
  Some (mkScaleValidationSpec value (ScaleValidationSpec_TargetRef _ s) (ScaleValidationSpec_SLA _ s) x2 x3 x4
      (ScaleValidationSpec_Schedule _ s) (ScaleValidationSpec_Suspend _ s)).

Definition read_ScaleValidationStatus : reader (ScaleValidationStatus mem) (ScaleValidationStatus value) := λ h s,
  x1 ← read_pointer CDuration read_plain h (ScaleValidationStatus_ScaleUpDuration _ s);
  x7 ← read_slice CAlert read_plain h (ScaleValidationStatus_Diagnostics _ s);
  x8 ← read_pointer (CLib LTime) (lib_read LTime) h (ScaleValidationStatus_LastRunTime _ s);
  x9 ← read_slice CRun read_RunSummary h (ScaleValidationStatus_History _ s);
  x10 ← read_pointer (CLib LTime) (lib_read LTime) h (ScaleValidationStatus_NextRunTime _ s);
  x12 ← read_slice (CLib LCondition) (lib_read LCondition) h (ScaleValidationStatus_Conditions _ s);
  Some (mkScaleValidationStatus value (ScaleValidationStatus_Phase _ s) x1 (ScaleValidationStatus_SLAStatus _ s)
      (ScaleValidationStatus_TrafficIntegrity _ s) (ScaleValidationStatus_TotalRequests _ s)
      (ScaleValidationStatus_FailedRequests _ s) (ScaleValidationStatus_FailureRateBasisPoints _ s) x7 x8 x9 x10
      (ScaleValidationStatus_ObservedGeneration _ s) x12).

Definition read_ScaleValidation : reader (ScaleValidation mem) (ScaleValidation value) := λ h s,
  x1 ← lib_read LObjectMeta h (ScaleValidation_ObjectMeta _ s);
  x2 ← read_ScaleValidationSpec h (ScaleValidation_Spec _ s);
  x3 ← read_ScaleValidationStatus h (ScaleValidation_Status _ s);
  Some (mkScaleValidation value (ScaleValidation_TypeMeta _ s) x1 x2 x3).

Definition read_ScaleValidationList : reader (ScaleValidationList mem) (ScaleValidationList value) := λ h s,
  x1 ← lib_read LListMeta h (ScaleValidationList_ListMeta _ s);
  x2 ← read_slice CSV read_ScaleValidation h (ScaleValidationList_Items _ s);
  Some (mkScaleValidationList value (ScaleValidationList_TypeMeta _ s) x1 x2).

End generated.

(** ** Automation *)

Ltac solve_mono :=
  intros ? ? ? ? Hsub Hread;
  repeat match goal with
  | H : mbind _ _ = Some _ |- _ => apply bind_Some in H as (? & ? & H)
  end; simplify_eq;
  repeat match goal with
  | H : ?r ?h1 ?s = Some ?x |- context [?r ?h2 ?s] => rewrite (mono h1 h2 s x Hsub H); cbn [mbind option_bind]
  end; done.

Create HintDb deep.

#[export] Hint Resolve assign_copies copies_completes : deep.

#[export] Hint Extern 1 (completes _ (copy_pointer _ _ _)) => apply copy_pointer_completes : deep.

#[export] Hint Extern 1 (completes _ (copy_slice _ _ _)) => apply copy_slice_completes : deep.

#[export] Hint Extern 1 (completes _ (copy_call _)) => apply copy_call_completes : deep.

#[export] Hint Extern 1 (Mono _) => apply _ : deep.

(** The next field of a struct: what was copied before is still readable. *)
Ltac next_field :=
  match goal with
  | Hi : get_place ?i ?h = Some _, Ho : get_place ?o ?h = Some _, Hne : pl_loc ?i ≠ pl_loc ?o
    |- reaches _ ?h ?o _ (mbind _ (assign (dot ?i _) (dot ?o _))) _ _ =>
      eapply reaches_assign; [exact Hi|exact Ho|exact Hne| |reflexivity|reflexivity|];
      [first [eassumption|apply map_disjoint_empty_l]|]
  | Hi : get_place ?i ?h = Some _, Ho : get_place ?o ?h = Some _, Hne : pl_loc ?i ≠ pl_loc ?o
    |- reaches _ ?h ?o _ (mbind _ (_ (dot ?i _) (dot ?o _))) ?fresh _ =>
      let Hsub := fresh "Hsub" in
      eapply reaches_field; [| |exact Hi|exact Ho|exact Hne| | |reflexivity|reflexivity|];
      [| | |first [eassumption|reflexivity]|]; [apply _| |first [eassumption|apply map_disjoint_empty_l]|];
      [auto with deep|intros ? ? ? Hsub ?];
      repeat match goal with
      | H : ?r fresh ?t = Some ?x |- _ => apply (mono _ _ _ _ Hsub) in H
      end; clear Hsub
  end.

Ltac struct_copies read :=
  apply copies_struct; intros ? ? ? ? ? ? Hi Ho Hne Hr; unfold read in Hr;
  repeat match goal with
  | H : mbind _ _ = Some _ |- _ => apply bind_Some in H as (? & ? & H)
  end;
  injection Hr as <-; repeat next_field; apply reaches_done; [assumption|]; unfold read; simpl;
  repeat (apply bind_Some; eexists; split; [eassumption|]); reflexivity.

Section copies_deep.
Context `{LibTypes, !ApiMachinery, !ApiMachineryLaws, !Allocator}.

#[export] Instance read_RunSummary_mono : Mono read_RunSummary.
Proof. unfold read_RunSummary. solve_mono. Qed.

#[export] Instance read_LoadProfile_mono : Mono read_LoadProfile.
Proof. unfold read_LoadProfile. solve_mono. Qed.

#[export] Instance read_LoadConfig_mono : Mono read_LoadConfig.
Proof. unfold read_LoadConfig. solve_mono. Qed.

#[export] Instance read_DisruptionConfig_mono : Mono read_DisruptionConfig.
Proof. unfold read_DisruptionConfig. solve_mono. Qed.

#[export] Instance read_TLSConfig_mono : Mono read_TLSConfig.
Proof. unfold read_TLSConfig. solve_mono. Qed.

#[export] Instance read_TargetConfig_mono : Mono read_TargetConfig.
Proof. unfold read_TargetConfig. solve_mono. Qed.

#[export] Instance read_ScaleValidationSpec_mono : Mono read_ScaleValidationSpec.
Proof. unfold read_ScaleValidationSpec. solve_mono. Qed.

#[export] Instance read_ScaleValidationStatus_mono : Mono read_ScaleValidationStatus.
Proof. unfold read_ScaleValidationStatus. solve_mono. Qed.

#[export] Instance read_ScaleValidation_mono : Mono read_ScaleValidation.
Proof. unfold read_ScaleValidation. solve_mono. Qed.

#[export] Instance read_ScaleValidationList_mono : Mono read_ScaleValidationList.
Proof. unfold read_ScaleValidationList. solve_mono. Qed.

(** ** Every generated copy is deep *)

#[local] Hint Resolve Time_copies : deep.

#[local] Hint Extern 1 (copies _ (lib_DeepCopyInto _)) => apply lib_copies : deep.

Lemma LoadProfile_copies : copies read_LoadProfile LoadProfile_DeepCopyInto.
Proof. struct_copies @read_LoadProfile. Qed.

Lemma DisruptionConfig_copies : copies read_DisruptionConfig DisruptionConfig_DeepCopyInto.
Proof. struct_copies @read_DisruptionConfig. Qed.

Lemma RunSummary_copies : copies read_RunSummary RunSummary_DeepCopyInto.
Proof. struct_copies @read_RunSummary. Qed.

Lemma TLSConfig_copies : copies read_TLSConfig TLSConfig_DeepCopyInto.
Proof. struct_copies @read_TLSConfig. Qed.

#[local] Hint Resolve LoadProfile_copies DisruptionConfig_copies RunSummary_copies TLSConfig_copies : deep.

Lemma LoadConfig_copies : copies read_LoadConfig LoadConfig_DeepCopyInto.
Proof. struct_copies @read_LoadConfig. Qed.

Lemma TargetConfig_copies : copies read_TargetConfig TargetConfig_DeepCopyInto.
Proof. struct_copies @read_TargetConfig. Qed.

Lemma ScaleValidationStatus_copies : copies read_ScaleValidationStatus ScaleValidationStatus_DeepCopyInto.
Proof. struct_copies @read_ScaleValidationStatus. Qed.

#[local] Hint Resolve LoadConfig_copies TargetConfig_copies ScaleValidationStatus_copies : deep.

Lemma ScaleValidationSpec_copies : copies read_ScaleValidationSpec ScaleValidationSpec_DeepCopyInto.
Proof. struct_copies @read_ScaleValidationSpec. Qed.

#[local] Hint Resolve ScaleValidationSpec_copies : deep.

Lemma ScaleValidation_copies : copies read_ScaleValidation ScaleValidation_DeepCopyInto.
Proof. struct_copies @read_ScaleValidation. Qed.

#[local] Hint Resolve ScaleValidation_copies : deep.

Lemma ScaleValidationList_copies : copies read_ScaleValidationList ScaleValidationList_DeepCopyInto.
Proof. struct_copies @read_ScaleValidationList. Qed.

#[local] Hint Resolve ScaleValidationList_copies : deep.

(** The two structs without indirections whose fields are copied one by one. *)
#[local] Ltac plain_struct :=
  apply copies_struct; intros ? ? ? ? ? v Hi Ho Hne [= ->]; repeat next_field;
  apply reaches_done; [apply map_disjoint_empty_l|by destruct v].

Lemma CABundleSource_copies : copies read_plain CABundleSource_DeepCopyInto.
Proof. plain_struct. Qed.

Lemma SpikeWindow_copies : copies read_plain SpikeWindow_DeepCopyInto.
Proof. plain_struct. Qed.

(** ** Isolation *)

(** [dc] returns a pointer to an equal object and changes no memory in use.  What is later written
    to the memory that was in use before does not show in the copy, and what is written
    elsewhere, the copy included, does not show in the original. *)
Definition isolated_copy {V} (r : reader ptr V) (dc : ptr → HM ptr) (h : heap) (p : ptr) (v : V) : Prop :=
  ∃ q h', dc p h = Some (q, h') ∧ (p = None ↔ q = None) ∧ (∀ l, h !! l ≠ None → h' !! l = h !! l) ∧
    (∀ h2 : heap, (∀ l, h !! l = None → h2 !! l = h' !! l) → r h2 q = Some v) ∧
    (∀ h2 : heap, (∀ l, h !! l ≠ None → h2 !! l = h !! l) → r h2 p = Some v).

Lemma deep_copy_isolated {V} t zero (r : reader (denote t) V) `{!Mono r} into (h : heap) p v :
  copies r into → read_pointer t r h p = Some v → isolated_copy (read_pointer t r) (deep_copy t zero into) h p v.
Proof.
  intros Hc Hr. destruct (deep_copy_fresh t zero r into h p v Hc Hr) as (q & fresh & Heq & Hd & Hq).
  exists q, (fresh ∪ h). split_and!; [done| | | |].
  - destruct p as [l|], q as [l'|]; [done| |done|done]. injection Hq as <-.
    by apply bind_Some in Hr as (? & _ & (? & _ & ?)%bind_Some).
  - intros l Hl. apply lookup_union_r. apply not_eq_None_Some in Hl as [c Hh].
    exact (map_disjoint_Some_r _ _ _ _ Hd Hh).
  - intros h2 Hh2. eapply mono; [|exact Hq]. apply map_subseteq_spec. intros l c Hl.
    rewrite Hh2 by (by eapply map_disjoint_Some_l). by apply lookup_union_Some_l.
  - intros h2 Hh2. eapply mono; [|exact Hr]. apply map_subseteq_spec. intros l c Hl. rewrite Hh2; [done|by
      rewrite Hl].
Qed.

(** C17: An object of the API, or a list of them, that is handed out as a deep copy shares nothing with
    the original: the copy is equal, field by field and with the same nil pointers and slices;
    making it writes to no memory in use; and no later write to either shows in the other. *)
Theorem deep_copies_isolated (h : heap) (p : ptr) :
  (∀ v, read_pointer CSV read_ScaleValidation h p = Some v →
     isolated_copy (read_pointer CSV read_ScaleValidation) ScaleValidation_DeepCopy h p v) ∧
  (∀ v, read_pointer CList read_ScaleValidationList h p = Some v →
     isolated_copy (read_pointer CList read_ScaleValidationList) ScaleValidationList_DeepCopy h p v).
Proof. split; intros v Hv; apply deep_copy_isolated; auto with deep. Qed.

End copies_deep.

(** ** A sample *)

(** An ObjectMeta with a name and a map of labels of its own; the other library types are plain. *)
Section sample.

#[local] Instance sample_types : LibTypes := {|
  lib_mem l := match l with
               | LObjectMeta => (string * ptr)%type
               | LListMeta => string
               | LCondition => Condition
               | LTime => Time
               end;
  lib_value l := match l with
                 | LObjectMeta => (string * option (gmap string string))%type
                 | LListMeta => string
                 | LCondition => Condition
                 | LTime => Time
                 end;
  lib_zero l := match l with
                | LObjectMeta => ("", None)
                | LListMeta => ""
                | LCondition => mkCondition "" "" 0 "" ""
                | LTime => zeroTime
                end;
  lib_code := unit;
  lib_denote _ := gmap string string
|}.

Definition labels_ : lens (string * ptr) ptr :=
  field snd (λ v s, (s.1, v)) ltac:(done) ltac:(done) ltac:(by intros []).

#[local] Instance sample_machinery : ApiMachinery := {|
  lib_DeepCopyInto l := match l as l return place (lib_mem l) → place (lib_mem l) → HM unit with
                        | LObjectMeta => λ i o,
                            _ ← assign i o;
                            _ ← copy_pointer (COther tt) ∅ assign (dot i labels_) (dot o labels_);
                            mret tt
                        | LListMeta => assign
                        | LCondition => assign
                        | LTime => assign
                        end;
  Time_DeepCopy := deep_copy (CLib LTime) zeroTime assign;
  lib_read l := match l as l return reader (lib_mem l) (lib_value l) with
                | LObjectMeta => λ h s, m ← read_pointer (COther tt) read_plain h s.2; Some (s.1, m)
                | LListMeta => read_plain
                | LCondition => read_plain
                | LTime => read_plain
                end
|}.

#[local] Instance sample_laws : ApiMachineryLaws.
Proof.
  split.
  - intros []; simpl; [|apply _..]. unfold Mono. solve_mono.
  - intros []; simpl; [|apply assign_copies..]. struct_copies sample_machinery.
  - intros h p v Hp. apply deep_copy_fresh; [apply _|apply assign_copies|exact Hp].
Qed.

(** A validation with labels, a spike profile that is the tail of a longer array, a run time and
    a condition; it is stored in a list and in a variable that share all of them. *)
Definition sample_sv : ScaleValidation mem :=
  mkScaleValidation mem (mkTypeMeta "ScaleValidation" "v1beta1") ("web", Some 3%positive)
    (mkScaleValidationSpec mem (mkRef "apps/v1" "Deployment" "web") (60 * Second) zero_TargetConfig
       (mkLoadConfig mem 50 0 0 None (Some 4%positive)) None "" false)
    (mkScaleValidationStatus mem "Succeeded" None "Pass" "Pass" 9 0 0 None (Some 5%positive) None None 1
       (Some (mkWindow 6%positive 0 1 1))).

Definition sample_heap : heap := list_to_map [
  (1%positive, Var CList (mkScaleValidationList mem zero_TypeMeta "7" (Some (mkWindow 2%positive 0 1 1))));
  (2%positive, Array CSV [sample_sv]);
  (3%positive, Var (COther tt) {[ "team" := "infra" ]});
  (4%positive, Var CProfile (mkLoadProfile mem "Spike" None None None None (Some (mkWindow 7%positive 1 1 1))));
  (5%positive, Var (CLib LTime) 42);
  (6%positive, Array (CLib LCondition) [mkCondition "Finished" "True" 1 "Succeeded" ""]);
  (7%positive, Array CSpike [mkSpike 0 0 0; mkSpike Second Second 90]);
  (8%positive, Var CSV sample_sv)].

Lemma deep_copies_isolated_witness : ∃ v w,
  read_pointer CSV read_ScaleValidation sample_heap (Some 8%positive) = Some v ∧
  read_pointer CList read_ScaleValidationList sample_heap (Some 1%positive) = Some w ∧
  isolated_copy (read_pointer CSV read_ScaleValidation) ScaleValidation_DeepCopy sample_heap (Some 8%positive) v ∧
  isolated_copy (read_pointer CList read_ScaleValidationList) ScaleValidationList_DeepCopy sample_heap (Some
      1%positive) w.
Proof.
  destruct (deep_copies_isolated sample_heap (Some 8%positive)) as [Hv _].
  destruct (deep_copies_isolated sample_heap (Some 1%positive)) as [_ Hw].
  assert (is_Some (read_pointer CSV read_ScaleValidation sample_heap (Some 8%positive))) as [v Hr]
    by (apply (bool_decide_unpack _); vm_compute; reflexivity).
  assert (is_Some (read_pointer CList read_ScaleValidationList sample_heap (Some 1%positive))) as [w Hr']
    by (apply (bool_decide_unpack _); vm_compute; reflexivity).
  exists v, w. split; [exact Hr|]. split; [exact Hr'|]. split; [apply Hv, Hr|apply Hw, Hr'].
Defined.
End sample.
