(* ===== verification/K8s.v ===== *)
(** * Kubernetes objects and library functions the code relies on

    The parts of the corev1 objects that the analyzers and the reconcilers read, and, as the
    interface [K8sLib], the pure functions of the Kubernetes libraries and of robfig/cron they
    call.  Those functions are not part of the repository: clients are proved against the
    documented laws of [K8sLaws], and [SimpleLib] is an instance to evaluate examples with. *)

From S2P Require Import Prelude Api.

Open Scope Z_scope.

(** ** Objects *)

Inductive IntOrString :=
| IntVal (n : Z)
| StrVal (s : string).

Record ContainerPort := mkPort { cp_Name : string; cp_ContainerPort : Z }.

Record HTTPGetAction := mkHTTPGet {
  hg_Path : string;
  hg_Port : IntOrString;
  hg_Host : string;
  hg_Scheme : string
}.

Record Probe := mkProbe { pr_HTTPGet : option HTTPGetAction; pr_PeriodSeconds : Z }.

Record Container := mkContainer {
  ct_Name : string;
  ct_Ports : list ContainerPort;
  ct_ReadinessProbe : option Probe
}.

Record PodDNSConfigOption := mkDNSOption { do_Name : string; do_Value : option string }.

Record PodCondition := mkPodCond {
  pc_Type : string;
  pc_Status : string;
  pc_LastTransitionTime : Time
}.

(** A container status: its name and whether it has terminated. *)
Record ContainerStatus := mkCStatus { cs_Name : string; cs_Terminated : bool }.

Record Pod := mkPod {
  pod_Name : string;
  pod_Namespace : string;
  pod_Labels : gmap string string;
  pod_CreationTimestamp : Time;
  pod_DeletionTimestamp : option Time;
  pod_NodeName : string;
  pod_DNSConfig : option (list PodDNSConfigOption);
  pod_Containers : list Container;
  pod_Phase : string;
  pod_Conditions : list PodCondition;
  pod_InitContainerStatuses : list ContainerStatus
}.

(** The parts of a Job's pod template that the controller sets. *)
Inductive Volume :=
| EmptyDir (name : string)
| ConfigMapVolume (name configMap : string) (items : list (string * string)).

Record VolumeMount := mkMount { vm_Name : string; vm_MountPath : string; vm_ReadOnly : bool }.

Record PodSecurityContext := mkPodSC { psc_RunAsNonRoot : bool; psc_SeccompProfile : string }.

Record SecurityContext := mkSC {
  sc_AllowPrivilegeEscalation : bool;
  sc_RunAsNonRoot : bool;
  sc_ReadOnlyRootFilesystem : bool;
  sc_DropCapabilities : list string;
  sc_SeccompProfile : string
}.

Record JobContainer := mkJobContainer {
  jc_Name : string;
  jc_Image : string;
  jc_Args : list string;
  jc_RestartPolicy : option string;
  jc_SecurityContext : SecurityContext;
  jc_VolumeMounts : list VolumeMount
}.

Record JobSpec := mkJobSpec {
  js_BackoffLimit : Z;
  js_Labels : gmap string string;
  js_RestartPolicy : string;
  js_ServiceAccountName : string;
  js_TerminationGracePeriodSeconds : Z;
  js_SecurityContext : PodSecurityContext;
  js_ImagePullSecrets : list string;
  js_Volumes : list Volume;
  js_InitContainers : list JobContainer;
  js_Containers : list JobContainer
}.

Record JobCondition := mkJobCond { jcd_Type : string; jcd_Status : string }.

Record Job := mkJob {
  job_Meta : ObjectMeta;
  job_Spec : JobSpec;
  job_Conditions : list JobCondition
}.

(** ** Library functions *)

(** runtime/schema identifiers. *)
Record GroupVersionKind := mkGVK { gvk_Group : string; gvk_Version : string; gvk_Kind : string }.

Record GroupVersionResource := mkGVR { gvr_Group : string; gvr_Version : string; gvr_Resource : string }.

Class K8sLib := {
  (** meta.SetStatusCondition, RemoveStatusCondition, FindStatusCondition *)
  SetStatusCondition : Condition → list Condition → list Condition;
  RemoveStatusCondition : string → list Condition → list Condition;
  FindStatusCondition : list Condition → string → option Condition;
  (** controllerutil.ContainsFinalizer, AddFinalizer, RemoveFinalizer *)
  ContainsFinalizer : list string → string → bool;
  AddFinalizer : list string → string → list string;
  RemoveFinalizer : list string → string → list string;
  (** controllerutil.SetControllerReference: the metadata of the owner and of the controlled
      object to that of the controlled object with the owner reference *)
  SetControllerReference : ObjectMeta → ObjectMeta → res ObjectMeta;
  (** unstructured objects: unstructured.NestedString and NestedSlice (the value is absent, found
      or of another type), the assertion of a slice element to a map, and the conversion of a map
      to a container *)
  Unstructured : Type;
  RawValue : Type;
  NestedString : Unstructured → list string → res (option string);
  NestedInt64 : Unstructured → list string → res (option Z);
  NestedSlice : Unstructured → list string → res (option (list RawValue));
  AsMap : RawValue → option Unstructured;
  ContainerFromUnstructured : Unstructured → res Container;
  (** robfig/cron: the parser configured by scheduleParser, and Schedule.Next *)
  CronSchedule : Type;
  ParseCron : string → res CronSchedule;
  CronNext : CronSchedule → Time → Time;
  (** schema.ParseGroupVersion *)
  ParseGroupVersion : string → res (string * string);
  (** label selectors: metav1.LabelSelectorAsSelector, labels.Parse, Selector.Matches *)
  LabelSelector : Type;
  Selector : Type;
  LabelSelectorAsSelector : LabelSelector → res Selector;
  ParseSelector : string → res Selector;
  SelectorMatches : Selector → gmap string string → bool;
  (** intstr.GetScaledValueFromIntOrPercent *)
  ScaledValue : IntOrString → Z → bool → res Z
}.

Class K8sLaws `{K8sLib} : Prop := {
  find_nil : ∀ t, FindStatusCondition [] t = None;
  find_set_eq : ∀ c cs, FindStatusCondition (SetStatusCondition c cs) (cd_Type c) = Some c;
  find_set_ne : ∀ c cs t, t ≠ cd_Type c →
    FindStatusCondition (SetStatusCondition c cs) t = FindStatusCondition cs t;
  find_remove_eq : ∀ t cs, FindStatusCondition (RemoveStatusCondition t cs) t = None;
  find_remove_ne : ∀ t u cs, t ≠ u →
    FindStatusCondition (RemoveStatusCondition u cs) t = FindStatusCondition cs t;
  contains_add : ∀ fs f, ContainsFinalizer (AddFinalizer fs f) f = true;
  contains_remove : ∀ fs f, ContainsFinalizer (RemoveFinalizer fs f) f = false;
  (** only the owner references of the controlled object change *)
  controller_ref : ∀ owner m m', SetControllerReference owner m = Ok m' →
    om_Name m' = om_Name m ∧ om_Namespace m' = om_Namespace m ∧ om_Labels m' = om_Labels m ∧
    om_Name owner ∈ om_OwnerReferences m';
  (** Next returns an activation time strictly after the given time, or the zero time when the
      schedule has none *)
  cron_next_later : ∀ s t, CronNext s t = zeroTime ∨ t < CronNext s t;
  (** integers are taken as they are *)
  scaled_int : ∀ n total up, ScaledValue (IntVal n) total up = Ok n
}.

(** ** A simple instance *)

Definition simple_set (c : Condition) (cs : list Condition) : list Condition :=
  c :: filter (λ d, cd_Type d ≠ cd_Type c) cs.

Definition simple_find (cs : list Condition) (t : string) : option Condition :=
  head (filter (λ d, cd_Type d = t) cs).

(** Objects as string-keyed trees. *)
Inductive tree :=
| Leaf (s : string)
| Number (z : Z)
| Slice (l : list tree)
| Branch (l : list (string * tree)).

Fixpoint assoc {A} (l : list (string * A)) (k : string) : option A :=
  match l with
  | [] => None
  | (j, v) :: r => if decide (j = k) then Some v else assoc r k
  end.

Fixpoint tree_get (t : tree) (path : list string) : option tree :=
  match path with
  | [] => Some t
  | k :: ks => match t with Branch l => u ← assoc l k; tree_get u ks | _ => None end
  end.

Definition add_owner (owner m : ObjectMeta) : ObjectMeta :=
  mkMeta (om_Name m) (om_Namespace m) (om_Generation m) (om_CreationTimestamp m)
    (om_DeletionTimestamp m) (om_Labels m) (om_Annotations m)
    (om_Name owner :: om_OwnerReferences m) (om_Finalizers m).

(** Hourly schedules; exact labels for selectors; containers with a name only. *)
Definition SimpleLib : K8sLib := {|
  SetStatusCondition := simple_set;
  RemoveStatusCondition := λ t cs, filter (λ d, cd_Type d ≠ t) cs;
  FindStatusCondition := simple_find;
  ContainsFinalizer := λ fs f, bool_decide (f ∈ fs);
  AddFinalizer := λ fs f, if decide (f ∈ fs) then fs else fs ++ [f];
  RemoveFinalizer := λ fs f, filter (λ g, g ≠ f) fs;
  SetControllerReference := λ owner m,
    if decide (om_Namespace owner = om_Namespace m) then Ok (add_owner owner m)
    else Err (errorf "cross-namespace owner references are disallowed");
  Unstructured := tree;
  RawValue := tree;
  NestedString := λ t path, match tree_get t path with
    | None => Ok None | Some (Leaf s) => Ok (Some s) | Some _ => Err (errorf "not a string") end;
  NestedInt64 := λ t path, match tree_get t path with
    | None => Ok None | Some (Number z) => Ok (Some z) | Some _ => Err (errorf "not a number") end;
  NestedSlice := λ t path, match tree_get t path with
    | None => Ok None | Some (Slice l) => Ok (Some l) | Some _ => Err (errorf "not a slice") end;
  AsMap := λ t, match t with Branch _ => Some t | _ => None end;
  ContainerFromUnstructured := λ t, match tree_get t ["name"] with
    | Some (Leaf s) => Ok (mkContainer s [] None) | _ => Err (errorf "not a container") end;
  CronSchedule := positive;
  ParseCron := λ s, if decide (s = "@hourly") then Ok 3600000000000%positive
                    else Err (errorf ("bad schedule " +:+ s));
  CronNext := λ p t, (t / Z.pos p + 1) * Z.pos p;
  ParseGroupVersion := λ s, if decide (s = "apps/v1") then Ok ("apps", "v1")
                            else if decide (s = "v1") then Ok ("", "v1")
                            else Err (errorf ("unexpected GroupVersion string: " +:+ s));
  LabelSelector := gmap string string;
  Selector := gmap string string;
  LabelSelectorAsSelector := λ m, Ok m;
  ParseSelector := λ s, Ok {[ "app" := s ]};
  SelectorMatches := λ m ls, bool_decide (m ⊆ ls);
  ScaledValue := λ v total up, match v with IntVal n => Ok n | StrVal s => Err (errorf s) end
|}.

Lemma simple_find_set c cs t :
  simple_find (simple_set c cs) t = if decide (t = cd_Type c) then Some c else simple_find cs t.
Proof.
  unfold simple_find, simple_set. rewrite filter_cons.
  destruct (decide (t = cd_Type c)) as [->|Hne].
  - by rewrite decide_True.
  - rewrite decide_False by done. f_equal. rewrite list_filter_filter.
    apply list_filter_iff. naive_solver.
Qed.

#[export] Instance SimpleLaws : @K8sLaws SimpleLib.
Proof.
  split; simpl.
  - done.
  - intros. rewrite simple_find_set. by rewrite decide_True.
  - intros. rewrite simple_find_set. by rewrite decide_False.
  - intros t cs. unfold simple_find. rewrite list_filter_filter.
    rewrite (list_filter_iff _ (λ _, False)) by naive_solver.
    induction cs; simpl; done.
  - intros t u cs ?. unfold simple_find. f_equal. rewrite list_filter_filter.
    apply list_filter_iff. naive_solver.
  - intros fs f. apply bool_decide_eq_true_2. case_decide; set_solver.
  - intros fs f. apply bool_decide_eq_false_2. rewrite list_elem_of_filter. naive_solver.
  - intros owner m m' Hm. case_decide; [|done]. injection Hm as <-. simpl. split_and!; try done. left.
  - intros p t. right. pose proof (Z.mul_succ_div_gt t (Z.pos p)). lia.
  - done.
Qed.
