(* ===== verification/Correlation.v ===== *)
(** * Sorting and the two-pointer window scan

    [sort.Slice] is not stable, so its contract is an interface ([SortSlice]): some permutation
    of its input, ordered by the key.  Every theorem about code that sorts is proved against
    that contract; [insertion_sort] is the instance used to evaluate concrete inputs, and the
    model of [sort.SliceStable].

    The scan is the loop shared by internal/analyzer/leakage and internal/analyzer/drain: a
    cursor moves forward over the windows of sorted events while the sorted samples are
    consumed.  It is proved to be the per-sample assignment to the first window still open. *)

From S2P Require Import Prelude.

Open Scope Z_scope.

(** ** sort.Slice *)

Definition key_le {A} (key : A → Z) (x y : A) : Prop := key x <= key y.

Class SortSlice := {
  sort_by : ∀ {A : Type}, (A → Z) → list A → list A;
  sort_by_perm : ∀ {A} (key : A → Z) l, sort_by key l ≡ₚ l;
  sort_by_sorted : ∀ {A} (key : A → Z) l, StronglySorted (key_le key) (sort_by key l)
}.

Lemma sorted_lookup {A} (key : A → Z) l i j x y : StronglySorted (key_le key) l →
  l !! i = Some x → l !! j = Some y → (i < j)%nat → key x <= key y.
Proof.
  intros Hs. revert i j. induction Hs as [|z l Hs IH Hz]; intros [|i] [|j] Hi Hj Hij;
    simpl in *; simplify_eq; try lia; [|eapply IH; eauto; lia].
  rewrite Forall_forall in Hz. apply Hz. by apply list_elem_of_lookup_2 in Hj.
Qed.

Section insertion.
Context {A : Type} (key : A → Z).

Fixpoint insert_by (x : A) (l : list A) : list A :=
  match l with
  | [] => [x]
  | y :: r => if key x <=? key y then x :: l else y :: insert_by x r
  end.

Fixpoint insertion_sort (l : list A) : list A :=
  match l with [] => [] | x :: r => insert_by x (insertion_sort r) end.

Lemma insert_by_perm x l : insert_by x l ≡ₚ x :: l.
Proof.
  induction l as [|y l IH]; simpl; [done|]. destruct (_ <=? _); [done|].
  rewrite IH. apply Permutation_swap.
Qed.

Lemma insertion_sort_perm l : insertion_sort l ≡ₚ l.
Proof. induction l as [|x l IH]; simpl; [done|]. by rewrite insert_by_perm, IH. Qed.

Lemma insert_by_sorted x l :
  StronglySorted (key_le key) l → StronglySorted (key_le key) (insert_by x l).
Proof.
  induction 1 as [|y l Hs IH Hy]; simpl; [by repeat constructor|].
  destruct (Z.leb_spec (key x) (key y)) as [Hle|Hlt].
  - repeat constructor; [done..|]. eapply Forall_impl; [done|]. unfold key_le; lia.
  - constructor; [done|]. rewrite insert_by_perm. constructor; [unfold key_le; lia|done].
Qed.

Lemma insertion_sort_sorted l : StronglySorted (key_le key) (insertion_sort l).
Proof. induction l; simpl; [constructor|by apply insert_by_sorted]. Qed.

(** Equal keys keep their order. *)
Lemma insert_by_filter k x l : StronglySorted (key_le key) l →
  filter (λ y, key y = k) (insert_by x l) = filter (λ y, key y = k) (x :: l).
Proof.
  induction 1 as [|y l Hs IH Hy]; simpl; [done|].
  destruct (Z.leb_spec (key x) (key y)) as [Hle|Hlt]; [done|].
  rewrite !filter_cons, IH, filter_cons.
  destruct (decide (key y = k)), (decide (key x = k)); try done. lia.
Qed.

Lemma insertion_sort_stable k l :
  filter (λ y, key y = k) (insertion_sort l) = filter (λ y, key y = k) l.
Proof.
  induction l as [|x l IH]; simpl; [done|].
  rewrite insert_by_filter by apply insertion_sort_sorted.
  rewrite !filter_cons, IH. done.
Qed.
End insertion.

Definition insertion_SortSlice : SortSlice := {|
  sort_by := @insertion_sort;
  sort_by_perm := @insertion_sort_perm;
  sort_by_sorted := @insertion_sort_sorted
|}.

(** ** The two-pointer scan *)

Section scan.
Context {E S : Type} (opens closes : E → Time) (at_ : S → Time).

(** The inner loop: how far the cursor moves past closed windows. *)
Fixpoint advance (evs : list E) (t : Time) : nat :=
  match evs with
  | [] => 0
  | e :: r => if time_before t (closes e) then 0 else Datatypes.S (advance r t)
  end.

Record scan_state := mkScan {
  sc_cursor : nat;
  sc_clean : nat;
  sc_hits : nat;
  sc_errors : list (list S)
}.

Definition scan_step (evs : list E) (s : scan_state) (x : S) : scan_state :=
  let j := (sc_cursor s + advance (drop (sc_cursor s) evs) (at_ x))%nat in
  match evs !! j with
  | Some e =>
      if time_before (at_ x) (opens e)
      then mkScan j (Datatypes.S (sc_clean s)) (sc_hits s) (sc_errors s)
      else mkScan j (sc_clean s) (Datatypes.S (sc_hits s)) (alter (λ es, es ++ [x]) j (sc_errors s))
  | None => mkScan j (Datatypes.S (sc_clean s)) (sc_hits s) (sc_errors s)
  end.

Definition scan (evs : list E) (xs : list S) : scan_state :=
  foldl (scan_step evs) (mkScan 0 0 0 (replicate (length evs) [])) xs.

(** *** Reference: the first window not closed before the sample, if already open *)

Definition assign (evs : list E) (x : S) : option nat :=
  let j := advance evs (at_ x) in
  match evs !! j with
  | Some e => if time_before (at_ x) (opens e) then None else Some j
  | None => None
  end.

Definition inside (e : E) (x : S) : Prop := opens e <= at_ x < closes e.

Lemma advance_drop evs t j : (j <= advance evs t)%nat →
  (j + advance (drop j evs) t)%nat = advance evs t.
Proof.
  revert j. induction evs as [|e evs IH]; intros [|j] Hj; simpl in *; try done; try lia.
  destruct (time_before t (closes e)); [lia|]. rewrite IH; lia.
Qed.

Lemma advance_mono evs t u : t <= u → (advance evs t <= advance evs u)%nat.
Proof.
  intros Htu. induction evs as [|e evs IH]; simpl; [done|]. unfold time_before.
  destruct (Z.ltb_spec t (closes e)), (Z.ltb_spec u (closes e)); lia.
Qed.

Lemma advance_spec evs t j e : evs !! j = Some e →
  ((j < advance evs t)%nat → closes e <= t) ∧ (j = advance evs t → t < closes e).
Proof.
  revert j. induction evs as [|e' evs IH]; intros [|j] Hj; simpl in *; simplify_eq; unfold time_before.
  - destruct (Z.ltb_spec t (closes e)); lia.
  - destruct (Z.ltb_spec t (closes e')); [lia|]. destruct (IH j Hj). split; intros; [|apply H1]; lia.
Qed.

Lemma advance_le evs t : (advance evs t <= length evs)%nat.
Proof. induction evs; simpl; [done|]. destruct (time_before _ _); lia. Qed.

Lemma assign_lt evs x j : assign evs x = Some j → (j < length evs)%nat.
Proof.
  unfold assign. intros H. destruct (evs !! advance evs (at_ x)) as [e|] eqn:He; [|done].
  destruct (time_before _ _); simplify_eq. by apply lookup_lt_Some in He.
Qed.

(** The scan is the assignment, sample by sample. *)
Definition scan_of (evs : list E) (xs : list S) : scan_state :=
  mkScan (match last xs with Some x => advance evs (at_ x) | None => 0 end)
    (length (filter (λ x, assign evs x = None) xs))
    (length (filter (λ x, is_Some (assign evs x)) xs))
    ((λ j, filter (λ x, assign evs x = Some j) xs) <$> seq 0 (length evs)).

Lemma scan_step_assign evs s x : (sc_cursor s <= advance evs (at_ x))%nat →
  scan_step evs s x =
    match assign evs x with
    | Some j => mkScan (advance evs (at_ x)) (sc_clean s) (Datatypes.S (sc_hits s))
                  (alter (λ es, es ++ [x]) j (sc_errors s))
    | None => mkScan (advance evs (at_ x)) (Datatypes.S (sc_clean s)) (sc_hits s) (sc_errors s)
    end.
Proof.
  intros Hj. unfold scan_step, assign. rewrite advance_drop by done.
  destruct (evs !! _); [|done]. by destruct (time_before _ _).
Qed.

Lemma alter_groups n j (g : nat → list S) x : (j < n)%nat →
  alter (λ es, es ++ [x]) j (g <$> seq 0 n) =
  (λ i, g i ++ (if decide (j = i) then [x] else [])) <$> seq 0 n.
Proof.
  intros Hj. apply list_eq. intros i. rewrite list_lookup_alter, !list_lookup_fmap.
  destruct (decide (j = i)) as [<-|Hne].
  - rewrite lookup_seq_lt by done. simpl. by rewrite decide_True.
  - destruct (seq 0 n !! i) as [k|] eqn:Hk; [|done]. apply lookup_seq in Hk as [-> _].
    simpl. rewrite decide_False by done. by rewrite app_nil_r.
Qed.

Lemma scan_of_step evs xs x :
  (∀ y, last xs = Some y → at_ y <= at_ x) →
  scan_step evs (scan_of evs xs) x = scan_of evs (xs ++ [x]).
Proof.
  intros Hlast. rewrite scan_step_assign.
  2: { simpl. destruct (last xs); [by apply advance_mono, Hlast|lia]. }
  unfold scan_of. rewrite last_snoc, !filter_app, !length_app, !filter_cons, !filter_nil.
  cbn [sc_cursor sc_clean sc_hits sc_errors].
  destruct (assign evs x) as [j|] eqn:Ha.
  - rewrite alter_groups by (by eapply assign_lt).
    rewrite decide_False, decide_True by (done || eauto). simpl. f_equal; [lia..|].
    apply list_fmap_ext. intros _ i _. rewrite filter_app, filter_cons, filter_nil, Ha.
    do 2 case_decide; simplify_eq; done.
  - rewrite decide_True, decide_False by (done || by intros [??]). simpl. f_equal; [lia..|].
    apply list_fmap_ext. intros _ i _. rewrite filter_app, filter_cons, filter_nil, Ha.
    rewrite decide_False by done. by rewrite app_nil_r.
Qed.

Lemma scan_correct evs xs : StronglySorted (key_le at_) xs → scan evs xs = scan_of evs xs.
Proof.
  intros Hs. unfold scan.
  assert (Hinit : mkScan 0 0 0 (replicate (length evs) []) = scan_of evs []).
  { unfold scan_of. simpl. f_equal. apply list_eq. intros j.
    rewrite list_lookup_fmap. destruct (decide (j < length evs)%nat).
    - rewrite lookup_replicate_2, lookup_seq_lt by done. done.
    - rewrite (proj2 (lookup_ge_None _ j)) by (rewrite length_replicate; lia).
      by rewrite (proj2 (lookup_ge_None (seq _ _) j)) by (rewrite length_seq; lia). }
  rewrite Hinit. clear Hinit.
  induction xs as [|x xs IH] using rev_ind; [done|].
  rewrite foldl_snoc. apply StronglySorted_app in Hs as (Hpre & Hxs & _).
  rewrite IH by done. apply scan_of_step. intros y Hy.
  apply Hpre; [by apply last_Some_elem_of|set_solver].
Qed.

(** Without events every sample is clean. *)
Lemma scan_nil xs : scan [] xs = mkScan 0 (length xs) 0 [].
Proof.
  induction xs as [|x xs IH] using rev_ind; [done|].
  unfold scan in *. rewrite foldl_snoc, IH, length_app. unfold scan_step. simpl.
  f_equal. lia.
Qed.

(** On windows of ordered events the assignment finds an enclosing window whenever there is one. *)
Lemma assign_inside evs x j : assign evs x = Some j → ∃ e, evs !! j = Some e ∧ inside e x.
Proof.
  unfold assign. destruct (evs !! advance evs (at_ x)) as [e|] eqn:He; [|done].
  unfold time_before. destruct (Z.ltb_spec (at_ x) (opens e)); [done|]. intros; simplify_eq.
  exists e. split; [done|]. split; [lia|]. by apply (advance_spec evs (at_ x) _ e He).
Qed.

Lemma assign_None evs x : StronglySorted (key_le opens) evs →
  assign evs x = None ↔ ∀ e, e ∈ evs → ¬ inside e x.
Proof.
  intros Hs. split.
  - intros Hn e He [Ho Hc]. apply list_elem_of_lookup in He as [i Hi].
    destruct (advance_spec evs (at_ x) i e Hi) as [Hlt _].
    unfold assign in Hn. set (j := advance evs (at_ x)) in *.
    assert (j <= i)%nat as Hji by (destruct (decide (i < j)%nat) as [Hl|]; [specialize (Hlt Hl)|]; lia).
    destruct (evs !! j) as [e'|] eqn:Hj.
    2: { apply lookup_ge_None in Hj. apply lookup_lt_Some in Hi. lia. }
    unfold time_before in Hn. destruct (Z.ltb_spec (at_ x) (opens e')); [|done].
    destruct (decide (i = j)) as [->|]; [simplify_eq; lia|].
    pose proof (sorted_lookup opens evs j i e' e Hs Hj Hi ltac:(lia)) as Hle.
    unfold key_le in Hle. lia.
  - intros Hno. destruct (assign evs x) as [j|] eqn:Ha; [|done].
    apply assign_inside in Ha as (e & He & Hin).
    exfalso. apply (Hno e); [|done]. by apply list_elem_of_lookup_2 in He.
Qed.

#[global] Instance inside_dec e x : Decision (inside e x).
Proof. unfold inside. apply _. Defined.

Lemma assign_Some_iff evs x : StronglySorted (key_le opens) evs →
  is_Some (assign evs x) ↔ Exists (λ e, inside e x) evs.
Proof.
  intros Hs. split.
  - intros [j Ha]. apply assign_inside in Ha as (e & He & Hin).
    apply Exists_exists. exists e. split; [by eapply list_elem_of_lookup_2|done].
  - intros (e & He & Hin)%Exists_exists. destruct (assign evs x) eqn:Ha; [eauto|].
    exfalso. by apply (proj1 (assign_None evs x Hs) Ha e).
Qed.

(** Counts of the scan over any ordering of the events and samples, against the quadratic
    reference. *)
Lemma scan_counts evs evs0 xs xs0 :
  StronglySorted (key_le opens) evs → StronglySorted (key_le at_) xs →
  evs ≡ₚ evs0 → xs ≡ₚ xs0 →
  sc_hits (scan evs xs) = length (filter (λ x, Exists (λ e, inside e x) evs0) xs0) ∧
  sc_clean (scan evs xs) = length (filter (λ x, ¬ Exists (λ e, inside e x) evs0) xs0).
Proof.
  intros Hs Hx Hpe Hpx. rewrite scan_correct by done. unfold scan_of; simpl.
  split; rewrite <- Hpx; f_equal; apply list_filter_iff; intros x.
  - rewrite assign_Some_iff by done. by rewrite Hpe.
  - rewrite <- Hpe, <- assign_Some_iff by done. by rewrite eq_None_not_Some.
Qed.

Lemma advance_eq evs t j e : evs !! j = Some e → t < closes e →
  Forall (λ e', closes e' <= t) (take j evs) → advance evs t = j.
Proof.
  revert j. induction evs as [|e' evs IH]; intros [|j] Hj Ht Hf; simpl in *; simplify_eq.
  - unfold time_before. destruct (Z.ltb_spec t (closes e)); lia.
  - apply Forall_cons in Hf as [Hc Hf]. unfold time_before.
    destruct (Z.ltb_spec t (closes e')); [lia|]. f_equal. by apply IH.
Qed.

Lemma assign_Some evs x j e : evs !! j = Some e →
  assign evs x = Some j ↔ inside e x ∧ Forall (λ e', closes e' <= at_ x) (take j evs).
Proof.
  intros Hj. split.
  - intros Ha. destruct (assign_inside evs x j Ha) as (e' & ? & Hin); simplify_eq.
    split; [done|]. apply Forall_lookup. intros i e' [Hi Hlt]%lookup_take_Some.
    apply (advance_spec evs (at_ x) i e' Hi). unfold assign in Ha.
    destruct (evs !! advance _ _); [|done]. destruct (time_before _ _); by simplify_eq.
  - intros [[Ho Hc] Hf]. unfold assign. rewrite (advance_eq evs (at_ x) j e) by done.
    rewrite Hj. unfold time_before. destruct (Z.ltb_spec (at_ x) (opens e)); [lia|done].
Qed.

(** Each sample lands in the earliest enclosing window, and nowhere else. *)
Lemma scan_groups evs xs j e : StronglySorted (key_le at_) xs → evs !! j = Some e →
  sc_errors (scan evs xs) !! j =
    Some (filter (λ x, inside e x ∧ Forall (λ e', closes e' <= at_ x) (take j evs)) xs).
Proof.
  intros Hx Hj. rewrite scan_correct by done. unfold scan_of; simpl.
  rewrite list_lookup_fmap, lookup_seq_lt by (by eapply lookup_lt_Some). simpl.
  f_equal. apply list_filter_iff. intros x. by apply assign_Some.
Qed.

Lemma scan_errors_length evs xs : StronglySorted (key_le at_) xs →
  length (sc_errors (scan evs xs)) = length evs.
Proof.
  intros. rewrite scan_correct by done. simpl. by rewrite length_fmap, length_seq.
Qed.
End scan.

Arguments sc_cursor {_} _.
Arguments sc_clean {_} _.
Arguments sc_hits {_} _.
Arguments sc_errors {_} _.
