(* ===== verification/Leakage.v ===== *)
(** * Cold-start leakage (internal/analyzer/leakage)

    [Correlate] counts the failed requests that land within the leakage window of an endpoint
    becoming Ready.  It is proved equal to the quadratic definition, for every ordering
    [sort.Slice] may produce. *)

From S2P Require Import Prelude GoText Api Correlation.

Open Scope Z_scope.

Definition EventKind := string.
Definition EndpointReady : EventKind := "Ready".
Definition EndpointRemoved : EventKind := "Removed".

Record EndpointEvent := mkEvent {
  ev_At : Time;
  ev_PodIP : string;
  ev_Kind : EventKind
}.

Record ErrorSample := mkSample {
  es_At : Time;
  es_Category : string;
  es_Status : Z
}.

#[export] Instance endpoint_event_eq_dec : EqDecision EndpointEvent.
Proof. solve_decision. Defined.

Definition DefaultLeakageWindow : Duration := 2 * Second.

Definition CorrelatedEvent : Type := EndpointEvent * list ErrorSample.

Record Report := mkReport {
  Window : Duration;
  LeakageWindow : Duration;
  LeakedRequests : nat;
  CleanRequests : nat;
  Correlated : list CorrelatedEvent;
  EndpointEventCount : nat
}.

Definition criticalLeakedCount : nat := 50.

Definition totalWindow (samples : list ErrorSample) : Duration :=
  match samples, last samples with
  | s :: _ :: _, Some l => time_sub (es_At l) (es_At s)
  | _, _ => 0
  end.

Section correlate.
Context `{SortSlice}.

Definition effective_window (w : Duration) : Duration :=
  if w <=? 0 then DefaultLeakageWindow else w.

Definition Correlate (events : list EndpointEvent) (errors : list ErrorSample)
    (leakageWindow : Duration) : Report :=
  let leakageWindow := effective_window leakageWindow in
  let readyEvents := sort_by ev_At (filter (λ e, ev_Kind e = EndpointReady) events) in
  let sortedErrors := sort_by es_At errors in
  match readyEvents with
  | [] => mkReport (totalWindow sortedErrors) leakageWindow 0 (length sortedErrors) [] 0
  | _ =>
      let s := scan ev_At (λ e, time_add (ev_At e) leakageWindow) es_At readyEvents sortedErrors in
      mkReport (totalWindow sortedErrors) leakageWindow (sc_hits s) (sc_clean s)
        (zip readyEvents (sc_errors s)) (length readyEvents)
  end.
End correlate.

Definition Diagnostics (r : Report) : list DiagnosticAlert :=
  if decide (LeakedRequests r = 0%nat) then []
  else
    let severity :=
      if decide (criticalLeakedCount <= LeakedRequests r)%nat then SeverityCritical
      else SeverityWarning in
    [mkAlert "ColdStartLeakage" severity
      (itoa (Z.of_nat (LeakedRequests r)) +:+ " failed requests landed within "
       +:+ duration_string (LeakageWindow r) +:+ " of an endpoint becoming Ready (across "
       +:+ itoa (Z.of_nat (EndpointEventCount r)) +:+ " ready events)")
      "add readinessProbe.initialDelaySeconds or a startupProbe; verify the application returns 503 until warmup completes; check kube-proxy iptables sync latency"].

(** ** Specification *)

(** A sample inside the window [w] after a Ready event. *)
Definition leaked (events : list EndpointEvent) (w : Duration) (s : ErrorSample) : Prop :=
  Exists (λ e, ev_Kind e = EndpointReady ∧ ev_At e <= es_At s < ev_At e + w) events.

#[export] Instance leaked_dec events w s : Decision (leaked events w s).
Proof. unfold leaked. apply _. Defined.

Section theorems.
Context `{SortSlice}.

Lemma correlate_unfold events errors w :
  let evs := sort_by ev_At (filter (λ e, ev_Kind e = EndpointReady) events) in
  let s := scan ev_At (λ e, time_add (ev_At e) (effective_window w)) es_At evs (sort_by es_At errors) in
  LeakedRequests (Correlate events errors w) = sc_hits s ∧
  CleanRequests (Correlate events errors w) = sc_clean s ∧
  EndpointEventCount (Correlate events errors w) = length evs ∧
  Correlated (Correlate events errors w) = zip evs (sc_errors s).
Proof.
  simpl. unfold Correlate. destruct (sort_by ev_At _) as [|e evs]; [|done].
  by rewrite scan_nil.
Qed.

(** C18: The linear scan counts exactly the failures inside some leakage window (LeakedRequests)
    and those inside none (CleanRequests): the quadratic definition, whatever order the input
    is in and however ties are sorted. *)
Theorem correlate_counts (events : list EndpointEvent) (errors : list ErrorSample) (w : Duration) :
  let r := Correlate events errors w in
  LeakedRequests r = length (filter (leaked events (LeakageWindow r)) errors) ∧
  CleanRequests r = length (filter (λ s, ¬ leaked events (LeakageWindow r) s) errors) ∧
  EndpointEventCount r = length (filter (λ e, ev_Kind e = EndpointReady) events).
Proof.
  intros r. assert (HW : LeakageWindow r = effective_window w).
  { unfold r, Correlate. by destruct (sort_by ev_At _). }
  rewrite HW. subst r. destruct (correlate_unfold events errors w) as (-> & -> & -> & _).
  rewrite (Permutation_length (sort_by_perm _ _)).
  destruct (scan_counts ev_At (λ e, time_add (ev_At e) (effective_window w)) es_At
    (sort_by ev_At (filter (λ e, ev_Kind e = EndpointReady) events))
    (filter (λ e, ev_Kind e = EndpointReady) events)
    (sort_by es_At errors) errors) as [-> ->];
    try apply sort_by_sorted; try apply sort_by_perm.
  split_and!; [..|done]; f_equal; apply list_filter_iff; intros x;
    unfold leaked; by rewrite Exists_filter_and.
Qed.

(** Each correlated entry is a Ready event with the failures of its own window, those of an
    earlier still-open window excepted; entries come in time order. *)
Theorem correlate_groups (events : list EndpointEvent) (errors : list ErrorSample) (w : Duration)
    (j : nat) (e : EndpointEvent) (es : list ErrorSample) :
  let r := Correlate events errors w in
  Correlated r !! j = Some (e, es) →
  e ∈ events ∧ ev_Kind e = EndpointReady ∧
  es ≡ₚ filter (λ s, ev_At e <= es_At s < ev_At e + LeakageWindow r ∧
                 Forall (λ p, p.1.(ev_At) + LeakageWindow r <= es_At s) (take j (Correlated r))) errors.
Proof.
  intros r Hj. assert (HW : LeakageWindow r = effective_window w).
  { unfold r, Correlate. by destruct (sort_by ev_At _). }
  rewrite HW. destruct (correlate_unfold events errors w) as (_ & _ & _ & Hc).
  fold r in Hc. rewrite Hc in *.
  set (evs := sort_by ev_At _) in *. set (xs := sort_by es_At errors) in *.
  assert (Hxs : StronglySorted (key_le es_At) xs) by apply sort_by_sorted.
  apply lookup_zip_Some in Hj as [He Hes].
  rewrite (scan_groups _ _ _ evs xs j e Hxs He) in Hes. simplify_eq.
  assert (Hin : e ∈ filter (λ e, ev_Kind e = EndpointReady) events).
  { rewrite <- (sort_by_perm ev_At). by eapply list_elem_of_lookup_2. }
  apply list_elem_of_filter in Hin as [HK Hin]. split_and!; [done..|].
  unfold xs. rewrite (sort_by_perm es_At errors) at 1.
  erewrite list_filter_iff; [done|]. intros x. unfold inside, time_add.
  set (errs := sc_errors _).
  assert (Ht : take j evs = (take j (zip evs errs)).*1).
  { symmetry. apply take_zip_fst. unfold errs. by rewrite scan_errors_length. }
  rewrite Ht, Forall_fmap. done.
Qed.
End theorems.

Definition sample_events : list EndpointEvent :=
  [mkEvent 50 "10.0.0.1" EndpointReady; mkEvent 10 "10.0.0.2" EndpointReady;
   mkEvent 20 "10.0.0.3" EndpointRemoved].

Definition sample_errors : list ErrorSample :=
  [mkSample 60 "5xx" 503; mkSample 15 "connection_refused" 0; mkSample 30 "timeout" 0; mkSample 5 "timeout" 0].

Lemma correlate_groups_witness :
  let r := Correlate (H := insertion_SortSlice) sample_events sample_errors 10 in
  ∃ es, Correlated r !! 0%nat = Some (mkEvent 10 "10.0.0.2" EndpointReady, es) ∧
  mkEvent 10 "10.0.0.2" EndpointReady ∈ sample_events ∧ EndpointReady = EndpointReady ∧
  es ≡ₚ filter (λ s, 10 <= es_At s < 10 + LeakageWindow r ∧
                 Forall (λ p, p.1.(ev_At) + LeakageWindow r <= es_At s) (take 0 (Correlated r))) sample_errors.
Proof.
  exists [mkSample 15 "connection_refused" 0]. split; [reflexivity|].
  apply (correlate_groups (H := insertion_SortSlice) sample_events sample_errors 10 0
    (mkEvent 10 "10.0.0.2" EndpointReady) [mkSample 15 "connection_refused" 0]). reflexivity.
Defined.
