(* ===== verification/Drain.v ===== *)
(** * Ungraceful drain (internal/analyzer/drain)

    The Removed side of the endpoint stream: [Correlate] counts the failures from
    [DefaultLookback] before to the drain window after an endpoint removal. *)

From S2P Require Import Prelude GoText Api Correlation Leakage.

Open Scope Z_scope.

Definition DefaultDrainWindow : Duration := 10 * Second.

Definition DefaultLookback : Duration := 2 * Second.

Definition criticalDroppedCount : nat := 25.

Definition CorrelatedRemoval : Type := EndpointEvent * list ErrorSample.

Record Report := mkReport {
  DrainWindow : Duration;
  Window : Duration;
  DroppedRequests : nat;
  CleanRequests : nat;
  Correlated : list CorrelatedRemoval;
  RemovalCount : nat
}.

Definition totalWindow (samples : list ErrorSample) : Duration :=
  match samples, last samples with
  | s :: _ :: _, Some l => time_sub (es_At l) (es_At s)
  | _, _ => 0
  end.

Definition effective_window (w : Duration) : Duration :=
  if w <=? 0 then DefaultDrainWindow else w.

Section correlate.
Context `{SortSlice}.

Definition Correlate (events : list EndpointEvent) (errors : list ErrorSample)
    (drainWindow : Duration) : Report :=
  let drainWindow := effective_window drainWindow in
  let removals := sort_by ev_At (filter (λ e, ev_Kind e = EndpointRemoved) events) in
  let sorted := sort_by es_At errors in
  match removals with
  | [] => mkReport drainWindow (totalWindow sorted) 0 (length sorted) [] 0
  | _ =>
      let s := scan (λ e, time_add (ev_At e) (- DefaultLookback))
                 (λ e, time_add (ev_At e) drainWindow) es_At removals sorted in
      mkReport drainWindow (totalWindow sorted) (sc_hits s) (sc_clean s)
        (zip removals (sc_errors s)) (length removals)
  end.
End correlate.

Definition Diagnostics (r : Report) : list DiagnosticAlert :=
  if decide (DroppedRequests r = 0%nat) then []
  else
    let severity :=
      if decide (criticalDroppedCount <= DroppedRequests r)%nat then SeverityCritical
      else SeverityWarning in
    [mkAlert "UngracefulDrain" severity
      (itoa (Z.of_nat (DroppedRequests r)) +:+ " requests failed within "
       +:+ duration_string (DrainWindow r) +:+ " of a pod endpoint being removed (across "
       +:+ itoa (Z.of_nat (RemovalCount r)) +:+ " removals)")
      "add a preStop hook that sleeps past the kube-proxy sync interval, raise terminationGracePeriodSeconds, and ensure the app keeps draining in-flight requests after SIGTERM"].

(** ** Specification *)

Definition dropped (events : list EndpointEvent) (w : Duration) (s : ErrorSample) : Prop :=
  Exists (λ e, ev_Kind e = EndpointRemoved ∧
            ev_At e - DefaultLookback <= es_At s < ev_At e + w) events.

#[export] Instance dropped_dec events w s : Decision (dropped events w s).
Proof. unfold dropped. apply _. Defined.

Section theorems.
Context `{SortSlice}.

Lemma drain_correlate_unfold events errors w :
  let evs := sort_by ev_At (filter (λ e, ev_Kind e = EndpointRemoved) events) in
  let s := scan (λ e, time_add (ev_At e) (- DefaultLookback))
             (λ e, time_add (ev_At e) (effective_window w)) es_At evs (sort_by es_At errors) in
  DroppedRequests (Correlate events errors w) = sc_hits s ∧
  CleanRequests (Correlate events errors w) = sc_clean s ∧
  RemovalCount (Correlate events errors w) = length evs.
Proof.
  simpl. unfold Correlate. destruct (sort_by ev_At _) as [|e evs]; [|done].
  by rewrite scan_nil.
Qed.

Lemma lookback_sorted (l : list EndpointEvent) :
  StronglySorted (key_le ev_At) l →
  StronglySorted (key_le (λ e, time_add (ev_At e) (- DefaultLookback))) l.
Proof.
  induction 1 as [|e l Hs IH He]; constructor; [done|].
  eapply Forall_impl; [done|]. unfold key_le, time_add. intros; lia.
Qed.

(** C19: The linear scan counts exactly the failures from two seconds before to the drain window
    after some removal, for every input order and every sort: widening the windows by the
    lookback keeps the forward-only scan exact. *)
Theorem drain_counts (events : list EndpointEvent) (errors : list ErrorSample) (w : Duration) :
  let r := Correlate events errors w in
  DroppedRequests r = length (filter (dropped events (DrainWindow r)) errors) ∧
  CleanRequests r = length (filter (λ s, ¬ dropped events (DrainWindow r) s) errors) ∧
  RemovalCount r = length (filter (λ e, ev_Kind e = EndpointRemoved) events).
Proof.
  intros r. assert (HW : DrainWindow r = effective_window w).
  { unfold r, Correlate. by destruct (sort_by ev_At _). }
  rewrite HW. subst r. destruct (drain_correlate_unfold events errors w) as (-> & -> & ->).
  rewrite (Permutation_length (sort_by_perm _ _)).
  destruct (scan_counts (λ e, time_add (ev_At e) (- DefaultLookback))
    (λ e, time_add (ev_At e) (effective_window w)) es_At
    (sort_by ev_At (filter (λ e, ev_Kind e = EndpointRemoved) events))
    (filter (λ e, ev_Kind e = EndpointRemoved) events)
    (sort_by es_At errors) errors) as [-> ->];
    try apply lookback_sorted; try apply sort_by_sorted; try apply sort_by_perm.
  split_and!; [..|done]; f_equal; apply list_filter_iff; intros x;
    unfold dropped; by rewrite Exists_filter_and.
Qed.
End theorems.
