(* ===== verification/Hpa.v ===== *)
(** * The HPA reaction watcher (internal/analyzer/hpa)

    A [Watcher] is a state machine fed with HPA snapshots; its [Report] carries the reaction and
    settle latencies and the SLA verdict.  The watcher is proved to compute the first snapshots
    satisfying the reaction and settle conditions of the recorded history. *)

From S2P Require Import Prelude GoText Api.

Open Scope Z_scope.

(** What is read of an autoscaling/v2 HPA condition. *)
Record HPACondition := mkHPACond {
  hc_Type : string;
  hc_Status : string;
  hc_Message : string
}.

Record Snapshot := mkSnapshot {
  sn_At : Time;
  sn_CurrentReplicas : Z;
  sn_DesiredReplicas : Z;
  sn_MinReplicas : Z;
  sn_MaxReplicas : Z;
  sn_Conditions : list HPACondition
}.

Record Watcher := mkWatcher {
  w_sla : Duration;
  w_initial : Snapshot;
  w_samples : list Snapshot;
  w_maxRepl : Z;
  w_settleAt : option Time;
  w_reactAt : option Time
}.

Definition New (initial : Snapshot) (sla : Duration) : Watcher :=
  mkWatcher sla initial [initial] (sn_CurrentReplicas initial) None None.

Definition Record_ (w : Watcher) (s : Snapshot) : Watcher :=
  let samples := w_samples w ++ [s] in
  let maxRepl := if w_maxRepl w <? sn_CurrentReplicas s then sn_CurrentReplicas s else w_maxRepl w in
  let reactAt :=
    match w_reactAt w with
    | None => if sn_CurrentReplicas (w_initial w) <? sn_CurrentReplicas s then Some (sn_At s) else None
    | Some t => Some t
    end in
  let settleAt :=
    match reactAt, w_settleAt w with
    | Some _, None =>
        if (sn_CurrentReplicas (w_initial w) <? sn_DesiredReplicas s)
             && (sn_DesiredReplicas s <=? sn_CurrentReplicas s)
        then Some (sn_At s) else None
    | _, t => t
    end in
  mkWatcher (w_sla w) (w_initial w) samples maxRepl settleAt reactAt.

Record Report := mkReport {
  Started : Time;
  Ended : Time;
  StartReplicas : Z;
  PeakReplicas : Z;
  DesiredReplicas : Z;
  ReactionLatency : Duration;
  SettleLatency : Duration;
  SLA : Duration;
  SLABreached : bool;
  Reacted : bool;
  Settled : bool;
  LatestConditions : list HPACondition
}.

(** The zero [Report] carrying only the SLA. *)
Definition empty_report (sla : Duration) : Report :=
  mkReport 0 0 0 0 0 0 0 sla false false false [].

Definition report (w : Watcher) : Report :=
  match last (w_samples w) with
  | None => empty_report (w_sla w)
  | Some l =>
      let started := sn_At (w_initial w) in
      let '(reaction, reacted) :=
        match w_reactAt w with Some t => (time_sub t started, true) | None => (0, false) end in
      let '(settle, settled) :=
        match w_settleAt w with Some t => (time_sub t started, true) | None => (0, false) end in
      let breached :=
        if w_sla w <=? 0 then false
        else if negb settled then w_sla w <=? time_sub (sn_At l) started
        else w_sla w <? settle in
      mkReport started (sn_At l) (sn_CurrentReplicas (w_initial w)) (w_maxRepl w)
        (sn_DesiredReplicas l) reaction settle (w_sla w) breached reacted settled (sn_Conditions l)
  end.

Definition condition_alerts (c : HPACondition) : list DiagnosticAlert :=
  if decide (hc_Type c = "ScalingLimited" ∧ hc_Status c = "True") then
    [mkAlert "HPAScalingLimited" SeverityWarning ("HPA ScalingLimited=True: " +:+ hc_Message c)
      "raise the HPA maxReplicas, or address the upstream cap reported by HPA"]
  else if decide (hc_Type c = "AbleToScale" ∧ hc_Status c = "False") then
    [mkAlert "HPAUnableToScale" SeverityCritical ("HPA AbleToScale=False: " +:+ hc_Message c)
      "check HPA target ref kind/name, scale subresource availability, and RBAC for the HPA controller"]
  else [].

Definition Diagnostics (r : Report) : list DiagnosticAlert :=
  (if SLABreached r then
     [mkAlert "HPAScaleLatency" SeverityCritical
        ("HPA did not converge within SLA: settle=" +:+ duration_string (SettleLatency r)
         +:+ ", reaction=" +:+ duration_string (ReactionLatency r)
         +:+ ", SLA=" +:+ duration_string (SLA r)
         +:+ ", replicas " +:+ itoa (StartReplicas r) +:+ " → " +:+ itoa (PeakReplicas r)
         +:+ " (desired " +:+ itoa (DesiredReplicas r) +:+ ")")
        "tune HPA stabilization window, behavior policies, or metrics provider scrape interval"]
   else [])
  ++ (if negb (Reacted r) && (StartReplicas r <? DesiredReplicas r) then
     [mkAlert "HPANoReaction" SeverityWarning
        ("HPA observed desired=" +:+ itoa (DesiredReplicas r)
         +:+ " but currentReplicas never increased from " +:+ itoa (StartReplicas r)
         +:+ " during the window")
        "verify metrics server / external metrics adapter is reporting and HPA targetUtilization is reachable"]
   else [])
  ++ mjoin (condition_alerts <$> LatestConditions r).

(** A whole run: the initial snapshot, then the recorded ones. *)
Definition watch (initial : Snapshot) (sla : Duration) (snaps : list Snapshot) : Watcher :=
  foldl Record_ (New initial sla) snaps.

(** ** Specification *)

Definition reacts (initial s : Snapshot) : Prop :=
  sn_CurrentReplicas initial < sn_CurrentReplicas s.

Definition settles (initial s : Snapshot) : Prop :=
  sn_CurrentReplicas initial < sn_DesiredReplicas s <= sn_CurrentReplicas s.

#[export] Instance reacts_dec i s : Decision (reacts i s).
Proof. unfold reacts. apply _. Defined.

#[export] Instance settles_dec i s : Decision (settles i s).
Proof. unfold settles. apply _. Defined.

(** The time of the first snapshot satisfying a predicate. *)
Definition first_at (P : Snapshot → Prop) `{∀ s, Decision (P s)} (l : list Snapshot) : option Time :=
  sn_At <$> head (filter P l).

Definition watched (initial : Snapshot) (sla : Duration) (snaps : list Snapshot) : Watcher :=
  mkWatcher sla initial (initial :: snaps)
    (foldl Z.max (sn_CurrentReplicas initial) (sn_CurrentReplicas <$> snaps))
    (first_at (settles initial) snaps) (first_at (reacts initial) snaps).

Lemma first_at_snoc P `{∀ s, Decision (P s)} l s :
  first_at P (l ++ [s]) =
    match first_at P l with Some t => Some t | None => if decide (P s) then Some (sn_At s) else None end.
Proof.
  unfold first_at. rewrite filter_app, head_app, filter_cons, filter_nil.
  destruct (head (filter P l)); simpl; [done|]. by destruct (decide (P s)).
Qed.

Lemma record_watched initial sla snaps s :
  Record_ (watched initial sla snaps) s = watched initial sla (snaps ++ [s]).
Proof.
  unfold watched, Record_; simpl.
  rewrite !first_at_snoc, fmap_app, foldl_app. simpl. f_equal.
  - destruct (Z.ltb_spec (foldl Z.max (sn_CurrentReplicas initial) (sn_CurrentReplicas <$> snaps))
      (sn_CurrentReplicas s)); lia.
  - destruct (first_at (settles initial) snaps) as [t|], (first_at (reacts initial) snaps) as [u|];
      try done; [by destruct (_ <? _)|..]; unfold settles;
      destruct (Z.ltb_spec (sn_CurrentReplicas initial) (sn_CurrentReplicas s));
      destruct (Z.ltb_spec (sn_CurrentReplicas initial) (sn_DesiredReplicas s));
      destruct (Z.leb_spec (sn_DesiredReplicas s) (sn_CurrentReplicas s)); simpl;
      case_decide; try done; lia.
  - destruct (first_at (reacts initial) snaps); [done|]. unfold reacts.
    destruct (Z.ltb_spec (sn_CurrentReplicas initial) (sn_CurrentReplicas s)); case_decide; (done || lia).
Qed.

Lemma watch_watched initial sla snaps : watch initial sla snaps = watched initial sla snaps.
Proof.
  unfold watch. induction snaps as [|s snaps IH] using rev_ind; [done|].
  rewrite foldl_snoc, IH. apply record_watched.
Qed.

(** The watcher's state after any run is the declarative one: reaction at the first snapshot
    above the initial replica count, settling at the first snapshot whose current count has
    reached a raised desired count, the peak the maximum.  In particular the [reactAt] guard
    of settling never delays it. *)
Theorem watch_correct (initial : Snapshot) (sla : Duration) (snaps : list Snapshot) :
  watch initial sla snaps = watched initial sla snaps.
Proof. apply watch_watched. Qed.

Lemma first_at_elem P `{∀ s, Decision (P s)} l t :
  first_at P l = Some t → ∃ s, s ∈ l ∧ P s ∧ sn_At s = t.
Proof.
  unfold first_at. intros (s & Hh & ->)%fmap_Some. apply head_Some_elem_of in Hh.
  apply list_elem_of_filter in Hh as [??]. eauto.
Qed.

(** C35: The SLA verdict of a run, over the recorded history: with no SLA there is no breach; a run
    that settled breaches exactly when it settled too late; one that never settled breaches
    exactly when it was watched for at least the SLA, the very instant included.  It settled when
    first the replicas had reached a desired number above the initial one, or passed it. *)
Theorem sla_verdict (initial : Snapshot) (sla : Duration) (snaps : list Snapshot) :
  let ended := match last snaps with Some s => sn_At s | None => sn_At initial end in
  let r := report (watch initial sla snaps) in
  (SLABreached r = true ↔
    0 < sla ∧
    match first_at (settles initial) snaps with
    | Some t => sla < time_sub t (sn_At initial)
    | None => sla <= time_sub ended (sn_At initial)
    end) ∧
  Settled r = bool_decide (is_Some (first_at (settles initial) snaps)) ∧
  (Settled r = true → Reacted r = true).
Proof.
  simpl. rewrite watch_watched. unfold report, watched; simpl. rewrite last_cons.
  assert (Hsr : ∀ l, is_Some (first_at (settles initial) l) → is_Some (first_at (reacts initial) l)).
  { induction l as [|s l IH] using rev_ind; [by intros [??]|].
    rewrite !first_at_snoc. destruct (first_at (reacts initial) l); [eauto|].
    destruct (first_at (settles initial) l) as [t|]; [intros _; destruct IH; eauto; done|].
    unfold settles, reacts. do 2 case_decide; try lia; eauto. }
  specialize (Hsr snaps).
  destruct (last snaps) as [l|]; simpl;
    destruct (first_at (settles initial) snaps) as [t|], (first_at (reacts initial) snaps) as [u|];
    simpl; (repeat split); try done; try lia;
    try (destruct (Z.leb_spec sla 0); lia); try (destruct Hsr; eauto; done);
    intros [??]; destruct (Z.leb_spec sla 0); lia.
Qed.

(** Two comments of the source say otherwise: a run watched for exactly the SLA breaches it without
    having exceeded it, and a run has settled with more replicas than desired. *)
Lemma breach_at_exactly_sla :
  SLABreached (report (watch (mkSnapshot 0 1 1 1 9 []) Second [mkSnapshot Second 1 1 1 9 []])) = true.
Proof. reflexivity. Qed.

Lemma settled_above_desired :
  Settled (report (watch (mkSnapshot 0 1 1 1 9 []) Second [mkSnapshot 5 4 3 1 9 []])) = true.
Proof. reflexivity. Qed.
