(* ===== verification/Cgroup.v ===== *)
(** * CFS throttling (internal/analyzer/cgroup)

    [Parse] reads a cgroup v2 cpu.stat body, [ParseCAdvisor] the same counters from a cAdvisor
    scrape (the Prometheus text parser is a parameter), [Compare] derives the throttling report
    and [Diagnostics] bands it.  Proved: printing then parsing a stat is the identity, and the
    floating-point percentage bands are the exact integer ones. *)

From Stdlib Require Import Ascii String.
From S2P Require Import Prelude GoFloat GoText Api.

Open Scope Z_scope.

Record Stat := mkStat {
  UsageUSec : Z;
  UserUSec : Z;
  SystemUSec : Z;
  NRPeriods : Z;
  NRThrottled : Z;
  ThrottledUSec : Z
}.

Definition zero_stat : Stat := mkStat 0 0 0 0 0 0.

(** ** Parse *)

(** bufio.Scanner with ScanLines: the pieces between newlines, a final empty piece dropped.
    A line that does not fit the 64 KiB buffer stops the scan with an error. *)
Definition maxScanTokenSize : nat := Z.to_nat 65536.

Definition scan_lines (body : string) : list string :=
  let ls := Split body nl in
  match last ls with Some EmptyString => take (length ls - 1) ls | _ => ls end.

Definition set_key (key : string) (v : Z) (s : Stat) : Stat :=
  let '(mkStat a b c d e f) := s in
  if decide (key = "usage_usec") then mkStat v b c d e f
  else if decide (key = "user_usec") then mkStat a v c d e f
  else if decide (key = "system_usec") then mkStat a b v d e f
  else if decide (key = "nr_periods") then mkStat a b c v e f
  else if decide (key = "nr_throttled") then mkStat a b c d v f
  else if decide (key = "throttled_usec") then mkStat a b c d e v
  else s.

Fixpoint parse_lines (lines : list string) (s : Stat) : res Stat :=
  match lines with
  | [] => Ok s
  | raw :: rest =>
      if decide (maxScanTokenSize <= String.length raw)%nat
      then Err (errorf "scan cpu.stat: bufio.Scanner: token too long")
      else
        let line := TrimSpace raw in
        if decide (line = "") then parse_lines rest s
        else
          match Cut line " "%char with
          | None => Err (errorf ("malformed line " +:+ quote line))
          | Some (key, rawv) =>
              match ParseUint64 (TrimSpace rawv) with
              | Err e => Err (wrapf ("parse " +:+ key +:+ " value " +:+ quote rawv) e)
              | Ok v => parse_lines rest (set_key key v s)
              end
          end
  end.

Definition Parse (body : string) : res Stat := parse_lines (scan_lines body) zero_stat.

(** [open]: os.Open, with the content that reading the file gives. *)
Definition ParseFile (open : string → res string) (path : string) : res Stat :=
  match open path with
  | Err e => Err (wrapf "open cpu.stat" e)
  | Ok body => Parse body
  end.

(** ** ParseCAdvisor *)

Record LabelPair := mkLabel { lb_Name : string; lb_Value : string }.

(** A sample of a metric family: a counter or an untyped value, or another type. *)
Inductive MetricValue :=
| Counter (v : f64)
| Untyped (v : f64)
| OtherMetric.

Record Metric := mkMetric { mt_Labels : list LabelPair; mt_Value : MetricValue }.

(** The outcome of the third-party text parser, which may panic. *)
Inductive parse_outcome :=
| Families (f : gmap string (list Metric))
| ParseFailed (e : goerr)
| ParserPanic (what : string).

Definition label_step (acc : string * string * string) (l : LabelPair) : string * string * string :=
  let '(pod, ns, c) := acc in
  if decide (lb_Name l = "pod") then (lb_Value l, ns, c)
  else if decide (lb_Name l = "namespace") then (pod, lb_Value l, c)
  else if decide (lb_Name l = "container") then (pod, ns, lb_Value l)
  else acc.

Definition matches (labels : list LabelPair) (podName namespace container : string) : bool :=
  let '(pod, ns, c) := foldl label_step ("", "", "") labels in
  if decide (c = "") then false
  else if decide (pod ≠ podName ∨ c ≠ container) then false
  else if decide (ns ≠ "" ∧ namespace ≠ "" ∧ ns ≠ namespace) then false
  else true.

Definition counterValue (m : Metric) : f64 :=
  match mt_Value m with Counter v => v | Untyped v => v | OtherMetric => Fin 0 end.

Section cadvisor.
(** [TextToMetricFamilies], and the platform's conversion of a [float64] that is out of the
    range of [uint64]. *)
Context (text_to_families : string → parse_outcome) (uint64_overflow : f64 → Z).

Definition f64_to_uint64 (x : f64) : Z :=
  match f64_trunc x with
  | Some z => if (0 <=? z) && (z <? 2 ^ 64) then z else uint64_overflow x
  | None => uint64_overflow x
  end.

Fixpoint pick_metric (ms : list Metric) (podName namespace container : string) : option Metric :=
  match ms with
  | [] => None
  | m :: r => if matches (mt_Labels m) podName namespace container then Some m
              else pick_metric r podName namespace container
  end.

(** The [pick] closure: the rounded value of the first matching sample, or the default. *)
Definition pick (families : gmap string (list Metric)) (name podName namespace container : string)
    (scale : Z) : Z :=
  match families !! name with
  | None => 0
  | Some ms =>
      match pick_metric ms podName namespace container with
      | None => 0
      | Some m => uint64 (f64_to_uint64 (f64_math_round (counterValue m)) * scale)
      end
  end.

Definition ParseCAdvisor (body podName namespace container : string) : res Stat :=
  if decide (podName = "" ∨ container = "")
  then Err (errorf "pod and container required for cadvisor filter")
  else
    match text_to_families body with
    | ParserPanic p => Err (errorf ("parse cadvisor exposition: parser panic: " +:+ p))
    | ParseFailed e => Err (wrapf "parse cadvisor exposition" e)
    | Families fs =>
        Ok (mkStat
          (pick fs "container_cpu_usage_seconds_total" podName namespace container 1000000) 0 0
          (pick fs "container_cpu_cfs_periods_total" podName namespace container 1)
          (pick fs "container_cpu_cfs_throttled_periods_total" podName namespace container 1)
          (pick fs "container_cpu_cfs_throttled_seconds_total" podName namespace container 1000000))
    end.
End cadvisor.

(** ** Compare *)

Record Report := mkReport {
  Before : Stat;
  After : Stat;
  Window : Duration;
  Periods : Z;
  Throttled : Z;
  ThrottlePercent : f64;
  ThrottledDuration : Duration
}.

Definition saturatingSub (a b : Z) : Z := if a <? b then 0 else a - b.

Definition Compare (before after : Stat) (window : Duration) : Report :=
  let periods := saturatingSub (NRPeriods after) (NRPeriods before) in
  let throttled := saturatingSub (NRThrottled after) (NRThrottled before) in
  let throttledUSec := saturatingSub (ThrottledUSec after) (ThrottledUSec before) in
  mkReport before after window periods throttled
    (if 0 <? periods
     then f64_mul (f64_div (f64_of_int throttled) (f64_of_int periods)) (f64_of_int 100)
     else Fin 0)
    (int64 throttledUSec ⊗ Microsecond)%go.

Definition WarnThresholdPercent : f64 := f64_of_int 5.

Definition CriticalThresholdPercent : f64 := f64_of_int 25.

Definition Diagnostics (r : Report) : list DiagnosticAlert :=
  if (Throttled r =? 0) || (Periods r =? 0) then []
  else
    let severity :=
      if f64_le CriticalThresholdPercent (ThrottlePercent r) then SeverityCritical
      else if f64_le WarnThresholdPercent (ThrottlePercent r) then SeverityWarning
      else SeverityInfo in
    [mkAlert "CPUThrottling" severity
      ("container throttled " +:+ itoa (Throttled r) +:+ " of " +:+ itoa (Periods r)
       +:+ " CFS periods (" +:+ fmt_fixed 2 (ThrottlePercent r) +:+ "%) for "
       +:+ duration_string (ThrottledDuration r) +:+ " during the stress window")
      "raise cpu.limits or remove the limit; CPU limits force CFS throttling even when the node has spare capacity"].

(** ** Printing and parsing cpu.stat *)

Definition stat_line (key : string) (v : Z) : string := key +:+ String " "%char (itoa_nonneg v).

(** A body as the kernel prints it. *)
Definition render_lines (ls : list (string * Z)) : string :=
  foldr (λ kv acc, stat_line kv.1 kv.2 +:+ String nl acc) "" ls.

Definition stat_fields (s : Stat) : list (string * Z) :=
  [("usage_usec", UsageUSec s); ("user_usec", UserUSec s); ("system_usec", SystemUSec s);
   ("nr_periods", NRPeriods s); ("nr_throttled", NRThrottled s); ("throttled_usec", ThrottledUSec s)].

Definition wf_stat (s : Stat) : Prop := Forall (λ kv, in_uint64 kv.2) (stat_fields s).

(** A key the kernel could print: a short word. *)
Definition wf_key (key : string) : Prop :=
  key ≠ "" ∧ (String.length key < 1000)%nat ∧ all_bytes (λ c, negb (is_space c)) key = true.

Lemma parse_line key v rest s : wf_key key → in_uint64 v →
  parse_lines (stat_line key v :: rest) s = parse_lines rest (set_key key v s).
Proof.
  intros (Hne & Hlen & Hns) Hv. unfold stat_line.
  pose proof (itoa_nonneg_length v Hv) as Hl.
  pose proof (itoa_nonneg_nonspace v ltac:(apply Hv)) as Hsp.
  pose proof (itoa_nonneg_nonempty v) as Hnz.
  cbn [parse_lines]. rewrite decide_False.
  2: { rewrite !length_append. unfold maxScanTokenSize. simpl String.length. lia. }
  assert (HT : TrimSpace (key +:+ String " " (itoa_nonneg v)) = key +:+ String " " (itoa_nonneg v)).
  { destruct key as [|c key]; [done|].
    change (String " " (itoa_nonneg v)) with (" " +:+ itoa_nonneg v).
    rewrite <- (append_assoc (String c key) " "). simpl in Hns.
    apply andb_true_iff in Hns as [Hc%negb_true_iff _].
    apply (TrimSpace_app c (key +:+ " ") (itoa_nonneg v)); done. }
  rewrite HT, decide_False by (destruct key; done).
  rewrite Cut_app.
  - rewrite TrimSpace_nonspace by done. by rewrite ParseUint64_itoa.
  - eapply all_bytes_impl, Hns. intros c Hc. apply negb_true_iff in Hc. apply negb_true_iff.
    destruct (Ascii.eqb_spec c " "); [subst; by vm_compute in Hc|done].
Qed.

Lemma scan_render ls : Forall (λ kv, wf_key kv.1 ∧ 0 <= kv.2) ls →
  Split (render_lines ls) nl = ((λ kv, stat_line kv.1 kv.2) <$> ls) ++ [""].
Proof.
  induction 1 as [|[k v] ls [(Hk & _ & Hs) Hv] _ IH]; [done|].
  cbn [render_lines foldr fst snd]. rewrite Split_app; [simpl; by f_equal|].
  unfold stat_line. rewrite all_bytes_app. cbn [all_bytes].
  assert (Hx : ∀ s, all_bytes (λ c, negb (is_space c)) s = true →
                 all_bytes (λ c, negb (Ascii.eqb c nl)) s = true).
  { intros s. apply all_bytes_impl. intros c Hc. apply negb_true_iff in Hc. apply negb_true_iff.
    destruct (Ascii.eqb_spec c nl); [subst; by vm_compute in Hc|done]. }
  rewrite !Hx; [done|by apply itoa_nonneg_nonspace|done].
Qed.

Lemma parse_render ls s : Forall (λ kv, wf_key kv.1 ∧ in_uint64 kv.2) ls →
  parse_lines ((λ kv, stat_line kv.1 kv.2) <$> ls) s = Ok (foldl (λ s kv, set_key kv.1 kv.2 s) s ls).
Proof.
  intros Hls. revert s. induction Hls as [|[k v] ls [Hk Hv] _ IH]; intros s; [done|].
  rewrite fmap_cons, parse_line by done. apply IH.
Qed.

Lemma Parse_render_fields ls : Forall (λ kv, wf_key kv.1 ∧ in_uint64 kv.2) ls →
  Parse (render_lines ls) = Ok (foldl (λ s kv, set_key kv.1 kv.2 s) zero_stat ls).
Proof.
  intros Hls. unfold Parse, scan_lines. rewrite scan_render.
  2: { eapply Forall_impl; [done|]. unfold in_uint64. intros ? [??]; split; [done|lia]. }
  rewrite last_snoc, length_app. simpl. rewrite Nat.add_sub, take_app_length.
  by apply parse_render.
Qed.

(** A stat printed the way the kernel prints cpu.stat parses back to itself: no field is
    dropped, swapped or truncated anywhere in the uint64 range. *)
Theorem Parse_roundtrip (s : Stat) :
  wf_stat s → Parse (render_lines (stat_fields s)) = Ok s.
Proof.
  intros Hs. rewrite Parse_render_fields.
  - by destruct s.
  - unfold wf_stat in Hs. unfold stat_fields in *. rewrite !Forall_cons in Hs |- *. simpl in *.
    destruct Hs as (? & ? & ? & ? & ? & ? & _).
    split_and!; try done; (split_and!; [done|by apply Nat.ltb_lt|done]).
Qed.

(** A file that cannot be opened is an error, never an all-zero sample. *)
Lemma ParseFile_unreadable open path e : open path = Err e → is_ok (ParseFile open path) = false.
Proof. unfold ParseFile. by intros ->. Qed.

Lemma Parse_roundtrip_witness :
  Parse (render_lines (stat_fields (mkStat 12345678 9123456 3222222 100 7 (2 ^ 64 - 1))))
  = Ok (mkStat 12345678 9123456 3222222 100 7 (2 ^ 64 - 1)).
Proof.
  apply Parse_roundtrip. unfold wf_stat, stat_fields, in_uint64.
  repeat (apply Forall_cons_2; [simpl; lia|]). apply Forall_nil_2.
Defined.

(** ** The severity bands *)

Lemma percent_grid T P : 0 <= T <= 2 ^ 53 → 0 < P <= 2 ^ 53 →
  let g := grid_round (T * one) P in
  g * 100 <= 2 ^ 60 * one →
  f64_mul (f64_div (f64_of_int T) (f64_of_int P)) (f64_of_int 100) = Fin (grid_round (g * 100) 1).
Proof.
  intros HT HP g Hg. pose proof one_pos.
  assert (0 <= g) by (apply grid_round_nonneg; nia).
  rewrite f64_div_int, (f64_of_int_exact 100) by lia. fold g. unfold f64_mul.
  replace (g * (100 * one)) with (g * 100 * one) by lia.
  rewrite f64_round_small by nia. f_equal.
  rewrite <- (grid_round_scale (g * 100) 1 one) by lia. by rewrite Z.mul_1_l.
Qed.

(** The rounded percentage is on the same side of a whole percentage K as the exact one. *)
Lemma percent_side K T P : 0 < K <= 25 → 0 < T <= P → P <= 2 ^ 47 →
  K * one <= grid_round (grid_round (K * one) 100 * 100) 1 →
  K * one <= grid_round (grid_round (T * one) P * 100) 1 ↔ K * P <= 100 * T.
Proof.
  intros HK HT HP Hc. pose proof one_pos as H1.
  assert (Hbig : 2 ^ 105 < one) by (vm_compute; done).
  set (g := grid_round (T * one) P). set (h := grid_round (g * 100) 1).
  assert (Hg0 : 0 <= g) by (apply grid_round_nonneg; nia).
  split; intros Hle.
  - pose proof (grid_round_ratio_err T P ltac:(lia) ltac:(lia) ltac:(nia)) as Eg. fold g in Eg.
    assert (Eg' : g * P * 2 ^ 53 <= T * one * (2 ^ 53 + 1)) by lia. clear Eg.
    assert (Hgl : 2 ^ 52 <= g * 100).
    { destruct (Z.le_gt_cases (2 ^ 52) (g * 100)) as [|Hlt]; [done|exfalso].
      assert (h <= 2 ^ 52) as Hh; [|lia].
      unfold h. replace (2 ^ 52) with (grid_round (2 ^ 52) 1) by (vm_compute; done).
      apply grid_round_mono; lia. }
    pose proof (grid_round_err (g * 100) 1 ltac:(lia) ltac:(lia) ltac:(lia)) as Eh. fold h in Eh.
    assert (Eh' : h * 2 ^ 53 <= g * 100 * (2 ^ 53 + 1)) by lia. clear Eh.
    destruct (Z.le_gt_cases (K * P) (100 * T)) as [|Hgt]; [done|exfalso].
    assert (F1 : K * one * P * 2 ^ 106 <= 100 * (T * one * (2 ^ 53 + 1)) * (2 ^ 53 + 1)) by nia.
    assert (F2 : 100 * T * (2 ^ 53 + 1) * (2 ^ 53 + 1) < K * P * 2 ^ 106) by nia.
    nia.
  - assert (Hm : grid_round (K * one) 100 <= g) by (apply grid_round_mono; nia).
    etrans; [exact Hc|]. apply grid_round_mono; [|lia..]. 
    assert (0 <= grid_round (K * one) 100) by (apply grid_round_nonneg; lia). lia.
Qed.

(** C39: The alert of a throttled window and its severity are those of the exact percentage: none
    without throttling, Critical from 25% on, Warning from 5% on, both bounds included, Info below;
    the rounding of the
    two floating-point operations never moves a window across a band (windows of up to 2^47
    periods, four hundred thousand years at the kernel's default period). *)
Theorem throttle_bands (before after : Stat) (window : Duration) :
  let P := saturatingSub (NRPeriods after) (NRPeriods before) in
  let T := saturatingSub (NRThrottled after) (NRThrottled before) in
  0 <= T <= P → P <= 2 ^ 47 →
  da_Severity <$> Diagnostics (Compare before after window) =
    if T =? 0 then []
    else if P <=? 4 * T then [SeverityCritical]
    else if P <=? 20 * T then [SeverityWarning]
    else [SeverityInfo].
Proof.
  intros P T HT HP. unfold Diagnostics, Compare. cbn [Throttled Periods ThrottlePercent].
  fold P T. pose proof one_pos.
  destruct (Z.eqb_spec T 0) as [HT0|HT0]; [done|].
  destruct (Z.eqb_spec P 0) as [HP0|HP0]; [lia|]. cbn [orb].
  destruct (Z.ltb_spec 0 P); [|lia].
  assert (Hg : grid_round (T * one) P <= one).
  { replace one with (1 * one) at 2 by lia. rewrite <- (grid_round_int 1 1) by lia.
    apply grid_round_mono; nia. }
  rewrite percent_grid by lia.
  assert (C25 : CriticalThresholdPercent = Fin (25 * one)) by (unfold CriticalThresholdPercent, WarnThresholdPercent; apply f64_of_int_exact; lia).
  assert (C5 : WarnThresholdPercent = Fin (5 * one)) by (unfold CriticalThresholdPercent, WarnThresholdPercent; apply f64_of_int_exact; lia).
  rewrite C25, C5. unfold f64_le.
  pose proof (percent_side 25 T P ltac:(lia) ltac:(lia) HP ltac:(by vm_compute)) as S25.
  pose proof (percent_side 5 T P ltac:(lia) ltac:(lia) HP ltac:(by vm_compute)) as S5.
  destruct (Z.leb_spec (25 * one) (grid_round (grid_round (T * one) P * 100) 1)),
    (Z.leb_spec P (4 * T)); try lia; [done|].
  destruct (Z.leb_spec (5 * one) (grid_round (grid_round (T * one) P * 100) 1)),
    (Z.leb_spec P (20 * T)); try lia; done.
Qed.

Lemma throttle_bands_witness :
  da_Severity <$> Diagnostics (Compare zero_stat (mkStat 0 0 0 100 7 42000) (60 * Second))
  = [SeverityWarning].
Proof. apply (throttle_bands zero_stat (mkStat 0 0 0 100 7 42000)); vm_compute; done. Defined.

(** The comment of the thresholds has both bounds excluded; 5% and 25% are in the graver band. *)
Lemma threshold_bounds_included :
  da_Severity <$> Diagnostics (Compare zero_stat (mkStat 0 0 0 100 5 42000) Second) = [SeverityWarning] ∧
  da_Severity <$> Diagnostics (Compare zero_stat (mkStat 0 0 0 100 25 42000) Second) = [SeverityCritical].
Proof. split; vm_compute; reflexivity. Qed.

(** ** What the parsers do at the edges *)

(** The comment of [Parse] limits its error to recognised keys; the value of an unknown key has
    to be numeric too. *)
Lemma Parse_unknown_key_rejected : is_ok (Parse "nr_bursts none") = false.
Proof. vm_compute. reflexivity. Qed.

Definition cadvisor_labels : list LabelPair :=
  [mkLabel "pod" "web-0"; mkLabel "namespace" "prod"; mkLabel "container" "app"].

(** cAdvisor's seconds are rounded to whole seconds before they become microseconds, so 0.4 s
    of throttling is reported as none. *)
Lemma cadvisor_subsecond_lost :
  ParseCAdvisor
    (λ _, Families {[ "container_cpu_cfs_throttled_seconds_total" :=
      [mkMetric cadvisor_labels (Counter (f64_ratio 4 10))] ]})
    (λ _, 0) "scrape" "web-0" "prod" "app" = Ok zero_stat.
Proof. vm_compute. reflexivity. Qed.
