(* ===== verification/ProbeLag.v ===== *)
(** * Readiness probe lag (internal/analyzer/probelag)

    [FromPodConditions] turns a pod's condition timestamps into latencies; [Diagnostics] flags a
    readiness lag of several probe periods. *)

From S2P Require Import Prelude GoFloat GoText Api K8s.

Open Scope Z_scope.

Record Report := mkReport {
  Scheduled : option Time;
  ReadyToStartContainers : option Time;
  Initialized : option Time;
  ContainersReady : option Time;
  Ready : option Time;
  SchedulingLatency : Duration;
  TrueSchedulingLatency : Duration;
  InitContainerRuntime : Duration;
  StartupLatency : Duration;
  ReadinessLag : Duration;
  TotalStartupLatency : Duration;
  PeriodSeconds : Z
}.

Definition warnPeriods : Z := 2.

Definition criticalPeriods : Z := 5.

Definition diff (a b : option Time) : Duration :=
  match a, b with
  | Some a, Some b => let d := time_sub b a in if d <? 0 then 0 else d
  | _, _ => 0
  end.

Record stamps := mkStamps {
  t_scheduled : option Time;
  t_readyToStart : option Time;
  t_initialized : option Time;
  t_containersReady : option Time;
  t_ready : option Time
}.

Definition stamp_step (s : stamps) (c : PodCondition) : stamps :=
  let '(mkStamps a b i r p) := s in
  if decide (pc_Status c ≠ "True") then s
  else
    let ts := Some (pc_LastTransitionTime c) in
    if decide (pc_Type c = "PodScheduled") then mkStamps ts b i r p
    else if decide (pc_Type c = "PodReadyToStartContainers") then mkStamps a ts i r p
    else if decide (pc_Type c = "Initialized") then mkStamps a b ts r p
    else if decide (pc_Type c = "ContainersReady") then mkStamps a b i ts p
    else if decide (pc_Type c = "Ready") then mkStamps a b i r ts
    else s.

Definition stamps_of (conds : list PodCondition) : stamps :=
  foldl stamp_step (mkStamps None None None None None) conds.

Definition FromPodConditions (conds : list PodCondition) (periodSeconds : Z) : Report :=
  let '(mkStamps sch rts ini cr rdy) := stamps_of conds in
  mkReport sch rts ini cr rdy
    (diff sch ini)
    (match rts with Some _ => diff sch rts | None => 0 end)
    (match rts with Some _ => diff rts ini | None => 0 end)
    (diff ini cr) (diff cr rdy) (diff sch rdy) periodSeconds.

Definition Diagnostics (r : Report) : list DiagnosticAlert :=
  if PeriodSeconds r <=? 0 then []
  else
    match ContainersReady r, Ready r with
    | Some _, Some _ =>
        let period := (PeriodSeconds r ⊗ Second)%go in
        if ReadinessLag r <? (warnPeriods ⊗ period)%go then []
        else
          let severity :=
            if (criticalPeriods ⊗ period)%go <=? ReadinessLag r then SeverityCritical
            else SeverityWarning in
          let periodsCovered := f64_div (f64_of_int (ReadinessLag r)) (f64_of_int period) in
          [mkAlert "ReadinessSamplingSparse" severity
            ("readiness lag " +:+ duration_string (ReadinessLag r) +:+ " spans "
             +:+ fmt_fixed 1 periodsCovered +:+ "x the probe period (" +:+ duration_string period
             +:+ "), container was running but unmarked Ready for "
             +:+ itoa (default 0 (f64_trunc periodsCovered)) +:+ "+ probe cycles")
            "lower readinessProbe.periodSeconds (e.g. 2s) and/or readinessProbe.failureThreshold to shorten cold-start exposure"]
    | _, _ => []
    end.

(** ** Properties *)

(** The latest timestamp of the True conditions of one type. *)
Definition last_true (ty : string) (conds : list PodCondition) : option Time :=
  pc_LastTransitionTime <$> last (filter (λ c, pc_Status c = "True" ∧ pc_Type c = ty) conds).

Lemma last_true_snoc ty conds c :
  last_true ty (conds ++ [c]) =
    if decide (pc_Status c = "True" ∧ pc_Type c = ty) then Some (pc_LastTransitionTime c)
    else last_true ty conds.
Proof.
  unfold last_true. rewrite filter_app, filter_cons, filter_nil.
  case_decide; [by rewrite last_snoc|by rewrite app_nil_r].
Qed.

Lemma last_true_snoc_true ty conds c : pc_Status c = "True" →
  last_true ty (conds ++ [c]) =
    if decide (pc_Type c = ty) then Some (pc_LastTransitionTime c) else last_true ty conds.
Proof.
  intros Hs. rewrite last_true_snoc. destruct (decide (pc_Type c = ty)).
  - by rewrite decide_True.
  - by rewrite decide_False by (intros [??]; done).
Qed.

Lemma stamps_of_correct conds :
  stamps_of conds =
    mkStamps (last_true "PodScheduled" conds) (last_true "PodReadyToStartContainers" conds)
      (last_true "Initialized" conds) (last_true "ContainersReady" conds) (last_true "Ready" conds).
Proof.
  unfold stamps_of. induction conds as [|c conds IH] using rev_ind; [done|].
  rewrite foldl_snoc, IH. unfold stamp_step.
  destruct (decide (pc_Status c ≠ "True")) as [Hs|Hs%dec_stable].
  { by rewrite !last_true_snoc, !decide_False by (intros [??]; congruence). }
  rewrite !last_true_snoc_true by done.
  repeat match goal with
  | |- context [decide (pc_Type c = ?t)] => destruct (decide (pc_Type c = t))
  end; try done; exfalso; congruence.
Qed.

Lemma diff_nonneg a b : 0 <= diff a b.
Proof. unfold diff. destruct a, b; try lia. destruct (Z.ltb_spec (time_sub t0 t) 0); lia. Qed.

Lemma diff_ordered a b : a <= b → b - a <= maxDuration → diff (Some a) (Some b) = b - a.
Proof.
  unfold diff, time_sub, minDuration, maxDuration. intros.
  destruct (Z.ltb_spec (Z.max (- 2 ^ 63) (Z.min (2 ^ 63 - 1) (b - a))) 0); lia.
Qed.

(** The report's timestamps are those of the last True condition of each type, and on a pod
    that went through its lifecycle in order the latencies add up: scheduling splits into
    binding and init containers, and the full cold start is scheduling, startup and readiness
    lag. *)
Theorem probelag_latencies (conds : list PodCondition) (period : Z) (s r i c p : Time) :
  last_true "PodScheduled" conds = Some s →
  last_true "PodReadyToStartContainers" conds = Some r →
  last_true "Initialized" conds = Some i →
  last_true "ContainersReady" conds = Some c →
  last_true "Ready" conds = Some p →
  s <= r <= i → i <= c <= p → p - s <= maxDuration →
  let rep := FromPodConditions conds period in
  SchedulingLatency rep = TrueSchedulingLatency rep + InitContainerRuntime rep ∧
  TotalStartupLatency rep = SchedulingLatency rep + StartupLatency rep + ReadinessLag rep ∧
  ReadinessLag rep = p - c.
Proof.
  intros Hs Hr Hi Hc Hp ??? rep. unfold rep, FromPodConditions.
  rewrite stamps_of_correct, Hs, Hr, Hi, Hc, Hp. cbn [SchedulingLatency TrueSchedulingLatency
    InitContainerRuntime TotalStartupLatency StartupLatency ReadinessLag].
  rewrite !diff_ordered; lia.
Qed.

Definition ordered_pod : list PodCondition :=
  [mkPodCond "PodScheduled" "True" 0; mkPodCond "PodReadyToStartContainers" "True" (2 * Second);
   mkPodCond "Initialized" "True" (3 * Second); mkPodCond "ContainersReady" "True" (10 * Second);
   mkPodCond "Ready" "True" (35 * Second)].

Lemma probelag_latencies_witness :
  let rep := FromPodConditions ordered_pod 5 in
  SchedulingLatency rep = TrueSchedulingLatency rep + InitContainerRuntime rep ∧
  TotalStartupLatency rep = SchedulingLatency rep + StartupLatency rep + ReadinessLag rep ∧
  ReadinessLag rep = 35 * Second - 10 * Second.
Proof.
  apply (probelag_latencies ordered_pod 5 0 (2 * Second) (3 * Second) (10 * Second) (35 * Second));
    vm_compute; done.
Defined.

(** The alert fires exactly on a pod with a probe period and both stamps whose lag reaches two
    periods, and is Critical from five.  A probe period below
    2^30 seconds (34 years) keeps both products of the comparison within int64. *)
Theorem probelag_bands (conds : list PodCondition) (period : Z) :
  in_int32 period → period < 2 ^ 30 →
  let lag := diff (last_true "ContainersReady" conds) (last_true "Ready" conds) in
  da_Severity <$> Diagnostics (FromPodConditions conds period) =
    match last_true "ContainersReady" conds, last_true "Ready" conds with
    | Some _, Some _ =>
        if (period <=? 0) || (lag <? 2 * (period * Second)) then []
        else if 5 * (period * Second) <=? lag then [SeverityCritical] else [SeverityWarning]
    | _, _ => []
    end.
Proof.
  intros Hp Hb lag. unfold lag, Diagnostics, FromPodConditions. rewrite stamps_of_correct.
  cbn [PeriodSeconds ContainersReady Ready ReadinessLag]. unfold in_int32 in Hp.
  destruct (Z.leb_spec period 0); [by destruct (last_true _ _), (last_true _ _)|].
  assert (Hs : Second = 1000000000) by done.
  rewrite (int64_id (period * Second)) by solve_range.
  unfold warnPeriods, criticalPeriods. rewrite (int64_id (2 * (period * Second))), (int64_id (5 * (period * Second))) by solve_range.
  destruct (last_true "ContainersReady" conds) as [c|], (last_true "Ready" conds) as [p|];
    try done. cbn [orb].
  destruct (Z.ltb_spec (diff (Some c) (Some p)) (2 * (period * Second))); [done|].
  by destruct (Z.leb_spec (5 * (period * Second)) (diff (Some c) (Some p))).
Qed.

Lemma probelag_bands_witness :
  da_Severity <$> Diagnostics (FromPodConditions ordered_pod 5) = [SeverityCritical].
Proof. rewrite probelag_bands; [vm_compute; done|unfold in_int32; lia|lia]. Defined.
