(* ===== verification/Dns.v ===== *)
(** * DNS ndots audit (internal/analyzer/dns) *)

From S2P Require Import Prelude GoText Api K8s.

Open Scope Z_scope.

Definition KubernetesDefaultNDots : Z := 5.

Record Report := mkReport { NDots : Z; Explicit : bool }.

Fixpoint audit_options (opts : list PodDNSConfigOption) : res Report :=
  match opts with
  | [] => Ok (mkReport KubernetesDefaultNDots false)
  | opt :: rest =>
      if decide (do_Name opt ≠ "ndots") then audit_options rest
      else
        match do_Value opt with
        | None => Err (errorf "dnsConfig option ndots has no value")
        | Some v =>
            match Atoi v with
            | Err e => Err (wrapf ("parse ndots value " +:+ quote v) e)
            | Ok n => Ok (mkReport n true)
            end
        end
  end.

Definition Audit (dnsConfig : option (list PodDNSConfigOption)) : res Report :=
  match dnsConfig with
  | None => Ok (mkReport KubernetesDefaultNDots false)
  | Some opts => audit_options opts
  end.

Definition Diagnostics (r : Report) : list DiagnosticAlert :=
  if Explicit r && (NDots r <? KubernetesDefaultNDots) then []
  else
    let source := if Explicit r then "an explicit dnsConfig override" else "the Kubernetes default" in
    [mkAlert "DNSNdotsHigh" SeverityWarning
      ("pod resolves with ndots:" +:+ itoa (NDots r) +:+ " (" +:+ source
       +:+ "), every non-FQDN lookup walks the search list first, multiplying CoreDNS queries up to "
       +:+ itoa (NDots r) +:+ "x")
      "set dnsConfig.options ndots to 1 or 2, or use fully-qualified names (trailing dot) for external hostnames"].

(** The audit reads the first ndots option and nothing else: without one it reports the default
    (and the alert fires), with a numeric one that value (and the alert fires from 5), and a
    first ndots option without a value or with a non-numeric one is an error. *)
Theorem dns_audit (opts : list PodDNSConfigOption) :
  match head (filter (λ o, do_Name o = "ndots") opts) with
  | None => Audit (Some opts) = Ok (mkReport KubernetesDefaultNDots false)
  | Some o =>
      match do_Value o with
      | None => is_ok (Audit (Some opts)) = false
      | Some v =>
          match Atoi v with
          | Ok n => Audit (Some opts) = Ok (mkReport n true) ∧
                    (Diagnostics (mkReport n true) = [] ↔ n < KubernetesDefaultNDots)
          | Err _ => is_ok (Audit (Some opts)) = false
          end
      end
  end.
Proof.
  simpl. induction opts as [|o opts IH]; [done|]. rewrite filter_cons. simpl.
  destruct (decide (do_Name o = "ndots")) as [Ho|Ho]; simpl.
  - rewrite decide_False by (by intros []). destruct (do_Value o); [|done].
    destruct (Atoi s) as [n|]; [|done]. split; [done|]. unfold Diagnostics. simpl.
    destruct (Z.ltb_spec n KubernetesDefaultNDots); split; done || lia.
  - by rewrite decide_True.
Qed.
