(* ===== verification/Pdb.v ===== *)
(** * PodDisruptionBudget audit (internal/analyzer/pdb)

    Label selectors and int-or-percent scaling belong to the Kubernetes libraries ([K8sLib]). *)

From S2P Require Import Prelude GoText Api K8s.

Open Scope Z_scope.

Record MatchedPDB := mkMatched { mp_Name : string; mp_BlocksAllDisruption : bool }.

Record Report := mkReport { Replicas : Z; MatchingPDBs : list MatchedPDB }.

Definition Covered (r : Report) : bool :=
  match MatchingPDBs r with [] => false | _ => true end.

Section audit.
Context `{K8sLib}.

(** What is read of a policyv1.PodDisruptionBudget. *)
Record PodDisruptionBudget := mkPDB {
  pdb_Name : string;
  pdb_Selector : option LabelSelector;
  pdb_MinAvailable : option IntOrString;
  pdb_MaxUnavailable : option IntOrString
}.

Definition blocksAll (p : PodDisruptionBudget) (replicas : Z) : bool :=
  let total := replicas in
  if total <=? 0 then false
  else
    match pdb_MinAvailable p with
    | Some m => match ScaledValue m total true with Ok v => total <=? v | Err _ => false end
    | None => false
    end
    || match pdb_MaxUnavailable p with
       | Some m => match ScaledValue m total false with Ok v => v <=? 0 | Err _ => false end
       | None => false
       end.

Fixpoint audit_loop (podLabels : gmap string string) (replicas : Z)
    (pdbs : list PodDisruptionBudget) (acc : list MatchedPDB) : res (list MatchedPDB) :=
  match pdbs with
  | [] => Ok acc
  | p :: rest =>
      match pdb_Selector p with
      | None => audit_loop podLabels replicas rest acc
      | Some s =>
          match LabelSelectorAsSelector s with
          | Err e => Err (wrapf ("pdb " +:+ pdb_Name p +:+ " selector") e)
          | Ok sel =>
              if negb (SelectorMatches sel podLabels)
              then audit_loop podLabels replicas rest acc
              else audit_loop podLabels replicas rest
                     (acc ++ [mkMatched (pdb_Name p) (blocksAll p replicas)])
          end
      end
  end.

Definition Audit (podLabels : gmap string string) (replicas : Z)
    (pdbs : list PodDisruptionBudget) : res Report :=
  match audit_loop podLabels replicas pdbs [] with
  | Ok ms => Ok (mkReport replicas ms)
  | Err e => Err e
  end.
End audit.

Arguments PodDisruptionBudget : clear implicits.
Arguments PodDisruptionBudget {_}.

Definition Diagnostics (r : Report) : list DiagnosticAlert :=
  (if negb (Covered r) then
    [mkAlert "MissingPDB" SeverityWarning
       "no PodDisruptionBudget selects this workload, a node drain or cluster upgrade can evict every replica simultaneously"
       "add a PodDisruptionBudget with minAvailable below the replica count (e.g. minAvailable: 50%)"]
   else [])
  ++ mjoin ((λ m,
       if mp_BlocksAllDisruption m then
         [mkAlert "PDBBlocksEviction" SeverityWarning
           ("PodDisruptionBudget " +:+ quote (mp_Name m) +:+ " permits zero voluntary evictions at "
            +:+ itoa (Replicas r) +:+ " replica(s), node drains will hang indefinitely")
           "lower minAvailable or raise maxUnavailable so at least one pod can be evicted during a drain"]
       else []) <$> MatchingPDBs r).

(** ** Properties *)

Section theorems.
Context `{K8sLaws}.

(** The PDB selects the workload. *)
Definition selects (podLabels : gmap string string) (p : PodDisruptionBudget) : bool :=
  match pdb_Selector p with
  | None => false
  | Some s => match LabelSelectorAsSelector s with Ok sel => SelectorMatches sel podLabels | Err _ => false end
  end.

Definition valid_selector (p : PodDisruptionBudget) : Prop :=
  match pdb_Selector p with Some s => is_ok (LabelSelectorAsSelector s) = true | None => True end.

Lemma audit_loop_spec podLabels replicas pdbs acc : Forall valid_selector pdbs →
  audit_loop podLabels replicas pdbs acc =
    Ok (acc ++ ((λ p, mkMatched (pdb_Name p) (blocksAll p replicas)) <$>
                filter (λ p, selects podLabels p = true) pdbs)).
Proof.
  intros Hv. revert acc. induction Hv as [|p pdbs Hp _ IH]; intros acc; simpl; [by rewrite app_nil_r|].
  rewrite filter_cons. unfold selects, valid_selector in *. destruct (pdb_Selector p) as [s|].
  - destruct (LabelSelectorAsSelector s) as [sel|]; [|done].
    destruct (SelectorMatches sel podLabels); simpl; rewrite IH; [|done].
    by rewrite <- app_assoc.
  - by rewrite IH.
Qed.

(** The audit lists, in order, exactly the PDBs whose selector matches, an integer budget is
    reported as blocking exactly when it leaves no pod to evict, and the workload is reported
    uncovered exactly when nothing selects it. *)
Theorem pdb_audit (podLabels : gmap string string) (replicas : Z) (pdbs : list PodDisruptionBudget) :
  Forall valid_selector pdbs →
  ∃ r, Audit podLabels replicas pdbs = Ok r ∧
    mp_Name <$> MatchingPDBs r = pdb_Name <$> filter (λ p, selects podLabels p = true) pdbs ∧
    (Covered r = false ↔ Forall (λ p, selects podLabels p = false) pdbs) ∧
    (∀ p m, p ∈ pdbs → selects podLabels p = true → 0 < replicas →
       (pdb_MinAvailable p, pdb_MaxUnavailable p) = (Some (IntVal m), None) →
       mkMatched (pdb_Name p) (replicas <=? m) ∈ MatchingPDBs r).
Proof.
  intros Hv. unfold Audit. rewrite audit_loop_spec by done. eexists. split; [done|]. simpl.
  split_and!.
  - rewrite <- list_fmap_compose. done.
  - unfold Covered. simpl. rewrite Forall_forall. split.
    + intros Hc p Hp. destruct (selects podLabels p) eqn:Hs; [|done].
      assert (p ∈ filter (λ p, selects podLabels p = true) pdbs) as Hin
        by (by apply list_elem_of_filter).
      destruct (filter _ pdbs); [by apply elem_of_nil in Hin|done].
    + intros Hall. destruct (filter _ pdbs) as [|p l] eqn:Hf; [done|exfalso].
      assert (Hin : p ∈ filter (λ p, selects podLabels p = true) pdbs) by (rewrite Hf; left).
      apply list_elem_of_filter in Hin as [Hs Hin]. rewrite Hall in Hs; done.
  - intros p m Hp Hs Hr [= Hmin Hmax]. apply list_elem_of_fmap. exists p. split.
    + f_equal. unfold blocksAll. rewrite Hmin, Hmax, scaled_int.
      destruct (Z.leb_spec replicas 0); [lia|]. by rewrite orb_false_r.
    + by apply list_elem_of_filter.
Qed.
End theorems.

Definition example_pdbs : list (@PodDisruptionBudget SimpleLib) :=
  [@mkPDB SimpleLib "web" (Some {[ "app" := "web" ]}) (Some (IntVal 2)) None;
   @mkPDB SimpleLib "db" (Some {[ "app" := "db" ]}) None None].

Lemma pdb_audit_witness :
  ∃ r, @Audit SimpleLib {[ "app" := "web" ]} 2 example_pdbs = Ok r ∧
    mp_Name <$> MatchingPDBs r = ["web"].
Proof.
  destruct (@pdb_audit SimpleLib SimpleLaws {[ "app" := "web" ]} 2 example_pdbs) as (r & Hr & Hn & _).
  - repeat constructor.
  - exists r. split; [exact Hr|]. rewrite Hn. vm_compute. reflexivity.
Defined.
