(* ===== verification/Probe.v ===== *)
(** * Readiness probe discovery (internal/analyzer/probe) *)

From S2P Require Import Prelude GoText Api K8s.

Open Scope Z_scope.

Record Spec := mkProbeSpec {
  ps_Path : string;
  ps_Port : Z;
  ps_Scheme : string;
  ps_Host : string
}.

Fixpoint find_port (named : list ContainerPort) (name : string) : option Z :=
  match named with
  | [] => None
  | cp :: rest => if decide (cp_Name cp = name) then Some (cp_ContainerPort cp) else find_port rest name
  end.

(** Both intstr types are covered, so the "unknown port type" default is unreachable. *)
Definition resolvePort (p : IntOrString) (named : list ContainerPort) : res Z :=
  match p with
  | IntVal n =>
      if n <=? 0 then Err (errorf ("readinessProbe.httpGet.port must be > 0, got " +:+ itoa n))
      else Ok n
  | StrVal s =>
      if decide (s = "") then Err (errorf "readinessProbe.httpGet.port is an empty string")
      else
        match find_port named s with
        | Some n => Ok n
        | None => Err (errorf ("named port " +:+ quote s +:+ " not found in container.ports"))
        end
  end.

Definition DiscoverFromContainer (c : Container) : res Spec :=
  match ct_ReadinessProbe c with
  | None => Err (errorf "container has no readinessProbe")
  | Some p =>
      match pr_HTTPGet p with
      | None => Err (errorf "readinessProbe is not HTTPGet (tcpSocket / exec / grpc probes are not supported by AutoDiscoverProbe)")
      | Some httpGet =>
          port ← resolvePort (hg_Port httpGet) (ct_Ports c);
          let path := if decide (hg_Path httpGet = "") then "/" else hg_Path httpGet in
          let scheme := if decide (hg_Scheme httpGet = "") then "HTTP" else hg_Scheme httpGet in
          mret (mkProbeSpec path port scheme (hg_Host httpGet))
      end
  end.

(** ** Properties *)

Lemma find_port_first named name :
  find_port named name = cp_ContainerPort <$> head (filter (λ cp, cp_Name cp = name) named).
Proof. induction named as [|cp named IH]; [done|]. rewrite filter_cons. simpl. by case_decide. Qed.

(** Discovery succeeds exactly on an HTTP readiness probe whose port is a positive number or the
    name of a declared port, and then returns that port (the first of the name), a non-empty
    path and a non-empty scheme. *)
Theorem discover_spec (c : Container) (s : Spec) :
  DiscoverFromContainer c = Ok s ↔
  ∃ p g, ct_ReadinessProbe c = Some p ∧ pr_HTTPGet p = Some g ∧
    match hg_Port g with
    | IntVal n => 0 < n ∧ ps_Port s = n
    | StrVal name => name ≠ "" ∧
        cp_ContainerPort <$> head (filter (λ cp, cp_Name cp = name) (ct_Ports c)) = Some (ps_Port s)
    end ∧
    ps_Path s = (if decide (hg_Path g = "") then "/" else hg_Path g) ∧
    ps_Scheme s = (if decide (hg_Scheme g = "") then "HTTP" else hg_Scheme g) ∧
    ps_Host s = hg_Host g.
Proof.
  assert (Hport : ∀ p named n, resolvePort p named = Ok n ↔
    match p with
    | IntVal m => 0 < m ∧ n = m
    | StrVal name => name ≠ "" ∧
        cp_ContainerPort <$> head (filter (λ cp, cp_Name cp = name) named) = Some n
    end).
  { intros [m|name] named n; simpl.
    - destruct (Z.leb_spec m 0); split; intros ?; simplify_eq; try done; [lia|by destruct_and?; subst].
    - rewrite <- find_port_first. case_decide; [split; [done|by intros []]|].
      destruct (find_port named name); split; intros ?; destruct_and?; simplify_eq; done. }
  unfold DiscoverFromContainer. split.
  - destruct (ct_ReadinessProbe c) as [p|]; [|done]. destruct (pr_HTTPGet p) as [g|] eqn:Hg; [|done].
    destruct (resolvePort (hg_Port g) (ct_Ports c)) as [n|] eqn:Hr; simpl; [|done].
    intros [= <-]. exists p, g. apply Hport in Hr. simpl. by destruct (hg_Port g); naive_solver.
  - intros (p & g & -> & -> & Hp & Hpath & Hsch & Hh).
    rewrite (proj2 (Hport (hg_Port g) (ct_Ports c) (ps_Port s))); [|done].
    simpl. destruct s; simpl in *; by subst.
Qed.
