(* ===== verification/Chaos.v ===== *)
(** * Disruption planning (internal/chaos)

    [Plan] decides whether a healthy pod may be deleted and which.  The victim index comes from
    a caller-supplied function, in production [rand.IntN]: the theorems hold for every choice. *)

From S2P Require Import Prelude GoText Api K8s.

Open Scope Z_scope.

Record Config := mkConfig {
  InjectPodDeletion : bool;
  MinReplicasForChaos : Z;
  TriggerDelay : Duration
}.

Record ChaosDecision := mkDecision {
  Inject : bool;
  SkipReason : string;
  DisruptAt : option Time;
  Victim : option Pod;
  HealthyCount : nat
}.

Fixpoint conditions_ready (cs : list PodCondition) : bool :=
  match cs with
  | [] => false
  | c :: rest =>
      if decide (pc_Type c = "Ready") then bool_decide (pc_Status c = "True")
      else conditions_ready rest
  end.

Definition podReady (p : Pod) : bool := conditions_ready (pod_Conditions p).

Definition healthy (p : Pod) : bool :=
  match pod_DeletionTimestamp p with
  | Some _ => false
  | None =>
      if decide (pod_Phase p ≠ "Running") then false
      else podReady p
  end.

Fixpoint HealthyPods (pods : list Pod) : list Pod :=
  match pods with
  | [] => []
  | p :: rest => if healthy p then p :: HealthyPods rest else HealthyPods rest
  end.

Definition Plan (cfg : Config) (loadStart : Time) (pods : list Pod) (pick : nat → Z) : ChaosDecision :=
  if negb (InjectPodDeletion cfg) then mkDecision false "" None None 0
  else
    let healthy := HealthyPods pods in
    let n := length healthy in
    if (Z.of_nat n =? 0) || (Z.of_nat n <? MinReplicasForChaos cfg) then
      mkDecision false
        ("only " +:+ itoa (Z.of_nat n) +:+ " healthy replica(s); minReplicasForChaos is "
         +:+ itoa (MinReplicasForChaos cfg)
         +:+ ", skipping disruption to avoid total unavailability") None None n
    else
      let idx := pick n in
      let idx := if (idx <? 0) || (Z.of_nat n <=? idx) then 0 else idx in
      mkDecision true "" (Some (time_add loadStart (TriggerDelay cfg)))
        (healthy !! Z.to_nat idx) n.

(** ** Properties *)

Lemma HealthyPods_filter pods : HealthyPods pods = filter (λ p, healthy p = true) pods.
Proof.
  induction pods as [|p pods IH]; [done|]. rewrite filter_cons. simpl.
  destruct (healthy p); rewrite IH; done.
Qed.

Lemma plan_spec (cfg : Config) (loadStart : Time) (pods : list Pod) (pick : nat → Z) :
  let d := Plan cfg loadStart pods pick in
  (Inject d = true →
    InjectPodDeletion cfg = true ∧
    ∃ v others, Victim d = Some v ∧ v ∈ pods ∧ healthy v = true ∧
      HealthyPods pods ≡ₚ v :: others ∧
      MinReplicasForChaos cfg - 1 <= Z.of_nat (length others) ∧
      DisruptAt d = Some (loadStart + TriggerDelay cfg)) ∧
  (Inject d = false → Victim d = None ∧
    (InjectPodDeletion cfg = true →
      SkipReason d ≠ "" ∧
      (Z.of_nat (length (HealthyPods pods)) < MinReplicasForChaos cfg ∨ HealthyPods pods = []))).
Proof.
  unfold Plan. destruct (InjectPodDeletion cfg); simpl; [|done].
  set (n := length (HealthyPods pods)).
  destruct (Z.eqb_spec (Z.of_nat n) 0) as [H0|H0]; simpl.
  { split; [done|]. intros _. split; [done|]. intros _. split; [done|].
    right. apply nil_length_inv. unfold n in H0. lia. }
  destruct (Z.ltb_spec (Z.of_nat n) (MinReplicasForChaos cfg)); simpl.
  { split; [done|]. intros _. split; [done|]. intros _. split; [done|]. by left. }
  split; [|done]. intros _. split; [done|].
  set (idx := if (pick n <? 0) || (Z.of_nat n <=? pick n) then 0 else pick n).
  assert (Hidx : (Z.to_nat idx < n)%nat).
  { unfold idx. destruct (Z.ltb_spec (pick n) 0), (Z.leb_spec (Z.of_nat n) (pick n)); simpl; lia. }
  destruct (lookup_lt_is_Some_2 (HealthyPods pods) (Z.to_nat idx) Hidx) as [v Hv].
  exists v, (delete (Z.to_nat idx) (HealthyPods pods)). rewrite Hv.
  assert (Hin : v ∈ HealthyPods pods) by (by eapply list_elem_of_lookup_2).
  rewrite HealthyPods_filter in Hin. apply list_elem_of_filter in Hin as [Hh Hin].
  split_and!; try done.
  - by apply delete_Permutation.
  - pose proof (length_delete (HealthyPods pods) (Z.to_nat idx)) as Hl.
    rewrite Hv in Hl. specialize (Hl ltac:(eauto)). fold n in Hl. lia.
Qed.

(** Whatever index is drawn, an injection has a victim, which is one of the listed pods and
    healthy, and it happens only when enough healthy replicas exist that at least
    minReplicasForChaos - 1 others stay healthy; a refusal of a requested disruption always
    says why. *)
Theorem plan_safe (cfg : Config) (loadStart : Time) (pods : list Pod) (pick : nat → Z) :
  let d := Plan cfg loadStart pods pick in
  (Inject d = true →
    InjectPodDeletion cfg = true ∧
    ∃ v others, Victim d = Some v ∧ v ∈ pods ∧ healthy v = true ∧
      HealthyPods pods ≡ₚ v :: others ∧
      MinReplicasForChaos cfg - 1 <= Z.of_nat (length others) ∧
      DisruptAt d = Some (loadStart + TriggerDelay cfg)) ∧
  (Inject d = false → Victim d = None ∧
    (InjectPodDeletion cfg = true →
      SkipReason d ≠ "" ∧
      (Z.of_nat (length (HealthyPods pods)) < MinReplicasForChaos cfg ∨ HealthyPods pods = []))).
Proof. apply plan_spec. Qed.

Definition example_pod (name : string) : Pod :=
  mkPod name "prod" ∅ 0 None "node-1" None [] "Running" [mkPodCond "Ready" "True" 0] [].

Example plan_two_pods :
  Victim (Plan (mkConfig true 2 (30 * Second)) 0 [example_pod "a"; example_pod "b"] (λ _, 1))
  = Some (example_pod "b").
Proof. vm_compute. reflexivity. Qed.
