(* ===== verification/LoadPhase.v ===== *)
(** * Load phases (internal/loadgen/phase.go) *)

From S2P Require Import Prelude GoText Api.

Open Scope Z_scope.

Definition Pattern := string.
Definition PatternConstant : Pattern := "Constant".
Definition PatternPoisson : Pattern := "Poisson".
Definition PatternRamp : Pattern := "Ramp".
Definition PatternStep : Pattern := "Step".

Record LPhase := mkPhase {
  ph_Name : string;
  ph_Pattern : Pattern;
  ph_Duration : Duration;
  ph_StartRPS : Z;
  ph_EndRPS : Z;
  ph_StepRPS : Z;
  ph_StepEvery : Duration;
  ph_RecordStats : bool
}.

#[export] Instance lphase_eq_dec : EqDecision LPhase.
Proof. solve_decision. Defined.

Definition WarmupPhaseName : string := "Warmup".

Definition MeasurePhaseName : string := "Measure".

(** [Phase.Validate]: [Ok tt] for a nil error. *)
Definition Validate (p : LPhase) : res unit :=
  let phase := "phase " +:+ quote (ph_Name p) in
  if decide (ph_Name p = "") then Err (errorf "phase name is required")
  else if ph_Duration p <=? 0 then
    Err (errorf (phase +:+ " duration must be > 0, got " +:+ duration_string (ph_Duration p)))
  else if ph_StartRPS p <=? 0 then
    Err (errorf (phase +:+ " startRPS must be > 0, got " +:+ itoa (ph_StartRPS p)))
  else if decide (ph_Pattern p = PatternConstant ∨ ph_Pattern p = PatternPoisson) then Ok tt
  else if decide (ph_Pattern p = PatternRamp) then
    if ph_EndRPS p <=? 0 then
      Err (errorf (phase +:+ " pattern=Ramp requires endRPS > 0, got " +:+ itoa (ph_EndRPS p)))
    else Ok tt
  else if decide (ph_Pattern p = PatternStep) then
    if ph_StepRPS p <=? 0 then
      Err (errorf (phase +:+ " pattern=Step requires stepRPS > 0, got " +:+ itoa (ph_StepRPS p)))
    else if ph_StepEvery p <=? 0 then
      Err (errorf (phase +:+ " pattern=Step requires stepEvery > 0, got " +:+ duration_string (ph_StepEvery p)))
    else Ok tt
  else if decide (ph_Pattern p = "") then Err (errorf (phase +:+ " pattern is required"))
  else Err (errorf (phase +:+ " unknown pattern " +:+ quote (ph_Pattern p))).

(** [Phase.peakRPS].  Go's [int] is 64 bits wide and division truncates; [None] is the
    division-by-zero panic of a Step phase without an interval. *)
Definition peakRPS (p : LPhase) : option Z :=
  if decide (ph_Pattern p = PatternRamp) then
    Some (if ph_StartRPS p <? ph_EndRPS p then ph_EndRPS p else ph_StartRPS p)
  else if decide (ph_Pattern p = PatternStep) then
    if ph_StepEvery p =? 0 then None
    else
      let climbs := Z.quot (ph_Duration p) (ph_StepEvery p) in
      Some (ph_StartRPS p ⊕ climbs ⊗ ph_StepRPS p)%go
  else Some (ph_StartRPS p).

(** A phase whose text is ASCII. *)
Definition plain_phase (p : LPhase) : Prop := plain_text (ph_Name p) ∧ plain_text (ph_Pattern p).

(** ** Validity *)

Definition valid_phase (p : LPhase) : Prop :=
  ph_Name p ≠ "" ∧ 0 < ph_Duration p ∧ 0 < ph_StartRPS p ∧
  (ph_Pattern p = PatternConstant ∨ ph_Pattern p = PatternPoisson ∨
   (ph_Pattern p = PatternRamp ∧ 0 < ph_EndRPS p) ∨
   (ph_Pattern p = PatternStep ∧ 0 < ph_StepRPS p ∧ 0 < ph_StepEvery p)).

Lemma Validate_ok p : Validate p = Ok tt ↔ valid_phase p.
Proof.
  unfold Validate, valid_phase, PatternConstant, PatternPoisson, PatternRamp, PatternStep.
  destruct (decide (ph_Name p = "")); [split; [done|by intros [? _]]|].
  destruct (Z.leb_spec (ph_Duration p) 0); [split; [done|lia]|].
  destruct (Z.leb_spec (ph_StartRPS p) 0); [split; [done|lia]|].
  destruct (decide (_ ∨ _)) as [[]|]; [split; [by auto 8|done]..|].
  destruct (decide (ph_Pattern p = "Ramp")) as [HR|].
  { rewrite HR. destruct (Z.leb_spec (ph_EndRPS p) 0); (split; [done || by auto 8|]).
    - intros (_ & _ & _ & [|[|[[_ ?]|[? _]]]]); done || lia.
    - done. }
  destruct (decide (ph_Pattern p = "Step")) as [HS|].
  { rewrite HS. destruct (Z.leb_spec (ph_StepRPS p) 0), (Z.leb_spec (ph_StepEvery p) 0);
      (split; [done || by auto 10|]); try done;
      intros (_ & _ & _ & [|[|[[? _]|(_ & ? & ?)]]]); done || lia. }
  destruct (decide (ph_Pattern p = "")); (split; [done|]);
    intros (_ & _ & _ & [|[|[[? _]|[? _]]]]); naive_solver.
Qed.
