(* ===== verification/LoadConfig.v ===== *)
(** * The load generator's configuration (internal/loadgen/config.go, url.go, cmd/loadgen) *)

From Stdlib Require Import Ascii String.
From S2P Require Import Prelude GoText LoadPhase.

Open Scope Z_scope.

Definition KeepAlive : string := "KeepAlive".
Definition ShortLived : string := "ShortLived".

Record GenConfig := mkGenConfig {
  gc_URL : string;
  gc_Method : string;
  gc_Headers : gmap string string;
  gc_TargetRPS : Z;
  gc_Duration : Duration;
  gc_Concurrency : Z;
  gc_ConnectionMode : string;
  gc_Timeout : Duration;
  gc_TargetMode : string;
  gc_NetworkPath : string;
  gc_TLSInsecureSkipVerify : bool;
  gc_TLSCABundlePath : string;
  gc_Protocol : string;
  gc_GRPCService : string;
  gc_Phases : list LPhase
}.

(** net/url and net/http as [Validate] uses them: the scheme and host of a parsed URL, and
    whether a request with a method can be built. *)
Class NetHttp := {
  url_Parse : string → res (string * string);
  http_NewRequest : string → string → res unit
}.

Fixpoint validate_phases (i : Z) (ps : list LPhase) : res unit :=
  match ps with
  | [] => Ok tt
  | p :: rest =>
      match LoadPhase.Validate p with
      | Err e => Err (wrapf ("phase[" +:+ itoa i +:+ "]") e)
      | Ok _ => validate_phases (i + 1) rest
      end
  end.

(** The rate of the run: the phases, or the single-shot pair. *)
Definition validate_rate (cfg : GenConfig) : res unit :=
  match gc_Phases cfg with
  | [] =>
      if gc_TargetRPS cfg <=? 0 then Err (errorf ("targetRPS must be > 0, got " +:+ itoa (gc_TargetRPS cfg)))
      else if gc_Duration cfg <=? 0 then
        Err (errorf ("duration must be > 0, got " +:+ duration_string (gc_Duration cfg)))
      else Ok tt
  | ps => validate_phases 0 ps
  end.

Definition Validate `{NetHttp} (cfg : GenConfig) : res unit :=
  if decide (gc_URL cfg = "") then Err (errorf "url is required")
  else
    match url_Parse (gc_URL cfg) with
    | Err e => Err (wrapf "parse url" e)
    | Ok (scheme, host) =>
        if decide (scheme ≠ "http" ∧ scheme ≠ "https") then
          Err (errorf ("url scheme must be http or https, got " +:+ quote scheme))
        else if decide (host = "") then Err (errorf "url host is required")
        else
          _ ← validate_rate cfg;
          if decide (gc_ConnectionMode cfg = "") then Err (errorf "connectionMode is required")
          else if decide (gc_ConnectionMode cfg ≠ KeepAlive ∧ gc_ConnectionMode cfg ≠ ShortLived) then
            Err (errorf ("unknown connectionMode " +:+ quote (gc_ConnectionMode cfg)))
          else if decide (gc_Protocol cfg ∉ [""; "HTTP1"; "HTTP2"; "GRPC"]) then
            Err (errorf ("unknown protocol " +:+ quote (gc_Protocol cfg)))
          else if decide (gc_Method cfg = "") then Ok tt
          else
            match http_NewRequest (gc_Method cfg) (gc_URL cfg) with
            | Err e => Err (wrapf ("invalid method " +:+ quote (gc_Method cfg)) e)
            | Ok _ => Ok tt
            end
    end.

(** The highest peak rate; [None] is the panic of a Step phase without an interval. *)
Fixpoint peak_loop (peak : Z) (ps : list LPhase) : option Z :=
  match ps with
  | [] => Some peak
  | p :: rest => r ← peakRPS p; peak_loop (if peak <? r then r else peak) rest
  end.

Definition withDefaults (cfg : GenConfig) : option GenConfig :=
  let method := if decide (gc_Method cfg = "") then "GET" else gc_Method cfg in
  let timeout := if gc_Timeout cfg =? 0 then 5 * Second else gc_Timeout cfg in
  let protocol := if decide (gc_Protocol cfg = "") then "HTTP1" else gc_Protocol cfg in
  let phases := match gc_Phases cfg with
                | [] => [mkPhase MeasurePhaseName PatternConstant (gc_Duration cfg) (gc_TargetRPS cfg) 0 0 0 true]
                | ps => ps
                end in
  concurrency ← (if gc_Concurrency cfg =? 0 then
                   peak ← peak_loop 0 phases; Some (if 256 <? peak then 256 else peak)
                 else Some (gc_Concurrency cfg));
  Some (mkGenConfig (gc_URL cfg) method (gc_Headers cfg) (gc_TargetRPS cfg) (gc_Duration cfg) concurrency
    (gc_ConnectionMode cfg) timeout (gc_TargetMode cfg) (gc_NetworkPath cfg) (gc_TLSInsecureSkipVerify cfg)
    (gc_TLSCABundlePath cfg) protocol (gc_GRPCService cfg) phases).

(** ** URL construction (url.go) *)

Record URLSpec := mkURLSpec {
  us_TargetMode : string;
  us_NetworkPath : string;
  us_ServiceName : string;
  us_Namespace : string;
  us_IngressHost : string;
  us_CustomPath : string;
  us_Port : Z;
  us_Scheme : string
}.

Definition resolvePath (mode custom : string) : res string :=
  let rooted := if HasPrefix custom "/" then Ok custom
                else Err (errorf ("customPath must start with /, got " +:+ quote custom)) in
  if decide (mode = "ServiceDefault") then if decide (custom = "") then Ok "/" else rooted
  else if decide (mode = "CustomPath" ∨ mode = "AutoDiscoverProbe") then
    if decide (custom = "") then Err (errorf ("customPath is required for targetMode " +:+ quote mode)) else rooted
  else if decide (mode = "") then Err (errorf "targetMode is required")
  else Err (errorf ("unknown targetMode " +:+ quote mode)).

Definition buildClusterIP (s : URLSpec) : res string :=
  if decide (us_ServiceName s = "") then Err (errorf "serviceName is required for ClusterIP")
  else if decide (us_Namespace s = "") then Err (errorf "namespace is required for ClusterIP")
  else if us_Port s <=? 0 then Err (errorf "port is required for ClusterIP")
  else
    path ← resolvePath (us_TargetMode s) (us_CustomPath s);
    let scheme := if decide (us_Scheme s = "") then "http" else us_Scheme s in
    let host := us_ServiceName s +:+ "." +:+ us_Namespace s +:+ ".svc.cluster.local" in
    mret (scheme +:+ "://" +:+ host +:+ ":" +:+ itoa (us_Port s) +:+ path).

Definition buildIngress (s : URLSpec) : res string :=
  if decide (us_IngressHost s = "") then Err (errorf "ingressHost is required for Ingress")
  else
    path ← resolvePath (us_TargetMode s) (us_CustomPath s);
    let scheme := if decide (us_Scheme s = "") then "https" else us_Scheme s in
    let host := if 0 <? us_Port s then us_IngressHost s +:+ ":" +:+ itoa (us_Port s) else us_IngressHost s in
    mret (scheme +:+ "://" +:+ host +:+ path).

Definition Build (s : URLSpec) : res string :=
  if decide (us_NetworkPath s = "ClusterIP") then buildClusterIP s
  else if decide (us_NetworkPath s = "Ingress") then buildIngress s
  else if decide (us_NetworkPath s = "") then Err (errorf "networkPath is required")
  else Err (errorf ("unknown networkPath " +:+ quote (us_NetworkPath s))).

(** ** Headers (cmd/loadgen/main.go) *)

Fixpoint header_loop (out : gmap string string) (raw : list string) : res (gmap string string) :=
  match raw with
  | [] => Ok out
  | h :: rest =>
      match Cut h ":"%char with
      | None => Err (errorf ("header " +:+ quote h +:+ " is not in 'Key: Value' form"))
      | Some (k, v) => header_loop (<[ TrimSpace k := TrimSpace v ]> out) rest
      end
  end.

Definition parseHeaders (raw : list string) : res (gmap string string) := header_loop ∅ raw.

(** ** A validated configuration can run *)

Lemma validate_phases_ok i ps : validate_phases i ps = Ok tt → Forall valid_phase ps.
Proof.
  revert i. induction ps as [|p ps IH]; intros i; [by constructor|]. simpl.
  destruct (LoadPhase.Validate p) as [[]|] eqn:Hp; [|done]. intros Hps.
  constructor; [by apply Validate_ok|by eapply IH].
Qed.

(** The phases a configuration runs. *)
Definition run_phases (cfg : GenConfig) : list LPhase :=
  match gc_Phases cfg with
  | [] => [mkPhase MeasurePhaseName PatternConstant (gc_Duration cfg) (gc_TargetRPS cfg) 0 0 0 true]
  | ps => ps
  end.

Lemma validate_rate_ok cfg : validate_rate cfg = Ok tt → Forall valid_phase (run_phases cfg) ∧ run_phases cfg ≠ [].
Proof.
  unfold validate_rate, run_phases. destruct (gc_Phases cfg) as [|p ps].
  - destruct (Z.leb_spec (gc_TargetRPS cfg) 0); [done|]. destruct (Z.leb_spec (gc_Duration cfg) 0); [done|].
    intros _. split; [|done]. apply Forall_singleton. unfold valid_phase. simpl. naive_solver lia.
  - intros Hv. split; [by eapply validate_phases_ok|done].
Qed.

(** What a nil error of [Validate] says. *)
Lemma Config_Validate_ok `{NetHttp} cfg : Validate cfg = Ok tt →
  (∃ scheme host, url_Parse (gc_URL cfg) = Ok (scheme, host) ∧ scheme ∈ ["http"; "https"] ∧ host ≠ "") ∧
  validate_rate cfg = Ok tt ∧ gc_ConnectionMode cfg ∈ [KeepAlive; ShortLived] ∧
  gc_Protocol cfg ∈ [""; "HTTP1"; "HTTP2"; "GRPC"].
Proof.
  unfold Validate. case_decide; [done|]. destruct (url_Parse (gc_URL cfg)) as [[scheme host]|]; [|done].
  case_decide as Hs; [done|]. case_decide; [done|]. destruct (validate_rate cfg) as [[]|]; [|done]. simpl.
  case_decide; [done|]. case_decide as Hm; [done|]. destruct (decide (gc_Protocol cfg ∉ _)) as [|Hin]; [done|].
  intros _. split_and!; [|done| |by apply dec_stable].
  - exists scheme, host. split_and!; [done| |done]. destruct (decide (scheme = "http")); [set_solver|].
    destruct (decide (scheme = "https")); [set_solver|]. by destruct Hs.
  - destruct (decide (gc_ConnectionMode cfg = KeepAlive)); [set_solver|].
    destruct (decide (gc_ConnectionMode cfg = ShortLived)); [set_solver|]. by destruct Hm.
Qed.

Lemma withDefaults_keeps cfg cfg' : withDefaults cfg = Some cfg' →
  gc_URL cfg' = gc_URL cfg ∧ gc_TLSCABundlePath cfg' = gc_TLSCABundlePath cfg ∧
  gc_TLSInsecureSkipVerify cfg' = gc_TLSInsecureSkipVerify cfg ∧
  gc_Protocol cfg' = if decide (gc_Protocol cfg = "") then "HTTP1" else gc_Protocol cfg.
Proof.
  unfold withDefaults. destruct (if gc_Concurrency cfg =? 0 then _ else _) as [n|]; [|done]. simpl. by intros [= <-].
Qed.

(** The peak of a valid phase does not overflow. *)
Definition peak_fits (p : LPhase) : Prop :=
  ph_Pattern p = PatternStep →
  ph_StartRPS p + ph_Duration p `quot` ph_StepEvery p * ph_StepRPS p < 2 ^ 63.

Lemma peakRPS_pos p : valid_phase p → peak_fits p → ∃ r, peakRPS p = Some r ∧ 0 < r.
Proof.
  intros (_ & Hd & Hs & Hpat) Hfit. unfold peakRPS, peak_fits in *. case_decide.
  { eexists. split; [done|]. destruct (Z.ltb_spec (ph_StartRPS p) (ph_EndRPS p)); lia. }
  case_decide as Hst; [|by exists (ph_StartRPS p)].
  specialize (Hfit Hst). rewrite Hst in Hpat.
  destruct Hpat as [|[|[[? _]|(_ & Hsr & Hse)]]]; try done.
  rewrite (proj2 (Z.eqb_neq _ _)) by lia. eexists. split; [done|].
  assert (0 <= ph_Duration p `quot` ph_StepEvery p) by (apply Z.quot_pos; lia).
  set (q := ph_Duration p `quot` ph_StepEvery p) in *. assert (0 <= q * ph_StepRPS p) by nia.
  rewrite (int64_id (q * _)) by solve_range. rewrite int64_id by solve_range. lia.
Qed.

Lemma peak_loop_pos peak ps : 0 <= peak → Forall valid_phase ps → Forall peak_fits ps →
  ∃ r, peak_loop peak ps = Some r ∧ peak <= r ∧ (ps ≠ [] → 0 < r).
Proof.
  intros Hp Hv Hf. revert peak Hp. induction Hv as [|p ps Hp Hv IH]; intros peak Hpk; simpl; [by exists peak|].
  apply Forall_cons in Hf as [Hfp Hf]. destruct (peakRPS_pos p Hp Hfp) as (r & -> & Hr). simpl.
  destruct (IH Hf (if peak <? r then r else peak)) as (q & -> & Hq & _); [case_match; lia|].
  exists q. split; [done|]. destruct (Z.ltb_spec peak r); split; intros; lia.
Qed.

(** Defaults of valid phases: at least one worker, and nothing else of the run changes. *)
Lemma withDefaults_runs cfg :
  Forall valid_phase (run_phases cfg) → run_phases cfg ≠ [] → Forall peak_fits (run_phases cfg) →
  0 <= gc_Concurrency cfg →
  ∃ cfg', withDefaults cfg = Some cfg' ∧ 1 <= gc_Concurrency cfg' ∧ gc_Phases cfg' = run_phases cfg ∧
    gc_URL cfg' = gc_URL cfg ∧ gc_ConnectionMode cfg' = gc_ConnectionMode cfg ∧
    gc_TLSCABundlePath cfg' = gc_TLSCABundlePath cfg ∧
    gc_TLSInsecureSkipVerify cfg' = gc_TLSInsecureSkipVerify cfg ∧ gc_GRPCService cfg' = gc_GRPCService cfg ∧
    gc_Protocol cfg' = if decide (gc_Protocol cfg = "") then "HTTP1" else gc_Protocol cfg.
Proof.
  intros Hv Hne Hfit Hc. unfold withDefaults. fold (run_phases cfg).
  destruct (peak_loop_pos 0 (run_phases cfg)) as (r & Hr & _ & Hpos); [lia|done|done|]. specialize (Hpos Hne).
  destruct (Z.eqb_spec (gc_Concurrency cfg) 0) as [H0|H0].
  - rewrite Hr. simpl. eexists. split; [done|]. simpl. split; [|done]. destruct (Z.ltb_spec 256 r); lia.
  - simpl. eexists. split; [done|]. simpl. split; [lia|done].
Qed.

(** A configuration that validates, without a concurrency of its own and with rates that fit,
    runs: defaulting does not panic and yields a nonempty list of valid phases, between 1 and
    256 workers, and a known protocol. *)
Theorem validated_config_runs `{NetHttp} (cfg : GenConfig) :
  Validate cfg = Ok tt → gc_Concurrency cfg = 0 → Forall peak_fits (run_phases cfg) →
  ∃ cfg', withDefaults cfg = Some cfg' ∧ gc_Phases cfg' ≠ [] ∧ Forall valid_phase (gc_Phases cfg') ∧
    1 <= gc_Concurrency cfg' <= 256 ∧ gc_Protocol cfg' ∈ ["HTTP1"; "HTTP2"; "GRPC"] ∧ gc_Method cfg' ≠ "".
Proof.
  intros Hval Hc Hfit. destruct (Config_Validate_ok cfg Hval) as (_ & Hrate & _ & Hproto).
  apply validate_rate_ok in Hrate as [Hv Hne].
  unfold withDefaults. fold (run_phases cfg). rewrite Hc. simpl.
  destruct (peak_loop_pos 0 (run_phases cfg)) as (r & -> & _ & Hr); [lia|done|done|]. specialize (Hr Hne). simpl.
  eexists. split; [done|]. cbn [gc_Phases gc_Concurrency gc_Protocol gc_Method]. split_and!; try done.
  - destruct (Z.ltb_spec 256 r); lia.
  - destruct (Z.ltb_spec 256 r); lia.
  - clear -Hproto. case_decide; set_solver.
  - clear. case_decide; done.
Qed.

#[local] Instance sample_http : NetHttp :=
  {| url_Parse := λ _, Ok ("http", "web"); http_NewRequest := λ _ _, Ok tt |}.

Definition sample_config : GenConfig :=
  mkGenConfig "http://web" "" ∅ 50 (30 * Second) 0 KeepAlive 0 "" "" false "" "" "" [].

Lemma validated_config_runs_witness :
  ∃ cfg', withDefaults sample_config = Some cfg' ∧ gc_Phases cfg' ≠ [] ∧ Forall valid_phase (gc_Phases cfg') ∧
    1 <= gc_Concurrency cfg' <= 256 ∧ gc_Protocol cfg' ∈ ["HTTP1"; "HTTP2"; "GRPC"] ∧ gc_Method cfg' ≠ "".
Proof. apply validated_config_runs; [reflexivity..|]. by repeat constructor. Defined.

(** A negative concurrency validates and is kept: no worker is started, so no request is sent. *)
Lemma negative_concurrency_kept :
  let cfg := mkGenConfig "http://web" "" ∅ 50 (30 * Second) (-1) KeepAlive 0 "" "" false "" "" "" [] in
  Validate cfg = Ok tt ∧ gc_Concurrency <$> withDefaults cfg = Some (-1).
Proof. split; reflexivity. Qed.
