(* ===== verification/Schedule.v ===== *)
(** * Arrival schedules (internal/loadgen/schedule.go)

    [runSchedule] sends the scheduled arrival times of one phase.  Its [emit] closure refuses an
    instant at or past the end of the phase, or a send after the context is done or the receiver
    has stopped; the number of sends that go through is the [budget], so a schedule is a list of
    at most [budget] times, and a phase that is not cancelled is one with a large budget. *)

From S2P Require Import Prelude GoFloat GoText LoadPhase.

Open Scope Z_scope.

Section schedule.
(** The platform's out-of-range conversion to [int64], and the draws of [rand.ExpFloat64]. *)
Context (overflow : f64 → Z) (draw : nat → f64).

(** [time.Duration(float64(time.Second) / rate)]. *)
Definition rate_interval (rate : f64) : Duration :=
  f64_to_int64 overflow (f64_div (f64_of_int Second) rate).

Fixpoint emitConstant (budget : nat) (end_ phaseStart : Time) (interval : Duration) (i : Z) : list Time :=
  let at_ := time_add phaseStart (i ⊗ interval)%go in
  if negb (time_before at_ end_) then []
  else match budget with
       | O => []
       | S b => at_ :: emitConstant b end_ phaseStart interval (i + 1)
       end.

Definition poisson_gap (rate : f64) (k : nat) : Duration :=
  f64_to_int64 overflow (f64_mul (f64_div (draw k) rate) (f64_of_int Second)).

Fixpoint emitPoisson (budget : nat) (end_ : Time) (rate : f64) (at_ : Time) (k : nat) : list Time :=
  let at_ := time_add at_ (poisson_gap rate k) in
  if negb (time_before at_ end_) then []
  else match budget with
       | O => []
       | S b => at_ :: emitPoisson b end_ rate at_ (S k)
       end.

(** The interval of the ramp at an instant: the inverse of the interpolated rate, floored at
    one request per second, and never zero. *)
Definition ramp_interval (phaseStart : Time) (duration : Duration) (startRPS endRPS : Z) (at_ : Time) : Duration :=
  let frac := f64_div (seconds (time_sub at_ phaseStart)) (seconds duration) in
  let rate := f64_add (f64_of_int startRPS) (f64_mul frac (f64_of_int (endRPS ⊖ startRPS)%go)) in
  let rate := if f64_lt rate (f64_of_int 1) then f64_of_int 1 else rate in
  let interval := rate_interval rate in
  if interval <=? 0 then Microsecond else interval.

Fixpoint emitRamp (budget : nat) (end_ phaseStart : Time) (duration : Duration)
    (startRPS endRPS : Z) (at_ : Time) : list Time :=
  if f64_le (seconds duration) (seconds (time_sub at_ phaseStart)) then []
  else if negb (time_before at_ end_) then []
  else match budget with
       | O => []
       | S b => at_ :: emitRamp b end_ phaseStart duration startRPS endRPS
                         (time_add at_ (ramp_interval phaseStart duration startRPS endRPS at_))
       end.

(** One plateau; [None] when [emit] refused and the emitter returned. *)
Fixpoint step_segment (budget : nat) (end_ segEnd : Time) (interval : Duration) (at_ : Time) : list Time * option nat :=
  if negb (time_before at_ segEnd) then ([], Some budget)
  else if negb (time_before at_ end_) then ([], None)
  else match budget with
       | O => ([], None)
       | S b => let '(l, r) := step_segment b end_ segEnd interval (time_add at_ interval) in (at_ :: l, r)
       end.

Definition step_rate (startRPS stepRPS s : Z) : Z :=
  let segRate := (startRPS ⊕ s ⊗ stepRPS)%go in if segRate <? 1 then 1 else segRate.

Fixpoint emitStep_loop (steps : nat) (budget : nat) (end_ phaseStart : Time) (duration : Duration)
    (startRPS stepRPS : Z) (stepEvery : Duration) (s : Z) : list Time :=
  match steps with
  | O => []
  | S n =>
      let segStart := time_add phaseStart (s ⊗ stepEvery)%go in
      let interval := rate_interval (f64_of_int (step_rate startRPS stepRPS s)) in
      let segEnd := time_add segStart stepEvery in
      let d := time_add phaseStart duration in
      let segEnd := if time_after segEnd d then d else segEnd in
      match step_segment budget end_ segEnd interval segStart with
      | (l, None) => l
      | (l, Some budget) =>
          l ++ emitStep_loop n budget end_ phaseStart duration startRPS stepRPS stepEvery (s + 1)
      end
  end.

Definition step_count (duration stepEvery : Duration) : Z :=
  (f64_to_int64 overflow (f64_math_ceil (f64_div (seconds duration) (seconds stepEvery))) ⊕ 1)%go.

Definition emitStep (budget : nat) (end_ phaseStart : Time) (duration : Duration)
    (startRPS stepRPS : Z) (stepEvery : Duration) : list Time :=
  emitStep_loop (Z.to_nat (step_count duration stepEvery)) budget end_ phaseStart duration
    startRPS stepRPS stepEvery 0.

Definition runSchedule (budget : nat) (phaseStart : Time) (phase : LPhase) : list Time :=
  let end_ := time_add phaseStart (ph_Duration phase) in
  if decide (ph_Pattern phase = PatternConstant) then
    emitConstant budget end_ phaseStart (rate_interval (f64_of_int (ph_StartRPS phase))) 0
  else if decide (ph_Pattern phase = PatternPoisson) then
    emitPoisson budget end_ (f64_of_int (ph_StartRPS phase)) phaseStart 0
  else if decide (ph_Pattern phase = PatternRamp) then
    emitRamp budget end_ phaseStart (ph_Duration phase) (ph_StartRPS phase) (ph_EndRPS phase) phaseStart
  else if decide (ph_Pattern phase = PatternStep) then
    emitStep budget end_ phaseStart (ph_Duration phase) (ph_StartRPS phase) (ph_StepRPS phase)
      (ph_StepEvery phase)
  else [].
End schedule.

Definition no_overflow : f64 → Z := λ _, 0.

Definition unit_draws : nat → f64 := λ _, f64_of_int 1.

Example constant_ex :
  runSchedule no_overflow unit_draws 10 100 (mkPhase "Measure" "Constant" Second 4 0 0 0 true)
  = [100; 100 + 250 * Millisecond; 100 + 500 * Millisecond; 100 + 750 * Millisecond].
Proof. vm_compute. reflexivity. Qed.

Example ramp_ex :
  runSchedule no_overflow unit_draws 10 0 (mkPhase "Measure" "Ramp" (2 * Second) 1 3 0 0 true)
  = [0; Second; 1500 * Millisecond; 1900 * Millisecond].
Proof. vm_compute. reflexivity. Qed.

Example step_ex :
  runSchedule no_overflow unit_draws 20 0 (mkPhase "Measure" "Step" (3 * Second) 1 0 1 Second true)
  = [0; Second; 1500 * Millisecond; 2 * Second; 2 * Second + 333333333; 2 * Second + 666666666; 2 * Second + 999999999].
Proof. vm_compute. reflexivity. Qed.

(** ** Properties of the schedules *)

(** In order, from [lo] on and before [hi]. *)
Definition ordered (lo hi : Time) (l : list Time) : Prop :=
  StronglySorted Z.le l ∧ Forall (λ t, lo <= t < hi) l.

Lemma ordered_nil lo hi : ordered lo hi [].
Proof. split; constructor. Qed.

Lemma ordered_cons lo lo' hi t l : lo <= t < hi → t <= lo' → ordered lo' hi l → ordered lo hi (t :: l).
Proof.
  intros Ht Hl [Hs Hf]. split; constructor; try done.
  - eapply Forall_impl; [exact Hf|]. simpl. lia.
  - eapply Forall_impl; [exact Hf|]. simpl. lia.
Qed.

Lemma ordered_app lo mid hi l k : ordered lo mid l → ordered mid hi k → lo <= mid <= hi → ordered lo hi (l ++ k).
Proof.
  intros [Hls Hlf] [Hks Hkf] Hm. split.
  - apply StronglySorted_app. split_and!; [|done..]. intros x y Hx Hy.
    rewrite Forall_forall in Hlf, Hkf. specialize (Hlf _ Hx). specialize (Hkf _ Hy). lia.
  - apply Forall_app. split; (eapply Forall_impl; [eassumption|]); simpl; lia.
Qed.

Lemma ordered_weaken lo hi hi' l : ordered lo hi l → hi <= hi' → ordered lo hi' l.
Proof. intros [Hs Hf] Hh. split; [done|]. eapply Forall_impl; [exact Hf|]. simpl. lia. Qed.

Section properties.
Context (overflow : f64 → Z) (draw : nat → f64).

(** The interval of a constant rate is the exact integer quotient. *)
Lemma rate_interval_int rps : 0 < rps < 2 ^ 53 →
  rate_interval overflow (f64_of_int rps) = Second / rps.
Proof.
  intros Hr. unfold rate_interval, f64_to_int64.
  assert (Hsec : Second = 1000000000) by reflexivity.
  rewrite f64_trunc_quot by lia. assert (0 <= Second / rps <= Second).
  { split; [apply Z.div_pos; lia|apply Z.div_le_upper_bound; nia]. }
  rewrite (proj2 (Z.leb_le _ _)), (proj2 (Z.ltb_lt _ _)) by lia. done.
Qed.

(** How many instants [start + i * interval] come before the end. *)
Definition arrival_count (d interval : Duration) : Z := (d + interval - 1) / interval.

Lemma arrival_count_spec d interval i : 0 < interval → 0 < d →
  i * interval < d ↔ i < arrival_count d interval.
Proof.
  intros Hi Hd. unfold arrival_count.
  pose proof (Z.mul_div_le (d + interval - 1) interval Hi).
  pose proof (Z.mul_succ_div_gt (d + interval - 1) interval Hi). nia.
Qed.

Lemma emitConstant_from budget start d interval i : 0 < interval → 0 < d → d + interval <= maxDuration →
  0 <= i <= arrival_count d interval → arrival_count d interval - i <= Z.of_nat budget →
  emitConstant budget (start + d) start interval i
  = (λ k, start + k * interval) <$> seqZ i (arrival_count d interval - i).
Proof.
  intros Hint Hd Hmax. revert i. induction budget as [|b IH]; intros i Hi Hb; cbn [emitConstant];
    unfold time_add, time_before.
  - replace (arrival_count d interval - i) with 0 by lia. replace i with (arrival_count d interval) by lia.
    pose proof (arrival_count_spec d interval (arrival_count d interval) Hint Hd).
    pose proof (arrival_count_spec d interval (arrival_count d interval - 1) Hint Hd).
    rewrite int64_id by solve_range. rewrite (proj2 (Z.ltb_ge _ _)) by lia. done.
  - pose proof (arrival_count_spec d interval i Hint Hd).
    pose proof (arrival_count_spec d interval (i - 1) Hint Hd).
    rewrite int64_id by solve_range.
    destruct (Z.ltb_spec (start + i * interval) (start + d)); cbn [negb].
    + rewrite IH by lia. rewrite (seqZ_cons i) by lia. simpl. do 3 f_equal; lia.
    + replace (arrival_count d interval - i) with 0 by lia. done.
Qed.

(** C36: A constant phase of up to a billion requests per second sends at the exact multiples of the
    integer interval 1s/rps, from the start of the phase on, and stops exactly at its end; at
    least rps requests are sent per second of the phase. *)
Theorem constant_schedule_exact (budget : nat) (start : Time) (phase : LPhase) :
  ph_Pattern phase = PatternConstant → 0 < ph_StartRPS phase <= 1000000000 →
  0 < ph_Duration phase <= 2 ^ 62 →
  let interval := Second / ph_StartRPS phase in
  let n := arrival_count (ph_Duration phase) interval in
  n <= Z.of_nat budget →
  runSchedule overflow draw budget start phase = (λ k, start + k * interval) <$> seqZ 0 n ∧
  ph_StartRPS phase * ph_Duration phase <= n * Second ∧
  (∀ k, 0 <= k → k * interval < ph_Duration phase ↔ k < n).
Proof.
  intros Hp Hr Hd interval n Hb.
  assert (Hsec : Second = 1000000000) by reflexivity.
  assert (Hi : 0 < interval <= Second).
  { unfold interval. split; [apply Z.div_str_pos; lia|apply Z.div_le_upper_bound; nia]. }
  pose proof (arrival_count_spec (ph_Duration phase) interval) as Hn.
  assert (Hn0 : 0 < n) by (apply Hn; lia).
  split_and!.
  - unfold runSchedule. rewrite decide_True by done. rewrite rate_interval_int by lia. fold interval.
    unfold time_add. rewrite emitConstant_from by (fold n; solve_range). fold n. by rewrite Z.sub_0_r.
  - assert (ph_Duration phase <= n * interval).
    { specialize (Hn n). fold n in Hn. lia. }
    pose proof (Z.mul_div_le Second (ph_StartRPS phase) ltac:(lia)). fold interval in H0. nia.
  - intros k _. apply Hn; lia.
Qed.

(** A draw of [rand.ExpFloat64], which is documented to be positive and finite; above 2^30 the gap
    of a rate of one per second would come near the largest duration. *)
Definition exp_draw (x : f64) : Prop := match x with Fin v => 0 < v <= 2 ^ 30 * one | _ => False end.

(** Dividing by a rate and scaling to nanoseconds keeps the sign, and the conversion fits. *)
Lemma poisson_gap_nonneg rps k : 0 < rps <= 2 ^ 53 → exp_draw (draw k) →
  0 <= poisson_gap overflow draw (f64_of_int rps) k.
Proof.
  intros Hr Hdraw. unfold poisson_gap. pose proof one_pos. assert (Hsec : Second = 1000000000) by reflexivity.
  destruct (draw k) as [v| |]; simpl in Hdraw; try done.
  rewrite !f64_of_int_exact by lia. cbn [f64_div]. rewrite (proj2 (Z.eqb_neq _ _)) by nia.
  rewrite Z.sgn_pos, Z.abs_eq, Z.mul_1_r by nia.
  assert (0 <= grid_round (v * one) (rps * one) <= 2 ^ 30 * one) as Hg.
  { split; [apply grid_round_nonneg; nia|]. rewrite <- (grid_round_int (2 ^ 30) 1) by lia.
    apply grid_round_mono; nia. }
  rewrite f64_round_small by nia. set (g := grid_round _ _) in *. cbn [f64_mul].
  pose proof (grid_round_small (g * (Second * one)) one ltac:(nia) ltac:(lia) ltac:(nia)) as Hgap.
  rewrite f64_round_small by nia. unfold f64_to_int64. cbn [f64_trunc].
  rewrite Z.quot_div_nonneg by lia.
  assert (0 <= grid_round (g * (Second * one)) one / one <= 2 ^ 60).
  { split; [apply Z.div_pos; lia|apply Z.div_le_upper_bound; lia]. }
  rewrite (proj2 (Z.leb_le _ _)), (proj2 (Z.ltb_lt _ _)) by lia. simpl. lia.
Qed.

Lemma emitPoisson_ordered budget end_ rate at_ k : (∀ j, 0 <= poisson_gap overflow draw rate j) →
  ordered at_ end_ (emitPoisson overflow draw budget end_ rate at_ k).
Proof.
  intros Hg. revert at_ k. induction budget as [|b IH]; intros at_ k; cbn [emitPoisson];
    unfold time_add, time_before; specialize (Hg k) as Hk;
    destruct (Z.ltb_spec (at_ + poisson_gap overflow draw rate k) end_); cbn [negb]; try apply ordered_nil.
  eapply ordered_cons; [lia| |apply IH]. lia.
Qed.

Lemma ramp_interval_pos start d s e at_ : 0 < ramp_interval overflow start d s e at_.
Proof.
  unfold ramp_interval. cbv zeta. match goal with |- context [rate_interval _ ?x] => generalize (rate_interval overflow x) end.
  intros i. destruct (Z.leb_spec i 0); [reflexivity|done].
Qed.

Lemma emitRamp_ordered budget end_ start d s e at_ :
  ordered at_ end_ (emitRamp overflow budget end_ start d s e at_).
Proof.
  revert at_. induction budget as [|b IH]; intros at_; cbn [emitRamp]; unfold time_add, time_before;
    case_match; try apply ordered_nil; destruct (Z.ltb_spec at_ end_); cbn [negb]; try apply ordered_nil.
  pose proof (ramp_interval_pos start d s e at_). eapply ordered_cons; [lia| |apply IH]. lia.
Qed.

(** Every ramp, and Poisson with non-negative gaps, whatever their rates. *)
Lemma varying_schedule_ordered (budget : nat) (start : Time) (phase : LPhase) :
  ph_Pattern phase = PatternRamp ∨
  (ph_Pattern phase = PatternPoisson ∧ ∀ k, 0 <= poisson_gap overflow draw (f64_of_int (ph_StartRPS phase)) k) →
  ordered start (start + ph_Duration phase) (runSchedule overflow draw budget start phase).
Proof.
  intros [Hp|[Hp Hg]]; unfold runSchedule; rewrite Hp.
  - rewrite !decide_False by done. rewrite decide_True by done. apply emitRamp_ordered.
  - rewrite decide_False by done. rewrite decide_True by done. by apply emitPoisson_ordered.
Qed.

Lemma emitConstant_ordered budget start d interval i : 0 <= interval <= Second → 0 <= d <= 2 ^ 62 →
  0 <= i → i * interval <= 2 ^ 62 + Second →
  ordered (start + i * interval) (start + d) (emitConstant budget (start + d) start interval i).
Proof.
  assert (Hsec : Second = 1000000000) by reflexivity. intros Hint Hd.
  revert i. induction budget as [|b IH]; intros i Hi Hfit; cbn [emitConstant]; unfold time_add, time_before;
    rewrite int64_id by solve_range; destruct (Z.ltb_spec (start + i * interval) (start + d)); cbn [negb];
    try apply ordered_nil.
  eapply ordered_cons; [lia| |apply IH; lia]. lia.
Qed.

Lemma step_segment_ordered budget end_ segEnd interval at_ : 0 <= interval →
  ordered at_ (Z.min segEnd end_) (step_segment budget end_ segEnd interval at_).1.
Proof.
  intros Hint. revert at_. induction budget as [|b IH]; intros at_; cbn [step_segment]; unfold time_before, time_add;
    destruct (Z.ltb_spec at_ segEnd), (Z.ltb_spec at_ end_); cbn [negb fst]; try apply ordered_nil.
  specialize (IH (at_ + interval)). destruct (step_segment b end_ segEnd interval (at_ + interval)) as [l r].
  cbn [fst] in *. eapply ordered_cons; [lia| |exact IH]. lia.
Qed.

(** The plateaus whose instants and rates do not overflow. *)
Definition plateaus_fit (phase : LPhase) (n : Z) : Prop :=
  n * ph_StepEvery phase <= maxDuration ∧ ph_StartRPS phase + n * ph_StepRPS phase < 2 ^ 53.

Lemma step_interval_nonneg phase n s : 0 < ph_StartRPS phase → 0 < ph_StepRPS phase → plateaus_fit phase n → 0 <= s < n →
  0 <= rate_interval overflow (f64_of_int (step_rate (ph_StartRPS phase) (ph_StepRPS phase) s)).
Proof.
  intros Hs Hr [_ Hfit] Hn. unfold step_rate. cbv zeta.
  assert (s * ph_StepRPS phase <= n * ph_StepRPS phase) by nia.
  rewrite (int64_id (s * _)) by solve_range. rewrite int64_id by solve_range.
  rewrite (proj2 (Z.ltb_ge _ _)) by nia. rewrite rate_interval_int by nia. apply Z.div_pos; [done|nia].
Qed.

Lemma emitStep_loop_ordered phase steps budget start n s :
  0 < ph_StartRPS phase → 0 < ph_StepRPS phase → 0 < ph_StepEvery phase → plateaus_fit phase n →
  0 <= s → s + Z.of_nat steps <= n →
  ordered (start + s * ph_StepEvery phase) (start + ph_Duration phase)
    (emitStep_loop overflow steps budget (start + ph_Duration phase) start (ph_Duration phase)
       (ph_StartRPS phase) (ph_StepRPS phase) (ph_StepEvery phase) s).
Proof.
  intros Hs0 Hst Hev Hfit. revert budget s. induction steps as [|m IH]; intros budget s Hs Hn; [apply ordered_nil|].
  pose proof (step_interval_nonneg phase n s Hs0 Hst Hfit ltac:(lia)) as Hint. destruct Hfit as [Hdur Hrate].
  cbn [emitStep_loop]. unfold time_add, time_after. rewrite int64_id by (unfold in_int64, maxDuration in *; nia).
  set (segEnd := if _ <? _ then _ else _).
  pose proof (step_segment_ordered budget (start + ph_Duration phase) segEnd _ (start + s * ph_StepEvery phase) Hint) as Hseg.
  assert (Hmin : segEnd <= start + (s + 1) * ph_StepEvery phase) by (subst segEnd; destruct (Z.ltb_spec
    (start + ph_Duration phase) (start + s * ph_StepEvery phase + ph_StepEvery phase)); lia).
  destruct (step_segment budget _ segEnd _ _) as [l [rest|]]; cbn [fst] in Hseg; [|eapply ordered_weaken; [exact Hseg|lia]].
  specialize (IH rest (s + 1) ltac:(lia) ltac:(lia)).
  destruct (Z.le_gt_cases (start + (s + 1) * ph_StepEvery phase) (start + ph_Duration phase)).
  - eapply ordered_app; [eapply ordered_weaken; [exact Hseg|]|exact IH|]; lia.
  - assert (emitStep_loop overflow m rest (start + ph_Duration phase) start (ph_Duration phase) (ph_StartRPS phase)
      (ph_StepRPS phase) (ph_StepEvery phase) (s + 1) = []) as ->.
    { destruct IH as [_ Hf]. destruct (emitStep_loop _ _ _ _ _ _ _ _ _ _) as [|x xs]; [done|].
      apply Forall_cons in Hf as [? _]. lia. }
    rewrite app_nil_r. eapply ordered_weaken; [exact Hseg|lia].
Qed.

(** C37: A phase that validates, of whatever pattern, sends in order, from its start on and before
    its end.  The bounds: a length of at most 2^62 nanoseconds and a rate below 2^53; for Step,
    plateaus whose instants are representable durations and whose rates stay below 2^53; for
    Poisson, draws that are positive, as rand.ExpFloat64 documents, and at most 2^30. *)
Theorem schedule_ordered (budget : nat) (start : Time) (phase : LPhase) :
  valid_phase phase → ph_Duration phase <= 2 ^ 62 → ph_StartRPS phase < 2 ^ 53 →
  (ph_Pattern phase = PatternStep →
     plateaus_fit phase (Z.max 0 (step_count overflow (ph_Duration phase) (ph_StepEvery phase)))) →
  (ph_Pattern phase = PatternPoisson → ∀ k, exp_draw (draw k)) →
  ordered start (start + ph_Duration phase) (runSchedule overflow draw budget start phase).
Proof.
  intros (_ & Hd & Hs & Hpat) Hdmax Hsmax Hstep Hpois.
  assert (Hsec : Second = 1000000000) by reflexivity.
  destruct (decide (ph_Pattern phase = PatternRamp ∨ ph_Pattern phase = PatternPoisson)) as [Hv|Hv].
  { apply varying_schedule_ordered. destruct Hv as [?|Hp]; [by left|right]. split; [done|]. intros k.
    apply poisson_gap_nonneg; [lia|by apply Hpois]. }
  unfold runSchedule, time_add. case_decide as Hc; [|case_decide as Hp; [|case_decide as Hr; [|case_decide as Ht]]].
  - rewrite rate_interval_int by lia. pose proof (emitConstant_ordered budget start (ph_Duration phase)
      (Second / ph_StartRPS phase) 0) as Ho. rewrite Z.mul_0_l, Z.add_0_r in Ho. apply Ho; try lia.
    split; [apply Z.div_pos; lia|apply Z.div_le_upper_bound; nia].
  - naive_solver.
  - naive_solver.
  - destruct Hpat as [|[|[[? _]|(_ & Hsr & Hse)]]]; try congruence.
    pose proof (emitStep_loop_ordered phase (Z.to_nat (step_count overflow (ph_Duration phase) (ph_StepEvery phase)))
      budget start _ 0 Hs Hsr Hse (Hstep Ht)) as Ho. rewrite Z.mul_0_l, Z.add_0_r in Ho. apply Ho; lia.
  - apply ordered_nil.
Qed.

Lemma step_segment_bounded budget end_ segEnd interval at_ :
  let '(l, rest) := step_segment budget end_ segEnd interval at_ in
  Forall (λ t, t < end_) l ∧ (length l + default 0%nat rest <= budget)%nat.
Proof.
  revert at_. induction budget as [|b IH]; intros at_; cbn [step_segment]; unfold time_before;
    destruct (at_ <? segEnd) eqn:?; destruct (Z.ltb_spec at_ end_); simpl; try (split; [constructor|lia]).
  specialize (IH (time_add at_ interval)). destruct (step_segment b _ _ _ _) as [l rest].
  destruct IH as [Hl Hn]. split; [by constructor|]. simpl. lia.
Qed.

Lemma emitStep_loop_bounded steps budget end_ start d s0 st every s :
  let l := emitStep_loop overflow steps budget end_ start d s0 st every s in
  Forall (λ t, t < end_) l ∧ (length l <= budget)%nat.
Proof.
  revert budget s. induction steps as [|n IH]; intros budget s; [split; [constructor|simpl; lia]|].
  cbn [emitStep_loop]. pose proof (step_segment_bounded budget end_
    (if time_after (time_add (time_add start (int64 (s * every))) every) (time_add start d)
     then time_add start d else time_add (time_add start (int64 (s * every))) every)
    (rate_interval overflow (f64_of_int (step_rate s0 st s))) (time_add start (int64 (s * every)))) as Hs.
  destruct (step_segment _ _ _ _ _) as [l [rest|]]; destruct Hs as [Hf Hn]; [|split; [done|simpl in *; lia]].
  destruct (IH rest (s + 1)) as [Hf' Hn']. split; [by apply Forall_app|]. rewrite length_app. simpl in *. lia.
Qed.

Lemma emitConstant_bounded budget end_ start interval i :
  let l := emitConstant budget end_ start interval i in Forall (λ t, t < end_) l ∧ (length l <= budget)%nat.
Proof.
  revert i. induction budget as [|b IH]; intros i; cbn [emitConstant]; unfold time_before;
    destruct (Z.ltb_spec (time_add start (int64 (i * interval))) end_); cbn [negb]; try (split; [constructor|simpl; lia]).
  destruct (IH (i + 1)) as [Hf Hn]. split; [by constructor|]. simpl. lia.
Qed.

Lemma emitPoisson_bounded budget end_ rate at_ k :
  let l := emitPoisson overflow draw budget end_ rate at_ k in Forall (λ t, t < end_) l ∧ (length l <= budget)%nat.
Proof.
  revert at_ k. induction budget as [|b IH]; intros at_ k; cbn [emitPoisson]; unfold time_before;
    destruct (Z.ltb_spec (time_add at_ (poisson_gap overflow draw rate k)) end_); cbn [negb]; try (split; [constructor|simpl; lia]).
  destruct (IH (time_add at_ (poisson_gap overflow draw rate k)) (S k)) as [Hf Hn]. split; [by constructor|]. simpl. lia.
Qed.

Lemma emitRamp_bounded budget end_ start d s e at_ :
  let l := emitRamp overflow budget end_ start d s e at_ in Forall (λ t, t < end_) l ∧ (length l <= budget)%nat.
Proof.
  revert at_. induction budget as [|b IH]; intros at_; cbn [emitRamp]; unfold time_before;
    case_match; try (split; [constructor|simpl; lia]); destruct (Z.ltb_spec at_ end_); cbn [negb];
    try (split; [constructor|simpl; lia]).
  destruct (IH (time_add at_ (ramp_interval overflow start d s e at_))) as [Hf Hn].
  split; [by constructor|]. simpl. lia.
Qed.

(** Whatever the phase, the random draws and the rounding of the platform: no request is
    scheduled at or past the end of its phase, and no more are sent than the receiver takes. *)
Theorem schedule_bounded (budget : nat) (start : Time) (phase : LPhase) :
  let l := runSchedule overflow draw budget start phase in
  Forall (λ t, t < start + ph_Duration phase) l ∧ (length l <= budget)%nat.
Proof.
  unfold runSchedule. repeat case_decide.
  - apply emitConstant_bounded.
  - apply emitPoisson_bounded.
  - apply emitRamp_bounded.
  - apply emitStep_loop_bounded.
  - split; [constructor|simpl; lia].
Qed.
End properties.

Definition sample_phase (pattern : string) : LPhase := mkPhase "Measure" pattern Second 4 8 0 0 true.

Lemma constant_schedule_exact_witness :
  runSchedule no_overflow unit_draws 10 100 (sample_phase "Constant")
    = (λ k, 100 + k * 250000000) <$> seqZ 0 4 ∧
  4 * Second <= 4 * Second ∧ (∀ k, 0 <= k → k * 250000000 < Second ↔ k < 4).
Proof.
  apply (constant_schedule_exact no_overflow unit_draws 10 100 (sample_phase "Constant"));
    [reflexivity|split; [reflexivity|discriminate]..|discriminate].
Defined.

(** The sample draws are draws of the documented kind, so Poisson phases are covered too. *)
Lemma unit_draws_exp k : exp_draw (unit_draws k).
Proof. unfold unit_draws. rewrite f64_of_int_exact by lia. pose proof one_pos. simpl. lia. Qed.

Lemma schedule_ordered_witness :
  ordered 0 (3 * Second)
    (runSchedule no_overflow unit_draws 20 0 (mkPhase "Measure" "Step" (3 * Second) 1 0 1 Second true)).
Proof.
  apply (schedule_ordered no_overflow unit_draws 20 0 (mkPhase "Measure" "Step" (3 * Second) 1 0 1 Second true)).
  - by apply LoadPhase.Validate_ok.
  - done.
  - done.
  - intros _. vm_compute. split; [discriminate|reflexivity].
  - intros Hp. discriminate Hp.
Defined.
