(* ===== verification/Collector.v ===== *)
(** * The load generator's measurements (internal/loadgen/generator.go, result.go, client.go)

    Workers call [do] concurrently; every update of the collector is made under its mutex, so a
    run is a sequence of updates in the order the lock was taken, and the theorems hold for every
    such sequence.  The HDR histogram is the interface [Histogram]. *)

From S2P Require Import Prelude GoFloat GoText LoadPhase.

Open Scope Z_scope.

Definition ErrorCategory := string.
Definition ErrTimeout : ErrorCategory := "Timeout".
Definition ErrDial : ErrorCategory := "Dial".
Definition ErrConnReset : ErrorCategory := "ConnReset".
Definition ErrTLS : ErrorCategory := "TLS".
Definition ErrServer : ErrorCategory := "Server5xx".
Definition ErrClient : ErrorCategory := "Client4xx".
Definition ErrStreamReset : ErrorCategory := "StreamReset".
Definition ErrOther : ErrorCategory := "Other".

Record ErrorSample := mkErrorSample { es_At : Time; es_Category : ErrorCategory; es_Status : Z }.

Record PhaseSummary := mkSummary {
  su_Name : string;
  su_Pattern : string;
  su_Duration : Duration;
  su_StartRPS : Z;
  su_RecordStats : bool;
  su_Started : Time;
  su_Ended : Time
}.

Record LoadResult := mkLoadResult {
  lr_Started : Time;
  lr_Ended : Time;
  lr_Duration : Duration;
  lr_WarmupDuration : Duration;
  lr_MeasurementDuration : Duration;
  lr_Sent : Z;
  lr_Succeeded : Z;
  lr_Failed : Z;
  lr_StatusCounts : gmap Z Z;
  lr_Errors : gmap ErrorCategory Z;
  lr_LatencyP50 : Duration;
  lr_LatencyP95 : Duration;
  lr_LatencyP99 : Duration;
  lr_LatencyMax : Duration;
  lr_Labels : gmap string string;
  lr_ErrorSamples : list ErrorSample;
  lr_Phases : list PhaseSummary
}.

Definition FailureRate (r : LoadResult) : f64 :=
  if lr_Sent r =? 0 then f64_of_int 0
  else f64_div (f64_of_int (lr_Failed r)) (f64_of_int (lr_Sent r)).

Record ClientStats := mkClientStats { GoAwayCount : Z; ConnsOpened : Z; StreamsIssued : Z }.

(** ** Classification of a dispatch error *)

(** What [classify] observes of an error: whether fasthttp's timeout errors or
    context.DeadlineExceeded are in its chain, and its text. *)
Record dispatch_error := mkDispatchError {
  de_fasthttp_timeout : bool;
  de_deadline : bool;
  de_text : string
}.

Definition classify (e : dispatch_error) : ErrorCategory :=
  let msg := de_text e in
  if de_fasthttp_timeout e then ErrTimeout
  else if de_deadline e then ErrTimeout
  else if Contains msg "GOAWAY" then ErrServer
  else if Contains msg "stream error" || Contains msg "RST_STREAM" then ErrStreamReset
  else if Contains msg "connection reset" then ErrConnReset
  else if Contains msg "tls:" || Contains msg "x509:" then ErrTLS
  else if Contains msg "dial" || Contains msg "no such host" then ErrDial
  else ErrOther.

(** ** The collector *)

Class Histogram := {
  hist : Type;
  hist_new : Z → Z → Z → hist;
  (** RecordValue returns an error, ignored by the code, for a value above its range *)
  RecordValue : Z → hist → hist;
  ValueAtQuantile : hist → Z → Z;
  hist_Max : hist → Z;
  TotalCount : hist → Z
}.

Definition latencyHistogramMin : Z := Microsecond.
Definition latencyHistogramMax : Z := 60 * Second.
Definition latencyHistogramSigFig : Z := 3.
Definition maxErrorSamples : nat := Z.to_nat 10000.

(** An empty histogram counts nothing; a value in range is counted. *)
Class HistogramLaws `{Histogram} : Prop := {
  total_new : TotalCount (hist_new latencyHistogramMin latencyHistogramMax latencyHistogramSigFig) = 0;
  total_record : ∀ v h, latencyHistogramMin <= v <= latencyHistogramMax →
    TotalCount (RecordValue v h) = TotalCount h + 1
}.

(** The labels that [finalize] copies from the run's configuration. *)
Record RunLabels := mkLabels {
  rl_ConnectionMode : string;
  rl_Protocol : string;
  rl_TargetMode : string;
  rl_NetworkPath : string;
  rl_GRPCService : string
}.

Section collector.
Context `{Histogram}.

Record collector := mkCollector {
  c_start : Time;
  c_end : Time;
  c_sent : Z;
  c_succeeded : Z;
  c_failed : Z;
  c_statusCounts : gmap Z Z;
  c_errors : gmap ErrorCategory Z;
  c_latencies : hist;
  c_errorSamples : list ErrorSample;
  c_phases : list PhaseSummary;
  c_clientStats : ClientStats
}.

Definition newCollector (start : Time) : collector :=
  mkCollector start zeroTime 0 0 0 ∅ ∅ (hist_new latencyHistogramMin latencyHistogramMax latencyHistogramSigFig)
    [] [] (mkClientStats 0 0 0).

Definition recordLatency (latency : Duration) (h : hist) : hist :=
  let v := latency in
  let v := if v <? latencyHistogramMin then latencyHistogramMin else v in
  let v := if latencyHistogramMax <? v then latencyHistogramMax else v in
  RecordValue v h.

Definition addSample (cat : ErrorCategory) (status : Z) (at_ : Time) (l : list ErrorSample) : list ErrorSample :=
  if (maxErrorSamples <=? length l)%nat then l else l ++ [mkErrorSample at_ cat status].

(** [m[k]++] on a Go map of int64 counters. *)
Definition increment {K} `{Countable K} (k : K) (m : gmap K Z) : gmap K Z :=
  <[k := (default 0 (m !! k) ⊕ 1)%go]> m.

Definition recordError (cat : ErrorCategory) (latency : Duration) (at_ : Time) (c : collector) : collector :=
  mkCollector (c_start c) (c_end c) (c_sent c ⊕ 1)%go (c_succeeded c) (c_failed c ⊕ 1)%go (c_statusCounts c)
    (increment cat (c_errors c)) (recordLatency latency (c_latencies c))
    (addSample cat 0 at_ (c_errorSamples c)) (c_phases c) (c_clientStats c).

Definition recordStatus (code : Z) (latency : Duration) (at_ : Time) (c : collector) : collector :=
  let c := mkCollector (c_start c) (c_end c) (c_sent c ⊕ 1)%go (c_succeeded c) (c_failed c)
    (increment code (c_statusCounts c)) (c_errors c) (recordLatency latency (c_latencies c))
    (c_errorSamples c) (c_phases c) (c_clientStats c) in
  let fail cat :=
    mkCollector (c_start c) (c_end c) (c_sent c) (c_succeeded c) (c_failed c ⊕ 1)%go (c_statusCounts c)
      (increment cat (c_errors c)) (c_latencies c) (addSample cat code at_ (c_errorSamples c))
      (c_phases c) (c_clientStats c) in
  if 500 <=? code then fail ErrServer
  else if 400 <=? code then fail ErrClient
  else mkCollector (c_start c) (c_end c) (c_sent c) (c_succeeded c ⊕ 1)%go (c_failed c) (c_statusCounts c)
         (c_errors c) (c_latencies c) (c_errorSamples c) (c_phases c) (c_clientStats c).

Definition set_phases (ps : list PhaseSummary) (c : collector) : collector :=
  mkCollector (c_start c) (c_end c) (c_sent c) (c_succeeded c) (c_failed c) (c_statusCounts c)
    (c_errors c) (c_latencies c) (c_errorSamples c) ps (c_clientStats c).

Definition beginPhase (now : Time) (p : LPhase) (c : collector) : collector :=
  set_phases (c_phases c ++
    [mkSummary (ph_Name p) (ph_Pattern p) (ph_Duration p) (ph_StartRPS p) (ph_RecordStats p) now zeroTime]) c.

Definition end_summary (now : Time) (s : PhaseSummary) : PhaseSummary :=
  mkSummary (su_Name s) (su_Pattern s) (su_Duration s) (su_StartRPS s) (su_RecordStats s) (su_Started s) now.

Definition endPhase (now : Time) (c : collector) : collector :=
  match length (c_phases c) with
  | O => c
  | S n => set_phases (alter (end_summary now) n (c_phases c)) c
  end.

(** ** One request *)

Inductive reply :=
| GotStatus (code : Z)
| GotError (e : dispatch_error).

(** What became of a scheduled arrival: dropped because the phase ended while it was held back,
    or sent, with its reply, its completion time and whether the phase was over by then. *)
Inductive attempt :=
| Dropped
| Answered (slot : Time) (r : reply) (completion : Time) (over : bool).

Definition do_ (phase : LPhase) (a : attempt) (c : collector) : collector :=
  match a with
  | Dropped => c
  | Answered slot r completion over =>
      let latency := time_sub completion slot in
      let latency := if latency <? 0 then 0 else latency in
      if over then c
      else if negb (ph_RecordStats phase) then c
      else match r with
           | GotError e => recordError (classify e) latency completion c
           | GotStatus status => recordStatus status latency completion c
           end
  end.

(** ** A run *)

(** What happened in one phase. *)
Record phase_log := mkLog {
  lg_phase : LPhase;
  lg_started : Time;
  lg_attempts : list attempt;
  lg_ended : Time
}.

Definition runPhase (c : collector) (l : phase_log) : collector :=
  let c := beginPhase (lg_started l) (lg_phase l) c in
  let c := fold_left (λ c a, do_ (lg_phase l) a c) (lg_attempts l) c in
  endPhase (lg_ended l) c.

Definition phase_time (record : bool) (ps : list PhaseSummary) : Duration :=
  fold_left (λ acc s, if Bool.eqb (su_RecordStats s) record
                      then (acc ⊕ time_sub (su_Ended s) (su_Started s))%go else acc) ps 0.

Definition result_labels (cfg : RunLabels) (stats : ClientStats) : gmap string string :=
  let labels : gmap string string :=
    <[ "protocol" := rl_Protocol cfg ]> {[ "connectionMode" := rl_ConnectionMode cfg ]} in
  let labels := if decide (rl_TargetMode cfg = "") then labels else <[ "targetMode" := rl_TargetMode cfg ]> labels in
  let labels := if decide (rl_NetworkPath cfg = "") then labels else <[ "networkPath" := rl_NetworkPath cfg ]> labels in
  if decide (rl_Protocol cfg = "HTTP2") then
    <[ "streamsIssued" := itoa (StreamsIssued stats) ]>
      (<[ "connsOpened" := itoa (ConnsOpened stats) ]> (<[ "goAwayCount" := itoa (GoAwayCount stats) ]> labels))
  else if decide (rl_Protocol cfg = "GRPC") then
    let labels := <[ "streamsIssued" := itoa (StreamsIssued stats) ]>
                    (<[ "connsOpened" := itoa (ConnsOpened stats) ]> labels) in
    if decide (rl_GRPCService cfg = "") then labels else <[ "grpcService" := rl_GRPCService cfg ]> labels
  else labels.

Definition finalize (cfg : RunLabels) (c : collector) : LoadResult :=
  let '(p50, p95, p99, max) :=
    if TotalCount (c_latencies c) =? 0 then (0, 0, 0, 0)
    else (ValueAtQuantile (c_latencies c) 50, ValueAtQuantile (c_latencies c) 95,
          ValueAtQuantile (c_latencies c) 99, hist_Max (c_latencies c)) in
  mkLoadResult (c_start c) (c_end c) (time_sub (c_end c) (c_start c))
    (phase_time false (c_phases c)) (phase_time true (c_phases c))
    (c_sent c) (c_succeeded c) (c_failed c) (c_statusCounts c) (c_errors c) p50 p95 p99 max
    (result_labels cfg (c_clientStats c)) (c_errorSamples c) (c_phases c).

(** [Run], from what happened in each phase that was started. *)
Definition Run (cfg : RunLabels) (start finish : Time) (logs : list phase_log) (stats : ClientStats) : LoadResult :=
  let c := fold_left runPhase logs (newCollector start) in
  finalize cfg (mkCollector (c_start c) finish (c_sent c) (c_succeeded c) (c_failed c) (c_statusCounts c)
    (c_errors c) (c_latencies c) (c_errorSamples c) (c_phases c) stats).
End collector.

(** ** What a run reports *)

(** The measured replies of a phase: sent in a recorded phase and completed before it ended. *)
Definition measured_log (l : phase_log) : list (reply * Time) :=
  if ph_RecordStats (lg_phase l) then
    omap (λ a, match a with Answered _ r t false => Some (r, t) | _ => None end) (lg_attempts l)
  else [].

Definition measured (logs : list phase_log) : list (reply * Time) := concat (measured_log <$> logs).

(** A reply that counts as a failed request. *)
Definition failure_of (m : reply * Time) : option ErrorSample :=
  match m.1 with
  | GotError e => Some (mkErrorSample m.2 (classify e) 0)
  | GotStatus code =>
      if 500 <=? code then Some (mkErrorSample m.2 ErrServer code)
      else if 400 <=? code then Some (mkErrorSample m.2 ErrClient code)
      else None
  end.

Definition failures (ms : list (reply * Time)) : list ErrorSample := omap failure_of ms.

Definition has_status (code : Z) (m : reply * Time) : bool :=
  match m.1 with GotStatus c => c =? code | GotError _ => false end.

Definition with_status (code : Z) (ms : list (reply * Time)) : list (reply * Time) :=
  filter (λ m, has_status code m = true) ms.

Definition with_category (cat : ErrorCategory) (es : list ErrorSample) : list ErrorSample :=
  filter (λ s, es_Category s = cat) es.

Section accounting.
Context `{HistogramLaws}.

Record accounts (c : collector) (ms : list (reply * Time)) : Prop := {
  ac_sent : c_sent c = Z.of_nat (length ms);
  ac_failed : c_failed c = Z.of_nat (length (failures ms));
  ac_succeeded : c_succeeded c = Z.of_nat (length ms) - Z.of_nat (length (failures ms));
  ac_status : ∀ code, default 0 (c_statusCounts c !! code) = Z.of_nat (length (with_status code ms));
  ac_errors : ∀ cat, default 0 (c_errors c !! cat) = Z.of_nat (length (with_category cat (failures ms)));
  ac_samples : c_errorSamples c = take maxErrorSamples (failures ms);
  ac_latencies : TotalCount (c_latencies c) = Z.of_nat (length ms)
}.

Lemma increment_lookup {K} `{Countable K} (k j : K) (m : gmap K Z) n :
  default 0 (m !! k) = Z.of_nat n → (Z.of_nat n < 2 ^ 63 - 1) →
  default 0 (increment k m !! j) = if decide (j = k) then Z.of_nat (S n) else default 0 (m !! j).
Proof.
  intros Hk Hn. unfold increment. rewrite Hk. case_decide as Hj.
  - subst j. rewrite lookup_insert, decide_True by done. simpl. rewrite int64_id by solve_range. lia.
  - by rewrite lookup_insert_ne.
Qed.

Lemma failures_snoc ms m : failures (ms ++ [m]) = failures ms ++ option_list (failure_of m).
Proof. unfold failures. rewrite omap_app. simpl. by destruct (failure_of m). Qed.

Lemma failures_length ms : (length (failures ms) <= length ms)%nat.
Proof.
  induction ms as [|m ms IH] using rev_ind; [done|].
  rewrite failures_snoc, !length_app. destruct (failure_of m); simpl; lia.
Qed.

Lemma with_category_length cat es : (length (with_category cat es) <= length es)%nat.
Proof. apply length_filter. Qed.

Lemma with_status_length code ms : (length (with_status code ms) <= length ms)%nat.
Proof. apply length_filter. Qed.

Lemma addSample_take cat code t es :
  addSample cat code t (take maxErrorSamples es) = take maxErrorSamples (es ++ [mkErrorSample t cat code]).
Proof.
  unfold addSample. rewrite length_take. destruct (Nat.leb_spec maxErrorSamples (maxErrorSamples `min` length es)).
  - rewrite take_app_le by lia. done.
  - rewrite !take_ge; [done|rewrite length_app; simpl; lia|lia].
Qed.

Lemma recordLatency_count latency h : TotalCount (recordLatency latency h) = TotalCount h + 1.
Proof.
  unfold recordLatency. apply total_record.
  assert (latencyHistogramMin <= latencyHistogramMax) by (vm_compute; congruence).
  destruct (Z.ltb_spec latency latencyHistogramMin);
    [destruct (Z.ltb_spec latencyHistogramMax latencyHistogramMin)
    |destruct (Z.ltb_spec latencyHistogramMax latency)]; lia.
Qed.

Lemma with_category_snoc cat es s : with_category cat (es ++ [s])
  = with_category cat es ++ (if decide (es_Category s = cat) then [s] else []).
Proof. unfold with_category. rewrite filter_app, filter_cons, filter_nil. by case_decide. Qed.

Lemma with_status_snoc code ms m : with_status code (ms ++ [m])
  = with_status code ms ++ (if has_status code m then [m] else []).
Proof. unfold with_status. rewrite filter_app, filter_cons, filter_nil. by destruct (has_status code m). Qed.

Lemma accounts_error c ms e latency t : accounts c ms → Z.of_nat (length ms) < 2 ^ 63 - 1 →
  accounts (recordError (classify e) latency t c) (ms ++ [(GotError e, t)]).
Proof.
  intros [Hs Hf Hsu Hst He Hsa Hl] Hn. pose proof (failures_length ms).
  constructor; simpl; rewrite ?failures_snoc; simpl; rewrite ?length_app; simpl;
    rewrite ?int64_id by (rewrite ?Hs, ?Hf; solve_range).
  - lia.
  - lia.
  - lia.
  - intros code. by rewrite with_status_snoc, app_nil_r.
  - intros cat. pose proof (with_category_length (classify e) (failures ms)).
    rewrite (increment_lookup _ cat _ _ (He (classify e))) by lia. rewrite with_category_snoc. simpl.
    destruct (decide (cat = classify e)) as [->|Hne].
    + rewrite decide_True by done. rewrite length_app. simpl. lia.
    + rewrite decide_False by congruence. by rewrite app_nil_r.
  - rewrite Hsa. apply addSample_take.
  - rewrite recordLatency_count. lia.
Qed.

Lemma accounts_status c ms code latency t : accounts c ms → Z.of_nat (length ms) < 2 ^ 63 - 1 →
  accounts (recordStatus code latency t c) (ms ++ [(GotStatus code, t)]).
Proof.
  intros [Hs Hf Hsu Hst He Hsa Hl] Hn. pose proof (failures_length ms).
  assert (Hcodes : ∀ j, default 0 (increment code (c_statusCounts c) !! j)
    = Z.of_nat (length (with_status j (ms ++ [(GotStatus code, t)])))).
  { intros j. pose proof (with_status_length code ms).
    rewrite (increment_lookup _ j _ _ (Hst code)) by lia. rewrite with_status_snoc. unfold has_status. simpl.
    destruct (decide (j = code)) as [->|Hne].
    - rewrite Z.eqb_refl, length_app. simpl. lia.
    - rewrite (proj2 (Z.eqb_neq code j)) by congruence. by rewrite app_nil_r. }
  assert (Hcats : ∀ cat s, es_Category s = cat → ∀ j, default 0 (increment cat (c_errors c) !! j)
    = Z.of_nat (length (with_category j (failures ms ++ [s])))).
  { intros cat s Hcat j. pose proof (with_category_length cat (failures ms)).
    rewrite (increment_lookup _ j _ _ (He cat)) by lia. rewrite with_category_snoc. rewrite Hcat.
    destruct (decide (j = cat)) as [->|Hne].
    - rewrite decide_True by done. rewrite length_app. simpl. lia.
    - rewrite decide_False by congruence. by rewrite app_nil_r. }
  unfold recordStatus.
  destruct (Z.leb_spec 500 code) as [H5|H5]; [|destruct (Z.leb_spec 400 code) as [H4|H4]];
    constructor; simpl; rewrite ?failures_snoc; unfold failure_of; simpl;
    rewrite ?(proj2 (Z.leb_le _ _) H5), ?(proj2 (Z.leb_gt _ _) H5);
    try rewrite (proj2 (Z.leb_le _ _) H4); try rewrite (proj2 (Z.leb_gt _ _) H4); simpl;
    rewrite ?app_nil_r, ?length_app; simpl;
    rewrite ?int64_id by (rewrite ?Hs, ?Hf, ?Hsu; solve_range);
    try done; try lia; try (by apply Hcats); try (rewrite Hsa; apply addSample_take);
    rewrite recordLatency_count; lia.
Qed.

Lemma accounts_do c ms phase a :
  accounts c ms →
  Z.of_nat (length (ms ++ measured_log (mkLog phase 0 [a] 0))) < 2 ^ 63 →
  accounts (do_ phase a c) (ms ++ measured_log (mkLog phase 0 [a] 0)).
Proof.
  unfold measured_log, do_. simpl. intros Hc Hn.
  destruct (ph_RecordStats phase); destruct a as [|slot [code|e] t []]; simpl in *; rewrite ?app_nil_r in *; try done;
    rewrite length_app in Hn; simpl in Hn; [apply accounts_status|apply accounts_error]; done || lia.
Qed.

Lemma measured_log_cons phase a l : measured_log (mkLog phase 0 (a :: l) 0)
  = measured_log (mkLog phase 0 [a] 0) ++ measured_log (mkLog phase 0 l 0).
Proof.
  unfold measured_log. simpl. destruct (ph_RecordStats phase); [|done].
  by destruct a as [|? ? ? []].
Qed.

Lemma accounts_attempts phase l c ms : accounts c ms →
  Z.of_nat (length (ms ++ measured_log (mkLog phase 0 l 0))) < 2 ^ 63 →
  accounts (fold_left (λ c a, do_ phase a c) l c) (ms ++ measured_log (mkLog phase 0 l 0)).
Proof.
  revert c ms. induction l as [|a l IH]; intros c ms Hc Hn.
  { unfold measured_log. simpl. by destruct (ph_RecordStats phase); rewrite app_nil_r. }
  rewrite measured_log_cons, app_assoc in *. simpl. apply IH; [|done].
  apply accounts_do; [done|]. rewrite length_app in Hn. lia.
Qed.

Lemma accounts_runPhase l c ms : accounts c ms →
  Z.of_nat (length (ms ++ measured_log l)) < 2 ^ 63 → accounts (runPhase c l) (ms ++ measured_log l).
Proof.
  intros Hc Hn. unfold runPhase.
  assert (Hbegin : accounts (beginPhase (lg_started l) (lg_phase l) c) ms) by (by destruct Hc; constructor).
  pose proof (accounts_attempts (lg_phase l) (lg_attempts l) _ _ Hbegin Hn) as Hf.
  change (measured_log (mkLog (lg_phase l) 0 (lg_attempts l) 0)) with (measured_log l) in Hf.
  unfold endPhase. case_match; [done|]. by destruct Hf; constructor.
Qed.

Lemma accounts_run logs c ms : accounts c ms → Z.of_nat (length (ms ++ measured logs)) < 2 ^ 63 →
  accounts (fold_left runPhase logs c) (ms ++ measured logs).
Proof.
  revert c ms. induction logs as [|l logs IH]; intros c ms Hc Hn; [unfold measured; simpl; by rewrite app_nil_r|].
  change (measured (l :: logs)) with (measured_log l ++ measured logs) in *. rewrite app_assoc in *.
  simpl. apply IH; [|done]. apply accounts_runPhase; [done|]. rewrite length_app in Hn. lia.
Qed.

Lemma accounts_new start : accounts (newCollector start) [].
Proof. constructor; try done. apply total_new. Qed.

Lemma Run_sent cfg start finish logs stats : Z.of_nat (length (measured logs)) < 2 ^ 63 →
  lr_Sent (Run cfg start finish logs stats) = Z.of_nat (length (measured logs)).
Proof.
  intros Hn. pose proof (accounts_run logs _ _ (accounts_new start) Hn) as [Hs _ _ _ _ _ _].
  unfold Run, finalize. cbn [c_latencies c_sent]. by destruct (_ =? 0).
Qed.

(** C20: Whatever the interleaving of the workers, the result of a run counts every measured request
    exactly once: sent is the number of replies received in time in recorded phases, failed
    those among them that are errors or have status 400 or above, succeeded the rest; the counts
    per status and per error category agree, and the error samples are the first ten thousand
    failures in order of completion. *)
Theorem run_accounts (cfg : RunLabels) (start finish : Time) (logs : list phase_log) (stats : ClientStats) :
  Z.of_nat (length (measured logs)) < 2 ^ 63 →
  let r := Run cfg start finish logs stats in
  let ms := measured logs in
  lr_Sent r = Z.of_nat (length ms) ∧ lr_Failed r = Z.of_nat (length (failures ms)) ∧
  lr_Succeeded r + lr_Failed r = lr_Sent r ∧
  (∀ code, default 0 (lr_StatusCounts r !! code) = Z.of_nat (length (with_status code ms))) ∧
  (∀ cat, default 0 (lr_Errors r !! cat) = Z.of_nat (length (with_category cat (failures ms)))) ∧
  lr_ErrorSamples r = take maxErrorSamples (failures ms) ∧
  (ms = [] → lr_LatencyP50 r = 0 ∧ lr_LatencyP95 r = 0 ∧ lr_LatencyP99 r = 0 ∧ lr_LatencyMax r = 0).
Proof.
  intros Hn r ms. pose proof (accounts_run logs _ _ (accounts_new start) Hn) as Ha. simpl in Ha.
  subst r. unfold Run, finalize. cbn [c_latencies c_sent c_succeeded c_failed c_statusCounts c_errors c_errorSamples].
  destruct Ha as [Hs Hf Hsu Hst He Hsa Hl]. rewrite Hl.
  destruct (Z.eqb_spec (Z.of_nat (length (measured logs))) 0) as [Hz|Hz]; simpl; split_and!; try done; try lia.
  intros Hnil. unfold ms in Hnil. by rewrite Hnil in Hz.
Qed.
End accounting.

(** A histogram that keeps its values, to evaluate runs with. *)
Definition list_hist : Histogram := {|
  hist := list Z;
  hist_new := λ _ _ _, [];
  RecordValue := λ v h, v :: h;
  ValueAtQuantile := λ h _, default 0 (head h);
  hist_Max := λ h, foldr Z.max 0 h;
  TotalCount := λ h, Z.of_nat (length h)
|}.

#[export] Instance list_hist_laws : @HistogramLaws list_hist.
Proof. split; [done|]. intros v h _. simpl. lia. Qed.

Definition sample_log : phase_log :=
  mkLog (mkPhase "Measure" "Constant" Second 4 0 0 0 true) 0
    [Answered 0 (GotStatus 200) Millisecond false; Answered 1 (GotStatus 503) Millisecond false;
     Answered 2 (GotError (mkDispatchError false false "dial tcp: connection refused")) Millisecond false;
     Answered 3 (GotStatus 200) (2 * Second) true; Dropped] (2 * Second).

Lemma run_accounts_witness :
  lr_Sent (@Run list_hist (mkLabels "KeepAlive" "HTTP1" "" "" "") 0 0 [sample_log] (mkClientStats 0 0 0)) = 3.
Proof.
  destruct (@run_accounts list_hist _ (mkLabels "KeepAlive" "HTTP1" "" "" "") 0 0 [sample_log] (mkClientStats 0 0 0))
    as [Hs _]; [vm_compute; reflexivity|]. exact Hs.
Defined.
