(* ===== verification/Endpoints.v ===== *)
(** * Endpoint tracking (internal/observer/endpoints.go)

    [apply] folds EndpointSlice watch events into per-IP Ready/Removed events.  Go iterates maps
    in an unspecified order: the events of one call come in the order [range] yields, an
    interface here, and the theorems hold for every order. *)

From S2P Require Import Prelude GoText Api.
From S2P Require Import Leakage.

Open Scope Z_scope.

(** What is read of a discoveryv1.Endpoint. *)
Record Endpoint := mkEndpoint { ep_Addresses : list string; ep_Ready : option bool }.

(** Maps with [bool] values, as [map[string]bool]. *)
Notation boolmap := (gmap string bool).

(** [m[k]], false when absent. *)
Definition get (m : boolmap) (k : string) : bool := default false (m !! k).

Record endpointTracker := mkTracker {
  et_slices : gmap string boolmap;
  et_ready : boolmap
}.

Definition newEndpointTracker : endpointTracker := mkTracker ∅ ∅.

(** Iteration over the keys of a map: some order of them. *)
Class MapRange := {
  range_keys : boolmap → list string;
  range_perm : ∀ m, range_keys m ≡ₚ (map_to_list m).*1
}.

Definition is_ready (ep : Endpoint) : bool := match ep_Ready ep with Some b => b | None => false end.

(** The contribution of one slice. *)
Definition add_endpoint (m : boolmap) (ep : Endpoint) : boolmap :=
  fold_left (λ m ip, <[ip := get m ip || is_ready ep]> m) (ep_Addresses ep) m.

Definition slice_ips (eps : list Endpoint) : boolmap := fold_left add_endpoint eps ∅.

(** The ready addresses of a slice added to [next]; the order of iteration does not matter. *)
Definition add_ready (next m : boolmap) : boolmap := ((λ _, true) <$> filter (λ '(_, b), b = true) m) ∪ next.

Definition union_ready (slices : gmap string boolmap) : boolmap :=
  map_fold (λ _ m next, add_ready next m) ∅ slices.

Section tracker.
Context `{MapRange}.

(** [apply]; [None] stands for a deleted slice. *)
Definition apply_slice (t : endpointTracker) (sliceName : string) (eps : option (list Endpoint)) (at_ : Time)
    : endpointTracker * list EndpointEvent :=
  let slices := match eps with
                | None => delete sliceName (et_slices t)
                | Some eps => <[sliceName := slice_ips eps]> (et_slices t)
                end in
  let next := union_ready slices in
  let added := filter (λ ip, get (et_ready t) ip = false) (range_keys next) in
  let removed := filter (λ ip, get next ip = false) (range_keys (et_ready t)) in
  (mkTracker slices next,
   ((λ ip, mkEvent at_ ip EndpointReady) <$> added) ++ ((λ ip, mkEvent at_ ip EndpointRemoved) <$> removed)).

(** A watch: slice events in order, with the events they produced, oldest first. *)
Definition watch_slices (evs : list (string * option (list Endpoint) * Time)) : endpointTracker * list EndpointEvent :=
  fold_left (λ acc e,
    let '(t, out) := acc in
    let '(name, eps, at_) := e in
    let '(t', new) := apply_slice t name eps at_ in (t', out ++ new)) evs (newEndpointTracker, []).
End tracker.

(** ** Correctness *)

(** An address is served by the slices when some endpoint of some slice that has it is ready. *)
Definition serves (eps : list Endpoint) (ip : string) : Prop :=
  Exists (λ ep, ip ∈ ep_Addresses ep ∧ is_ready ep = true) eps.

Lemma get_insert m k j b : get (<[k := b]> m) j = if decide (j = k) then b else get m j.
Proof.
  unfold get. destruct (decide (j = k)) as [->|].
  - by rewrite lookup_insert, decide_True.
  - by rewrite lookup_insert_ne.
Qed.

Lemma add_endpoint_get ep m ip :
  get (add_endpoint m ep) ip = get m ip || (bool_decide (ip ∈ ep_Addresses ep) && is_ready ep).
Proof.
  unfold add_endpoint. revert m. induction (ep_Addresses ep) as [|a l IH]; intros m; cbn [fold_left].
  { by rewrite orb_false_r. }
  rewrite IH, get_insert. destruct (decide (ip = a)) as [->|Hne].
  - rewrite (bool_decide_eq_true_2 (a ∈ a :: l)) by set_solver.
    destruct (get m a), (is_ready ep), (bool_decide (a ∈ l)); done.
  - assert (bool_decide (ip ∈ a :: l) = bool_decide (ip ∈ l)) as ->; [|done].
    apply bool_decide_ext. set_solver.
Qed.

Lemma slice_ips_get eps ip : get (slice_ips eps) ip = true ↔ serves eps ip.
Proof.
  unfold slice_ips, serves.
  assert (∀ m, get (fold_left add_endpoint eps m) ip = true ↔
    get m ip = true ∨ Exists (λ ep, ip ∈ ep_Addresses ep ∧ is_ready ep = true) eps) as Hfold.
  { induction eps as [|ep eps IH]; intros m; simpl.
    - rewrite Exists_nil. naive_solver.
    - rewrite IH, Exists_cons, add_endpoint_get, orb_true_iff, andb_true_iff, bool_decide_eq_true. tauto. }
  rewrite Hfold. unfold get. rewrite lookup_empty. simpl. naive_solver.
Qed.

Lemma add_ready_get next m ip : get (add_ready next m) ip = get m ip || get next ip.
Proof.
  unfold add_ready, get. rewrite lookup_union, lookup_fmap, map_lookup_filter.
  by destruct (m !! ip) as [[]|], (next !! ip).
Qed.

(** Every value in the union is true, so its keys are the ready addresses. *)
Definition all_true (m : boolmap) : Prop := map_Forall (λ _ b, b = true) m.

Lemma add_ready_all_true next m : all_true next → all_true (add_ready next m).
Proof.
  intros Hn k b Hb. unfold add_ready in Hb. apply lookup_union_Some_raw in Hb as [Hb|[_ Hb]].
  - rewrite lookup_fmap in Hb. by destruct (filter _ m !! k); simplify_eq/=.
  - by apply (Hn k).
Qed.

Lemma union_ready_spec slices :
  all_true (union_ready slices) ∧
  ∀ ip, get (union_ready slices) ip = true ↔ ∃ name m, slices !! name = Some m ∧ get m ip = true.
Proof.
  unfold union_ready. apply (map_fold_weak_ind (λ next slices,
    all_true next ∧ ∀ ip, get next ip = true ↔ ∃ name m, slices !! name = Some m ∧ get m ip = true)).
  - split; [apply map_Forall_empty|]. intros ip. unfold get at 1. rewrite lookup_empty. simpl.
    split; [done|]. intros (? & ? & Hl & _). by rewrite lookup_empty in Hl.
  - intros name m slices' next Hnone [Hall Hnext]. split; [by apply add_ready_all_true|].
    intros ip. rewrite add_ready_get, orb_true_iff, Hnext. split.
    + intros [Hm|(n & m' & Hl & Hm)].
      * exists name, m. by rewrite lookup_insert, decide_True.
      * exists n, m'. rewrite lookup_insert_ne; [done|]. congruence.
    + intros (n & m' & Hl & Hm). apply lookup_insert_Some in Hl as [[<- <-]|[_ Hl]]; [by left|right; eauto].
Qed.

Section theorems.
Context `{MapRange}.

(** The ready map is the union over the slices, and holds nothing else. *)
Definition tracker_inv (t : endpointTracker) : Prop := et_ready t = union_ready (et_slices t).

Lemma tracker_inv_new : tracker_inv newEndpointTracker.
Proof. done. Qed.

Lemma range_all_true m ip : all_true m → ip ∈ range_keys m ↔ get m ip = true.
Proof.
  intros Hm. rewrite range_perm, list_elem_of_fmap. unfold get. split.
  - intros ([k b] & -> & Hin). apply elem_of_map_to_list in Hin. simpl. rewrite Hin. by apply (Hm k).
  - destruct (m !! ip) as [b|] eqn:Hl; [|done]. intros _. exists (ip, b). split; [done|]. by apply elem_of_map_to_list.
Qed.

Lemma range_NoDup m : NoDup (range_keys m).
Proof. rewrite range_perm. apply NoDup_fst_map_to_list. Qed.

Lemma apply_slice_spec (t : endpointTracker) (name : string) (eps : option (list Endpoint)) (at_ : Time) :
  tracker_inv t →
  let '(t', evs) := apply_slice t name eps at_ in
  tracker_inv t' ∧ NoDup evs ∧
  (∀ other, other ≠ name → et_slices t' !! other = et_slices t !! other) ∧
  (∀ ip, get (et_ready t') ip = true ↔
     ∃ n m, et_slices t' !! n = Some m ∧ get m ip = true) ∧
  ∀ e, e ∈ evs ↔
    ev_At e = at_ ∧
    ((ev_Kind e = EndpointReady ∧ get (et_ready t) (ev_PodIP e) = false ∧ get (et_ready t') (ev_PodIP e) = true) ∨
     (ev_Kind e = EndpointRemoved ∧ get (et_ready t) (ev_PodIP e) = true ∧ get (et_ready t') (ev_PodIP e) = false)).
Proof.
  intros Hinv. unfold apply_slice. set (slices := match eps with None => _ | Some _ => _ end).
  destruct (union_ready_spec slices) as [Hall Hnext].
  destruct (union_ready_spec (et_slices t)) as [Hall0 _]. rewrite <- Hinv in Hall0.
  set (added := filter _ (range_keys (union_ready slices))). set (removed := filter _ (range_keys (et_ready t))).
  assert (Hadd : ∀ ip, ip ∈ added ↔ get (et_ready t) ip = false ∧ get (union_ready slices) ip = true).
  { intros ip. unfold added. rewrite list_elem_of_filter. by rewrite range_all_true. }
  assert (Hrem : ∀ ip, ip ∈ removed ↔ get (union_ready slices) ip = false ∧ get (et_ready t) ip = true).
  { intros ip. unfold removed. rewrite list_elem_of_filter. by rewrite range_all_true. }
  split_and!.
  - done.
  - apply NoDup_app. split_and!.
    + apply NoDup_fmap_2; [intros ? ? [=]; done|]. apply NoDup_filter, range_NoDup.
    + intros e (ip & -> & _)%list_elem_of_fmap (ip' & Heq & _)%list_elem_of_fmap. by injection Heq.
    + apply NoDup_fmap_2; [intros ? ? [=]; done|]. apply NoDup_filter, range_NoDup.
  - intros other Hne. simpl. unfold slices. destruct eps; [by rewrite lookup_insert_ne|by rewrite lookup_delete_ne].
  - exact Hnext.
  - intros [eat ip kind]. simpl. rewrite elem_of_app, !list_elem_of_fmap. split.
    + intros [(ip' & Heq & Hin)|(ip' & Heq & Hin)]; simplify_eq;
        [apply Hadd in Hin|apply Hrem in Hin]; naive_solver.
    + intros (-> & [(-> & ? & ?)|(-> & ? & ?)]); [left|right]; exists ip; (split; [done|]); [by apply Hadd|by apply Hrem].
Qed.

(** Whatever the order of map iteration, an update reports exactly the changes: one Ready event
    for each address that some slice now serves and none did before, one Removed event for each
    address that was served and no longer is, and no other event; the tracker's view stays the
    union of its slices. *)
Theorem tracker_reports_diff (t : endpointTracker) (name : string) (eps : option (list Endpoint)) (at_ : Time) :
  tracker_inv t →
  let '(t', evs) := apply_slice t name eps at_ in
  tracker_inv t' ∧ NoDup evs ∧
  (∀ other, other ≠ name → et_slices t' !! other = et_slices t !! other) ∧
  (∀ ip, get (et_ready t') ip = true ↔
     ∃ n m, et_slices t' !! n = Some m ∧ get m ip = true) ∧
  ∀ e, e ∈ evs ↔
    ev_At e = at_ ∧
    ((ev_Kind e = EndpointReady ∧ get (et_ready t) (ev_PodIP e) = false ∧ get (et_ready t') (ev_PodIP e) = true) ∨
     (ev_Kind e = EndpointRemoved ∧ get (et_ready t) (ev_PodIP e) = true ∧ get (et_ready t') (ev_PodIP e) = false)).
Proof. apply apply_slice_spec. Qed.
(** The events about one address, oldest first. *)
Definition about (ip : string) (evs : list EndpointEvent) : list EndpointEvent :=
  filter (λ e, ev_PodIP e = ip) evs.

(** The state of an address according to the events alone. *)
Definition last_says_ready (ip : string) (evs : list EndpointEvent) : Prop :=
  ∃ e, last (about ip evs) = Some e ∧ ev_Kind e = EndpointReady.

Lemma about_app ip l k : about ip (l ++ k) = about ip l ++ about ip k.
Proof. apply filter_app. Qed.

Lemma at_most_one {A} (l : list A) x : NoDup l → (∀ y, y ∈ l ↔ y = x) → l = [x].
Proof.
  intros Hnd Hl. destruct l as [|a [|b l]].
  - exfalso. specialize (Hl x). set_solver.
  - f_equal. apply Hl. set_solver.
  - exfalso. assert (a = x) by (apply Hl; set_solver). assert (b = x) by (apply Hl; set_solver).
    subst. inversion_clear Hnd. set_solver.
Qed.

(** One update and one address: no event if its state is the same, else one event that tells the
    new state. *)
Lemma about_new t name eps at_ ip : tracker_inv t →
  let '(t', evs) := apply_slice t name eps at_ in
  about ip evs = (if Bool.eqb (get (et_ready t) ip) (get (et_ready t') ip) then []
                  else [mkEvent at_ ip (if get (et_ready t') ip then EndpointReady else EndpointRemoved)]).
Proof.
  intros Hinv. pose proof (apply_slice_spec t name eps at_ Hinv) as Hspec.
  destruct (apply_slice t name eps at_) as [t' evs]. destruct Hspec as (_ & Hnd & _ & _ & Hevs).
  assert (Hin : ∀ e, e ∈ about ip evs ↔ ev_PodIP e = ip ∧ e ∈ evs) by (intros e; unfold about; by rewrite list_elem_of_filter).
  assert (Hnd' : NoDup (about ip evs)) by (by apply NoDup_filter).
  destruct (get (et_ready t) ip) eqn:H0, (get (et_ready t') ip) eqn:H1; simpl;
    [apply elem_of_nil_inv|apply at_most_one; [done|]..|apply elem_of_nil_inv];
    intros [eat eip kind]; rewrite Hin, Hevs; simpl; naive_solver congruence.
Qed.

Lemma watch_slices_inv evs :
  let '(t, out) := watch_slices evs in
  tracker_inv t ∧ ∀ ip, get (et_ready t) ip = true ↔ last_says_ready ip out.
Proof.
  induction evs as [|[[name eps] at_] evs IH] using rev_ind.
  { split; [done|]. intros ip. unfold last_says_ready. simpl. split; [done|]. naive_solver. }
  unfold watch_slices in *. rewrite fold_left_app. cbn [fold_left].
  destruct (fold_left _ evs _) as [t out]. destruct IH as [Hinv Hip].
  pose proof (apply_slice_spec t name eps at_ Hinv) as Hspec.
  pose proof (λ ip, about_new t name eps at_ ip Hinv) as Hab.
  destruct (apply_slice t name eps at_) as [t' new]. destruct Hspec as (Hinv' & _). split; [done|].
  intros ip. specialize (Hab ip). unfold last_says_ready in *. rewrite about_app, Hab.
  destruct (get (et_ready t) ip) eqn:H0, (get (et_ready t') ip) eqn:H1; simpl;
    rewrite ?app_nil_r, ?last_snoc.
  - split; [|done]. intros _. by apply Hip.
  - split; [done|]. intros (e & [= <-] & Hk). done.
  - split; [|done]. intros _. eexists. split; [done|]. done.
  - rewrite <- Hip. by rewrite H0.
Qed.

(** The endpoints of a slice according to the updates alone: those of the last update that names
    it, if that was not its deletion. *)
Definition current (evs : list (string * option (list Endpoint) * Time)) (name : string) : option (list Endpoint) :=
  e ← last (filter (λ e, e.1.1 = name) evs); e.1.2.

Lemma current_snoc evs n eps at_ name :
  current (evs ++ [(n, eps, at_)]) name = if decide (n = name) then eps else current evs name.
Proof.
  unfold current. rewrite filter_app, filter_cons. simpl. case_decide.
  - by rewrite filter_nil, last_snoc.
  - by rewrite filter_nil, app_nil_r.
Qed.

(** The tracker keeps what the updates say. *)
Lemma watch_slices_current evs name :
  et_slices (watch_slices evs).1 !! name = slice_ips <$> current evs name.
Proof.
  induction evs as [|[[n eps] at_] evs IH] using rev_ind; [done|]. rewrite current_snoc.
  unfold watch_slices in *. rewrite fold_left_app. cbn [fold_left].
  destruct (fold_left _ evs _) as [t out]. simpl in *. destruct eps as [eps|]; case_decide; subst; simpl.
  - by rewrite lookup_insert, decide_True.
  - by rewrite lookup_insert_ne.
  - by rewrite lookup_delete, decide_True.
  - by rewrite lookup_delete_ne.
Qed.

(** C27: Over a whole watch, re-established or not, the events tell the truth about every address,
    judged by the updates that were delivered and nothing else: the last event about an address is
    Ready exactly when an endpoint of some slice that was delivered, not replaced since and not
    deleted since, lists the address and is ready. *)
Theorem watch_replays (evs : list (string * option (list Endpoint) * Time)) (ip : string) :
  last_says_ready ip (watch_slices evs).2 ↔ ∃ name eps, current evs name = Some eps ∧ serves eps ip.
Proof.
  pose proof (watch_slices_inv evs) as Hw. pose proof (watch_slices_current evs) as Hcur.
  destruct (watch_slices evs) as [t out]. simpl in *. destruct Hw as [Hinv Hip].
  rewrite <- Hip, Hinv, (proj2 (union_ready_spec _)). setoid_rewrite Hcur. split.
  - intros (name & m & (eps & Hc & ->)%fmap_Some & Hm). exists name, eps. by rewrite slice_ips_get in Hm.
  - intros (name & eps & Hc & Hs). exists name, (slice_ips eps). by rewrite Hc, slice_ips_get.
Qed.
End theorems.

#[local] Instance key_order : MapRange := {| range_keys := λ m, (map_to_list m).*1; range_perm := λ m, reflexivity _ |}.

Lemma tracker_reports_diff_witness :
  mkEvent Second "10.0.0.1" EndpointReady
  ∈ (apply_slice newEndpointTracker "web-abc" (Some [mkEndpoint ["10.0.0.1"] (Some true)]) Second).2.
Proof.
  pose proof (tracker_reports_diff newEndpointTracker "web-abc" (Some [mkEndpoint ["10.0.0.1"] (Some true)]) Second
    eq_refl) as Hd.
  rewrite (surjective_pairing (apply_slice _ _ _ _)) in Hd. destruct Hd as (_ & _ & _ & _ & Hd). apply Hd.
  split; [reflexivity|]. left. split_and!; vm_compute; reflexivity.
Defined.
