(* ===== verification/Report.v ===== *)
(** * The observer's report line (internal/observer/observer.go)

    The observer prints its [Report] as one marker-prefixed line of its container log, and the
    controller finds it there.  encoding/json is the interface [ReportJson]. *)

From Stdlib Require Import Ascii String.
From S2P Require Import Prelude GoFloat GoText Api.

Open Scope Z_scope.

Record Report := mkReport {
  rp_Diagnostics : list DiagnosticAlert;
  rp_ScaleUpDuration : option Duration;
  rp_SLAStatus : Verdict;
  rp_TrafficIntegrity : Verdict;
  rp_TotalRequests : Z;
  rp_FailedRequests : Z;
  rp_FailureRate : f64
}.

(** json.Marshal and json.Unmarshal at [Report]; Marshal fails on NaN and infinities. *)
Class ReportJson := {
  MarshalReport : Report → res string;
  UnmarshalReport : string → res Report
}.

(** What the code relies on: decoding inverts encoding, and the encoder, which writes no
    indentation, escapes control characters, so its output is one line, an object in braces. *)
Class ReportJsonLaws `{ReportJson} : Prop := {
  report_roundtrip : ∀ r s, MarshalReport r = Ok s → UnmarshalReport s = Ok r;
  report_object : ∀ r s, MarshalReport r = Ok s →
    ∃ body, s = "{" +:+ body +:+ "}" ∧ all_bytes (λ c, negb (Ascii.eqb c nl)) body = true
}.

Definition ReportLogPrefix : string := "SCALE_SENTRY_REPORT ".

Section lines.
Context `{ReportJson}.

Definition MarshalReportLine (r : Report) : res string :=
  match MarshalReport r with
  | Err e => Err (wrapf "marshal report" e)
  | Ok b => Ok (ReportLogPrefix +:+ b)
  end.

Fixpoint parse_report_lines (lines : list string) : res Report :=
  match lines with
  | [] => Err (errorf "no observer report line found in log")
  | line :: rest =>
      match CutPrefix (TrimSpace line) ReportLogPrefix with
      | None => parse_report_lines rest
      | Some rest =>
          match UnmarshalReport rest with
          | Err e => Err (wrapf "decode observer report" e)
          | Ok r => Ok r
          end
      end
  end.

Definition ParseReportLog (log : string) : res Report := parse_report_lines (Split log nl).
End lines.

(** ** The controller reads back what the observer printed *)

(** A log line that is not taken for the report. *)
Definition plain_line (l : string) : Prop :=
  all_bytes (λ c, negb (Ascii.eqb c nl)) l = true ∧ CutPrefix (TrimSpace l) ReportLogPrefix = None.

Definition unlines (ls : list string) (tail : string) : string :=
  foldr (λ l acc, l +:+ String nl acc) tail ls.

Lemma Split_unlines ls tail :
  Forall (λ l, all_bytes (λ c, negb (Ascii.eqb c nl)) l = true) ls →
  Split (unlines ls tail) nl = ls ++ Split tail nl.
Proof.
  induction 1 as [|l ls Hl _ IH]; [done|]. simpl. rewrite Split_app by done. by rewrite IH.
Qed.

Lemma TrimSpace_line body : TrimSpace (ReportLogPrefix +:+ "{" +:+ body +:+ "}")
  = ReportLogPrefix +:+ "{" +:+ body +:+ "}".
Proof.
  change ReportLogPrefix with (String "S"%char "CALE_SENTRY_REPORT ").
  change (String "S"%char "CALE_SENTRY_REPORT " +:+ "{" +:+ body +:+ "}")
    with (String "S"%char ("CALE_SENTRY_REPORT {" +:+ (body +:+ "}"))).
  rewrite <- append_assoc. by apply TrimSpace_app.
Qed.

Lemma report_log_found `{ReportJsonLaws} (r : Report) (line : string)
    (before after : list string) (tail : string) :
  MarshalReportLine r = Ok line → Forall plain_line before →
  ParseReportLog (unlines (before ++ line :: after) tail) = Ok r.
Proof.
  unfold MarshalReportLine. intros Hm Hb.
  destruct (MarshalReport r) as [b|] eqn:Hr; [|done]. injection Hm as <-.
  destruct (report_object r b Hr) as (body & -> & Hbody).
  assert (Hone : all_bytes (λ c, negb (Ascii.eqb c nl)) (ReportLogPrefix +:+ ("{" +:+ (body +:+ "}"))) = true)
    by (by rewrite !all_bytes_app, Hbody).
  pose proof (TrimSpace_line body) as Htrim.
  pose proof (CutPrefix_app ReportLogPrefix ("{" +:+ body +:+ "}")) as Hcut.
  revert Hone Htrim Hcut. generalize (ReportLogPrefix +:+ "{" +:+ body +:+ "}"). intros l Hone Htrim Hcut.
  unfold ParseReportLog, unlines. rewrite foldr_app. fold (unlines (l :: after) tail).
  fold (unlines before (unlines (l :: after) tail)).
  rewrite Split_unlines by (eapply Forall_impl; [exact Hb|by intros ? []]).
  change (unlines (l :: after) tail) with (l +:+ String nl (unlines after tail)).
  rewrite Split_app by done.
  induction Hb as [|l' before [_ Hl] _ IH]; cbn [app parse_report_lines].
  - rewrite Htrim, Hcut. by rewrite (report_roundtrip r).
  - by rewrite Hl.
Qed.

(** The controller reads back exactly the report the observer printed, whatever other lines its
    container wrote to the same log before or after, as long as none of them carries the marker. *)
Theorem report_line_roundtrip `{ReportJsonLaws} (r : Report) (line : string)
    (before after : list string) (tail : string) :
  MarshalReportLine r = Ok line → Forall plain_line before →
  ParseReportLog (unlines (before ++ line :: after) tail) = Ok r.
Proof. apply report_log_found. Qed.

(** A codec for one report, to evaluate the theorem with. *)
Definition sample_report : Report := mkReport [] (Some (12 * Second)) VerdictPass VerdictPass 500 1 (Fin 0).

#[export] Instance report_eq_dec : EqDecision Report.
Proof. solve_decision. Defined.

Definition codec_for (r0 : Report) : ReportJson := {|
  MarshalReport := λ r, if decide (r = r0) then Ok "{sample}" else Err (errorf "unsupported");
  UnmarshalReport := λ s, if decide (s = "{sample}") then Ok r0 else Err (errorf "unexpected")
|}.

#[export] Instance codec_for_laws r0 : @ReportJsonLaws (codec_for r0).
Proof.
  split; simpl; intros r s Hr; case_decide; simplify_eq.
  - by rewrite decide_True.
  - by exists "sample".
Qed.

Definition sample_codec : ReportJson := codec_for sample_report.

#[export] Instance sample_codec_laws : @ReportJsonLaws sample_codec := codec_for_laws sample_report.

Lemma report_line_roundtrip_witness :
  @ParseReportLog sample_codec
    (unlines ["observer: list HPAs: timeout"; "SCALE_SENTRY_REPORT {sample}"; "bye"] "") = Ok sample_report.
Proof.
  apply (@report_line_roundtrip sample_codec _ sample_report "SCALE_SENTRY_REPORT {sample}"
           ["observer: list HPAs: timeout"] ["bye"] "").
  - reflexivity.
  - repeat constructor.
Defined.
