(* ===== verification/LoadProfile.v ===== *)
(** * From a load profile to loadgen phases (internal/controller/loadprofile.go) *)

From S2P Require Import Prelude GoText Api LoadPhase.

Open Scope Z_scope.

Definition constant_phase (name : string) (d : Duration) (rps : Z) : LPhase :=
  mkPhase name PatternConstant d rps 0 0 0 true.

(** The loop of [decomposeSpike] from the i-th window on, [cursor] being the end of the last. *)
Fixpoint decompose_loop (baseRPS : Z) (total : Duration) (i : Z) (cursor : Duration)
    (spikes : list SpikeWindow) : res (list LPhase) :=
  match spikes with
  | [] =>
      let tail := (total ⊖ cursor)%go in
      Ok (if 0 <? tail then [constant_phase (MeasurePhaseName +:+ "-base-tail") tail baseRPS] else [])
  | sw :: rest =>
      let name := "spec.load.profile.spikes[" +:+ itoa i +:+ "]" in
      if sw_At sw <? cursor then
        Err (errorf (name +:+ ".at (" +:+ duration_string (sw_At sw) +:+ ") overlaps the previous spike"))
      else if total <? (sw_At sw ⊕ sw_Duration sw)%go then
        Err (errorf (name +:+ " extends past the measurement window (sla - warmup = "
                     +:+ duration_string total +:+ ")"))
      else if sw_RPS sw <=? int32 baseRPS then
        Err (errorf (name +:+ ".rps (" +:+ itoa (sw_RPS sw) +:+ ") must be > baseRps ("
                     +:+ itoa baseRPS +:+ ") to be a spike"))
      else
        let pre := (sw_At sw ⊖ cursor)%go in
        let base :=
          if 0 <? pre then [constant_phase (MeasurePhaseName +:+ "-base-" +:+ itoa i) pre baseRPS] else [] in
        let spike := constant_phase (MeasurePhaseName +:+ "-spike-" +:+ itoa i) (sw_Duration sw) (sw_RPS sw) in
        phases ← decompose_loop baseRPS total (i + 1) (sw_At sw ⊕ sw_Duration sw)%go rest;
        Ok (base ++ spike :: phases)
  end.

Definition decomposeSpike (baseRPS : Z) (total : Duration) (spikes : list SpikeWindow) : res (list LPhase) :=
  match spikes with
  | [] => Err (errorf "spec.load.profile.spikes required when pattern=Spike")
  | _ => decompose_loop baseRPS total 0 0 spikes
  end.

(** The measurement phases of a profile; a run without one is Constant. *)
Definition measure_phases (load : LoadConfig) (measureDuration : Duration) : res (list LPhase) :=
  let base := lc_BaseRPS load in
  let pattern := match lc_Profile load with Some p => lp_Pattern p | None => PatternConstant end in
  let single := mkPhase MeasurePhaseName pattern in
  if decide (pattern = PatternConstant ∨ pattern = PatternPoisson) then
    Ok [single measureDuration base 0 0 0 true]
  else
    match lc_Profile load with
    | None => Err (errorf "unreachable: the default pattern is Constant")
    | Some p =>
        if decide (pattern = PatternRamp) then
          match lp_EndRPS p with
          | None => Err (errorf "spec.load.profile.endRps required when pattern=Ramp")
          | Some endRPS =>
              let dur := match lp_RampDuration p with
                         | Some d => if 0 <? d then d else measureDuration
                         | None => measureDuration
                         end in
              Ok [single dur base endRPS 0 0 true]
          end
        else if decide (pattern = PatternStep) then
          match lp_StepRPS p, lp_StepDuration p with
          | Some rps, Some every => Ok [single measureDuration base 0 rps every true]
          | _, _ => Err (errorf "spec.load.profile.stepRps and stepDuration required when pattern=Step")
          end
        else if decide (pattern = "Spike") then decomposeSpike base measureDuration (lp_Spikes p)
        else Err (errorf ("unknown spec.load.profile.pattern " +:+ quote (lp_Pattern p)))
    end.

(** [None] is the nil slice: no phased run. *)
Definition buildPhases (cr : ScaleValidation) : res (option (list LPhase)) :=
  let load := sp_Load (sv_Spec cr) in
  if bool_decide (lc_Profile load = None) && (default 0 (lc_WarmupDuration load) =? 0) then Ok None
  else
    let sla := sp_SLA (sv_Spec cr) in
    if sla <=? 0 then Err (errorf "spec.sla must be > 0 for a phased run")
    else
      let warm := default 0 (lc_WarmupDuration load) in
      if warm <? 0 then
        Err (errorf ("spec.load.warmupDuration must be >= 0, got " +:+ duration_string warm))
      else if sla <=? warm then
        Err (errorf ("spec.load.warmupDuration (" +:+ duration_string warm +:+ ") must be < spec.sla ("
                     +:+ duration_string sla +:+ ") so a measurement window remains"))
      else
        let warmup :=
          if 0 <? warm
          then [mkPhase WarmupPhaseName PatternConstant warm (lc_BaseRPS load) 0 0 0 false] else [] in
        phases ← measure_phases load (sla ⊖ warm)%go;
        Ok (Some (warmup ++ phases)).

(** [phasesJSON], for the JSON encoder [marshal] of a phase list. *)
Definition phasesJSON (marshal : list LPhase → res string) (phases : list LPhase) : res string :=
  match marshal phases with
  | Err e => Err (wrapf "marshal phases" e)
  | Ok b => Ok b
  end.

(** ** Spike decomposition *)

(** The rate offered at offset [t] of a phase list. *)
Fixpoint rate_at (phases : list LPhase) (t : Duration) : option Z :=
  match phases with
  | [] => None
  | p :: r => if t <? ph_Duration p then Some (ph_StartRPS p) else rate_at r (t - ph_Duration p)
  end.

(** The rate the spec asks for at offset [t] of the measurement window. *)
Fixpoint spike_rate (base : Z) (spikes : list SpikeWindow) (t : Duration) : Z :=
  match spikes with
  | [] => base
  | sw :: r =>
      if (sw_At sw <=? t) && (t <? sw_At sw + sw_Duration sw) then sw_RPS sw else spike_rate base r t
  end.

(** The windows are in order, do not overlap, end inside the measurement window and rise above
    the base rate. *)
Fixpoint windows_fit (base : Z) (total cursor : Duration) (spikes : list SpikeWindow) : Prop :=
  match spikes with
  | [] => True
  | sw :: r =>
      cursor <= sw_At sw ∧ sw_At sw + sw_Duration sw <= total ∧ base < sw_RPS sw ∧
      windows_fit base total (sw_At sw + sw_Duration sw) r
  end.

(** A window whose end is a representable duration. *)
Definition end_fits (sw : SpikeWindow) : Prop := in_int64 (sw_At sw + sw_Duration sw).

Definition total_duration (phases : list LPhase) : Z := foldr (λ p n, ph_Duration p + n) 0 phases.

Lemma total_duration_app l k : total_duration (l ++ k) = total_duration l + total_duration k.
Proof. induction l as [|p l IH]; simpl; [done|]. rewrite IH. lia. Qed.

Lemma rate_at_app l k t : Forall (λ p, 0 < ph_Duration p) l → 0 <= t →
  rate_at (l ++ k) t = if t <? total_duration l then rate_at l t else rate_at k (t - total_duration l).
Proof.
  intros Hl. revert t. induction Hl as [|p l Hp Hl IH]; intros t Ht; simpl.
  - destruct (Z.ltb_spec t 0); [lia|]. f_equal. lia.
  - assert (0 <= total_duration l) by (clear -Hl; induction Hl; simpl; lia).
    destruct (Z.ltb_spec t (ph_Duration p)), (Z.ltb_spec t (ph_Duration p + total_duration l)); try lia; [done|..];
      rewrite IH by lia;
      destruct (Z.ltb_spec (t - ph_Duration p) (total_duration l)); try lia; [done|]. f_equal. lia.
Qed.

Lemma spike_rate_before base spikes total cursor t :
  windows_fit base total cursor spikes → Forall (λ sw, 0 <= sw_Duration sw) spikes → t < cursor →
  spike_rate base spikes t = base.
Proof.
  intros Hfit Hs. revert cursor Hfit. induction Hs as [|sw r Hd Hr IH]; intros cursor Hfit Ht; simpl; [done|].
  destruct Hfit as (Hat & _ & _ & Hfit).
  destruct (Z.leb_spec (sw_At sw) t); [lia|]. simpl. eapply IH; [exact Hfit|lia].
Qed.

(** What the list of phases from [cursor] on must offer. *)
Definition offers (base : Z) (total cursor : Duration) (spikes : list SpikeWindow) (phases : list LPhase) : Prop :=
  total_duration phases = total - cursor ∧
  ∀ t, cursor <= t < total → rate_at phases (t - cursor) = Some (spike_rate base spikes t).

Lemma valid_constant name d rps : name ≠ "" → 0 < rps → valid_phase (constant_phase name d rps) ↔ 0 < d.
Proof. unfold valid_phase, constant_phase. simpl. naive_solver. Qed.

(** A stretch at the base rate, left out when it is empty. *)
Definition base_stretch (name : string) (d : Duration) (rps : Z) : list LPhase :=
  if 0 <? d then [constant_phase name d rps] else [].

Lemma base_stretch_valid name d rps : name ≠ "" → 0 < rps → Forall valid_phase (base_stretch name d rps).
Proof. intros. unfold base_stretch. destruct (Z.ltb_spec 0 d); [|done]. apply Forall_singleton. by apply valid_constant. Qed.

Lemma base_stretch_positive name d rps : Forall (λ p, 0 < ph_Duration p) (base_stretch name d rps).
Proof. unfold base_stretch. destruct (Z.ltb_spec 0 d); by repeat constructor. Qed.

Lemma base_stretch_total name d rps : 0 <= d → total_duration (base_stretch name d rps) = d.
Proof. unfold base_stretch. destruct (Z.ltb_spec 0 d); simpl; lia. Qed.

Lemma base_stretch_rate name d rps t : 0 <= t < d → rate_at (base_stretch name d rps) t = Some rps.
Proof. intros. unfold base_stretch. rewrite (proj2 (Z.ltb_lt 0 d)) by lia. simpl. by rewrite (proj2 (Z.ltb_lt t d)) by lia. Qed.

(** The loop, in terms of stretches. *)
Lemma decompose_loop_cons base total i cursor sw spikes phases : in_int32 base →
  end_fits sw →
  decompose_loop base total i cursor (sw :: spikes) = Ok phases ↔
  cursor <= sw_At sw ∧ sw_At sw + sw_Duration sw <= total ∧ base < sw_RPS sw ∧
  ∃ rest, decompose_loop base total (i + 1) (sw_At sw + sw_Duration sw) spikes = Ok rest ∧
    phases = base_stretch (MeasurePhaseName +:+ "-base-" +:+ itoa i) (sw_At sw ⊖ cursor)%go base ++
             constant_phase (MeasurePhaseName +:+ "-spike-" +:+ itoa i) (sw_Duration sw) (sw_RPS sw) :: rest.
Proof.
  intros Hb Hend. simpl. rewrite (int64_id (_ + _)), (int32_id base) by done.
  destruct (Z.ltb_spec (sw_At sw) cursor); [split; [done|lia]|].
  destruct (Z.ltb_spec total (sw_At sw + sw_Duration sw)); [split; [done|lia]|].
  destruct (Z.leb_spec (sw_RPS sw) base); [split; [done|lia]|].
  destruct (decompose_loop _ _ _ _ spikes) as [rest|]; simpl; [|split; [done|naive_solver]]. split.
  - intros [= <-]. split_and!; [done..|]. by exists rest.
  - by intros (_ & _ & _ & ? & [= <-] & ->).
Qed.

(** Which windows are accepted. *)
Lemma decompose_loop_accepts base total i cursor spikes : in_int32 base → Forall end_fits spikes →
  windows_fit base total cursor spikes ↔ ∃ phases, decompose_loop base total i cursor spikes = Ok phases.
Proof.
  intros Hb Hs. revert i cursor. induction Hs as [|sw spikes Hsw _ IH]; intros i cursor; [split; [by eexists|done]|].
  setoid_rewrite decompose_loop_cons; [|done..]. cbn [windows_fit]. rewrite (IH (i + 1)). naive_solver.
Qed.

(** Every phase is valid when, and only when, the windows have a length. *)
Lemma decompose_loop_valid base total i cursor spikes phases : 0 < base < 2 ^ 31 → Forall end_fits spikes →
  decompose_loop base total i cursor spikes = Ok phases →
  Forall valid_phase phases ↔ Forall (λ sw, 0 < sw_Duration sw) spikes.
Proof.
  intros Hb Hs. revert i cursor phases. induction Hs as [|sw spikes Hsw _ IH]; intros i cursor phases.
  { intros [= <-]. rewrite !Forall_nil. split; [done|]. intros _. apply base_stretch_valid; [done|lia]. }
  rewrite decompose_loop_cons by solve_range || done. intros (_ & _ & Hrps & rest & Hrest & ->).
  rewrite Forall_app, !Forall_cons, (IH _ _ _ Hrest), valid_constant by (done || lia).
  assert (Forall valid_phase (base_stretch (MeasurePhaseName +:+ "-base-" +:+ itoa i) (sw_At sw ⊖ cursor)%go base))
    by (apply base_stretch_valid; [done|lia]).
  tauto.
Qed.

(** One window: an optional base phase up to it, the spike, then the rest. *)
Lemma offers_window base total name name' cursor sw spikes phases :
  cursor <= sw_At sw → 0 <= sw_Duration sw → Forall (λ sw, 0 <= sw_Duration sw) spikes →
  windows_fit base total (sw_At sw + sw_Duration sw) spikes →
  offers base total (sw_At sw + sw_Duration sw) spikes phases →
  offers base total cursor (sw :: spikes)
    (base_stretch name (sw_At sw - cursor) base ++ constant_phase name' (sw_Duration sw) (sw_RPS sw) :: phases).
Proof.
  intros Hc Hd Hss Hfit (Hsum & Hrate). split.
  - rewrite total_duration_app, base_stretch_total by lia. simpl. lia.
  - intros t Htt. rewrite rate_at_app by (apply base_stretch_positive || lia).
    rewrite base_stretch_total by lia. simpl.
    destruct (Z.ltb_spec (t - cursor) (sw_At sw - cursor)).
    { rewrite base_stretch_rate by lia. destruct (Z.leb_spec (sw_At sw) t); [lia|]. simpl.
      by erewrite spike_rate_before; [|exact Hfit|done|lia]. }
    destruct (Z.ltb_spec (t - cursor - (sw_At sw - cursor)) (sw_Duration sw)),
      (Z.leb_spec (sw_At sw) t), (Z.ltb_spec t (sw_At sw + sw_Duration sw)); try lia; [done|].
    simpl. rewrite <- Hrate by lia. f_equal. lia.
Qed.

(** The phases fill what is left, at the rates the windows give. *)
Lemma decompose_loop_offers base total i cursor spikes phases :
  in_int32 base → 0 <= cursor <= total → total <= maxDuration → Forall end_fits spikes →
  Forall (λ sw, 0 <= sw_Duration sw) spikes →
  decompose_loop base total i cursor spikes = Ok phases → offers base total cursor spikes phases.
Proof.
  intros Hb Hc Ht Hs. revert i cursor phases Hc. induction Hs as [|sw spikes Hsw Hs IH]; intros i cursor phases Hc Hpos.
  { simpl. rewrite int64_id by solve_range. intros [= <-]. split.
    - by apply (base_stretch_total _ _ base); lia.
    - intros t Htt. by apply (base_stretch_rate _ _ base); lia. }
  apply Forall_cons in Hpos as [Hd Hpos]. rewrite decompose_loop_cons by done.
  intros (Hat & Hend & _ & rest & Hrest & ->). unfold end_fits in Hsw.
  rewrite int64_id by solve_range. apply offers_window; [done..| |].
  - by apply (decompose_loop_accepts base total (i + 1)); [..|exists rest].
  - apply (IH (i + 1)); [lia|done..].
Qed.

(** C31: For a positive base rate and windows whose ends are representable durations, a spike profile
    is accepted exactly when its windows are in order, disjoint, inside the measurement window and
    above the base rate.  The phases built for it then last exactly as long as the measurement
    window and offer at every instant the rate the spec gives for it, provided no window has a
    negative length; and they are all valid exactly when every window has a positive one, a
    window without a length being accepted too. *)
Theorem spike_decomposition (base : Z) (total : Duration) (spikes : list SpikeWindow) :
  0 < base < 2 ^ 31 → 0 < total <= maxDuration → Forall end_fits spikes →
  match decomposeSpike base total spikes with
  | Ok phases =>
      spikes ≠ [] ∧ windows_fit base total 0 spikes ∧
      (Forall valid_phase phases ↔ Forall (λ sw, 0 < sw_Duration sw) spikes) ∧
      (Forall (λ sw, 0 <= sw_Duration sw) spikes →
       total_duration phases = total ∧
       ∀ t, 0 <= t < total → rate_at phases t = Some (spike_rate base spikes t))
  | Err _ => spikes = [] ∨ ~ windows_fit base total 0 spikes
  end.
Proof.
  intros Hb Ht Hs. assert (in_int32 base) as Hb' by solve_range.
  unfold decomposeSpike. destruct spikes as [|sw spikes]; [by left|].
  pose proof (decompose_loop_accepts base total 0 0 (sw :: spikes) Hb' Hs) as Hacc.
  destruct (decompose_loop _ _ _ _ _) as [phases|] eqn:Hdec.
  - split_and!; [done|apply Hacc; by exists phases|by eapply decompose_loop_valid|]. intros Hpos.
    destruct (decompose_loop_offers base total 0 0 (sw :: spikes) phases) as [Hsum Hrate]; [done || lia..|].
    split; [lia|]. intros t Htt. rewrite <- Hrate by lia. f_equal. lia.
  - right. rewrite Hacc. by intros [? ?].
Qed.

Lemma spike_decomposition_witness :
  rate_at [constant_phase "Measure-base-0" (2 * Second) 10; constant_phase "Measure-spike-0" Second 50;
           constant_phase "Measure-base-tail" (7 * Second) 10] (2500 * Millisecond) = Some 50.
Proof.
  pose proof (spike_decomposition 10 (10 * Second) [mkSpike (2 * Second) Second 50]
    ltac:(lia) ltac:(unfold maxDuration, Second, Millisecond, Microsecond; lia)
    ltac:(constructor; [vm_compute; intuition congruence|constructor])) as H.
  vm_compute decomposeSpike in H. destruct H as (_ & _ & _ & H).
  apply (H ltac:(constructor; [vm_compute; congruence|constructor])).
  unfold Second, Millisecond, Microsecond. lia.
Defined.

(** A window without a length is accepted, and its phase is one that the load generator refuses. *)
Lemma zero_spike_accepted :
  ∃ phases p, decomposeSpike 10 (10 * Second) [mkSpike Second 0 50] = Ok phases ∧
    p ∈ phases ∧ is_ok (LoadPhase.Validate p) = false.
Proof.
  eexists _, (constant_phase "Measure-spike-0" 0 50). split; [reflexivity|]. split; [|reflexivity].
  right. left.
Qed.

(** The end of a window is compared after it wraps around: a window that runs far past the
    measurement window is accepted when its end overflows. *)
Lemma spike_overflow_accepted :
  is_ok (decomposeSpike 10 (10 * Second) [mkSpike Second maxDuration 50]) = true.
Proof. reflexivity. Qed.

(** ** The phased run as a whole *)

(** A profile whose phases fill the measurement window: no ramp duration of its own, and spikes
    whose ends are representable durations. *)
Definition profile_fills (p : LoadProfile) : Prop :=
  Forall end_fits (lp_Spikes p) ∧ (∀ d, lp_RampDuration p = Some d → d <= 0).

(** Phases that are all measured and last [d]. *)
Definition measures (d : Duration) (phases : list LPhase) : Prop :=
  Forall (λ p, ph_RecordStats p = true) phases ∧ total_duration phases = d.

Lemma decompose_loop_recorded base total i cursor spikes phases :
  decompose_loop base total i cursor spikes = Ok phases → Forall (λ p, ph_RecordStats p = true) phases.
Proof.
  revert i cursor phases. induction spikes as [|sw spikes IH]; intros i cursor phases; simpl.
  - intros [= <-]. case_match; repeat constructor.
  - repeat case_match; try done; destruct (decompose_loop _ _ _ _ spikes) as [rest|] eqn:Hr; try done;
      intros [= <-]; simpl; repeat constructor; by eapply IH.
Qed.

(** The lengths of the spikes are lengths of phases. *)
Lemma decompose_loop_lengths base total i cursor spikes phases :
  decompose_loop base total i cursor spikes = Ok phases → Forall valid_phase phases →
  Forall (λ sw, 0 <= sw_Duration sw) spikes.
Proof.
  revert i cursor phases. induction spikes as [|sw spikes IH]; intros i cursor phases; simpl; [done|].
  repeat case_match; try done; destruct (decompose_loop _ _ _ _ spikes) as [rest|] eqn:Hr; try done;
    intros [= <-]; simpl; rewrite ?Forall_cons; intros Hv;
    (constructor; [|eapply IH; [exact Hr|tauto]]); unfold valid_phase in Hv; simpl in Hv; lia.
Qed.

Lemma measure_phases_measures load d phases :
  measure_phases load d = Ok phases → in_int32 (lc_BaseRPS load) → 0 < d <= maxDuration →
  (∀ p, lc_Profile load = Some p → profile_fills p) → Forall valid_phase phases → measures d phases.
Proof.
  unfold measure_phases. intros Hm Hb Hd Hp Hv.
  set (pattern := match lc_Profile load with Some p => lp_Pattern p | None => PatternConstant end) in *.
  assert (Hsingle : ∀ b e r s, Ok [mkPhase MeasurePhaseName pattern d b e r s true] = Ok phases → measures d phases).
  { intros b e r s [= <-]. split; [by apply Forall_singleton|]. simpl. lia. }
  case_decide as Hcp; [by eapply Hsingle|].
  destruct (lc_Profile load) as [p|]; [|done]. destruct (Hp p eq_refl) as (Hs & Hrd).
  case_decide as Hramp.
  { destruct (lp_EndRPS p) as [e|]; [|done].
    assert (match lp_RampDuration p with Some d' => if 0 <? d' then d' else d | None => d end = d) as Hdur.
    { destruct (lp_RampDuration p) as [d'|]; [|done]. specialize (Hrd d' eq_refl).
      by destruct (Z.ltb_spec 0 d'); [lia|]. }
    rewrite Hdur in Hm. by eapply Hsingle. }
  case_decide as Hstep.
  { destruct (lp_StepRPS p), (lp_StepDuration p); try done. by eapply Hsingle. }
  case_decide; [|done]. unfold decomposeSpike in Hm. destruct (lp_Spikes p) as [|sw spikes] eqn:Hsp; [done|].
  split; [by eapply decompose_loop_recorded|].
  destruct (decompose_loop_offers (lc_BaseRPS load) d 0 0 (sw :: spikes) phases) as [Hsum _]; try done; try lia.
  by eapply decompose_loop_lengths.
Qed.

(** A run has phases. *)
Lemma buildPhases_nonempty cr phases : buildPhases cr = Ok (Some phases) → phases ≠ [].
Proof.
  unfold buildPhases. repeat (case_match; [done|]). destruct (measure_phases _ _) as [ms|] eqn:Hms; [|done].
  intros [= <-] [_ ->]%app_eq_nil. revert Hms. unfold measure_phases, decomposeSpike.
  case_decide; [done|]. case_match; [|done]. repeat (case_match; try done).
  simpl. repeat (case_match; try done); destruct (decompose_loop _ _ _ _ _); try done; by destruct (_ ++ _) eqn:Hnil.
Qed.

Lemma buildPhases_fill (cr : ScaleValidation) (phases : list LPhase) :
  buildPhases cr = Ok (Some phases) →
  in_int32 (lc_BaseRPS (sp_Load (sv_Spec cr))) → sp_SLA (sv_Spec cr) <= maxDuration →
  (∀ p, lc_Profile (sp_Load (sv_Spec cr)) = Some p → profile_fills p) →
  Forall valid_phase phases →
  total_duration phases = sp_SLA (sv_Spec cr) ∧
  total_duration (filter (λ p, ph_RecordStats p = true) phases)
    = sp_SLA (sv_Spec cr) - default 0 (lc_WarmupDuration (sp_Load (sv_Spec cr))).
Proof.
  unfold buildPhases. intros Hm Hb Hmax Hp Hv. case_match; [done|].
  destruct (Z.leb_spec (sp_SLA (sv_Spec cr)) 0); [done|].
  set (warm := default 0 (lc_WarmupDuration (sp_Load (sv_Spec cr)))) in *.
  destruct (Z.ltb_spec warm 0); [done|]. destruct (Z.leb_spec (sp_SLA (sv_Spec cr)) warm); [done|].
  unfold maxDuration in *. rewrite int64_id in Hm by solve_range.
  destruct (measure_phases _ _) as [ms|] eqn:Hms; [|done]. injection Hm as <-. apply Forall_app in Hv as [_ Hv].
  apply measure_phases_measures in Hms as (Hr & Hsum); [|done|unfold maxDuration; lia|done..].
  rewrite total_duration_app, filter_app, total_duration_app.
  assert (Hall : filter (λ p, ph_RecordStats p = true) ms = ms).
  { clear -Hr. induction Hr as [|p ms Hp _ IH]; [done|]. rewrite filter_cons_True by done. by rewrite IH. }
  rewrite Hall. destruct (Z.ltb_spec 0 warm); simpl; lia.
Qed.

Lemma decompose_loop_plain base total i cursor spikes phases : 0 <= i →
  decompose_loop base total i cursor spikes = Ok phases → Forall plain_phase phases.
Proof.
  assert (Hplain : ∀ name d rps, plain_text name → plain_phase (constant_phase name d rps)) by done.
  revert i cursor phases. induction spikes as [|sw spikes IH]; intros i cursor phases Hi; simpl.
  - intros [= <-]. case_match; repeat constructor.
  - repeat case_match; try done; destruct (decompose_loop _ _ _ _ spikes) as [rest|] eqn:Hr; try done;
      intros [= <-]; simpl; repeat constructor; try (apply plain_app; [done|]); try (by apply plain_itoa);
      (eapply IH; [|exact Hr]); lia.
Qed.

(** The phases of a run are ASCII, whatever the CR. *)
Lemma buildPhases_plain cr phases : buildPhases cr = Ok (Some phases) → Forall plain_phase phases.
Proof.
  unfold buildPhases. case_match; [done|]. case_match; [done|]. case_match; [done|]. case_match; [done|].
  destruct (measure_phases _ _) as [ms|] eqn:Hms; [|done]. intros [= <-]. apply Forall_app. split.
  { case_match; repeat constructor. }
  unfold measure_phases in Hms.
  set (pattern := match lc_Profile _ with Some p => lp_Pattern p | None => PatternConstant end) in *.
  assert (Hsingle : ∀ d b e r s rec, pattern ∈ [PatternConstant; PatternPoisson; PatternRamp; PatternStep] →
    plain_phase (mkPhase MeasurePhaseName pattern d b e r s rec)).
  { intros d b e r s rec Hin. split; [done|]. cbn [ph_Pattern].
    set_unfold in Hin. destruct Hin as [->|[->|[->|[->|[]]]]]; done. }
  case_decide as Hcp; [simplify_eq; apply Forall_singleton, Hsingle; set_solver|].
  destruct (lc_Profile _) as [p|]; [|done].
  case_decide; [destruct (lp_EndRPS p); [|done]; simplify_eq; apply Forall_singleton, Hsingle; set_solver|].
  case_decide; [destruct (lp_StepRPS p), (lp_StepDuration p); try done; simplify_eq;
                apply Forall_singleton, Hsingle; set_solver|].
  case_decide; [|done]. unfold decomposeSpike in Hms. destruct (lp_Spikes p); [done|].
  by eapply decompose_loop_plain.
Qed.

(** Valid phases of a run, without a ramp duration of their own and without overflow, fill the SLA
    window exactly, and the measured ones fill what the warmup leaves of it. *)
Theorem phases_fill_sla (cr : ScaleValidation) (phases : list LPhase) :
  buildPhases cr = Ok (Some phases) →
  in_int32 (lc_BaseRPS (sp_Load (sv_Spec cr))) → sp_SLA (sv_Spec cr) <= maxDuration →
  (∀ p, lc_Profile (sp_Load (sv_Spec cr)) = Some p → profile_fills p) →
  Forall valid_phase phases →
  total_duration phases = sp_SLA (sv_Spec cr) ∧
  total_duration (filter (λ p, ph_RecordStats p = true) phases)
    = sp_SLA (sv_Spec cr) - default 0 (lc_WarmupDuration (sp_Load (sv_Spec cr))).
Proof. apply buildPhases_fill. Qed.

Definition example_cr : ScaleValidation :=
  mkSV (new_meta "web" "prod" ∅)
    (mkSpec (mkRef "apps/v1" "Deployment" "web") (10 * Second)
       (mkTarget "ServiceDefault" "" 8080 "ClusterIP" "" "" None None)
       (mkLoad 10 0 0 (Some (3 * Second)) None) None "" false)
    (mkStatus "" None "" "" 0 0 0 [] None [] None 0 []).

Lemma phases_fill_sla_witness :
  total_duration [mkPhase "Warmup" "Constant" (3 * Second) 10 0 0 0 false;
                  mkPhase "Measure" "Constant" (7 * Second) 10 0 0 0 true] = 10 * Second.
Proof.
  apply (phases_fill_sla example_cr); [reflexivity|simpl; solve_range|vm_compute; congruence|done|].
  repeat constructor; try done; by left.
Defined.
