(* ===== verification/Status.v ===== *)
(** * Status bookkeeping of a run

    The pure functions that prepare a ScaleValidation's status: conditions.go, the report,
    history and verdict helpers of scalevalidation_controller.go, the reset and schedule helpers
    of schedule.go (all internal/controller) and metrics.VerdictFromStatus. *)

From S2P Require Import Prelude GoFloat GoText Api K8s Report.

Open Scope Z_scope.

Definition ConditionFinished : string := "Finished".
Definition ConditionDisruptionInjected : string := "DisruptionInjected".
Definition ConditionTrue : string := "True".
Definition ConditionFalse : string := "False".

Definition FinishedReasonSucceeded : string := "Succeeded".
Definition FinishedReasonVerdictFailed : string := "VerdictFailed".
Definition FinishedReasonTargetNotReady : string := "TargetNotReady".
Definition FinishedReasonTargetUnsupported : string := "TargetUnsupported".
Definition FinishedReasonTLSCABundleMissing : string := "TLSCABundleMissing".
Definition FinishedReasonLoadgenJobFailed : string := "LoadgenJobFailed".
Definition FinishedReasonLoadgenJobVanished : string := "LoadgenJobVanished".
Definition FinishedReasonObserverReportUnreadable : string := "ObserverReportUnreadable".
Definition FinishedReasonTargetURLUnresolved : string := "TargetURLUnresolved".
Definition FinishedReasonJobBuildFailed : string := "JobBuildFailed".
Definition FinishedReasonScheduleInvalid : string := "ScheduleInvalid".
Definition FinishedReasonRescheduled : string := "Rescheduled".

(** Prometheus label values of internal/metrics. *)
Definition MetricVerdictPass : string := "pass".
Definition MetricVerdictWarn : string := "warn".
Definition MetricVerdictFail : string := "fail".
Definition MetricVerdictUnknown : string := "unknown".

Definition VerdictFromStatus (slaStatus trafficIntegrity : string) : string :=
  if decide (slaStatus = "Fail" ∨ trafficIntegrity = "Fail") then MetricVerdictFail
  else if decide (slaStatus = "Pass" ∧ trafficIntegrity = "Pass") then MetricVerdictPass
  else if decide (slaStatus = "" ∧ trafficIntegrity = "") then MetricVerdictUnknown
  else MetricVerdictWarn.

(** The phase, reason and message of a measured run. *)
Definition finishedVerdict (slaStatus trafficIntegrity : Verdict) (totalRequests failedRequests : Z)
    : Phase * string * string :=
  let summary := "SLA=" +:+ slaStatus +:+ " traffic=" +:+ trafficIntegrity +:+ " requests="
                 +:+ itoa totalRequests +:+ " failed=" +:+ itoa failedRequests in
  if decide (slaStatus = VerdictFail ∨ trafficIntegrity = VerdictFail)
  then (PhaseFailed, FinishedReasonVerdictFailed, summary)
  else (PhaseSucceeded, FinishedReasonSucceeded, summary).

(** A severity missing from the rank map reads as zero. *)
Definition severity_rank (s : Severity) : Z :=
  if decide (s = SeverityCritical) then 3
  else if decide (s = SeverityWarning) then 2
  else if decide (s = SeverityInfo) then 1
  else 0.

Definition top_alert (best : DiagnosticAlert) (diags : list DiagnosticAlert) : DiagnosticAlert :=
  fold_left (λ best d, if severity_rank (da_Severity best) <? severity_rank (da_Severity d) then d else best)
    diags best.

Definition topDiagnostic (diags : list DiagnosticAlert) : string :=
  match diags with
  | [] => "<none>"
  | d :: rest =>
      let best := top_alert d rest in da_Type best +:+ " (" +:+ da_Severity best +:+ ")"
  end.

(** The platform's conversion of an out-of-range float to [int32]. *)
Class Platform := { float_to_int32 : f64 → Z }.

Definition MaxInt32 : Z := 2 ^ 31 - 1.

Definition failureRateBasisPoints `{Platform} (rate : f64) : Z :=
  if f64_le rate (f64_of_int 0) then 0
  else
    let bp := f64_math_round (f64_mul rate (f64_of_int FailureRateScale)) in
    if f64_lt (f64_of_int MaxInt32) bp then MaxInt32
    else match f64_trunc bp with
         | Some z => if (- 2 ^ 31 <=? z) && (z <? 2 ^ 31) then z else float_to_int32 bp
         | None => float_to_int32 bp
         end.

#[global] Arguments failureRateBasisPoints {_} _ : simpl never.

Definition applyReport `{Platform} (report : Report) (cr : ScaleValidation) : ScaleValidation :=
  on_Status (λ s,
    set_Results (rp_ScaleUpDuration report) (rp_SLAStatus report) (rp_TrafficIntegrity report)
      (rp_TotalRequests report) (rp_FailedRequests report)
      (failureRateBasisPoints (rp_FailureRate report))
      (set_Diagnostics (rp_Diagnostics report) s)) cr.

(** The entry and the trim of [appendRunHistory] at the instant [now]. *)
Definition run_summary (now : Time) (s : ScaleValidationStatus) : RunSummary :=
  mkRun now (st_Phase s) (st_SLAStatus s) (st_TrafficIntegrity s) (st_FailureRateBasisPoints s).

Definition appendRunHistory (now : Time) (cr : ScaleValidation) : ScaleValidation :=
  on_Status (λ s,
    let history := run_summary now s :: st_History s in
    set_History (if (RunHistoryLimit <? length history)%nat then take RunHistoryLimit history else history) s) cr.

Section conditions.
Context `{K8sLib}.

Definition markFinished (reason message : string) (cr : ScaleValidation) : ScaleValidation :=
  on_Status (λ s,
    let s := set_ObservedGeneration (sv_Generation cr) s in
    set_Conditions
      (SetStatusCondition
         (mkCondition ConditionFinished ConditionTrue (sv_Generation cr) reason message)
         (st_Conditions s)) s) cr.

(** An empty schedule compiles to nil. *)
Definition parseSchedule (cr : ScaleValidation) : res (option CronSchedule) :=
  if decide (sp_Schedule (sv_Spec cr) = "") then Ok None
  else
    match ParseCron (sp_Schedule (sv_Spec cr)) with
    | Err e => Err (wrapf ("parse schedule " +:+ quote (sp_Schedule (sv_Spec cr))) e)
    | Ok sched => Ok (Some sched)
    end.

Definition lastRunAnchor (cr : ScaleValidation) : Time :=
  match st_LastRunTime (sv_Status cr) with
  | Some t => t
  | None => om_CreationTimestamp (sv_Meta cr)
  end.

Definition resetForNextRun (cr : ScaleValidation) : ScaleValidation :=
  on_Status (λ s,
    let s := set_Results None "" "" 0 0 0 (set_Diagnostics [] s) in
    let s := set_NextRunTime None s in
    let s := set_Conditions (RemoveStatusCondition ConditionDisruptionInjected (st_Conditions s)) s in
    set_Conditions
      (SetStatusCondition
         (mkCondition ConditionFinished ConditionFalse (sv_Generation cr) FinishedReasonRescheduled
            ("a new run started on schedule " +:+ quote (sp_Schedule (sv_Spec cr))))
         (st_Conditions s)) s) cr.
End conditions.

(** ** Lemmas *)

Lemma append_history now cr :
  st_History (sv_Status (appendRunHistory now cr))
  = take RunHistoryLimit (run_summary now (sv_Status cr) :: st_History (sv_Status cr)).
Proof.
  unfold appendRunHistory, on_Status, set_Status. cbn [sv_Status st_History set_History].
  case_match; [done|]. rewrite take_ge; [done|]. by apply Nat.ltb_ge.
Qed.
