(* ===== verification/Lifecycle.v ===== *)
(** * The lifecycle contract of a ScaleValidation

    An abstract state machine over the stored object: which status updates the controller may
    make, given the object it read.  Controller.v is proved to make no others; here the machine
    itself, interleaved with edits and deletion by users, is shown to keep the promises the API
    documents (conditions.go): a watcher blocking on Finished=True sees it exactly while the
    object shows a terminal phase. *)

From S2P Require Import Prelude Api K8s Status.

Open Scope Z_scope.

Definition terminal (p : Phase) : Prop := p = PhaseSucceeded ∨ p = PhaseFailed ∨ p = PhaseError.

Definition active (p : Phase) : Prop := p ≠ "" ∧ ~ terminal p.

Definition live (cr : ScaleValidation) : Prop := om_DeletionTimestamp (sv_Meta cr) = None.

#[export] Instance terminal_dec p : Decision (terminal p).
Proof. unfold terminal. apply _. Defined.

#[export] Instance active_dec p : Decision (active p).
Proof. unfold active. apply _. Defined.

#[export] Instance live_dec cr : Decision (live cr).
Proof. unfold live. apply _. Defined.

Section lifecycle.
Context `{K8sLib}.

Definition finished (cr : ScaleValidation) : option Condition :=
  FindStatusCondition (sv_Conditions cr) ConditionFinished.

Definition disruption (cr : ScaleValidation) : option Condition :=
  FindStatusCondition (sv_Conditions cr) ConditionDisruptionInjected.

(** The outcome is published together with the generation it belongs to. *)
Definition ended (cr : ScaleValidation) : Prop :=
  st_ObservedGeneration (sv_Status cr) = sv_Generation cr ∧
  ∃ c, finished cr = Some c ∧ cd_Status c = ConditionTrue ∧ cd_ObservedGeneration c = sv_Generation cr.

Definition is_finished (cr : ScaleValidation) : Prop :=
  ∃ c, finished cr = Some c ∧ cd_Status c = ConditionTrue.

(** The run-scoped fields are those of a fresh object. *)
Definition results_clear (s : ScaleValidationStatus) : Prop :=
  st_ScaleUpDuration s = None ∧ st_SLAStatus s = "" ∧ st_TrafficIntegrity s = "" ∧
  st_TotalRequests s = 0 ∧ st_FailedRequests s = 0 ∧ st_FailureRateBasisPoints s = 0 ∧
  st_Diagnostics s = [] ∧ st_NextRunTime s = None.

Definition same_history (old new : ScaleValidation) : Prop :=
  st_History (sv_Status new) = st_History (sv_Status old).

Inductive transition (old new : ScaleValidation) : Prop :=
| t_begin :
    live old → sv_Phase old = "" →
    sv_Status new = set_Phase PhasePending (sv_Status old) →
    transition old new
| t_spawn t :
    live old → active (sv_Phase old) → sv_Phase old ≠ PhaseRunning →
    sv_Status new = set_Phase PhaseRunning (set_LastRunTime (Some t) (sv_Status old)) →
    transition old new
| t_error :
    live old →
    (active (sv_Phase old) ∨ sv_Phase old = "" ∨
     (terminal (sv_Phase old) ∧ sp_Suspend (sv_Spec old) = false ∧
      sv_Generation old ≠ st_ObservedGeneration (sv_Status old))) →
    sv_Phase new = PhaseError → ended new → same_history old new → disruption new = disruption old →
    transition old new
| t_verdict now :
    live old → active (sv_Phase old) →
    sv_Phase new = (if decide (st_SLAStatus (sv_Status new) = VerdictFail ∨
                               st_TrafficIntegrity (sv_Status new) = VerdictFail)
                    then PhaseFailed else PhaseSucceeded) →
    ended new → disruption new = disruption old →
    st_History (sv_Status new)
      = take RunHistoryLimit (run_summary now (sv_Status new) :: st_History (sv_Status old)) →
    transition old new
| t_disrupt c :
    live old → sv_Phase old = PhaseRunning → disruption old = None →
    cd_Type c = ConditionDisruptionInjected →
    sv_Status new = set_Conditions (SetStatusCondition c (sv_Conditions old)) (sv_Status old) →
    transition old new
| t_park next gen :
    live old → terminal (sv_Phase old) →
    gen = st_ObservedGeneration (sv_Status old) ∨ gen = sv_Generation old →
    sv_Status new = set_NextRunTime next (set_ObservedGeneration gen (sv_Status old)) →
    transition old new
| t_rerun :
    live old → terminal (sv_Phase old) → sp_Suspend (sv_Spec old) = false →
    sv_Phase new = PhasePending → results_clear (sv_Status new) → same_history old new →
    disruption new = None → st_ObservedGeneration (sv_Status new) = st_ObservedGeneration (sv_Status old) →
    (∃ c, finished new = Some c ∧ cd_Status c = ConditionFalse) →
    transition old new
| t_drain :
    ~ live old → sv_Status new = set_Phase PhaseTerminating (sv_Status old) →
    transition old new.

(** The status subresource: metadata and spec are as read. *)
Definition keeps_identity (old new : ScaleValidation) : Prop :=
  sv_Meta new = sv_Meta old ∧ sv_Spec new = sv_Spec old.

Definition status_write (old new : ScaleValidation) : Prop :=
  keeps_identity old new ∧ transition old new.

(** ** The object in the cluster *)

(** What users do to a stored object: an edit of its spec, which increments the generation, or of
    its metadata, deletion included. *)
Inductive user_step (old new : ScaleValidation) : Prop :=
| u_edit :
    sv_Status new = sv_Status old → sv_Generation old < sv_Generation new →
    om_DeletionTimestamp (sv_Meta new) = om_DeletionTimestamp (sv_Meta old) →
    user_step old new
| u_meta :
    sv_Status new = sv_Status old → sv_Spec new = sv_Spec old → sv_Generation new = sv_Generation old →
    (~ live old → ~ live new) →
    user_step old new.

(** What happens to a stored object: a status write of the controller, based on the stored
    object (the API server refuses one based on an older version), or a step of a user. *)
Inductive world_step (old new : ScaleValidation) : Prop :=
| w_status : status_write old new → world_step old new
| w_user : user_step old new → world_step old new.

(** A newly created object has an empty status. *)
Definition created (cr : ScaleValidation) : Prop :=
  live cr ∧ 0 < sv_Generation cr ∧
  sv_Status cr = mkStatus "" None "" "" 0 0 0 [] None [] None 0 [].

Inductive reachable : ScaleValidation → Prop :=
| r_created cr : created cr → reachable cr
| r_step cr cr' : reachable cr → world_step cr cr' → reachable cr'.
End lifecycle.

(** ** What holds of every reachable object *)

Definition known_phases : list Phase :=
  [""; PhasePending; PhaseRunning; PhaseSucceeded; PhaseFailed; PhaseError].

Section invariant.
Context `{K8sLaws}.

Record lifecycle_inv (cr : ScaleValidation) : Prop := {
  inv_phase : live cr → sv_Phase cr ∈ known_phases;
  inv_finished : live cr → terminal (sv_Phase cr) ↔ is_finished cr;
  inv_history : (length (st_History (sv_Status cr)) <= RunHistoryLimit)%nat;
  inv_entries : Forall (λ r, rs_Phase r = PhaseSucceeded ∨ rs_Phase r = PhaseFailed) (st_History (sv_Status cr));
  inv_generation : st_ObservedGeneration (sv_Status cr) <= sv_Generation cr
}.

Lemma ended_is_finished cr : ended cr → is_finished cr.
Proof. intros (_ & c & ? & ? & _). by exists c. Qed.

(** A write that changes neither the conditions nor the history nor the observed generation. *)
Lemma inv_rephase old new : lifecycle_inv old → keeps_identity old new →
  (live old → sv_Phase new ∈ known_phases ∧ (terminal (sv_Phase new) ↔ terminal (sv_Phase old))) →
  finished new = finished old → same_history old new →
  st_ObservedGeneration (sv_Status new) <= sv_Generation old → lifecycle_inv new.
Proof.
  intros [Hp Hf Hh He Hg] [Hm Hs] Hphase Hfin Hist Hgen.
  assert (Hlive : live new ↔ live old) by (unfold live; by rewrite Hm).
  constructor; unfold sv_Generation in *; rewrite ?Hist, ?Hm; try done.
  - intros Hl. by apply Hphase, Hlive.
  - intros Hl. destruct (Hphase (proj1 Hlive Hl)) as [_ ->]. unfold is_finished. rewrite Hfin.
    by apply Hf, Hlive.
Qed.

(** A write that ends a run. *)
Lemma inv_end old new : lifecycle_inv old → keeps_identity old new → terminal (sv_Phase new) →
  ended new → (length (st_History (sv_Status new)) <= RunHistoryLimit)%nat →
  Forall (λ r, rs_Phase r = PhaseSucceeded ∨ rs_Phase r = PhaseFailed) (st_History (sv_Status new)) →
  lifecycle_inv new.
Proof.
  intros _ _ Ht He Hh Hf. constructor; try done.
  - intros _. unfold known_phases. destruct Ht as [-> | [-> | ->]]; set_solver.
  - intros _. split; [intros _; by apply ended_is_finished|done].
  - destruct He as [-> _]. lia.
Qed.

Lemma finished_set c cs s cr : cd_Type c = ConditionDisruptionInjected → sv_Conditions cr = SetStatusCondition c cs →
  FindStatusCondition cs ConditionFinished = s → finished cr = s.
Proof. intros Hc Hcr Hs. unfold finished. rewrite Hcr, find_set_ne; [done|]. by rewrite Hc. Qed.

Lemma inv_status_write old new : lifecycle_inv old → status_write old new → lifecycle_inv new.
Proof.
  intros Hinv [Hid Htr]. pose proof Hinv as [Hp Hf Hh He Hg].
  destruct Htr as [Hl Hph Hst|t Hl [_ Hact] Hnr Hst|Hl Hpre Hph Hend Hhist _|now Hl Hact Hph Hend _ Hhist
    |c Hl Hph Hnone Hc Hst|next gen Hl Ht Hgen Hst|Hl Ht _ Hph Hclear Hhist _ Hobs (c & Hc & Hcs)|Hl Hst].
  - eapply inv_rephase; try done; unfold same_history, finished, sv_Conditions, sv_Phase in *;
      rewrite Hst; try done. intros _. simpl. split; [set_solver|]. rewrite Hph. by vm_compute; naive_solver.
  - eapply inv_rephase; try done; unfold same_history, finished, sv_Conditions, sv_Phase in *;
      rewrite Hst; try done. intros _. simpl. split; [set_solver|].
    split; [intros Hr; by vm_compute in Hr; naive_solver|done].
  - eapply inv_end; try done; [rewrite Hph; unfold terminal; auto|by rewrite Hhist..].
  - eapply inv_end; try done.
    + rewrite Hph. unfold terminal. case_decide; auto.
    + rewrite Hhist, length_take. unfold RunHistoryLimit. lia.
    + rewrite Hhist. apply Forall_take. constructor; [|done]. simpl. unfold sv_Phase in Hph. rewrite Hph.
      case_decide; auto.
  - assert (Hcond : sv_Conditions new = SetStatusCondition c (sv_Conditions old))
      by (unfold sv_Conditions; by rewrite Hst).
    eapply inv_rephase; try done; unfold same_history, sv_Phase in *; try (rewrite Hst; done).
    + intros _. rewrite Hst. simpl. split; [rewrite Hph; set_solver|done].
    + by eapply finished_set.
  - eapply inv_rephase; try done; unfold same_history, finished, sv_Conditions, sv_Phase in *;
      rewrite Hst; try done.
    + intros _. simpl. split; [by apply Hp|done].
    + simpl. destruct Hgen as [-> | ->]; [done|lia].
  - destruct Hid as [Hm Hs]. constructor; unfold sv_Generation in *; rewrite ?Hhist, ?Hobs, ?Hm; try done.
    + intros _. rewrite Hph. set_solver.
    + intros _. rewrite Hph. split; [intros Hr; by vm_compute in Hr; naive_solver|].
      intros (c' & Hc' & Hcs'). rewrite Hc in Hc'. injection Hc' as <-. by rewrite Hcs in Hcs'.
  - eapply inv_rephase; try done; unfold same_history, finished, sv_Conditions, sv_Phase in *; rewrite Hst; done.
Qed.

(** Whatever the interleaving of reconciles, spec edits and deletion: while the object is not
    being deleted, Finished is True exactly in a terminal phase; the history never exceeds its
    limit and lists measured runs only; and the observed generation is never ahead. *)
Lemma reachable_inv (cr : ScaleValidation) : reachable cr → lifecycle_inv cr.
Proof.
  induction 1 as [cr (Hl & Hgen & Hst)|old new _ Hinv Hstep].
  - constructor; unfold sv_Phase, is_finished, finished, sv_Conditions; rewrite Hst; simpl; try done.
    + intros _. set_solver.
    + intros _. rewrite find_nil. split; [by vm_compute; naive_solver|naive_solver].
    + lia.
    + lia.
  - destruct Hstep as [Hw|[Hst Hgen Hdel|Hst Hsp Hgen Hdel]].
    + by eapply inv_status_write.
    + destruct Hinv as [Hp Hf Hh He Hg].
      assert (Hlive : live new ↔ live old) by (unfold live; by rewrite Hdel).
      constructor; unfold sv_Phase, is_finished, finished, sv_Conditions in *; rewrite ?Hst; try tauto. lia.
    + destruct Hinv as [Hp Hf Hh He Hg].
      assert (Hlive : live new → live old).
      { intros Hn. destruct (decide (live old)); [done|]. by destruct (Hdel n). }
      constructor; unfold sv_Phase, is_finished, finished, sv_Conditions in *; rewrite ?Hst; try tauto. lia.
Qed.
End invariant.
