(* ===== verification/Effects.v ===== *)
(** * Programs that call out

    A reconcile pass talks to the API server, the clock, the event recorder and the metrics
    registry.  It is a finite interaction tree over a type [C] of calls with answers [R c]: what
    a call returns is up to the environment, and a theorem about every run of a program holds
    for every behaviour of it (errors, stale reads, concurrent edits).

    [wp] is the usual weakest precondition, extended with a condition on every call issued that
    may refer to the calls and answers before it. *)

From S2P Require Import Prelude.

Section effects.
Context {C : Type} {R : C → Type}.

Inductive prog (A : Type) : Type :=
| Ret (a : A)
| Call (c : C) (k : R c → prog A).

Arguments Ret {A} _.
Arguments Call {A} _ _.

Fixpoint prog_bind {A B} (f : A → prog B) (p : prog A) : prog B :=
  match p with
  | Ret a => f a
  | Call c k => Call c (λ r, prog_bind f (k r))
  end.

#[global] Instance prog_MRet : MRet prog := @Ret.

#[global] Instance prog_MBind : MBind prog := @prog_bind.

Definition call (c : C) : prog (R c) := Call c Ret.

(** A call with its answer; histories have the latest first. *)
Inductive event :=
| Ev (c : C) (r : R c).

Definition ev_call (e : event) : C := match e with Ev c _ => c end.

Definition history := list event.

(** [runs p h h' a]: from history [h], the program may end in history [h'] with value [a]. *)
Inductive runs {A} : prog A → history → history → A → Prop :=
| runs_ret a h : runs (Ret a) h h a
| runs_call c k r h h' a : runs (k r) (Ev c r :: h) h' a → runs (Call c k) h h' a.

(** The run against a deterministic environment. *)
Fixpoint exec {A} (env : history → ∀ c, R c) (p : prog A) (h : history) : history * A :=
  match p with
  | Ret a => (h, a)
  | Call c k => let r := env h c in exec env (k r) (Ev c r :: h)
  end.

Lemma exec_runs {A} env (p : prog A) h : runs p h (exec env p h).1 (exec env p h).2.
Proof. revert h. induction p as [a|c k IH]; intros h; simpl; [apply runs_ret|by eapply runs_call]. Qed.

Lemma exec_bind {A B} env (p : prog A) (f : A → prog B) h :
  exec env (p ≫= f) h = exec env (f (exec env p h).2) (exec env p h).1.
Proof. revert h. induction p as [a|c k IH]; intros h; simpl; [done|]. apply IH. Qed.

Lemma exec_keeps {A} env (p : prog A) h e : e ∈ h → e ∈ (exec env p h).1.
Proof. revert h. induction p as [a|c k IH]; intros h He; simpl; [done|]. apply IH. by right. Qed.

Lemma runs_extends {A} (p : prog A) h h' a : runs p h h' a → ∃ l, h' = l ++ h.
Proof.
  induction 1 as [a h|c k r h h' a _ [l IH]]; [by exists []|].
  exists (l ++ [Ev c r]). by rewrite <- app_assoc.
Qed.

(** [G] is the condition on calls; [S] is what is known of answers. *)
Section wp.
Context (G : history → C → Prop) (S : event → Prop).

Fixpoint wp {A} (p : prog A) (h : history) (Q : history → A → Prop) : Prop :=
  match p with
  | Ret a => Q h a
  | Call c k => G h c ∧ ∀ r, S (Ev c r) → wp (k r) (Ev c r :: h) Q
  end.

Lemma wp_mono {A} (p : prog A) h (Q Q' : history → A → Prop) :
  wp p h Q → (∀ h' a, Q h' a → Q' h' a) → wp p h Q'.
Proof.
  revert h. induction p as [a|c k IH]; intros h H HQ; simpl in *; [by apply HQ|].
  destruct H as [HG Hk]. split; [done|]. intros r Hr. apply IH; auto.
Qed.

Lemma wp_bind {A B} (p : prog A) (f : A → prog B) h Q :
  wp p h (λ h' a, wp (f a) h' Q) → wp (p ≫= f) h Q.
Proof.
  revert h. induction p as [a|c k IH]; intros h H; simpl in *; [done|].
  destruct H as [HG Hk]. split; [done|]. intros r Hr. by apply IH, Hk.
Qed.

Lemma wp_call {B} (c : C) (f : R c → prog B) h Q :
  G h c → (∀ r, S (Ev c r) → wp (f r) (Ev c r :: h) Q) → wp (call c ≫= f) h Q.
Proof. intros ? ?. by split. Qed.

(** Every call of a run satisfies the condition, in the history it was issued in. *)
Definition all_calls (h : history) : Prop :=
  ∀ later c r earlier, h = later ++ Ev c r :: earlier → G earlier c.

Lemma all_calls_nil : all_calls [].
Proof. intros [|] ? ? ?; done. Qed.

Lemma all_calls_cons c r h : G h c → all_calls h → all_calls (Ev c r :: h).
Proof.
  intros HG Hh later c' r' earlier Heq. destruct later as [|e later]; simpl in Heq.
  - pose proof (f_equal (λ l, ev_call <$> head l) Heq) as Hc. pose proof (f_equal tail Heq) as Ht.
    simpl in Hc, Ht. by simplify_eq.
  - pose proof (f_equal tail Heq) as Ht. simpl in Ht. by eapply Hh.
Qed.

Lemma wp_sound {A} (p : prog A) h h' a Q :
  runs p h h' a → Forall S h' → wp p h Q → all_calls h → all_calls h' ∧ Q h' a.
Proof.
  induction 1 as [a h|c k r h h' a Hr IH]; intros HS Hwp Hh; [done|].
  destruct Hwp as [HG Hk]. apply IH; [done| |by apply all_calls_cons].
  apply Hk. destruct (runs_extends _ _ _ _ Hr) as [l ->].
  apply Forall_app in HS as [_ HS]. by apply Forall_cons in HS as [? _].
Qed.

(** What every run ends in, whatever it calls. *)
Lemma wp_result {A} (p : prog A) h h' a Q : runs p h h' a →
  (∀ h c, G h c) → (∀ e, S e) → wp p h Q → Q h' a.
Proof.
  intros Hr HG HS. induction Hr as [a h|c k r h h' a Hr IH]; intros Hwp; [done|].
  apply IH. by apply Hwp.
Qed.

Lemma wp_sound_nil {A} (p : prog A) h' a Q :
  runs p [] h' a → Forall S h' → wp p [] Q → all_calls h' ∧ Q h' a.
Proof. intros ? ? ?. by eapply wp_sound; [| | |apply all_calls_nil]. Qed.

(** A program all of whose calls satisfy [P]. *)
Fixpoint only_calls {A} (P : C → Prop) (p : prog A) : Prop :=
  match p with
  | Ret _ => True
  | Call c k => P c ∧ ∀ r, only_calls P (k r)
  end.

Lemma only_calls_bind {A B} P (p : prog A) (f : A → prog B) :
  only_calls P p → (∀ a, only_calls P (f a)) → only_calls P (p ≫= f).
Proof. induction p as [a|c k IH]; simpl; [auto|]. intros [? ?] ?. split; [done|]. intros r. by apply IH. Qed.

(** Such a program only adds events of such calls. *)
Lemma wp_only_calls {A} (P : C → Prop) (p : prog A) h (Q : history → A → Prop) :
  (∀ h c, P c → G h c) → only_calls P p →
  (∀ l a, runs p h (l ++ h) a → Forall (λ e, P (ev_call e)) l → Q (l ++ h) a) → wp p h Q.
Proof.
  intros HG. revert h Q. induction p as [a|c k IH]; intros h Q Hp HQ; simpl.
  - apply (HQ [] a); [constructor|done].
  - destruct Hp as [Hc Hk]. split; [by apply HG|]. intros r _. apply IH; [apply Hk|].
    intros l a Hr Hl. specialize (HQ (l ++ [Ev c r]) a). rewrite <- app_assoc in HQ. apply HQ.
    + by apply runs_call with r.
    + apply Forall_app. split; [done|]. by constructor.
Qed.
End wp.

Lemma exec_only_calls {A} env (P : C → Prop) (p : prog A) h : only_calls P p →
  ∃ l, (exec env p h).1 = l ++ h ∧ Forall (λ e, P (ev_call e)) l.
Proof.
  revert h. induction p as [a|c k IH]; intros h Hp; simpl; [by exists []|]. destruct Hp as [Hc Hk].
  destruct (IH (env h c) (Ev c (env h c) :: h)) as (l & -> & Hl); [apply Hk|].
  exists (l ++ [Ev c (env h c)]). split; [by rewrite <- app_assoc|]. apply Forall_app. by repeat constructor.
Qed.

End effects.

Arguments prog {C} R A.
Arguments Ret {C R A} _.
Arguments Call {C R A} _ _.
Arguments event {C} R.
Arguments history {C} R.
Arguments Ev {C R} _ _.

(** Partial correctness of a program on its own: [Q] holds of whatever it returns. *)
Definition returns {C} {R : C → Type} {A} (p : prog R A) (h : history R) (Q : history R → A → Prop) : Prop :=
  wp (λ _ _, True) (λ _, True) p h Q.

Lemma returns_runs {C} {R : C → Type} {A} (p : prog R A) h h' a Q : runs p h h' a → returns p h Q → Q h' a.
Proof. intros Hr Hp. by eapply (wp_result (λ _ _, True) (λ _, True)). Qed.

Lemma returns_any {C} {R : C → Type} {A} (p : prog R A) h : returns p h (λ _ _, True).
Proof. revert h. induction p as [a|c k IH]; intros h; [done|]. split; [done|]. intros r _. apply IH. Qed.

(** The two halves of a run. *)
Lemma runs_bind {C} {R : C → Type} {A B} (p : prog R A) (f : A → prog R B) h h' b :
  runs (p ≫= f) h h' b → ∃ h1 a, runs p h h1 a ∧ runs (f a) h1 h' b.
Proof.
  intros Hr. assert (Hp : returns (p ≫= f) h (λ h' b, ∃ h1 a, runs p h h1 a ∧ runs (f a) h1 h' b));
    [|exact (returns_runs _ _ _ _ _ Hr Hp)]. clear Hr h' b.
  revert h. induction p as [a|c k IH]; intros h.
  - assert (Hf : ∀ (q : prog R B) h0, returns q h0 (λ h' b, runs q h0 h' b)).
    { intros q. induction q as [b|c k IH]; intros h0; [constructor|]. split; [done|]. intros r _.
      eapply wp_mono; [apply IH|]. intros h' b Hr. by apply (runs_call c k r). }
    eapply wp_mono; [apply Hf|]. intros h' b Hr. exists h, a. split; [constructor|done].
  - split; [done|]. intros r _. eapply wp_mono; [apply IH|]. intros h' b (h1 & a & Hr & Hb).
    exists h1, a. split; [by apply (runs_call c k r)|done].
Qed.

(** A bind about whose first half nothing is needed. *)
Lemma returns_skip {C} {R : C → Type} {A B} (p : prog R A) (f : A → prog R B) h Q :
  (∀ h' a, returns (f a) h' Q) → returns (p ≫= f) h Q.
Proof. intros Hf. apply wp_bind. eapply wp_mono; [apply returns_any|]. intros h' a _. apply Hf. Qed.

(** Runs the next call of a program against the environment. *)
Ltac exec_step :=
  match goal with
  | |- context [exec ?env (mbind ?f (call ?c)) ?h] =>
      change (exec env (mbind f (call c)) h) with (exec env (f (env h c)) (Ev c (env h c) :: h));
      cbv beta
  end.

Ltac exec_into :=
  match goal with
  | |- context [exec ?env (mbind ?f ?p) ?h] => rewrite (exec_bind env p f h)
  end.
