(* ===== verification/EndpointWatch.v ===== *)
(** * Watching EndpointSlices (internal/observer/endpoints.go, observer.go)

    The goroutine of a session that follows the Service's EndpointSlices: it opens a watch, feeds
    the tracker until the watch closes, and opens the next one, until the run is over.  The events
    go to the session, which shares them with this goroutine under a mutex: adding to them is a
    call.  [fuel] bounds the number of messages handled; when it runs out the goroutine is still at
    work. *)

From S2P Require Import Leakage.
From S2P Require Import Prelude GoText Api Endpoints Effects.

Open Scope Z_scope.

(** What the [select] of the loop finds: the context is done, the channel was closed, or an event,
    which may carry another object than a slice. *)
Inductive message :=
| CtxDone
| ChanClosed
| NotASlice
| SliceEvent (name : string) (eps : list Endpoint) (deleted : bool).

Inductive ecall :=
| EWatch (namespace selector : string)
| ENext
| ENow
| EStop
| EAddEvents (evs : list EndpointEvent).

Definition eanswer (c : ecall) : Type :=
  match c with
  | EWatch _ _ => res unit
  | ENext => message
  | ENow => Time
  | EStop => unit
  | EAddEvents _ => unit
  end.

Notation EM := (prog eanswer).

(** [Session.addEvents]: nothing to add takes no lock; the events are appended under it. *)
Definition addEvents (evs : list EndpointEvent) : EM unit :=
  match evs with [] => mret tt | _ => call (R := eanswer) (EAddEvents evs) end.

(** What the lock protects. *)
Definition append_events (events evs : list EndpointEvent) : list EndpointEvent := events ++ evs.

Definition snapshotEvents (events : list EndpointEvent) : list EndpointEvent := events.

Definition LabelServiceName : string := "kubernetes.io/service-name".

Section watch.
Context `{MapRange}.

(** How a watch ended: out of fuel, with the context done, or closed. *)
Inductive watch_end := Unfinished | Stopped | Rewatch (fuel : nat).

Fixpoint consumeWatch (fuel : nat) (t : endpointTracker) : EM (watch_end * endpointTracker) :=
  match fuel with
  | O => mret (Unfinished, t)
  | S n =>
      m ← call (R := eanswer) ENext;
      match m with
      | CtxDone => _ ← call (R := eanswer) EStop; mret (Stopped, t)
      | ChanClosed => _ ← call (R := eanswer) EStop; mret (Rewatch n, t)
      | NotASlice => consumeWatch n t
      | SliceEvent name eps deleted =>
          now ← call (R := eanswer) ENow;
          let '(t, evs) := apply_slice t name (if deleted then None else Some eps) now in
          _ ← addEvents evs;
          consumeWatch n t
      end
  end.

(** The loop of [watchEndpoints]; at most [watches] watches are opened. *)
Fixpoint watch_loop (watches fuel : nat) (namespace serviceName : string) (t : endpointTracker) : EM (bool * endpointTracker) :=
  match watches with
  | O => mret (false, t)
  | S n =>
      w ← call (R := eanswer) (EWatch namespace (LabelServiceName +:+ "=" +:+ serviceName));
      match w with
      | Err _ => mret (true, t)
      | Ok _ =>
          r ← consumeWatch fuel t;
          match r with
          | (Unfinished, t) => mret (false, t)
          | (Stopped, t) => mret (true, t)
          | (Rewatch fuel, t) => watch_loop n fuel namespace serviceName t
          end
      end
  end.

(** Whether the goroutine has returned, and what it left. *)
Definition watchEndpoints (watches fuel : nat) (namespace serviceName : string) : EM (bool * endpointTracker) :=
  watch_loop watches fuel namespace serviceName newEndpointTracker.

(** ** Restarts are invisible to the tracker *)

(** The slice events of a trace with the times they were stamped with, oldest first: the message
    comes before its time. *)
Fixpoint delivered (h : history eanswer) : list (string * option (list Endpoint) * Time) :=
  match h with
  | Ev ENow now :: (Ev ENext (SliceEvent name eps deleted) :: rest) =>
      delivered rest ++ [(name, if deleted then None else Some eps, now)]
  | _ :: rest => delivered rest
  | [] => []
  end.

(** The events of the session, oldest first. *)
Fixpoint added (h : history eanswer) : list EndpointEvent :=
  match h with
  | [] => []
  | Ev (EAddEvents evs) _ :: rest => append_events (added rest) evs
  | _ :: rest => added rest
  end.

(** The goroutine has handled every update delivered to it. *)
Definition tracks (h : history eanswer) (t : endpointTracker) : Prop :=
  (t, added h) = watch_slices (delivered h).

(** What the calls find: events are added for the last update delivered, before anything else is
    done. *)
Definition watch_guard (h : history eanswer) (c : ecall) : Prop :=
  match c with
  | EAddEvents evs => ∃ us u, delivered h = us ++ [u] ∧ added h = (watch_slices us).2 ∧
                        added h ++ evs = (watch_slices (us ++ [u])).2
  | _ => added h = (watch_slices (delivered h)).2
  end.

Notation watching := (wp watch_guard (λ _, True)).

(** Watches that were opened and not stopped yet. *)
Fixpoint open_watches (h : history eanswer) : Z :=
  match h with
  | [] => 0
  | Ev (EWatch _ _) (Ok _) :: rest => open_watches rest + 1
  | Ev EStop _ :: rest => open_watches rest - 1
  | _ :: rest => open_watches rest
  end.

Lemma tracks_added h t : tracks h t → added h = (watch_slices (delivered h)).2.
Proof. unfold tracks. by intros <-. Qed.

(** One update: its events are added and the tracker is in step again. *)
Lemma watching_update h t (name : string) (eps : list Endpoint) (deleted : bool) (now : Time) Q :
  tracks h t →
  let h1 := Ev (R := eanswer) ENow now :: Ev (R := eanswer) ENext (SliceEvent name eps deleted) :: h in
  let '(t', evs) := apply_slice t name (if deleted then None else Some eps) now in
  (∀ h', tracks h' t' → open_watches h' = open_watches h → Q h' tt) →
  watching (addEvents evs) h1 Q.
Proof.
  intros Ht h1. unfold tracks in Ht. destruct (apply_slice _ _ _ _) as [t' evs] eqn:Ha. intros HQ.
  set (u := (name, if deleted then None else Some eps, now)).
  assert (delivered h1 = delivered h ++ [u]) as Hd by done.
  assert (watch_slices (delivered h ++ [u]) = (t', added h ++ evs)) as Hw.
  { unfold watch_slices in *. rewrite fold_left_app, <- Ht. cbn [fold_left]. unfold u. by rewrite Ha. }
  unfold addEvents. destruct evs as [|ev evs].
  - apply HQ; [|done]. unfold tracks. rewrite Hd, Hw, app_nil_r. done.
  - split.
    + exists (delivered h), u. split; [done|]. split; [by rewrite <- Ht|by rewrite Hw].
    + intros [] _. apply HQ; [|done]. unfold tracks. change (delivered (Ev (EAddEvents (ev :: evs)) tt :: h1)) with (delivered h1).
      by rewrite Hd, Hw.
Qed.

Lemma consumeWatch_tracks fuel t h : tracks h t →
  watching (consumeWatch fuel t) h (λ h' r, tracks h' r.2 ∧
    open_watches h' = open_watches h - (match r.1 with Unfinished => 0 | _ => 1 end)).
Proof.
  revert t h. induction fuel as [|n IH]; intros t h Ht; [split; [done|simpl; lia]|]. cbn [consumeWatch].
  pose proof (tracks_added _ _ Ht) as Hadd.
  apply wp_call; [done|]. intros [| | |name eps deleted] _.
  - apply wp_call; [done|]. intros [] _. split; [done|]. simpl. lia.
  - apply wp_call; [done|]. intros [] _. split; [done|]. simpl. lia.
  - by apply (IH t (Ev (R := eanswer) ENext NotASlice :: h)).
  - apply wp_call; [done|]. intros now _. pose proof (watching_update h t name eps deleted now) as Hup.
    destruct (apply_slice _ _ _ _) as [t' evs]. apply wp_bind. apply Hup; [done|]. intros h' Ht' Ho.
    eapply wp_mono; [by apply IH|]. intros h2 r [Htr Ho2]. split; [done|]. by rewrite Ho2, Ho.
Qed.

Lemma watch_loop_tracks watches fuel ns svc t h : tracks h t → open_watches h = 0 →
  watching (watch_loop watches fuel ns svc t) h (λ h' r, tracks h' r.2 ∧ (r.1 = true → open_watches h' = 0)).
Proof.
  revert fuel t h. induction watches as [|n IH]; intros fuel t h Ht Ho; [split; [done|done]|]. cbn [watch_loop].
  apply wp_call; [by apply (tracks_added _ t)|]. intros [[]|e] _; [|by split]. apply wp_bind.
  eapply wp_mono; [by apply (consumeWatch_tracks fuel t)|]. intros h' [[| |fuel'] t'] [Htr Hop]; simpl in Htr, Hop.
  - by split.
  - split; [done|]. intros _. simpl. lia.
  - apply IH; [done|lia].
Qed.

Lemma watchEndpoints_tracks watches fuel ns svc :
  watching (watchEndpoints watches fuel ns svc) [] (λ h r, tracks h r.2 ∧ (r.1 = true → open_watches h = 0)).
Proof. by apply watch_loop_tracks. Qed.

(** C29: Closed and reopened watches are invisible to the analysis: whatever the sequence of watches,
    failures and messages, the events of the session are those of one uninterrupted watch that
    delivered the same slice updates; and when the goroutine returns, every watch it opened has
    been stopped. *)
Theorem watch_survives_restarts (watches fuel : nat) (namespace serviceName : string)
    (h : history eanswer) (ended : bool) (t : endpointTracker) :
  runs (watchEndpoints watches fuel namespace serviceName) [] h (ended, t) →
  (t, snapshotEvents (added h)) = watch_slices (delivered h) ∧
  (ended = true → open_watches h = 0).
Proof.
  intros Hr.
  exact (proj2 (wp_sound_nil watch_guard (λ _, True) _ _ _ _ Hr ltac:(by apply Forall_true) (watchEndpoints_tracks watches fuel namespace serviceName))).
Qed.
End watch.

(** A slice that was deleted while no watch was open is never forgotten: the next watch begins with
    the slices that exist, and the tracker keeps the address of the old one as served. *)
Lemma deletion_between_watches_missed `{MapRange} :
  let old := mkEndpoint ["10.0.0.1"] (Some true) in
  let new := mkEndpoint ["10.0.0.2"] (Some true) in
  get (et_ready (watch_slices [("a", Some [old], 0); ("b", Some [new], 1)]).1) "10.0.0.1" = true.
Proof. reflexivity. Qed.

(** One update, a closed watch, an update in the next, then the end of the run. *)
Definition sample_messages (h : history eanswer) (c : ecall) : eanswer c :=
  match c as c return eanswer c with
  | EWatch _ _ => Ok tt
  | ENext => match length h with
             | 1%nat => SliceEvent "a" [mkEndpoint ["10.0.0.1"] (Some true)] false
             | 3%nat => ChanClosed
             | 7%nat => SliceEvent "a" [] true
             | _ => CtxDone
             end
  | ENow => Z.of_nat (length h)
  | EStop => tt
  | EAddEvents _ => tt
  end.

Definition sample_range : MapRange.
Proof. refine {| range_keys := λ m, (map_to_list m).*1 |}. done. Defined.

Lemma watch_survives_restarts_witness :
  let '(h, (ended, t)) := exec sample_messages (@watchEndpoints sample_range 5 10 "prod" "web") [] in
  ended = true ∧ (t, snapshotEvents (added h)) = @watch_slices sample_range (delivered h) ∧
  (ended = true → open_watches h = 0).
Proof.
  pose proof (exec_runs sample_messages (@watchEndpoints sample_range 5 10 "prod" "web") []) as Hr.
  assert (He : (exec sample_messages (@watchEndpoints sample_range 5 10 "prod" "web") []).2.1 = true) by (vm_compute; reflexivity).
  destruct (exec sample_messages _ _) as [h [ended t]]. split; [exact He|].
  exact (@watch_survives_restarts sample_range 5 10 "prod" "web" h ended t Hr).
Defined.
