(* ===== verification/Interleave.v ===== *)
(** * Interleaving programs over shared state

    Goroutines are programs of [Effects] whose calls act on a shared state: a thread may make its
    next call whenever [handle] lets it (a call without a successor blocks).  Two arguments about
    every interleaving are made once here: a ledger (a counter ends up with everything that was
    added to it) and an invariant carried by what the threads have left to do. *)

From S2P Require Import Prelude Effects.

Open Scope Z_scope.

Lemma int64_add x y : int64 (int64 x + y) = int64 (x + y).
Proof.
  unfold int64. replace ((x + 2 ^ 63) mod 2 ^ 64 - 2 ^ 63 + y + 2 ^ 63) with ((x + 2 ^ 63) mod 2 ^ 64 + y) by lia.
  rewrite Z.add_mod_idemp_l by done. do 2 f_equal. lia.
Qed.

Section interleave.
Context {C : Type} {R : C → Type} {S A : Type}.

(** The effect of a call on the shared state. *)
Context (handle : S → ∀ c, R c → S → Prop).

(** The shared state, the threads and the calls made so far, the latest first. *)
Record conf := mkConf { cf_state : S; cf_threads : list (prog R A); cf_trace : history R }.

Inductive cstep : conf → conf → Prop :=
| cstep_call s ps h i c k r s' :
    ps !! i = Some (Call c k) → handle s c r s' →
    cstep (mkConf s ps h) (mkConf s' (<[ i := k r ]> ps) (Ev c r :: h)).

Definition finished (cf : conf) : Prop := Forall (λ p, ∃ a, p = Ret a) (cf_threads cf).

(** ** Running a schedule

    [react] answers a call, or blocks it; a schedule lists whose turn it is. *)
Fixpoint run_schedule (react : S → history R → ∀ c, option (R c * S)) (sched : list nat) (cf : conf) : option conf :=
  match sched with
  | [] => Some cf
  | i :: rest =>
      match cf_threads cf !! i with
      | Some (Call c k) =>
          match react (cf_state cf) (cf_trace cf) c with
          | Some (r, s') =>
              run_schedule react rest (mkConf s' (<[ i := k r ]> (cf_threads cf)) (Ev c r :: cf_trace cf))
          | None => None
          end
      | _ => None
      end
  end.

Lemma run_schedule_steps react sched cf cf' :
  (∀ s h c r s', react s h c = Some (r, s') → handle s c r s') →
  run_schedule react sched cf = Some cf' → rtc cstep cf cf'.
Proof.
  intros Hreact. revert cf. induction sched as [|i sched IH]; intros [s ps h] Hrun; simpl in Hrun.
  { injection Hrun as <-. apply rtc_refl. }
  destruct (ps !! i) as [[|c k]|] eqn:Hi; [done| |done].
  destruct (react s h c) as [[r s']|] eqn:Hr; [|done].
  eapply rtc_l; [|by apply IH]. by apply cstep_call; [|apply Hreact in Hr].
Qed.

(** ** Ledgers

    [owed] is what the answer of a call obliges its thread to add to the counter, [paid] what a
    call adds. *)
Section ledger.
Context (value : S → Z) (owed : ∀ c, R c → Z) (paid : C → Z).
Context (Hvalue : ∀ s c r s', handle s c r s' →
  value s' = int64 (value s + paid c) ∨ (value s' = value s ∧ paid c = 0)).

Fixpoint owes {B} (n : Z) (p : prog R B) : Prop :=
  match p with
  | Ret _ => n = 0
  | Call c k => ∀ r, owes (n + owed c r - paid c) (k r)
  end.

Lemma owes_eq {B} n m (p : prog R B) : owes n p → n = m → owes m p.
Proof. by intros ? <-. Qed.

Lemma owes_bind {B D} n m (p : prog R B) (f : B → prog R D) :
  owes n p → (∀ b, owes m (f b)) → owes (n + m) (p ≫= f).
Proof.
  revert n. induction p as [b|c k IH]; intros n Hp Hf; simpl in *; [subst; apply Hf|].
  intros r. replace (n + m + owed c r - paid c) with (n + owed c r - paid c + m) by lia. by apply IH.
Qed.

Fixpoint total_owed (h : history R) : Z :=
  match h with [] => 0 | Ev c r :: h => owed c r + total_owed h end.

Definition balanced (cf : conf) : Prop :=
  ∃ ns, Forall2 owes ns (cf_threads cf) ∧
    value (cf_state cf) = int64 (total_owed (cf_trace cf) - foldr Z.add 0 ns).

Lemma sum_insert (ns : list Z) i n m : ns !! i = Some n →
  foldr Z.add 0 (<[ i := m ]> ns) = foldr Z.add 0 ns - n + m.
Proof.
  revert i. induction ns as [|x ns IH]; intros [|i] Hi; simpl in *; [done..| |].
  - injection Hi as ->. lia.
  - rewrite (IH i Hi). lia.
Qed.

Lemma balanced_step cf cf' : balanced cf → cstep cf cf' → balanced cf'.
Proof.
  intros (ns & Hns & Hv) Hstep. destruct Hstep as [s ps h i c k r s' Hi Hh]. simpl in *.
  destruct (Forall2_lookup_r _ _ _ _ _ Hns Hi) as (n & Hn & Howes). simpl in Howes.
  exists (<[ i := n + owed c r - paid c ]> ns). split; [by apply Forall2_insert|].
  simpl. rewrite (sum_insert _ _ n) by done.
  destruct (Hvalue _ _ _ _ Hh) as [->|[-> Hp]]; rewrite Hv, ?int64_add; f_equal; lia.
Qed.

Lemma balanced_finished cf : balanced cf → finished cf →
  value (cf_state cf) = int64 (total_owed (cf_trace cf)).
Proof.
  intros (ns & Hns & ->) Hf. f_equal. unfold finished in Hf.
  replace (foldr Z.add 0 ns) with 0; [lia|].
  induction Hns as [|n p ns ps Hn _ IH]; [done|]. apply Forall_cons in Hf as [[a ->] Hf].
  simpl in *. rewrite <- IH by done. lia.
Qed.

(** When all threads are done, the counter holds all that was owed to it, modulo 2^64. *)
Lemma ledger_exact s ps cf : value s = 0 → Forall (owes 0) ps →
  rtc cstep (mkConf s ps []) cf → finished cf → value (cf_state cf) = int64 (total_owed (cf_trace cf)).
Proof.
  intros Hs Hps Hr. apply balanced_finished.
  assert (balanced (mkConf s ps [])) as Hb.
  { exists (replicate (length ps) 0). split; simpl.
    - clear Hs Hr. induction Hps; simpl; by constructor.
    - rewrite Hs. assert (foldr Z.add 0 (replicate (length ps) 0) = 0) as -> by (by induction (length ps)).
      done. }
  clear Hs Hps. induction Hr as [|x y z Hxy _ IH]; [done|]. apply IH. by eapply balanced_step.
Qed.
End ledger.

End interleave.

Arguments conf {C} R S A.
Arguments mkConf {C R S A} _ _ _.
