(* ===== verification/Dashboard.v ===== *)
(** * The terminal dashboard (internal/report/report.go, cmd/scale-sentry/report.go)

    [Render] lays the diagnostics of a validation out as text, the most severe first; the report
    command reads them as JSON and prints the dashboard or shows it in a Bubble Tea program.
    Lip Gloss, which turns a style and a text into terminal output, is the interface [Lipgloss]. *)

From Stdlib Require Import Ascii String.
From S2P Require Import Prelude GoText Flags Api Correlation Effects Status.

Open Scope Z_scope.

Inductive style := titleStyle | criticalStyle | warningStyle | infoStyle | okStyle | dimStyle.

Class Lipgloss := { style_Render : style → string → string }.

Definition severityRank (s : Severity) : Z :=
  if decide (s = "Critical") then 0
  else if decide (s = "Warning") then 1
  else if decide (s = "Info") then 2
  else 3.

Definition styleFor (severity : Severity) : style :=
  if decide (severity = "Critical") then criticalStyle
  else if decide (severity = "Warning") then warningStyle
  else infoStyle.

Definition newline : string := String nl "".

(** [strings.ToUpper] on ASCII letters. *)
Definition to_upper (c : ascii) : ascii :=
  let v := byte_val c in if (97 <=? v) && (v <=? 122) then ascii_of_N (Z.to_N (v - 32)) else c.

Definition ToUpper (s : string) : string := map_string to_upper s.

(** The numbers of critical, warning and other alerts. *)
Record tally := mkTally { tl_crit : Z; tl_warn : Z; tl_info : Z }.

Definition count_severity (t : tally) (a : DiagnosticAlert) : tally :=
  if decide (da_Severity a = "Critical") then mkTally (tl_crit t ⊕ 1)%go (tl_warn t) (tl_info t)
  else if decide (da_Severity a = "Warning") then mkTally (tl_crit t) (tl_warn t ⊕ 1)%go (tl_info t)
  else mkTally (tl_crit t) (tl_warn t) (tl_info t ⊕ 1)%go.

Definition tally_alerts (alerts : list DiagnosticAlert) : tally :=
  fold_left count_severity alerts (mkTally 0 0 0).

(** [sort.SliceStable] by rank. *)
Definition order_alerts (alerts : list DiagnosticAlert) : list DiagnosticAlert :=
  insertion_sort (λ a, severityRank (da_Severity a)) alerts.

Section render.
Context `{Lipgloss}.

Definition renderAlert (a : DiagnosticAlert) : string :=
  style_Render (styleFor (da_Severity a)) ("[" +:+ ToUpper (da_Severity a) +:+ "] " +:+ da_Type a)
  +:+ newline +:+ "  " +:+ da_Message a
  +:+ (if decide (da_Recommendation a = "") then ""
       else newline +:+ "  " +:+ style_Render dimStyle ("↳ " +:+ da_Recommendation a))
  +:+ newline.

Fixpoint render_alerts (alerts : list DiagnosticAlert) : string :=
  match alerts with
  | [] => ""
  | a :: rest => renderAlert a +:+ newline +:+ render_alerts rest
  end.

Definition render_title : string := style_Render titleStyle "scale-sentry · diagnostic report" +:+ newline +:+ newline.

Definition render_tally (t : tally) : string :=
  style_Render criticalStyle ("● " +:+ itoa (tl_crit t) +:+ " critical") +:+ "   "
  +:+ style_Render warningStyle ("● " +:+ itoa (tl_warn t) +:+ " warning") +:+ "   "
  +:+ style_Render infoStyle ("● " +:+ itoa (tl_info t) +:+ " info") +:+ newline +:+ newline.

Definition Render (alerts : list DiagnosticAlert) : string :=
  match alerts with
  | [] => render_title +:+ style_Render okStyle "✓ all checks passed, no diagnostics" +:+ newline
  | _ => render_title +:+ render_tally (tally_alerts alerts) +:+ render_alerts (order_alerts alerts)
  end.

(** ** The interactive view *)

Record Model := mkModel { md_alerts : list DiagnosticAlert }.

Definition NewModel (alerts : list DiagnosticAlert) : Model := mkModel alerts.

(** A message of the program: a key press or something else. *)
Inductive Msg := KeyMsg (key : string) | OtherMsg.

Inductive Cmd := NoCmd | Quit.

Definition Init (m : Model) : Cmd := NoCmd.

Definition Update (m : Model) (msg : Msg) : Model * Cmd :=
  match msg with
  | KeyMsg k => if decide (k = "q" ∨ k = "esc" ∨ k = "ctrl+c") then (m, Quit) else (m, NoCmd)
  | OtherMsg => (m, NoCmd)
  end.

Definition View (m : Model) : string := Render (md_alerts m) +:+ newline +:+ style_Render dimStyle "press q to quit".
End render.

(** ** The report command *)

(** encoding/json at a list of alerts. *)
Class AlertsJson := { UnmarshalAlerts : string → res (list DiagnosticAlert) }.

Inductive dcall :=
| DReadStdin
| DReadFile (path : string)
| DPrintln (s : string)
| DRunProgram (m : Model).

Definition danswer (c : dcall) : Type :=
  match c with
  | DReadStdin | DReadFile _ => res string
  | DPrintln _ | DRunProgram _ => res unit
  end.

Definition report_flags : list flag := [mkFlag "file" (VString ""); mkFlag "plain" (VBool false)].

Definition readDiagnostics (file : string) : prog danswer (res string) :=
  if decide (file = "") then
    r ← call (R := danswer) DReadStdin;
    match r with Err e => mret (Err (wrapf "read diagnostics from stdin" e)) | Ok raw => mret (Ok raw) end
  else
    r ← call (R := danswer) (DReadFile file);
    match r with Err e => mret (Err (wrapf "read diagnostics file" e)) | Ok raw => mret (Ok raw) end.

(** The RunE of [newReportCmd]. *)
Definition report_cmd `{Lipgloss, AlertsJson} (file : string) (plain : bool) : prog danswer (res unit) :=
  r ← readDiagnostics file;
  match r with
  | Err e => mret (Err e)
  | Ok raw =>
      let decoded := if decide (raw = "") then Ok []
                     else match UnmarshalAlerts raw with
                          | Err e => Err (wrapf "decode diagnostics json" e)
                          | Ok alerts => Ok alerts
                          end in
      match decoded with
      | Err e => mret (Err e)
      | Ok alerts =>
          if plain then call (R := danswer) (DPrintln (Render alerts))
          else call (R := danswer) (DRunProgram (NewModel alerts))
      end
  end.

(** ** What the dashboard shows *)

Definition with_severity (P : Severity → bool) (alerts : list DiagnosticAlert) : Z :=
  Z.of_nat (length (filter (λ a, P (da_Severity a) = true) alerts)).

Definition is_sev (s : string) (v : Severity) : bool := bool_decide (v = s).

Definition other_sev (v : Severity) : bool := negb (is_sev "Critical" v) && negb (is_sev "Warning" v).

Lemma with_severity_snoc P l a : with_severity P (l ++ [a]) = with_severity P l + if P (da_Severity a) then 1 else 0.
Proof.
  unfold with_severity. rewrite filter_app, length_app, filter_cons, filter_nil.
  destruct (P (da_Severity a)); simpl; lia.
Qed.

Lemma tally_exact alerts : Z.of_nat (length alerts) < 2 ^ 63 →
  tally_alerts alerts = mkTally (with_severity (is_sev "Critical") alerts) (with_severity (is_sev "Warning") alerts)
    (with_severity other_sev alerts).
Proof.
  unfold tally_alerts. induction alerts as [|a l IH] using rev_ind; intros Hn; [done|].
  rewrite length_app in Hn. simpl in Hn. rewrite fold_left_app, IH by lia. simpl. rewrite !with_severity_snoc.
  assert (Hle : ∀ P, 0 <= with_severity P l <= Z.of_nat (length l)).
  { intros P. unfold with_severity. pose proof (length_filter (λ a, P (da_Severity a) = true) l). lia. }
  pose proof (Hle (is_sev "Critical")). pose proof (Hle (is_sev "Warning")). pose proof (Hle other_sev).
  unfold count_severity, is_sev, other_sev, is_sev in *.
  case_decide as Hc; [|case_decide as Hw]; rewrite ?Hc, ?Hw; simpl;
    repeat (rewrite bool_decide_false by congruence); simpl; rewrite !int64_id by solve_range; f_equal; lia.
Qed.

Lemma severity_rank_flip s : severity_rank s = 3 - severityRank s.
Proof. unfold severity_rank, severityRank, SeverityCritical, SeverityWarning, SeverityInfo. repeat case_decide; simpl; done. Qed.

(** The alert to show first of two: the later one only when it is more severe. *)
Definition pick (x y : DiagnosticAlert) : DiagnosticAlert :=
  if severity_rank (da_Severity x) <? severity_rank (da_Severity y) then y else x.

Lemma pick_assoc x y z : pick x (pick y z) = pick (pick x y) z.
Proof.
  unfold pick.
  destruct (Z.ltb_spec (severity_rank (da_Severity y)) (severity_rank (da_Severity z))),
    (Z.ltb_spec (severity_rank (da_Severity x)) (severity_rank (da_Severity y)));
    repeat match goal with |- context [?a <? ?b] => destruct (Z.ltb_spec a b) end; done || lia.
Qed.

Lemma head_ordered d rest :
  head (order_alerts (d :: rest)) = Some (match head (order_alerts rest) with Some y => pick d y | None => d end).
Proof.
  unfold order_alerts. simpl. destruct (insertion_sort _ rest) as [|y l]; [done|]. simpl. unfold pick.
  rewrite !severity_rank_flip. destruct (Z.leb_spec (severityRank (da_Severity d)) (severityRank (da_Severity y)));
    destruct (Z.ltb_spec (3 - severityRank (da_Severity d)) (3 - severityRank (da_Severity y))); simpl; done || lia.
Qed.

(** The dashboard starts with the alert that the controller's event names. *)
Lemma top_alert_first d rest : head (order_alerts (d :: rest)) = Some (top_alert d rest).
Proof.
  revert d. induction rest as [|e rest IH]; intros d; [done|]. rewrite head_ordered, head_ordered.
  unfold top_alert in *. simpl. fold (pick d e). rewrite <- IH, head_ordered.
  destruct (head (order_alerts rest)); [|done]. by rewrite pick_assoc.
Qed.

(** C40: The dashboard of a nonempty list shows, under the exact numbers per severity, every alert
    once, by falling severity and within one severity in the order given; it begins with the
    alert that the controller names as the top diagnostic of the run. *)
Theorem dashboard_shows_all `{Lipgloss} (d : DiagnosticAlert) (rest : list DiagnosticAlert) :
  let alerts := d :: rest in
  Z.of_nat (length alerts) < 2 ^ 63 →
  ∃ ordered, Render alerts = render_title
      +:+ render_tally (mkTally (with_severity (is_sev "Critical") alerts) (with_severity (is_sev "Warning") alerts)
                          (with_severity other_sev alerts))
      +:+ render_alerts ordered ∧
    ordered ≡ₚ alerts ∧
    StronglySorted (λ a b, severityRank (da_Severity a) <= severityRank (da_Severity b)) ordered ∧
    (∀ s, filter (λ a, severityRank (da_Severity a) = s) ordered = filter (λ a, severityRank (da_Severity a) = s) alerts) ∧
    ∃ best others, ordered = best :: others ∧ topDiagnostic alerts = da_Type best +:+ " (" +:+ da_Severity best +:+ ")".
Proof.
  intros alerts Hn. exists (order_alerts alerts). split_and!.
  - unfold Render, alerts at 1. by rewrite tally_exact.
  - apply insertion_sort_perm.
  - apply insertion_sort_sorted.
  - intros s. apply insertion_sort_stable.
  - pose proof (top_alert_first d rest) as Ht. fold alerts in Ht.
    destruct (order_alerts alerts) as [|best others]; [done|]. injection Ht as ->. by exists (top_alert d rest), others.
Qed.

#[local] Instance plain_style : Lipgloss := {| style_Render := λ _ s, s |}.

Lemma dashboard_shows_all_witness :
  ∃ ordered, ordered ≡ₚ [mkAlert "A" "Info" "a" ""; mkAlert "B" "Critical" "b" ""] ∧
    ∃ best others, ordered = best :: others ∧
      topDiagnostic [mkAlert "A" "Info" "a" ""; mkAlert "B" "Critical" "b" ""] = da_Type best +:+ " (" +:+ da_Severity best +:+ ")".
Proof.
  destruct (dashboard_shows_all (mkAlert "A" "Info" "a" "") [mkAlert "B" "Critical" "b" ""]) as (ordered & _ & Hp & _ & _ & Hb);
    [done|]. by exists ordered.
Defined.

(** The view ignores every other key, although its comment says that any key quits. *)
Lemma other_keys_ignored : Update (NewModel []) (KeyMsg "x") = (NewModel [], NoCmd).
Proof. reflexivity. Qed.
