(* ===== verification/Clients.v ===== *)
(** * The load generator's wire clients (internal/loadgen/client.go, h2client.go, grpcclient.go)

    A client issues one request per [Do] and keeps counters for the labels of the result.  Its
    methods are programs over calls to fasthttp, net/http, grpc-go, the file system and the
    client's own shared fields (atomic counters, the [sync.Once] of the KeepAlive connection);
    [handle] is the effect of those fields' operations, so that the workers of a phase, which
    share one client, are threads of [Interleave]. *)

From S2P Require Import Prelude GoText LoadPhase LoadConfig Collector Effects Interleave.

Open Scope Z_scope.

(** ** What the clients exchange with the libraries *)

(** crypto/tls.Config, the fields the code sets; [tlc_RootCAs] is the text of the bundle. *)
Record TLSClientConfig := mkTLSClient {
  tlc_MinVersion : Z;
  tlc_InsecureSkipVerify : bool;
  tlc_RootCAs : option string;
  tlc_NextProtos : list string
}.

Definition VersionTLS12 : Z := 771.

(** A fasthttp.Client. *)
Record h1Client := mkH1Client {
  h1_ReadTimeout : Duration;
  h1_WriteTimeout : Duration;
  h1_MaxIdemponentCallAttempts : Z;
  h1_TLSConfig : TLSClientConfig;
  h1_MaxConnDuration : Duration
}.

(** An http.Client over an http2.Transport. *)
Record h2Client := mkH2Client {
  h2_TLSClientConfig : TLSClientConfig;
  h2_AllowHTTP : bool;
  h2_isHTTPS : bool;
  h2_ReadIdleTimeout : Duration;
  h2_PingTimeout : Duration;
  h2_Timeout : Duration
}.

(** Transport credentials of a gRPC connection; [None] is cleartext. *)
Record grpcClient := mkGrpcClient {
  gr_target : string;
  gr_useTLS : bool;
  gr_creds : option TLSClientConfig
}.

(** A request; [rq_Close] is the Connection: close header (and [req.Close]). *)
Record Request := mkRequest {
  rq_Method : string;
  rq_URL : string;
  rq_Headers : gmap string string;
  rq_Close : bool
}.

(** The dynamic type of an error: the struct http2.GoAwayError, a pointer to one, or another.
    Both implement [error], since the method has a value receiver. *)
Inductive error_type :=
| GoAwayError
| PtrGoAwayError
| OtherError (name : string).

#[export] Instance error_type_eq_dec : EqDecision error_type.
Proof. solve_decision. Defined.

(** [errors.As] with a target of type [*T]: some error of the chain has type [T], a pointer and
    the struct it points to being different types. *)
Fixpoint errors_As (T : error_type) (chain : list error_type) : bool :=
  match chain with
  | [] => false
  | e :: chain => if decide (e = T) then true else errors_As T chain
  end.

(** What [http.Client.Do] does: the GotConn callbacks it made, by their Reused flag, then its
    reply; [rt_chain] are the types of the errors one finds unwrapping the error of the reply. *)
Record RoundTrip := mkRoundTrip {
  rt_trace : list bool;
  rt_chain : list error_type;
  rt_reply : reply
}.

(** google.golang.org/grpc/codes. *)
Inductive Code :=
| OK_ | Canceled | Unknown | InvalidArgument | DeadlineExceeded | NotFound_ | AlreadyExists
| PermissionDenied | ResourceExhausted | FailedPrecondition | Aborted | OutOfRange
| Unimplemented | Internal | Unavailable | DataLoss | Unauthenticated
| OtherCode (n : Z).

Inductive ServingStatus := UNKNOWN | SERVING | NOT_SERVING | SERVICE_UNKNOWN.

(** The stats.Handler callbacks of an RPC: of the RPC itself and of connections. *)
Inductive stats_event :=
| RPCBegin
| OtherRPC
| ConnBegin
| OtherConn.

(** How a Health/Check ends: with a response, or with an error, of which [status.FromError]
    finds the code or nothing. *)
Inductive check_result :=
| Checked (status : ServingStatus)
| CheckFailed (code : option Code) (e : dispatch_error).

Definition conn := nat.

Inductive dialed :=
| Dialed (c : conn)
| DialFailed (e : dispatch_error).

Inductive counter := Conns | Streams | GoAways.

#[export] Instance counter_eq_dec : EqDecision counter.
Proof. solve_decision. Defined.

(** ** Calls *)

Inductive ccall :=
| CReadFile (path : string)
| CDoTimeout (c : h1Client) (r : Request) (timeout : Duration)
| CRoundTrip (c : h2Client) (r : Request)
| CDrainBody
| CCloseBody
| CNetDial (network addr : string)
| CHandshake (c : conn) (t : TLSClientConfig)
| CCloseConn (c : conn)
| CNewClient (g : grpcClient)
| CCheck (c : conn) (service : string) (timeout : Duration)
| CCloseClient (c : conn)
| COnceBegin
| COnceEnd (d : dialed)
| CAdd (k : counter) (delta : Z)
| CLoad (k : counter).

(** [COnceBegin] answers [None] to the goroutine that is to run the function of the Once, and
    what that function left behind to all others. *)
Definition canswer (c : ccall) : Type :=
  match c with
  | CReadFile _ => res string
  | CDoTimeout _ _ _ => reply
  | CRoundTrip _ _ => RoundTrip
  | CNetDial _ _ => dialed
  | CHandshake _ _ => option dispatch_error
  | CNewClient _ => dialed
  | CCheck _ _ _ => list stats_event * check_result
  | COnceBegin => option dialed
  | CLoad _ => Z
  | CDrainBody | CCloseBody | CCloseConn _ | CCloseClient _ | COnceEnd _ | CAdd _ _ => unit
  end.

Notation CM := (prog canswer).

(** Whether a PEM text holds a certificate (x509.CertPool). *)
Class CertPool := { AppendCertsFromPEM : string → bool }.

Section clients.
Context `{NetHttp, CertPool}.

Definition buildTLSConfig (cfg : GenConfig) : CM (res TLSClientConfig) :=
  let path := gc_TLSCABundlePath cfg in
  let t := mkTLSClient VersionTLS12 (gc_TLSInsecureSkipVerify cfg) None [] in
  if decide (path = "") then mret (Ok t)
  else
    pem ← call (CReadFile path);
    match pem with
    | Err e => mret (Err (wrapf ("read TLS CA bundle " +:+ path) e))
    | Ok pem =>
        if negb (AppendCertsFromPEM pem) then
          mret (Err (errorf ("TLS CA bundle " +:+ path +:+ " contained no valid PEM certificates")))
        else mret (Ok (mkTLSClient (tlc_MinVersion t) (tlc_InsecureSkipVerify t) (Some pem) []))
    end.

(** ** HTTP/1 *)

Definition newH1Client (cfg : GenConfig) : CM (res h1Client) :=
  t ← buildTLSConfig cfg;
  match t with
  | Err e => mret (Err e)
  | Ok tlsCfg =>
      let maxConn := if decide (gc_ConnectionMode cfg = ShortLived) then 1 else 0 in
      mret (Ok (mkH1Client (gc_Timeout cfg) (gc_Timeout cfg) 1 tlsCfg maxConn))
  end.

Definition request_of (cfg : GenConfig) : Request :=
  mkRequest (gc_Method cfg) (gc_URL cfg) (gc_Headers cfg) (bool_decide (gc_ConnectionMode cfg = ShortLived)).

Definition h1_Do (cfg : GenConfig) (h : h1Client) : CM reply :=
  call (CDoTimeout h (request_of cfg) (gc_Timeout cfg)).

Definition h1_Stats : CM ClientStats := mret (mkClientStats 0 0 0).

(** ** HTTP/2 *)

Definition newH2Client (cfg : GenConfig) : CM (res h2Client) :=
  t ← buildTLSConfig cfg;
  match t with
  | Err e => mret (Err e)
  | Ok t =>
      let tlsCfg := mkTLSClient (tlc_MinVersion t) (tlc_InsecureSkipVerify t) (tlc_RootCAs t) ["h2"] in
      mret (Ok (mkH2Client tlsCfg true (HasPrefix (gc_URL cfg) "https://")
                  (gc_Timeout cfg) (gc_Timeout cfg) (gc_Timeout cfg)))
  end.

(** The transport's DialTLSContext. *)
Definition h2_dial (h : h2Client) (network addr : string) (dialCfg : TLSClientConfig) : CM dialed :=
  d ← call (CNetDial network addr);
  match d with
  | DialFailed e => mret (DialFailed e)
  | Dialed c =>
      if negb (h2_isHTTPS h) then mret (Dialed c)
      else
        e ← call (CHandshake c dialCfg);
        match e with
        | Some e => _ ← call (CCloseConn c); mret (DialFailed e)
        | None => mret (Dialed c)
        end
  end.

(** The GotConn callbacks of the trace. *)
Fixpoint got_conns (trace : list bool) : CM unit :=
  match trace with
  | [] => mret tt
  | reused :: rest =>
      _ ← call (CAdd Streams 1);
      if negb reused then _ ← call (CAdd Conns 1); got_conns rest else got_conns rest
  end.

Definition h2_Do (cfg : GenConfig) (h : h2Client) : CM reply :=
  match http_NewRequest (gc_Method cfg) (gc_URL cfg) with
  | Err e => mret (GotError (mkDispatchError false false ("build h2 request: " +:+ err_text e)))
  | Ok _ =>
      t ← call (CRoundTrip h (request_of cfg));
      _ ← got_conns (rt_trace t);
      match rt_reply t with
      | GotError e =>
          if errors_As PtrGoAwayError (rt_chain t) then _ ← call (CAdd GoAways 1); mret (GotError e) else mret (GotError e)
      | GotStatus code => _ ← call CDrainBody; _ ← call CCloseBody; mret (GotStatus code)
      end
  end.

Definition h2_Stats : CM ClientStats :=
  g ← call (CLoad GoAways); c ← call (CLoad Conns); s ← call (CLoad Streams);
  mret (mkClientStats g c s).

(** ** gRPC *)

Definition HandleRPC (e : stats_event) : CM unit :=
  match e with RPCBegin => call (CAdd Streams 1) | _ => mret tt end.

Definition HandleConn (e : stats_event) : CM unit :=
  match e with ConnBegin => call (CAdd Conns 1) | _ => mret tt end.

(** grpc-go hands the events of RPCs and of connections to the respective hook. *)
Fixpoint stats_callbacks (es : list stats_event) : CM unit :=
  match es with
  | [] => mret tt
  | e :: rest =>
      _ ← match e with RPCBegin | OtherRPC => HandleRPC e | ConnBegin | OtherConn => HandleConn e end;
      stats_callbacks rest
  end.

Definition newGRPCClient (cfg : GenConfig) : CM (res grpcClient) :=
  match url_Parse (gc_URL cfg) with
  | Err e => mret (Err (wrapf "parse url" e))
  | Ok (scheme, host) =>
      if decide (host = "") then
        mret (Err (errorf ("grpc target missing host:port in url " +:+ quote (gc_URL cfg))))
      else if EqualFold scheme "https" then
        t ← buildTLSConfig cfg;
        match t with
        | Err e => mret (Err e)
        | Ok tlsCfg => mret (Ok (mkGrpcClient host true (Some tlsCfg)))
        end
      else mret (Ok (mkGrpcClient host false None))
  end.

Definition dial (g : grpcClient) : CM dialed := call (CNewClient g).

Definition grpcStatusToHTTP (c : Code) : Z :=
  match c with
  | OK_ => 200
  | Canceled => 499
  | InvalidArgument | OutOfRange => 400
  | Unauthenticated => 401
  | PermissionDenied => 403
  | NotFound_ => 404
  | AlreadyExists | Aborted => 409
  | FailedPrecondition => 412
  | ResourceExhausted => 429
  | Internal | DataLoss | Unknown => 500
  | Unimplemented => 501
  | Unavailable => 503
  | DeadlineExceeded => 504
  | OtherCode _ => 500
  end.

Definition check_reply (r : check_result) : reply :=
  match r with
  | CheckFailed (Some code) _ => GotStatus (grpcStatusToHTTP code)
  | CheckFailed None e => GotError e
  | Checked SERVING => GotStatus 200
  | Checked _ => GotStatus 503
  end.

(** The RPC on a connection, and the classification of its outcome. *)
Definition grpc_check (cfg : GenConfig) (c : conn) : CM reply :=
  r ← call (CCheck c (gc_GRPCService cfg) (gc_Timeout cfg));
  _ ← stats_callbacks r.1;
  mret (check_reply r.2).

(** The connection of KeepAlive runs, dialed by the first request. *)
Definition keepalive_conn (g : grpcClient) : CM dialed :=
  o ← call COnceBegin;
  match o with
  | Some d => mret d
  | None => d ← dial g; _ ← call (COnceEnd d); mret d
  end.

Definition grpc_Do (cfg : GenConfig) (g : grpcClient) : CM reply :=
  if decide (gc_ConnectionMode cfg = ShortLived) then
    d ← dial g;
    match d with
    | DialFailed e =>
        mret (GotError (mkDispatchError (de_fasthttp_timeout e) (de_deadline e) ("grpc dial: " +:+ de_text e)))
    | Dialed c => r ← grpc_check cfg c; _ ← call (CCloseClient c); mret r
    end
  else
    d ← keepalive_conn g;
    match d with
    | DialFailed e => mret (GotError e)
    | Dialed c => grpc_check cfg c
    end.

Definition grpc_Stats : CM ClientStats :=
  c ← call (CLoad Conns); s ← call (CLoad Streams);
  mret (mkClientStats 0 c s).

(** ** The dispatcher *)

Record protocolClient := mkProtocolClient { pc_Do : CM reply; pc_Stats : CM ClientStats }.

Definition newProtocolClient (cfg : GenConfig) : CM (res protocolClient) :=
  if decide (gc_Protocol cfg = "" ∨ gc_Protocol cfg = "HTTP1") then
    c ← newH1Client cfg;
    match c with Err e => mret (Err e) | Ok h => mret (Ok (mkProtocolClient (h1_Do cfg h) h1_Stats)) end
  else if decide (gc_Protocol cfg = "HTTP2") then
    c ← newH2Client cfg;
    match c with Err e => mret (Err e) | Ok h => mret (Ok (mkProtocolClient (h2_Do cfg h) h2_Stats)) end
  else if decide (gc_Protocol cfg = "GRPC") then
    c ← newGRPCClient cfg;
    match c with Err e => mret (Err e) | Ok g => mret (Ok (mkProtocolClient (grpc_Do cfg g) grpc_Stats)) end
  else mret (Err (errorf ("unknown protocol " +:+ quote (gc_Protocol cfg)))).

(** [loadgen.New]: the generator's configuration and client; [None] is the panic of the
    defaults. *)
Definition New (cfg : GenConfig) : CM (option (res (GenConfig * protocolClient))) :=
  match Validate cfg with
  | Err e => mret (Some (Err e))
  | Ok _ =>
      match withDefaults cfg with
      | None => mret None
      | Some cfg =>
          c ← newProtocolClient cfg;
          match c with
          | Err e => mret (Some (Err (wrapf "build client" e)))
          | Ok client => mret (Some (Ok (cfg, client)))
          end
      end
  end.

(** ** The shared fields of a client *)

Inductive once := OnceNew | OnceRunning | OnceDone (d : dialed).

Record shared := mkShared { sh_Conns : Z; sh_Streams : Z; sh_GoAways : Z; sh_once : once }.

Definition newShared : shared := mkShared 0 0 0 OnceNew.

Definition value (k : counter) (s : shared) : Z :=
  match k with Conns => sh_Conns s | Streams => sh_Streams s | GoAways => sh_GoAways s end.

(** [atomicCounter.Add]. *)
Definition atomic_add (k : counter) (delta : Z) (s : shared) : shared :=
  let bump j v := if decide (j = k) then (v ⊕ delta)%go else v in
  mkShared (bump Conns (sh_Conns s)) (bump Streams (sh_Streams s)) (bump GoAways (sh_GoAways s)) (sh_once s).

Definition set_once (o : once) (s : shared) : shared :=
  mkShared (sh_Conns s) (sh_Streams s) (sh_GoAways s) o.

(** A second goroutine that reaches the Once while its function runs has no step: it waits. *)
Definition handle (s : shared) (c : ccall) : canswer c → shared → Prop :=
  match c with
  | COnceBegin => λ r s',
      match sh_once s with
      | OnceNew => r = None ∧ s' = set_once OnceRunning s
      | OnceRunning => False
      | OnceDone d => r = Some d ∧ s' = s
      end
  | COnceEnd d => λ _ s', s' = set_once (OnceDone d) s
  | CAdd k delta => λ _ s', s' = atomic_add k delta s
  | CLoad k => λ r s', r = value k s ∧ s' = s
  | _ => λ _ s', s' = s
  end.

(** What a worker does with the client: one request after the other. *)
Fixpoint requests (n : nat) (p : CM reply) : CM (list reply) :=
  match n with
  | O => mret []
  | S n => r ← p; rs ← requests n p; mret (r :: rs)
  end.
End clients.

(** ** The HTTP/2 counters lose nothing

    Whatever the interleaving of the workers. *)

(** The round trips of a trace of calls. *)
Definition round_trip (e : event canswer) : option RoundTrip :=
  match e with
  | Ev c r => match c as c return canswer c → option RoundTrip with
              | CRoundTrip _ _ => λ t, Some t
              | _ => λ _, None
              end r
  end.

(** The round trip failed with an error in whose chain there is one of type [T]. *)
Definition failed_with (T : error_type) (t : RoundTrip) : bool :=
  match rt_reply t with GotError _ => bool_decide (T ∈ rt_chain t) | GotStatus _ => false end.

Lemma errors_As_in T chain : errors_As T chain = bool_decide (T ∈ chain).
Proof.
  induction chain as [|e chain IH]; simpl; [done|]. rewrite IH.
  symmetry. destruct (decide (e = T)) as [->|He]; [apply bool_decide_eq_true_2; by left|].
  apply bool_decide_ext. rewrite elem_of_cons. naive_solver.
Qed.

(** The Reused flags of all GotConn callbacks. *)
Definition got_conn_flags (h : history canswer) : list bool := concat (rt_trace <$> omap round_trip h).

Definition count {A} (P : A → bool) (l : list A) : Z := Z.of_nat (length (filter (λ x, P x = true) l)).

Lemma count_cons {A} (P : A → bool) x l : count P (x :: l) = (if P x then 1 else 0) + count P l.
Proof. unfold count. rewrite filter_cons. case_decide as Hx; rewrite ?Hx; destruct (P x); simpl; done || lia. Qed.

Lemma count_app {A} (P : A → bool) l k : count P (l ++ k) = count P l + count P k.
Proof. unfold count. rewrite filter_app, length_app. lia. Qed.

(** What the callbacks of one round trip add to a counter. *)
Definition callbacks_owe (k : counter) (trace : list bool) : Z :=
  match k with Streams => count (λ _, true) trace | Conns => count negb trace | GoAways => 0 end.

Definition owed_to (k : counter) (c : ccall) : canswer c → Z :=
  match c with
  | CRoundTrip _ _ => λ t, callbacks_owe k (rt_trace t) + if failed_with PtrGoAwayError t then if decide (k = GoAways) then 1 else 0 else 0
  | _ => λ _, 0
  end.

Definition paid_to (k : counter) (c : ccall) : Z :=
  match c with CAdd j delta => if decide (k = j) then delta else 0 | _ => 0 end.

Lemma counters_handled k s c r s' : handle s c r s' →
  value k s' = int64 (value k s + paid_to k c) ∨ (value k s' = value k s ∧ paid_to k c = 0).
Proof.
  destruct c; simpl; intros Hh; try (right; by subst); try (right; naive_solver).
  - right. destruct (sh_once s); naive_solver.
  - subst s'. case_decide as Hk; [left; subst k0|right; split; [|done]];
      destruct k; simpl; rewrite ?decide_True by done; try done; by rewrite decide_False.
Qed.

Lemma callbacks_owe_cons k reused trace : callbacks_owe k (reused :: trace)
  = (if decide (k = Streams) then 1 else 0) + (if reused then 0 else if decide (k = Conns) then 1 else 0)
    + callbacks_owe k trace.
Proof. destruct k, reused; simpl; rewrite ?count_cons; simpl; lia. Qed.

Lemma callbacks_owe_app k l l' : callbacks_owe k (l ++ l') = callbacks_owe k l + callbacks_owe k l'.
Proof. destruct k; simpl; rewrite ?count_app; lia. Qed.

Lemma owes_got_conns k trace : owes (owed_to k) (paid_to k) (callbacks_owe k trace) (got_conns trace).
Proof.
  induction trace as [|reused trace IH]; [by destruct k|]. simpl. intros [].
  rewrite callbacks_owe_cons. destruct reused; simpl; [|intros []]; eapply owes_eq; [exact IH|lia|exact IH|lia].
Qed.

Lemma owes_requests k n p : owes (owed_to k) (paid_to k) 0 p → owes (owed_to k) (paid_to k) 0 (requests n p).
Proof.
  intros Hp. induction n as [|n IH]; [done|]. simpl. apply (owes_bind _ _ 0 0); [done|]. intros r.
  by apply (owes_bind _ _ 0 0).
Qed.

Lemma owes_h2_Do `{NetHttp} k cfg h : owes (owed_to k) (paid_to k) 0 (h2_Do cfg h).
Proof.
  unfold h2_Do. destruct (http_NewRequest _ _); [|done]. intros t. cbn [owed_to paid_to].
  set (g := if failed_with PtrGoAwayError t then _ else _).
  eapply owes_eq; [apply (owes_bind _ _ (callbacks_owe k (rt_trace t)) g); [apply owes_got_conns|]|lia].
  intros []. subst g. unfold failed_with. rewrite errors_As_in.
  destruct (rt_reply t) as [code|e]; [simpl; intros; lia|].
  case_bool_decide; simpl; intros; try (destruct (decide (k = GoAways))); lia.
Qed.

Lemma total_owed_got k h : total_owed (owed_to k) h
  = callbacks_owe k (got_conn_flags h) + if decide (k = GoAways) then count (failed_with PtrGoAwayError) (omap round_trip h) else 0.
Proof.
  unfold got_conn_flags. induction h as [|[c r] h IH]; [by destruct k|].
  change (omap round_trip (Ev c r :: h))
    with (match round_trip (Ev c r) with Some t => t :: omap round_trip h | None => omap round_trip h end).
  cbn [total_owed]. rewrite IH. destruct c; cbn [round_trip owed_to]; try lia.
  rewrite count_cons, fmap_cons. cbn [concat]. rewrite callbacks_owe_app.
  destruct (failed_with PtrGoAwayError r); case_decide; lia.
Qed.

(** The counters of a finished run, from its trace. *)
Section h2_run.
Context `{NetHttp} (cfg : GenConfig) (h : h2Client) (ns : list nat) (cf : conf canswer shared (list reply)).
Context (Hr : rtc (cstep handle) (mkConf newShared ((λ n, requests n (h2_Do cfg h)) <$> ns) []) cf).
Context (Hf : finished cf).

Lemma h2_counter k : value k (cf_state cf) = int64 (total_owed (owed_to k) (cf_trace cf)).
Proof.
  eapply (ledger_exact handle (value k) (owed_to k) (paid_to k)); [..|exact Hr|done].
  - apply counters_handled.
  - by destruct k.
  - apply Forall_fmap, Forall_true. intros n. apply owes_requests, owes_h2_Do.
Qed.

Lemma h2_goaways :
  sh_GoAways (cf_state cf) = int64 (count (failed_with PtrGoAwayError) (omap round_trip (cf_trace cf))).
Proof. change (sh_GoAways _) with (value GoAways (cf_state cf)). by rewrite h2_counter, total_owed_got. Qed.

(** golang.org/x/net/http2 returns its GoAwayErrors by value.  Then none of them is counted,
    however many requests fail with one. *)
Lemma h2_goaways_missed :
  Forall (λ t, PtrGoAwayError ∉ rt_chain t) (omap round_trip (cf_trace cf)) → sh_GoAways (cf_state cf) = 0.
Proof.
  intros Hval. rewrite h2_goaways. induction Hval as [|t l Ht _ IH]; [done|]. rewrite count_cons.
  assert (failed_with PtrGoAwayError t = false) as ->; [|done].
  unfold failed_with. destruct (rt_reply t); [done|]. by rewrite bool_decide_eq_false.
Qed.
End h2_run.

Lemma length_count {A} (l : list A) : Z.of_nat (length l) = count (λ _, true) l.
Proof. induction l as [|x l IH]; [done|]. rewrite count_cons, <- IH. simpl. lia. Qed.

(** C23: Whatever the interleaving of any number of workers that share one HTTP/2 client, each
    issuing any number of requests, the counters that end up in the labels of the result lose
    nothing: streams is the number of GotConn callbacks, connections the number of those whose
    connection was not reused, GOAWAYs the number of requests that failed with an error in whose
    chain there is a pointer to a GoAwayError, which is what errors.As is asked for.  (An error
    that is the GoAwayError itself is not counted: [h2_goaways_missed].) *)
Theorem h2_stats_exact `{NetHttp} (cfg : GenConfig) (h : h2Client) (ns : list nat) (cf : conf canswer shared (list reply)) :
  rtc (cstep handle) (mkConf newShared ((λ n, requests n (h2_Do cfg h)) <$> ns) []) cf → finished cf →
  let flags := got_conn_flags (cf_trace cf) in
  sh_Streams (cf_state cf) = int64 (Z.of_nat (length flags)) ∧
  sh_Conns (cf_state cf) = int64 (count negb flags) ∧
  sh_GoAways (cf_state cf) = int64 (count (failed_with PtrGoAwayError) (omap round_trip (cf_trace cf))).
Proof.
  intros Hr Hf. pose proof (h2_counter cfg h ns cf Hr Hf) as Hall. setoid_rewrite total_owed_got in Hall.
  split_and!; [| |by eapply h2_goaways].
  - rewrite (Hall Streams : sh_Streams _ = _), length_count. simpl. f_equal. lia.
  - rewrite (Hall Conns : sh_Conns _ = _). simpl. f_equal. lia.
Qed.

(** ** The gRPC connections *)

(** The connections a trace of calls dialed, closed and made RPCs on, the latest first. *)
Definition dialed_of (e : event canswer) : option dialed :=
  match e with
  | Ev c r => match c as c return canswer c → option dialed with CNewClient _ => Some | _ => λ _, None end r
  end.

Definition closed_of (e : event canswer) : option conn :=
  match ev_call e with CCloseClient c => Some c | _ => None end.

Definition checked_of (e : event canswer) : option (conn * check_result) :=
  match e with
  | Ev c r => match c as c return canswer c → option (conn * check_result) with
              | CCheck c _ _ => λ r, Some (c, r.2)
              | _ => λ _, None
              end r
  end.

Definition dials (h : history canswer) : list dialed := omap dialed_of h.

Definition closes (h : history canswer) : list conn := omap closed_of h.

Definition checks (h : history canswer) : list (conn * check_result) := omap checked_of h.

(** The target answered that it serves. *)
Definition healthy_check (r : check_result) : bool :=
  match r with Checked SERVING | CheckFailed (Some OK_) _ => true | _ => false end.

Lemma check_reply_failure r t : failure_of (check_reply r, t) = None ↔ healthy_check r = true.
Proof. destruct r as [[]|[[]|] e]; simpl; split; done. Qed.

(** Calls that neither dial, close nor check. *)
Definition quiet (c : ccall) : Prop :=
  match c with CNewClient _ | CCloseClient _ | CCheck _ _ _ => False | _ => True end.

Lemma stats_callbacks_quiet es : only_calls (C:=ccall) (R:=canswer) quiet (stats_callbacks es).
Proof.
  induction es as [|e es IH]; [done|]. simpl. apply only_calls_bind; [|done]. by destruct e.
Qed.

Lemma quiet_events l : Forall (λ e : event canswer, quiet (ev_call e)) l → dials l = [] ∧ closes l = [] ∧ checks l = [].
Proof.
  induction 1 as [|[c r] l Hc _ (Hd & Hcl & Hch)]; [done|].
  unfold dials, closes, checks in *. simpl. by destruct c.
Qed.

(** What one request adds to the trace. *)
Definition request_trace (mode : string) (l : history canswer) (r : reply) : Prop :=
  (checks l = [] ∧ closes l = [] ∧ ∃ e, r = GotError e) ∨
  (∃ c res, checks l = [(c, res)] ∧ r = check_reply res ∧
     if decide (mode = ShortLived) then dials l = [Dialed c] ∧ closes l = [c] ∧ (∃ rest, l = Ev (CCloseClient c) () :: rest)
     else closes l = []).

Lemma returns_callbacks es h (Q : history canswer → unit → Prop) :
  (∀ l u, dials l = [] → closes l = [] → checks l = [] → Q (l ++ h) u) → returns (stats_callbacks es) h Q.
Proof.
  intros HQ. apply (wp_only_calls _ _ quiet); [done|apply stats_callbacks_quiet|].
  intros l u _ Hl. destruct (quiet_events l Hl) as (? & ? & ?). by apply HQ.
Qed.

Lemma omap_cons_app {A B} (f : A → option B) l x k : omap f (l ++ x :: k) = omap f l ++ option_list (f x) ++ omap f k.
Proof. rewrite omap_app. simpl. by destruct (f x). Qed.

Lemma grpc_Do_trace cfg g h :
  returns (grpc_Do cfg g) h (λ h' r, ∃ l, h' = l ++ h ∧ request_trace (gc_ConnectionMode cfg) l r).
Proof.
  assert (Hkeep : ∀ l0 c, dials l0 = [] ∨ True → closes l0 = [] → checks l0 = [] → gc_ConnectionMode cfg ≠ ShortLived →
    returns (grpc_check cfg c) (l0 ++ h)
      (λ h' r, ∃ l, h' = l ++ h ∧ request_trace (gc_ConnectionMode cfg) l r)).
  { intros l0 c _ Hcl Hch Hm. unfold grpc_check. apply wp_call; [done|]. intros [es res] _. apply wp_bind.
    apply returns_callbacks. intros l [] Hd' Hcl' Hch'. simpl.
    exists (l ++ Ev (CCheck c (gc_GRPCService cfg) (gc_Timeout cfg)) (es, res) :: l0).
    split; [by rewrite <- app_assoc|]. right. exists c, res. rewrite decide_False by done.
    unfold checks, closes in *. rewrite !omap_cons_app, Hch, Hch', Hcl, Hcl'. done. }
  unfold grpc_Do. case_decide as Hm.
  - unfold dial. apply wp_call; [done|]. intros [c|e] _.
    + apply wp_bind. unfold grpc_check. apply wp_call; [done|]. intros [es res] _. apply wp_bind.
      apply returns_callbacks. intros l [] Hd Hcl Hch. apply wp_call; [done|]. intros [] _. simpl.
      exists (Ev (CCloseClient c) () :: l ++ [Ev (CCheck c (gc_GRPCService cfg) (gc_Timeout cfg)) (es, res);
                                              Ev (CNewClient g) (Dialed c)]).
      split; [simpl; by rewrite <- app_assoc|]. right. exists c, res. rewrite decide_True by done.
      unfold dials, checks, closes in *. simpl. rewrite !omap_cons_app, Hd, Hch, Hcl. naive_solver.
    + exists [Ev (CNewClient g) (DialFailed e)]. split; [done|]. left. split_and!; [done..|]. by eexists.
  - apply wp_bind. unfold keepalive_conn. apply wp_call; [done|]. intros [[c|e]|] _; simpl.
    + apply (Hkeep [Ev COnceBegin (Some (Dialed c))]); [by right|done..].
    + exists [Ev COnceBegin (Some (DialFailed e))]. split; [done|]. left. split_and!; [done..|]. by eexists.
    + split; [done|]. intros d _. split; [done|]. intros [] _. destruct d as [c|e].
      * apply (Hkeep [Ev (COnceEnd (Dialed c)) (); Ev (CNewClient g) (Dialed c); Ev COnceBegin None]); [by right|done..].
      * exists [Ev (COnceEnd (DialFailed e)) (); Ev (CNewClient g) (DialFailed e); Ev COnceBegin None].
        split; [done|]. left. split_and!; [done..|]. by eexists.
Qed.

(** The connections among the results of dialing. *)
Definition connections (ds : list dialed) : list conn :=
  omap (λ d, match d with Dialed c => Some c | DialFailed _ => None end) ds.

(** C24: One gRPC request makes at most one Health/Check, and counts as a success for the collector
    exactly when the target answered that it serves, whatever the mode and the failures along the
    way.  A ShortLived request closes the connection it made, after the check; a KeepAlive one
    closes nothing. *)
Theorem grpc_request_outcome (cfg : GenConfig) (g : grpcClient) (h h' : history canswer) (r : reply) (t : Time) :
  runs (grpc_Do cfg g) h h' r →
  ∃ l, h' = l ++ h ∧ (length (checks l) <= 1)%nat ∧
    (failure_of (r, t) = None ↔ ∃ c res, checks l = [(c, res)] ∧ healthy_check res = true) ∧
    (∀ c res, checks l = [(c, res)] → gc_ConnectionMode cfg = ShortLived →
       dials l = [Dialed c] ∧ closes l = [c] ∧ ∃ rest, l = Ev (CCloseClient c) () :: rest) ∧
    (gc_ConnectionMode cfg ≠ ShortLived → closes l = []).
Proof.
  intros Hr. destruct (returns_runs _ _ _ _ _ Hr (grpc_Do_trace cfg g h)) as (l & -> & Hl).
  exists l. split; [done|]. destruct Hl as [(Hch & Hcl & e & ->)|(c & res & Hch & -> & Hm)]; rewrite Hch.
  - split_and!; [simpl; lia| |by intros|done]. split; [done|]. by intros (? & ? & ? & _).
  - rewrite check_reply_failure. split_and!; [simpl; lia| | |].
    + split; [intros ?; by exists c, res|by intros (? & ? & [= <- <-] & ?)].
    + intros ? ? [= <- <-] Hs. by rewrite decide_True in Hm.
    + intros Hs. by rewrite decide_False in Hm.
Qed.

(** A non-OK outcome of the RPC reaches the collector as a status whenever it carries a gRPC code:
    no such failure, a refused connection included, is an error of the transport taxonomy. *)
Lemma grpc_codes_become_statuses code e : ∃ status, check_reply (CheckFailed (Some code) e) = GotStatus status
  ∧ 200 <= status <= 504.
Proof. exists (grpcStatusToHTTP code). split; [done|]. destruct code; vm_compute; split; discriminate. Qed.

(** ** The KeepAlive connection is dialed once

    The [sync.Once] protocol as a condition on what a thread has left to do: outside the Once,
    knowing what it left behind or not; inside before the dial; inside after it. *)
Inductive stage :=
| Outside (known : option dialed)
| Inside
| Dialing (d : dialed).

Fixpoint follows {B} (st : stage) (p : CM B) : Prop :=
  match p with
  | Ret _ => match st with Outside _ => True | _ => False end
  | Call c k =>
      match c as c return (canswer c → CM B) → Prop with
      | COnceBegin => λ k, match st with
          | Outside _ => follows Inside (k None) ∧ ∀ d, follows (Outside (Some d)) (k (Some d))
          | _ => False end
      | CNewClient _ => λ k, match st with Inside => ∀ d, follows (Dialing d) (k d) | _ => False end
      | COnceEnd d' => λ k, match st with
          | Dialing d => d' = d ∧ follows (Outside (Some d)) (k tt) | _ => False end
      | CCheck c _ _ => λ k, match st with
          | Outside (Some (Dialed c')) => c = c' ∧ ∀ r, follows st (k r) | _ => False end
      | CCloseClient _ => λ _, False
      | _ => λ k, match st with Outside _ => ∀ r, follows st (k r) | _ => False end
      end k
  end.

Lemma follows_bind {B D} st (p : CM B) (f : B → CM D) :
  follows st p → (∀ known b, follows (Outside known) (f b)) → follows st (p ≫= f).
Proof.
  intros Hp Hf. revert st Hp. induction p as [b|c k IH]; intros st Hp; simpl in *; [by destruct st|].
  destruct c; simpl in *; try done; destruct st as [[[c'|]|]| |]; try done;
    try (intros ?; by apply IH); destruct Hp as [Heq Hp]; (split; [by first [done|apply IH]|]); try (intros ?); by apply IH.
Qed.

Lemma follows_check known cfg c :
  known = Some (Dialed c) → follows (Outside known) (grpc_check cfg c).
Proof.
  intros ->. unfold grpc_check. split; [done|]. intros [es res]. simpl.
  induction es as [|e es IH]; [done|]. destruct e; first [exact IH|intros []; exact IH].
Qed.

Lemma follows_grpc_Do known cfg g : gc_ConnectionMode cfg ≠ ShortLived → follows (Outside known) (grpc_Do cfg g).
Proof.
  intros Hm. unfold grpc_Do. rewrite decide_False by done. simpl. split.
  - intros d. split; [done|]. destruct d; [by apply follows_check|done].
  - intros [c|e]; [by apply follows_check|done].
Qed.

Lemma follows_requests known n p : (∀ known, follows (Outside known) p) → follows (Outside known) (requests n p).
Proof.
  intros Hp. revert known. induction n as [|n IH]; intros known; [done|]. simpl.
  apply follows_bind; [done|]. intros known' r. by apply follows_bind.
Qed.

(** A thread outside the Once that knows at most what it left behind. *)
Definition outside {B} (o : once) (p : CM B) : Prop :=
  follows (Outside None) p ∨ ∃ d, o = OnceDone d ∧ follows (Outside (Some d)) p.

(** An event that neither dials nor closes, and checks only the connection of the Once. *)
Definition harmless (o : once) (e : event canswer) : Prop :=
  dialed_of e = None ∧ closed_of e = None ∧ ∀ c res, checked_of e = Some (c, res) → o = OnceDone (Dialed c).

(** Its step: into the Once, or one that leaves the Once as it was. *)
Lemma outside_step {B} s c (k : canswer c → CM B) r s' :
  outside (sh_once s) (Call c k) → handle s c r s' →
  harmless (sh_once s) (Ev c r) ∧
  ((sh_once s = OnceNew ∧ sh_once s' = OnceRunning ∧ follows Inside (k r)) ∨
   (sh_once s' = sh_once s ∧ outside (sh_once s) (k r))).
Proof.
  intros Hp Hh. unfold harmless, outside in *.
  destruct c; simpl in *; try (by destruct Hp as [?|(? & ? & ?)]);
    try (split; [done|right; split; [naive_solver|destruct Hp as [Hp|(d & Hd & Hp)]; [by left|by right; exists d]]]).
  - destruct Hp as [?|([c'|] & Ho & Hp)]; [done| |done]. destruct Hp as [-> Hp].
    split; [split_and!; naive_solver|]. right. split; [by subst|]. right. by eexists.
  - split; [done|]. destruct (sh_once s) as [| |d] eqn:Ho; [left|done|right]; destruct Hh as [-> ->].
    + destruct Hp as [[Hp _]|(d & ? & _)]; [|done]. done.
    + split; [done|]. right. exists d. split; [done|]. destruct Hp as [[_ Hp]|(d' & [= <-] & [_ Hp])]; apply Hp.
Qed.

Definition keepalive_inv {B} (cf : conf canswer shared B) : Prop :=
  let o := sh_once (cf_state cf) in
  closes (cf_trace cf) = [] ∧ (∀ c res, (c, res) ∈ checks (cf_trace cf) → o = OnceDone (Dialed c)) ∧
  match o with
  | OnceNew => Forall (outside o) (cf_threads cf) ∧ dials (cf_trace cf) = []
  | OnceRunning => ∃ i p, cf_threads cf !! i = Some p ∧
      ((follows Inside p ∧ dials (cf_trace cf) = []) ∨ ∃ d, follows (Dialing d) p ∧ dials (cf_trace cf) = [d]) ∧
      ∀ j q, j ≠ i → cf_threads cf !! j = Some q → outside o q
  | OnceDone d => Forall (outside o) (cf_threads cf) ∧ dials (cf_trace cf) = [d]
  end.

Lemma harmless_cons o e h : harmless o e →
  dials (e :: h) = dials h ∧ closes (e :: h) = closes h ∧
  ((∀ c res, (c, res) ∈ checks h → o = OnceDone (Dialed c)) →
   ∀ c res, (c, res) ∈ checks (e :: h) → o = OnceDone (Dialed c)).
Proof.
  intros (Hd & Hc & Hk). unfold dials, closes, checks. simpl. rewrite Hd, Hc. split_and!; [done..|].
  intros Hh c res. destruct (checked_of e) as [[c' res']|]; [|apply Hh].
  rewrite elem_of_cons. intros [[= -> ->]|]; [by eapply Hk|by eapply Hh].
Qed.

(** The step of the thread inside the Once. *)
Lemma inside_step {B} s c (k : canswer c → CM B) r s' h :
  (follows Inside (Call c k) ∧ dials h = [] ∨ ∃ d, follows (Dialing d) (Call c k) ∧ dials h = [d]) →
  handle s c r s' →
  closes (Ev c r :: h) = closes h ∧ checks (Ev c r :: h) = checks h ∧
  ((sh_once s' = sh_once s ∧ ∃ d, follows (Dialing d) (k r) ∧ dials (Ev c r :: h) = [d]) ∨
   (∃ d, sh_once s' = OnceDone d ∧ follows (Outside (Some d)) (k r) ∧ dials (Ev c r :: h) = [d])).
Proof.
  intros [[Hp Hd]|(d & Hp & Hd)] Hh; destruct c; simpl in *; try done.
  - subst s'. split_and!; [done..|]. left. split; [done|]. exists r. split; [apply Hp|].
    change (r :: dials h = [r]). by rewrite Hd.
  - destruct Hp as [-> Hp], r. subst s'. split_and!; [done..|]. right. by exists d.
Qed.

Section keepalive_step.
Context {B : Type} (s s' : shared) (ps : list (CM B)) (h : history canswer).
Context (i : nat) (c : ccall) (k : canswer c → CM B) (r : canswer c).
Context (Hi : ps !! i = Some (Call c k)) (Hh : handle s c r s').

(** A thread outside the Once moves, and nothing but the start of the Once changes it. *)
Lemma keepalive_outside :
  keepalive_inv (mkConf s ps h) → Forall (outside (sh_once s)) ps → sh_once s ≠ OnceRunning →
  keepalive_inv (mkConf s' (<[i:=k r]> ps) (Ev c r :: h)).
Proof.
  intros (Hcl & Hch & Hinv) Hps Hrun. unfold keepalive_inv. cbn [cf_state cf_threads cf_trace] in *.
  destruct (outside_step s c k r s') as [Hharm Hcase]; [by eapply (Forall_lookup_1 _ _ _ _ Hps)|done|].
  destruct (harmless_cons _ _ h Hharm) as (Hd' & Hcl' & Hch'). specialize (Hch' Hch). rewrite Hd', Hcl'.
  destruct Hcase as [(Ho & Ho' & Hin)|[Ho' Hk]].
  - rewrite Ho', Ho in *. destruct Hinv as [_ Hd]. split; [done|].
    split; [intros c' res' Hc; by specialize (Hch' _ _ Hc)|].
    exists i, (k r). rewrite list_lookup_insert, decide_True by (by apply lookup_lt_Some in Hi).
    split_and!; [done|by left|]. intros j q Hj. rewrite list_lookup_insert_ne by done. intros Hq.
    destruct (Forall_lookup_1 _ _ _ _ Hps Hq) as [?|(? & ? & _)]; [by left|done].
  - rewrite Ho'. split_and!; [done..|]. assert (Forall (outside (sh_once s)) (<[i:=k r]> ps)) by (by apply Forall_insert).
    destruct (sh_once s) as [| |d]; naive_solver.
Qed.

(** While the Once runs, either its own thread moves or one of the others. *)
Lemma keepalive_running : sh_once s = OnceRunning →
  keepalive_inv (mkConf s ps h) → keepalive_inv (mkConf s' (<[i:=k r]> ps) (Ev c r :: h)).
Proof.
  intros Ho (Hcl & Hch & Hinv). unfold keepalive_inv. cbn [cf_state cf_threads cf_trace] in *.
  pose proof Hinv as Hinv'. rewrite Ho in Hinv'. destruct Hinv' as (i0 & p & Hi0 & Hp & Hothers).
  destruct (decide (i = i0)) as [<-|Hne].
  - rewrite Hi in Hi0. injection Hi0 as <-.
    destruct (inside_step s c k r s' h Hp Hh) as (Hcl' & Hch' & Hcase). rewrite Hcl', Hch'.
    split; [done|]. destruct Hcase as [(Heq & d & Hf & Hd)|(d & -> & Hf & Hd)].
    + rewrite Heq. split; [done|]. rewrite Ho. exists i, (k r).
      rewrite list_lookup_insert, decide_True by (by apply lookup_lt_Some in Hi).
      split_and!; [done|right; by exists d|]. intros j q Hj. rewrite list_lookup_insert_ne by done. by apply Hothers.
    + split; [intros c' res' Hc; specialize (Hch _ _ Hc); congruence|]. split; [|done].
      apply Forall_lookup. intros j q [(<- & <- & _)|[Hj Hq]]%list_lookup_insert_Some; [right; by exists d|].
      destruct (Hothers j q (not_eq_sym Hj) Hq) as [?|(? & ? & _)]; [by left|done].
  - rewrite <- Ho in Hothers. destruct (outside_step s c k r s') as [Hharm Hcase]; [by apply (Hothers i)|done|].
    destruct (harmless_cons _ _ h Hharm) as (Hd' & Hcl' & Hch'). specialize (Hch' Hch). rewrite Hd', Hcl'.
    destruct Hcase as [(? & _)|[-> Hout']]; [congruence|]. split_and!; [done..|]. rewrite Ho in *.
    exists i0, p. rewrite list_lookup_insert_ne by done. split_and!; [done..|].
    intros j q Hj [(<- & <- & _)|[Hji Hq]]%list_lookup_insert_Some; [done|]. by apply (Hothers j).
Qed.
End keepalive_step.

Lemma keepalive_step {B} (cf cf' : conf canswer shared B) : keepalive_inv cf → cstep handle cf cf' → keepalive_inv cf'.
Proof.
  intros Hinv Hstep. destruct Hstep as [s ps h i c k r s' Hi Hh].
  destruct (sh_once s) as [| |d] eqn:Ho; [|by eapply keepalive_running|]; eapply keepalive_outside; try done;
    try congruence; destruct Hinv as (_ & _ & Hinv); simpl in Hinv; rewrite Ho in *; apply Hinv.
Qed.

(** C22: Whatever the interleaving of any number of workers that share one gRPC client in KeepAlive
    mode, each issuing any number of requests: at every point at most one connection has been
    dialed and none closed, and every Health/Check was made on that one connection. *)
Theorem keepalive_dials_once (cfg : GenConfig) (g : grpcClient) (ns : list nat) (cf : conf canswer shared (list reply)) :
  gc_ConnectionMode cfg ≠ ShortLived →
  rtc (cstep handle) (mkConf newShared ((λ n, requests n (grpc_Do cfg g)) <$> ns) []) cf →
  (length (dials (cf_trace cf)) <= 1)%nat ∧ closes (cf_trace cf) = [] ∧
  ∀ c res, (c, res) ∈ checks (cf_trace cf) → dials (cf_trace cf) = [Dialed c].
Proof.
  intros Hm Hr. assert (Hinv : keepalive_inv cf).
  { assert (keepalive_inv (mkConf newShared ((λ n, requests n (grpc_Do cfg g)) <$> ns) [])) as H0.
    { split; [done|]. split; [by intros ? ? ?%elem_of_nil|]. split; [|done].
      apply Forall_fmap, Forall_true. intros n. left. apply follows_requests. intros known. by apply follows_grpc_Do. }
    revert H0. induction Hr as [|x y z Hxy _ IH]; [done|]. intros Hx. apply IH. by eapply keepalive_step. }
  destruct Hinv as (Hcl & Hch & Hinv). split_and!; [|done|].
  - destruct (sh_once _); [by destruct Hinv as [_ ->]; simpl; lia| |by destruct Hinv as [_ ->]].
    destruct Hinv as (? & ? & _ & [[_ ->]|(? & _ & ->)] & _); simpl; lia.
  - intros c res Hc. specialize (Hch c res Hc). rewrite Hch in Hinv. apply Hinv.
Qed.

(** ** Building a client *)

Section construction.
Context `{NetHttp, CertPool}.

(** The bundle could not be read, or holds no certificate. *)
Definition bad_bundle (a : res string) : Prop :=
  match a with Err _ => True | Ok pem => AppendCertsFromPEM pem = false end.

(** The TLS configuration a client gets: TLS 1.2 or later, verification off only on request; without
    a CA bundle the system's roots, and with one the text read from it, which holds a certificate,
    as the only trusted roots.  The bundle is the only thing read, and it is read once. *)
Definition tls_as_configured (cfg : GenConfig) (h : history canswer) (t : TLSClientConfig) : Prop :=
  tlc_MinVersion t = VersionTLS12 ∧ tlc_InsecureSkipVerify t = gc_TLSInsecureSkipVerify cfg ∧
  if decide (gc_TLSCABundlePath cfg = "") then tlc_RootCAs t = None ∧ h = []
  else ∃ pem, h = [Ev (CReadFile (gc_TLSCABundlePath cfg)) (Ok pem)] ∧ AppendCertsFromPEM pem = true ∧
    tlc_RootCAs t = Some pem.

Definition unusable_bundle (cfg : GenConfig) (h : history canswer) : Prop :=
  gc_TLSCABundlePath cfg ≠ "" ∧ ∃ a, h = [Ev (CReadFile (gc_TLSCABundlePath cfg)) a] ∧ bad_bundle a.

(** A gRPC target without the https scheme is dialed in cleartext. *)
Definition cleartext (cfg : GenConfig) : Prop :=
  ∀ scheme host, url_Parse (gc_URL cfg) = Ok (scheme, host) → EqualFold scheme "https" = false.

(** The client of a configuration, and where the TLS configuration goes that it was built with. *)
Inductive client_for (cfg : GenConfig) (h : history canswer) : protocolClient → Prop :=
| client_h1 c :
    gc_Protocol cfg = "HTTP1" → tls_as_configured cfg h (h1_TLSConfig c) →
    client_for cfg h (mkProtocolClient (h1_Do cfg c) h1_Stats)
| client_h2 c :
    gc_Protocol cfg = "HTTP2" → tls_as_configured cfg h (h2_TLSClientConfig c) →
    tlc_NextProtos (h2_TLSClientConfig c) = ["h2"] →
    client_for cfg h (mkProtocolClient (h2_Do cfg c) h2_Stats)
| client_grpc g t :
    gc_Protocol cfg = "GRPC" → gr_creds g = Some t → tls_as_configured cfg h t →
    client_for cfg h (mkProtocolClient (grpc_Do cfg g) grpc_Stats)
| client_grpc_cleartext g :
    gc_Protocol cfg = "GRPC" → cleartext cfg → gr_creds g = None → h = [] →
    client_for cfg h (mkProtocolClient (grpc_Do cfg g) grpc_Stats).

Lemma buildTLSConfig_outcome cfg :
  returns (buildTLSConfig cfg) [] (λ h r,
    match r with Ok t => tls_as_configured cfg h t | Err _ => unusable_bundle cfg h end).
Proof.
  unfold buildTLSConfig, returns, tls_as_configured. case_decide as Hp; [done|].
  apply wp_call; [done|]. intros [pem|e] _; simpl.
  - destruct (AppendCertsFromPEM pem) eqn:Hpem; simpl; [by split_and!; [..|exists pem]|].
    split; [done|]. by exists (Ok pem).
  - split; [done|]. by exists (Err e).
Qed.

Lemma returns_tls {B} cfg (f : res TLSClientConfig → CM (res B)) (Q : history canswer → res B → Prop) :
  (∀ t h, tls_as_configured cfg h t → returns (f (Ok t)) h Q) →
  (∀ e h, unusable_bundle cfg h → returns (f (Err e)) h Q) →
  returns (buildTLSConfig cfg ≫= f) [] Q.
Proof.
  intros HOk HErr. apply wp_bind. eapply wp_mono; [apply buildTLSConfig_outcome|].
  intros h [t|e] Ht; [by apply HOk|by apply HErr].
Qed.

Lemma newProtocolClient_outcome cfg :
  gc_Protocol cfg ∈ ["HTTP1"; "HTTP2"; "GRPC"] →
  (∃ scheme host, url_Parse (gc_URL cfg) = Ok (scheme, host) ∧ host ≠ "") →
  returns (newProtocolClient cfg) [] (λ h r,
    match r with Ok c => client_for cfg h c | Err _ => unusable_bundle cfg h end).
Proof.
  intros Hp (scheme & host & Hurl & Hhost). unfold newProtocolClient.
  case_decide as H1; [|case_decide; [|case_decide; [|set_solver]]]; apply wp_bind.
  - unfold newH1Client. apply returns_tls; [|done]. intros t h Ht. destruct H1 as [Hn|?]; [|by constructor].
    rewrite Hn, !elem_of_cons in Hp. by destruct Hp as [|[|[|[]%elem_of_nil]]].
  - unfold newH2Client. apply returns_tls; [|done]. intros t h Ht. by constructor.
  - unfold newGRPCClient. rewrite Hurl. rewrite decide_False by done.
    destruct (EqualFold scheme "https") eqn:Hs.
    + apply returns_tls; [|done]. intros t h Ht. by eapply client_grpc.
    + apply client_grpc_cleartext; [done| |done..]. intros ? ? Hu. rewrite Hurl in Hu. by injection Hu as <- <-.
Qed.

(** C30: A configuration that validates and has defaults builds the client of its protocol, which
    keeps the defaulted configuration, or fails because of the CA bundle it names.  It builds it
    with exactly what was configured: TLS 1.2 or later, verification off only on request, and,
    when a bundle is named, after one read of that file, which succeeded and gave a certificate,
    with the text read as the only roots.  It fails exactly when that read failed or gave no
    certificate.  (A cleartext gRPC client has no TLS configuration and reads nothing.) *)
Theorem new_generator (cfg cfg' : GenConfig) (h : history canswer) r :
  Validate cfg = Ok tt → withDefaults cfg = Some cfg' → runs (New cfg) [] h r →
  gc_TLSCABundlePath cfg' = gc_TLSCABundlePath cfg ∧ gc_TLSInsecureSkipVerify cfg' = gc_TLSInsecureSkipVerify cfg ∧
  match r with
  | None => False
  | Some (Ok (c, client)) => c = cfg' ∧ client_for cfg' h client
  | Some (Err _) => unusable_bundle cfg' h
  end.
Proof.
  intros Hv Hd Hr. destruct (withDefaults_keeps cfg cfg' Hd) as (Hurl & Hca & Hskip & Hproto). split_and!; [done..|].
  destruct (Config_Validate_ok cfg Hv) as (Hparse & _ & _ & Hin).
  refine (returns_runs _ _ _ _ _ Hr (_ : returns _ _ (λ h r, _))). unfold New. rewrite Hv, Hd.
  apply wp_bind. eapply wp_mono; [apply newProtocolClient_outcome|].
  - rewrite Hproto. case_decide; set_solver.
  - rewrite Hurl. destruct Hparse as (scheme & host & ? & _ & ?). by exists scheme, host.
  - by intros h' [c|e] Hb; simpl.
Qed.
End construction.

(** ** Sample runs *)

(** The shared fields answer for themselves, the libraries answer [env]. *)
Definition answer_from (env : ∀ c, canswer c) (s : shared) (_ : history canswer) (c : ccall) : option (canswer c * shared) :=
  match c as c return option (canswer c * shared) with
  | COnceBegin =>
      match sh_once s with
      | OnceNew => Some (None, set_once OnceRunning s)
      | OnceRunning => None
      | OnceDone d => Some (Some d, s)
      end
  | COnceEnd d => Some (tt, set_once (OnceDone d) s)
  | CAdd k delta => Some (tt, atomic_add k delta s)
  | CLoad k => Some (value k s, s)
  | c => Some (env c, s)
  end.

Lemma answer_from_handled env s h c r s' : answer_from env s h c = Some (r, s') → handle s c r s'.
Proof. destruct c; simpl; try (by intros [= <- <-]). destruct (sh_once s); by intros [= <- <-]. Qed.

Definition sample_answers (c : ccall) : canswer c :=
  match c as c return canswer c with
  | CReadFile _ => Ok "PEM"
  | CDoTimeout _ _ _ => GotStatus 200
  | CRoundTrip _ _ => mkRoundTrip [true; false] [] (GotStatus 200)
  | CNetDial _ _ => Dialed 1%nat
  | CHandshake _ _ => None
  | CNewClient _ => Dialed 1%nat
  | CCheck _ _ _ => ([RPCBegin; ConnBegin], Checked SERVING)
  | COnceBegin => None
  | CLoad _ => 0
  | CDrainBody | CCloseBody | CCloseConn _ | CCloseClient _ | COnceEnd _ | CAdd _ _ => tt
  end.

#[local] Instance sample_net : NetHttp :=
  {| url_Parse := λ _, Ok ("https", "web"); http_NewRequest := λ _ _, Ok tt |}.

#[local] Instance sample_pool : CertPool := {| AppendCertsFromPEM := λ pem, bool_decide (pem = "PEM") |}.

Definition sample_cfg : GenConfig :=
  mkGenConfig "https://web" "GET" ∅ 50 (30 * Second) 2 KeepAlive Second "" "" false "/ca.pem" "GRPC" "" [].

Definition sample_h2 : h2Client := mkH2Client (mkTLSClient VersionTLS12 false None ["h2"]) true true Second Second Second.

Definition sample_grpc : grpcClient := mkGrpcClient "web" true (Some (mkTLSClient VersionTLS12 false None [])).

(** Two workers taking turns. *)
Definition sample_start (p : CM reply) : conf canswer shared (list reply) :=
  mkConf newShared ((λ n, requests n p) <$> [1; 1]%nat) [].

Definition sample_run (p : CM reply) (sched : list nat) : conf canswer shared (list reply) :=
  default (sample_start p) (run_schedule (answer_from sample_answers) sched (sample_start p)).

Lemma sample_run_steps p sched : rtc (cstep handle) (sample_start p) (sample_run p sched).
Proof.
  unfold sample_run. destruct (run_schedule _ _ _) eqn:Hr; [|apply rtc_refl].
  eapply run_schedule_steps; [apply answer_from_handled|exact Hr].
Qed.

Lemma h2_stats_exact_witness :
  let cf := sample_run (h2_Do sample_cfg sample_h2) [0; 1; 0; 1; 0; 1; 0; 1; 0; 1; 0; 1]%nat in
  sh_Streams (cf_state cf) = 4 ∧ sh_Conns (cf_state cf) = 2 ∧ sh_GoAways (cf_state cf) = 0.
Proof.
  apply (h2_stats_exact sample_cfg sample_h2 [1; 1]%nat).
  - apply sample_run_steps.
  - repeat constructor; eexists; vm_compute; reflexivity.
Defined.

Lemma keepalive_dials_once_witness :
  let cf := sample_run (grpc_Do sample_cfg sample_grpc) [0; 0; 0; 1; 0; 1; 0; 1; 0; 1]%nat in
  checks (cf_trace cf) = [(1, Checked SERVING); (1, Checked SERVING)]%nat ∧
  (length (dials (cf_trace cf)) <= 1)%nat ∧ closes (cf_trace cf) = [] ∧
  ∀ c res, (c, res) ∈ checks (cf_trace cf) → dials (cf_trace cf) = [Dialed c].
Proof.
  split; [reflexivity|]. apply (keepalive_dials_once sample_cfg sample_grpc [1; 1]%nat); [done|apply sample_run_steps].
Defined.

Lemma grpc_request_outcome_witness :
  ∃ l, (exec (λ _, sample_answers) (grpc_Do sample_cfg sample_grpc) []).1 = l ++ [] ∧ (length (checks l) <= 1)%nat.
Proof.
  destruct (grpc_request_outcome sample_cfg sample_grpc [] _ _ 0
    (exec_runs (λ _, sample_answers) (grpc_Do sample_cfg sample_grpc) [])) as (l & Hl & Hn & _).
  by exists l.
Defined.

(** The GOAWAYs of x/net/http2 are not counted. *)
Example h2_goaways_missed_sample :
  let failing c := match c as c return canswer c with
                   | CRoundTrip _ _ => mkRoundTrip [false] [OtherError "url.Error"; GoAwayError]
                                         (GotError (mkDispatchError false false "server sent GOAWAY"))
                   | c => sample_answers c
                   end in
  match run_schedule (answer_from failing) [0; 1; 0; 1; 0; 1]%nat (sample_start (h2_Do sample_cfg sample_h2)) with
  | Some cf => forallb (λ p, match p with Ret _ => true | Call _ _ => false end) (cf_threads cf) = true ∧ sh_GoAways (cf_state cf) = 0 ∧
      failed_with GoAwayError <$> omap round_trip (cf_trace cf) = [true; true]
  | None => False
  end.
Proof. vm_compute. done. Qed.

Lemma new_generator_witness :
  let '(h, r) := exec (λ _, sample_answers) (New sample_cfg) [] in
  match r with
  | Some (Ok (c, client)) => Some c = withDefaults sample_cfg ∧
      h = [Ev (CReadFile "/ca.pem") (Ok "PEM")] ∧ client_for c h client
  | _ => False
  end.
Proof.
  destruct (@new_generator sample_net sample_pool sample_cfg _ _ _ eq_refl eq_refl (exec_runs (λ _, sample_answers) (New sample_cfg) []))
    as (_ & _ & Hc & Hn).
  split_and!; [exact (f_equal Some Hc)|reflexivity|]. exact Hn.
Defined.
