(* ===== verification/Pool.v ===== *)
(** * The worker pool of a phase (internal/loadgen/generator.go, schedule.go)

    [runPhase] starts an emitter goroutine that sends the scheduled arrivals of the phase into a
    bounded channel, and a fixed number of workers that each take an arrival, issue its request
    and come back for more, until the channel is closed or the phase's context is done.  The pool
    is a state machine: an [action] names who moves, [pool_step] is its effect, so a theorem about
    all sequences of actions covers every interleaving and every choice of a [select] with
    several ready cases. *)

From S2P Require Import Prelude GoFloat LoadPhase Schedule Collector.

Open Scope Z_scope.

Definition scheduleBuffer : nat := 64.

(** A worker waits at its [select], has taken an arrival, or has returned. *)
Inductive worker :=
| Waiting
| Serving (slot : Time)
| Returned.

#[export] Instance worker_eq_dec : EqDecision worker.
Proof. solve_decision. Defined.

(** [pl_todo] is what the emitter has yet to send, [pl_closed] whether it has returned and closed
    the channel, [pl_done] whether the context of the phase is done (its deadline or a signal),
    [pl_log] the arrivals taken and what became of them, in order. *)
Record pool := mkPool {
  pl_todo : list Time;
  pl_chan : list Time;
  pl_closed : bool;
  pl_done : bool;
  pl_workers : list worker;
  pl_log : list (Time * attempt)
}.

Inductive action :=
| Emit
| Close
| Expire
| Receive (i : nat)
| Leave (i : nat)
| GiveUp (i : nat)
| Respond (i : nat) (r : reply) (completion : Time) (over : bool).

Definition set_worker (i : nat) (w : worker) (p : pool) : pool :=
  mkPool (pl_todo p) (pl_chan p) (pl_closed p) (pl_done p) (<[ i := w ]> (pl_workers p)) (pl_log p).

Definition log_attempt (i : nat) (slot : Time) (a : attempt) (p : pool) : pool :=
  mkPool (pl_todo p) (pl_chan p) (pl_closed p) (pl_done p) (<[ i := Waiting ]> (pl_workers p))
    (pl_log p ++ [(slot, a)]).

(** The emitter's send, which has room in the channel. *)
Definition emit (p : pool) : option pool :=
  match pl_todo p with
  | t :: rest =>
      if negb (pl_closed p) && (length (pl_chan p) <? scheduleBuffer)%nat
      then Some (mkPool rest (pl_chan p ++ [t]) false (pl_done p) (pl_workers p) (pl_log p))
      else None
  | [] => None
  end.

(** The emitter returns at the end of the schedule or because the context is done. *)
Definition close_chan (p : pool) : option pool :=
  if negb (pl_closed p) && (pl_done p || bool_decide (pl_todo p = []))
  then Some (mkPool (pl_todo p) (pl_chan p) true (pl_done p) (pl_workers p) (pl_log p))
  else None.

(** A worker at its [select]: it may take an arrival or, when the context is done or the channel
    closed and empty, return. *)
Definition receive (i : nat) (p : pool) : option pool :=
  match pl_workers p !! i, pl_chan p with
  | Some Waiting, t :: rest =>
      Some (mkPool (pl_todo p) rest (pl_closed p) (pl_done p) (<[ i := Serving t ]> (pl_workers p)) (pl_log p))
  | _, _ => None
  end.

Definition leave (i : nat) (p : pool) : option pool :=
  match pl_workers p !! i with
  | Some Waiting =>
      if pl_done p || (pl_closed p && bool_decide (pl_chan p = [])) then Some (set_worker i Returned p) else None
  | _ => None
  end.

(** [do]: the context is done while the request is held back, or the client answers; [over] is
    what the check of the context after the answer saw. *)
Definition abandon (i : nat) (p : pool) : option pool :=
  match pl_workers p !! i with
  | Some (Serving slot) => if pl_done p then Some (log_attempt i slot Dropped p) else None
  | _ => None
  end.

Definition respond (i : nat) (r : reply) (completion : Time) (over : bool) (p : pool) : option pool :=
  match pl_workers p !! i with
  | Some (Serving slot) =>
      if implb over (pl_done p) then Some (log_attempt i slot (Answered slot r completion over) p) else None
  | _ => None
  end.

Definition expire (p : pool) : option pool :=
  if pl_done p then None
  else Some (mkPool (pl_todo p) (pl_chan p) (pl_closed p) true (pl_workers p) (pl_log p)).

Definition pool_step (a : action) (p : pool) : option pool :=
  match a with
  | Emit => emit p
  | Close => close_chan p
  | Expire => expire p
  | Receive i => receive i p
  | Leave i => leave i p
  | GiveUp i => abandon i p
  | Respond i r completion over => respond i r completion over p
  end.

Definition pool_next (p q : pool) : Prop := ∃ a, pool_step a p = Some q.

(** [for i := 0; i < g.cfg.Concurrency; i++]: no worker for a count of zero or less. *)
Definition start_pool (schedule : list Time) (concurrency : Z) : pool :=
  mkPool schedule [] false false (replicate (Z.to_nat concurrency) Waiting) [].

(** [wg.Wait()] returns. *)
Definition all_returned (p : pool) : Prop := Forall (eq Returned) (pl_workers p).

(** What a finished pool leaves for the collector. *)
Definition pool_phase_log (phase : LPhase) (started ended : Time) (p : pool) : phase_log :=
  mkLog phase started (pl_log p).*2 ended.

Fixpoint pool_run (acts : list action) (p : pool) : option pool :=
  match acts with
  | [] => Some p
  | a :: rest => q ← pool_step a p; pool_run rest q
  end.

Lemma pool_run_steps acts p q : pool_run acts p = Some q → rtc pool_next p q.
Proof.
  revert p. induction acts as [|a acts IH]; intros p Hr; simpl in Hr; [injection Hr as <-; apply rtc_refl|].
  destruct (pool_step a p) as [p'|] eqn:Ha; [|done]. eapply rtc_l; [by exists a|by apply IH].
Qed.

(** ** Conservation *)

Definition slot_of (w : worker) : option Time := match w with Serving t => Some t | _ => None end.

Definition in_flight (p : pool) : list Time := omap slot_of (pl_workers p).

Record pool_inv (schedule : list Time) (n : nat) (p : pool) : Prop := {
  inv_taken : ∃ taken, schedule = taken ++ pl_chan p ++ pl_todo p ∧ taken ≡ₚ (pl_log p).*1 ++ in_flight p;
  inv_room : (length (pl_chan p) <= scheduleBuffer)%nat;
  inv_workers : length (pl_workers p) = n;
  inv_closed : pl_closed p = true → pl_done p = true ∨ pl_todo p = [];
  inv_over : pl_done p = false → Forall (λ a, ∃ r t, a.2 = Answered a.1 r t false) (pl_log p);
  inv_left : pl_done p = false → Returned ∈ pl_workers p → pl_closed p = true ∧ pl_chan p = []
}.

Lemma start_inv schedule c : pool_inv schedule (Z.to_nat c) (start_pool schedule c).
Proof.
  constructor; simpl; try done.
  - exists []. split; [done|]. unfold in_flight. simpl. by induction (Z.to_nat c).
  - lia.
  - apply length_replicate.
  - intros _ [? _]%elem_of_replicate. done.
Qed.

Lemma in_flight_insert (ws : list worker) i w w' : ws !! i = Some w →
  omap slot_of (<[ i := w' ]> ws) ++ option_list (slot_of w) ≡ₚ omap slot_of ws ++ option_list (slot_of w').
Proof.
  revert i. induction ws as [|x ws IH]; intros [|i] Hi; simpl in *; [done..| |].
  - injection Hi as ->. destruct (slot_of w), (slot_of w'); simpl; rewrite ?app_nil_r; solve_Permutation.
  - destruct (slot_of x); simpl; by rewrite IH.
Qed.

(** A worker that changes from [w] to [w'] while nothing else moves. *)
Lemma Returned_insert (ws : list worker) i w' : w' ≠ Returned → Returned ∈ <[ i := w' ]> ws → Returned ∈ ws.
Proof.
  intros Hw (j & Hj)%list_elem_of_lookup. apply list_lookup_insert_Some in Hj as [(_ & -> & _)|[_ Hj]]; [done|].
  by eapply list_elem_of_lookup_2.
Qed.

Lemma log_inv schedule n p i slot a :
  pool_inv schedule n p → pl_workers p !! i = Some (Serving slot) →
  (pl_done p = false → ∃ r t, a = Answered slot r t false) →
  pool_inv schedule n (log_attempt i slot a p).
Proof.
  intros [(taken & Hs & Ht) Hr Hw Hc Ho Hl] Hi Ha. constructor; simpl; try done.
  - exists taken. split; [done|]. rewrite fmap_app, Ht. unfold in_flight. simpl.
    pose proof (in_flight_insert _ _ _ Waiting Hi) as Hp. simpl in Hp. rewrite app_nil_r in Hp.
    rewrite <- Hp. solve_Permutation.
  - by rewrite length_insert.
  - intros Hd. apply Forall_app. split; [by apply Ho|]. apply Forall_singleton. simpl. by apply Ha.
  - intros Hd Hin. apply Hl; [done|]. by apply (Returned_insert _ i Waiting).
Qed.

Section steps.
Context (schedule : list Time) (n : nat) (p q : pool).
Context (Hinv : pool_inv schedule n p).

Lemma emit_inv : emit p = Some q → pool_inv schedule n q.
Proof.
  destruct Hinv as [(taken & Hs & Ht) Hr Hw Hc Ho Hl]. unfold emit.
  destruct (pl_todo p) as [|t rest]; [done|]. destruct (pl_closed p); [done|]. simpl.
  destruct (Nat.ltb_spec (length (pl_chan p)) scheduleBuffer); [|done]. intros [= <-].
  constructor; simpl; try done; [|by rewrite length_app; simpl; lia|by intros Hd [? _]%Hl].
  exists taken. split; [by rewrite <- app_assoc|done].
Qed.

Lemma close_inv : close_chan p = Some q → pool_inv schedule n q.
Proof.
  destruct Hinv as [(taken & Hs & Ht) Hr Hw Hc Ho Hl]. unfold close_chan.
  destruct (pl_closed p); [done|]. simpl. destruct (pl_done p) eqn:Hd; simpl.
  - intros [= <-]. constructor; simpl; try done; [by exists taken|by left].
  - case_bool_decide; [|done]. intros [= <-]. constructor; simpl; try done; [by exists taken|by right|].
    intros _ Hin. by destruct (Hl eq_refl Hin).
Qed.

Lemma expire_inv : expire p = Some q → pool_inv schedule n q.
Proof.
  destruct Hinv as [(taken & Hs & Ht) Hr Hw Hc Ho Hl]. unfold expire. destruct (pl_done p); [done|].
  intros [= <-]. constructor; simpl; try done; [by exists taken|by left].
Qed.

Lemma receive_inv i : receive i p = Some q → pool_inv schedule n q.
Proof.
  destruct Hinv as [(taken & Hs & Ht) Hr Hw Hc Ho Hl]. unfold receive.
  destruct (pl_workers p !! i) as [[]|] eqn:Hi; try done. destruct (pl_chan p) as [|t rest]; [done|]. intros [= <-].
  constructor; simpl in *; try done; [|lia|by rewrite length_insert|].
  - exists (taken ++ [t]). split; [by rewrite <- app_assoc|]. unfold in_flight in *. simpl.
    pose proof (in_flight_insert _ _ _ (Serving t) Hi) as Hp. simpl in Hp. rewrite app_nil_r in Hp.
    rewrite Ht, Hp. solve_Permutation.
  - intros Hd Hin. apply Returned_insert in Hin; [|done]. by destruct (Hl Hd Hin).
Qed.

Lemma leave_inv i : leave i p = Some q → pool_inv schedule n q.
Proof.
  destruct Hinv as [(taken & Hs & Ht) Hr Hw Hc Ho Hl]. unfold leave.
  destruct (pl_workers p !! i) as [[]|] eqn:Hi; try done. destruct (pl_done p || _) eqn:Hcond; [|done]. intros [= <-].
  constructor; simpl; try done; [|by rewrite length_insert|].
  - exists taken. split; [done|]. unfold in_flight in *. simpl.
    pose proof (in_flight_insert _ _ _ Returned Hi) as Hp. simpl in Hp. rewrite !app_nil_r in Hp. by rewrite Ht, Hp.
  - intros Hd _. rewrite Hd in Hcond. by apply andb_true_iff in Hcond as [? ?%bool_decide_eq_true].
Qed.

Lemma abandon_inv i : abandon i p = Some q → pool_inv schedule n q.
Proof.
  unfold abandon. destruct (pl_workers p !! i) as [[]|] eqn:Hi; try done. destruct (pl_done p) eqn:Hd; [|done].
  intros [= <-]. apply log_inv; [done..|congruence].
Qed.

Lemma respond_inv i r t over : respond i r t over p = Some q → pool_inv schedule n q.
Proof.
  unfold respond. destruct (pl_workers p !! i) as [[]|] eqn:Hi; try done.
  destruct (implb over (pl_done p)) eqn:Hov; [|done]. intros [= <-]. apply log_inv; [done..|].
  intros Hd. rewrite Hd in Hov. destruct over; [done|]. by exists r, t.
Qed.
End steps.

Lemma step_inv schedule n p q : pool_inv schedule n p → pool_next p q → pool_inv schedule n q.
Proof.
  intros Hinv [a Ha]. destruct a; simpl in Ha;
    [by eapply emit_inv|by eapply close_inv|by eapply expire_inv|by eapply receive_inv|by eapply leave_inv
    |by eapply abandon_inv|by eapply respond_inv].
Qed.

Lemma pool_reachable_inv schedule c p : rtc pool_next (start_pool schedule c) p → pool_inv schedule (Z.to_nat c) p.
Proof.
  intros Hr. remember (start_pool schedule c) as p0 eqn:Hp0.
  assert (pool_inv schedule (Z.to_nat c) p0) as H0 by (subst; apply start_inv). clear Hp0.
  induction Hr as [|x y z Hxy _ IH]; [done|]. apply IH. by eapply step_inv.
Qed.

(** C14: Whatever the interleaving, at every point of a phase the scheduled arrivals are, in order,
    those taken by workers, those in the channel and those not sent yet; each arrival taken was
    either dealt with or is being served, none twice; the channel never holds more than its
    buffer and no more requests are in flight than there are workers. *)
Theorem pool_conserves (schedule : list Time) (concurrency : Z) (p : pool) :
  rtc pool_next (start_pool schedule concurrency) p →
  (∃ taken, schedule = taken ++ pl_chan p ++ pl_todo p ∧ taken ≡ₚ (pl_log p).*1 ++ in_flight p) ∧
  (length (pl_chan p) <= scheduleBuffer)%nat ∧ Z.of_nat (length (in_flight p)) <= Z.max 0 concurrency.
Proof.
  intros Hr. destruct (pool_reachable_inv _ _ _ Hr) as [Ht Hroom Hw _ _ _]. split_and!; [done..|].
  pose proof (length_omap_le slot_of (pl_workers p)). unfold in_flight. lia.
Qed.

(** ** Termination and progress *)

Definition busy_workers (ws : list worker) : nat := length (omap slot_of ws).

Definition present_workers (ws : list worker) : nat := length (filter (λ w, w ≠ Returned) ws).

(** Every action uses up one unit: an arrival has three (sent, taken, served), a worker one (its
    return), the channel one (its close) and the context one (its end). *)
Definition measure (p : pool) : nat :=
  3 * length (pl_todo p) + 2 * length (pl_chan p) + busy_workers (pl_workers p) + present_workers (pl_workers p)
  + (if pl_closed p then 0 else 1) + (if pl_done p then 0 else 1).

Lemma busy_insert ws i w w' : ws !! i = Some w →
  (busy_workers (<[ i := w' ]> ws) + length (option_list (slot_of w))
   = busy_workers ws + length (option_list (slot_of w')))%nat.
Proof.
  intros Hi. unfold busy_workers. rewrite <- !length_app. by apply Permutation_length, in_flight_insert.
Qed.

Lemma present_insert ws i w w' : ws !! i = Some w →
  (present_workers (<[ i := w' ]> ws) + (if decide (w = Returned) then 0 else 1)
   = present_workers ws + (if decide (w' = Returned) then 0 else 1))%nat.
Proof.
  unfold present_workers. revert i. induction ws as [|x ws IH]; intros [|i] Hi; simpl in *; [done..| |].
  - injection Hi as ->. rewrite !filter_cons. repeat case_decide; simpl; done || lia.
  - specialize (IH i Hi). rewrite !filter_cons. repeat case_decide; simpl; lia.
Qed.

(** Closes the count of an action that puts worker [i] into state [w]. *)
Ltac count_worker Hi w :=
  simpl; pose proof (busy_insert _ _ _ w Hi); pose proof (present_insert _ _ _ w Hi);
  simpl in *; repeat case_decide; done || lia.

Lemma measure_step p q : pool_next p q → S (measure q) = measure p.
Proof.
  intros [a Ha]. unfold measure. destruct a as [| | |i|i|i|i r t over]; simpl in Ha.
  - unfold emit in Ha. destruct (pl_todo p) as [|t rest]; [done|]. destruct (pl_closed p); [done|]. simpl in Ha.
    destruct (_ <? _)%nat; [|done]. injection Ha as <-. simpl. rewrite length_app. simpl. lia.
  - unfold close_chan in Ha. destruct (pl_closed p); [done|]. simpl in Ha. destruct (_ || _); [|done].
    injection Ha as <-. simpl. lia.
  - unfold expire in Ha. destruct (pl_done p); [done|]. injection Ha as <-. simpl. lia.
  - unfold receive in Ha. destruct (pl_workers p !! i) as [[]|] eqn:Hi; try done.
    destruct (pl_chan p) as [|t rest]; [done|]. injection Ha as <-. count_worker Hi (Serving t).
  - unfold leave in Ha. destruct (pl_workers p !! i) as [[]|] eqn:Hi; try done. destruct (_ || _); [|done].
    injection Ha as <-. count_worker Hi Returned.
  - unfold abandon in Ha. destruct (pl_workers p !! i) as [[]|] eqn:Hi; try done. destruct (pl_done p) eqn:Hd; [|done].
    injection Ha as <-. simpl. rewrite Hd. count_worker Hi Waiting.
  - unfold respond in Ha. destruct (pl_workers p !! i) as [[]|] eqn:Hi; try done. destruct (implb _ _); [|done].
    injection Ha as <-. count_worker Hi Waiting.
Qed.

Lemma measure_start schedule c : measure (start_pool schedule c) = (3 * length schedule + Z.to_nat c + 2)%nat.
Proof.
  unfold measure, start_pool. simpl. assert (busy_workers (replicate (Z.to_nat c) Waiting) = 0%nat) as ->.
  { unfold busy_workers. by induction (Z.to_nat c). }
  assert (present_workers (replicate (Z.to_nat c) Waiting) = Z.to_nat c) as ->; [|lia].
  unfold present_workers. induction (Z.to_nat c) as [|k IH]; [done|].
  cbn [replicate]. rewrite filter_cons, decide_True by done. cbn [length]. by rewrite IH.
Qed.

Lemma measure_nsteps k p q : nsteps pool_next k p q → (k + measure q = measure p)%nat.
Proof.
  induction 1 as [|k x y z Hxy _ IH]; [done|]. apply measure_step in Hxy. lia.
Qed.

(** A pool with a worker left can move, and not only by the end of its context. *)
Lemma pool_progress p : ¬ all_returned p → ∃ a q, a ≠ Expire ∧ pool_step a p = Some q.
Proof.
  intros Hn. assert (∃ i w, pl_workers p !! i = Some w ∧ w ≠ Returned) as (i & w & Hi & Hw).
  { apply not_Forall_Exists in Hn; [|solve_decision]. apply Exists_exists in Hn as (w & Hin & Hw).
    apply list_elem_of_lookup in Hin as [i Hi]. exists i, w. split; [done|]. by intros ->. }
  destruct w as [|t|]; [| |done].
  - destruct (pl_chan p) as [|t rest] eqn:Hch.
    + destruct (pl_closed p) eqn:Hc.
      * exists (Leave i). simpl. unfold leave. rewrite Hi, Hc, Hch. rewrite bool_decide_true, orb_true_r by done. by eexists.
      * destruct (pl_todo p) as [|t rest] eqn:Ht.
        -- exists Close. simpl. unfold close_chan. rewrite Hc, Ht. rewrite bool_decide_true, orb_true_r by done. by eexists.
        -- exists Emit. simpl. unfold emit. rewrite Ht, Hc, Hch. by eexists.
    + exists (Receive i). simpl. unfold receive. rewrite Hi, Hch. by eexists.
  - exists (Respond i (GotStatus 200) t false). simpl. unfold respond. rewrite Hi. by eexists.
Qed.

(** C13: A phase ends.  No run of its pool is longer than three steps per scheduled arrival, one per
    worker and two; and as long as a worker has not returned some step is possible that does not
    depend on the context ending, so the pool never deadlocks: a run that cannot go on has all
    workers returned. *)
Theorem pool_terminates (schedule : list Time) (concurrency : Z) :
  sn pool_next (start_pool schedule concurrency) ∧
  (∀ k p, nsteps pool_next k (start_pool schedule concurrency) p →
     (k <= 3 * length schedule + Z.to_nat concurrency + 2)%nat) ∧
  (∀ p, ¬ all_returned p → ∃ a q, a ≠ Expire ∧ pool_step a p = Some q).
Proof.
  split_and!.
  - apply (wf_projected lt measure); [|apply lt_wf]. intros x y Hxy. apply measure_step in Hxy. lia.
  - intros k p Hk. apply measure_nsteps in Hk. rewrite measure_start in Hk. lia.
  - apply pool_progress.
Qed.

(** ** What the collector gets of a phase *)

Lemma served_all schedule c p : rtc pool_next (start_pool schedule c) p → all_returned p →
  pl_done p = false → 0 < c → (pl_log p).*1 ≡ₚ schedule.
Proof.
  unfold all_returned. intros Hr Hret Hd Hc. destruct (pool_reachable_inv _ _ _ Hr) as [(taken & -> & Ht) _ Hw Hcl _ Hl].
  assert (Returned ∈ pl_workers p) as Hin.
  { destruct (pl_workers p) as [|w ws]; [simpl in Hw; lia|]. apply Forall_cons in Hret as [<- _]. left. }
  destruct (Hl Hd Hin) as [Hclosed ->]. destruct (Hcl Hclosed) as [|Htodo]; [congruence|].
  rewrite Htodo, !app_nil_r, Ht. replace (in_flight p) with (@nil Time); [by rewrite app_nil_r|].
  unfold in_flight. clear -Hret. by induction Hret as [|w ws <- _ IH].
Qed.

Lemma measured_log_length l : (length (measured_log l) <= length (lg_attempts l))%nat.
Proof. unfold measured_log. destruct (ph_RecordStats _); [apply length_omap_le|simpl; lia]. Qed.

Lemma measured_log_all l : ph_RecordStats (lg_phase l) = true →
  Forall (λ a, ∃ s r t, a = Answered s r t false) (lg_attempts l) →
  length (measured_log l) = length (lg_attempts l).
Proof.
  intros Hrec Hall. unfold measured_log. rewrite Hrec.
  induction Hall as [|a attempts (s & r & t & ->) _ IH]; [done|]. csimpl. by rewrite IH.
Qed.

Section phases.
Context (overflow : f64 → Z) (draw : nat → f64) (concurrency : Z).

(** [l] is what some run of the pool, on the arrivals of its phase, left in the end; [cancelled]
    says whether the context ended before the last worker returned. *)
Definition phase_ran (l : phase_log) (schedule : list Time) (cancelled : bool) : Prop :=
  ∃ t budget p, schedule = runSchedule overflow draw budget t (lg_phase l) ∧
    rtc pool_next (start_pool schedule concurrency) p ∧ all_returned p ∧ pl_done p = cancelled ∧
    lg_attempts l = (pl_log p).*2.

Lemma phase_ran_bound l schedule cancelled : phase_ran l schedule cancelled →
  (length (measured_log l) <= length schedule)%nat.
Proof.
  intros (t & budget & p & _ & Hr & _ & _ & Hl). destruct (pool_reachable_inv _ _ _ Hr) as [(taken & Hs & Ht) _ _ _ _ _].
  pose proof (measured_log_length l) as Hm. rewrite Hl, length_fmap in Hm.
  apply Permutation_length in Ht. rewrite Hs, !length_app. rewrite length_app, length_fmap in Ht. lia.
Qed.

Lemma phase_ran_exact l schedule : 0 < concurrency → phase_ran l schedule false → ph_RecordStats (lg_phase l) = true →
  length (measured_log l) = length schedule.
Proof.
  intros Hc (t & budget & p & _ & Hr & Hret & Hd & Hl) Hrec.
  rewrite measured_log_all, Hl, length_fmap; [|done|].
  - pose proof (served_all _ _ _ Hr Hret Hd Hc) as Hp. apply Permutation_length in Hp. by rewrite length_fmap in Hp.
  - rewrite Hl. apply Forall_fmap. destruct (pool_reachable_inv _ _ _ Hr) as [_ _ _ _ Ho _].
    eapply Forall_impl; [by apply Ho|]. intros [s a] (r & t' & Ha). simpl in *. by exists s, r, t'.
Qed.

(** C21: From the schedules to the result: whatever the interleavings and the replies, the result of
    a run counts no more requests than its phases scheduled, and exactly as many when the phases
    are measured and none was cancelled. *)
Theorem run_sends_scheduled `{HistogramLaws} (cfg : RunLabels) (start finish : Time) (stats : ClientStats)
    (runs : list (phase_log * list Time * bool)) :
  Forall (λ r, phase_ran r.1.1 r.1.2 r.2) runs →
  let logs := (λ r, r.1.1) <$> runs in
  let scheduled := Z.of_nat (length (concat ((λ r, r.1.2) <$> runs))) in
  scheduled < 2 ^ 63 →
  let sent := lr_Sent (Run cfg start finish logs stats) in
  sent <= scheduled ∧
  (0 < concurrency → Forall (λ r, r.2 = false ∧ ph_RecordStats (lg_phase r.1.1) = true) runs → sent = scheduled).
Proof.
  intros Hran logs scheduled Hfit sent.
  assert (Hle : (length (measured logs) <= length (concat ((λ r, r.1.2) <$> runs)))%nat).
  { subst logs. clear -Hran. induction Hran as [|[[l sch] b] runs Hr _ IH]; [done|].
    apply phase_ran_bound in Hr. unfold measured in *. csimpl. rewrite !length_app. simpl in *. lia. }
  assert (Hsent : sent = Z.of_nat (length (measured logs))) by (apply Run_sent; lia).
  split; [lia|]. intros Hc Hall. rewrite Hsent. unfold scheduled. f_equal. subst logs. clear Hle Hsent sent scheduled Hfit.
  induction Hran as [|[[l sch] b] runs Hr _ IH]; [done|]. apply Forall_cons in Hall as [[Hb Hrec] Hall].
  simpl in Hb, Hrec. subst b. apply phase_ran_exact in Hr; [|done..].
  unfold measured in *. csimpl. rewrite !length_app. simpl in *. by rewrite Hr, IH.
Qed.
End phases.

(** ** A sample phase: four arrivals, two workers *)

Definition sample_schedule : list Time := runSchedule no_overflow unit_draws 10 0 (sample_phase "Constant").

Definition sample_actions : list action :=
  [Emit; Emit; Receive 1; Emit; Receive 0; Respond 0 (GotStatus 200) 5 false; Receive 0; Emit; Close;
   Respond 1 (GotStatus 503) 9 false; Receive 1; Respond 0 (GotStatus 200) 10 false; Leave 0;
   Respond 1 (GotStatus 200) 12 false; Leave 1].

Definition sample_pool : pool :=
  default (start_pool [] 0) (pool_run sample_actions (start_pool sample_schedule 2)).

Lemma sample_pool_reached : rtc pool_next (start_pool sample_schedule 2) sample_pool.
Proof. apply (pool_run_steps sample_actions). vm_compute. reflexivity. Qed.

Lemma pool_conserves_witness :
  (∃ taken, sample_schedule = taken ++ pl_chan sample_pool ++ pl_todo sample_pool ∧
     taken ≡ₚ (pl_log sample_pool).*1 ++ in_flight sample_pool) ∧
  (length (pl_chan sample_pool) <= scheduleBuffer)%nat ∧ Z.of_nat (length (in_flight sample_pool)) <= 2.
Proof. exact (pool_conserves sample_schedule 2 sample_pool sample_pool_reached). Defined.

Definition sample_pool_log : phase_log := pool_phase_log (sample_phase "Constant") 0 Second sample_pool.

Lemma sample_ran : phase_ran no_overflow unit_draws 2 sample_pool_log sample_schedule false.
Proof.
  exists 0, 10%nat, sample_pool. split_and!; [done|apply sample_pool_reached| |vm_compute; done..].
  vm_compute. by repeat constructor.
Qed.

Lemma run_sends_scheduled_witness :
  lr_Sent (@Run list_hist (mkLabels "KeepAlive" "HTTP1" "" "" "") 0 0 [sample_pool_log] (mkClientStats 0 0 0))
  = Z.of_nat (length (sample_schedule ++ [])).
Proof.
  apply (@run_sends_scheduled no_overflow unit_draws 2 list_hist _ (mkLabels "KeepAlive" "HTTP1" "" "" "") 0 0
    (mkClientStats 0 0 0) [(sample_pool_log, sample_schedule, false)]).
  - apply Forall_singleton. exact sample_ran.
  - vm_compute. reflexivity.
  - reflexivity.
  - apply Forall_singleton. split; reflexivity.
Defined.
