(* ===== verification/Observer.v ===== *)
(** * The observer (internal/observer/observer.go, target.go, kubelet.go)

    The session of one run: it resolves the target, samples the HPA until the run ends, gathers
    the analyzers' inputs and assembles the report.  Like a reconcile pass it is a program over
    calls, here to the cluster, the clock and the result file; [Tick] answers whether the
    ticker fired or the run is over.  Warnings on stderr are left out. *)

From S2P Require Import Leakage Drain Hpa Cgroup ProbeLag Dns Pdb.
From S2P Require Import Prelude GoFloat GoText Api K8s Correlation Report Effects Collector.

Open Scope Z_scope.

Definition defaultPollInterval : Duration := 5 * Second.

(** The constant 0.01. *)
Definition trafficFailThreshold : f64 := f64_ratio 1 100.

Record Config := mkObserverConfig {
  oc_TargetName : string;
  oc_Namespace : string;
  oc_TargetKind : string;
  oc_TargetGroup : string;
  oc_TargetVersion : string;
  oc_TargetResource : string;
  oc_ServiceName : string;
  oc_SLA : Duration;
  oc_PollInterval : Duration;
  oc_ResultFile : string
}.

Definition applyTargetDefaults (c : Config) : Config :=
  let kind := if decide (oc_TargetKind c = "") then "Deployment" else oc_TargetKind c in
  let '(group, version, resource) :=
    if decide (oc_TargetResource c = "") then ("apps", "v1", "deployments")
    else (oc_TargetGroup c, oc_TargetVersion c, oc_TargetResource c) in
  let version := if decide (version = "") then "v1" else version in
  mkObserverConfig (oc_TargetName c) (oc_Namespace c) kind group version resource (oc_ServiceName c)
    (oc_SLA c) (oc_PollInterval c) (oc_ResultFile c).

(** The configuration a session works with ([NewSession]; its clients are the calls below). *)
Definition session_config (c : Config) : Config :=
  let poll := if oc_PollInterval c <=? 0 then defaultPollInterval else oc_PollInterval c in
  let service := if decide (oc_ServiceName c = "") then oc_TargetName c else oc_ServiceName c in
  applyTargetDefaults (mkObserverConfig (oc_TargetName c) (oc_Namespace c) (oc_TargetKind c) (oc_TargetGroup c)
    (oc_TargetVersion c) (oc_TargetResource c) service (oc_SLA c) poll (oc_ResultFile c)).

Definition targetGVR (c : Config) : GroupVersionResource :=
  mkGVR (oc_TargetGroup c) (oc_TargetVersion c) (oc_TargetResource c).

(** What is read of an autoscaling/v2 HorizontalPodAutoscaler. *)
Record HPA := mkHPA {
  hpa_Name : string;
  hpa_TargetKind : string;
  hpa_TargetName : string;
  hpa_MinReplicas : option Z;
  hpa_MaxReplicas : Z;
  hpa_CurrentReplicas : Z;
  hpa_DesiredReplicas : Z;
  hpa_Conditions : list Hpa.HPACondition
}.

Record target := mkTargetObjects {
  tg_samplePod : Pod;
  tg_selector : string;
  tg_hpa : option HPA
}.

(** ** Pure parts *)

Definition pick_step (runStart : Time) (newest : option Pod) (p : Pod) : option Pod :=
  let ct := pod_CreationTimestamp p in
  if negb (time_after ct runStart) then newest
  else match newest with
       | None => Some p
       | Some q => if time_after ct (pod_CreationTimestamp q) then Some p else newest
       end.

Definition pickColdStartPod (pods : list Pod) (runStart : Time) : option Pod :=
  fold_left (pick_step runStart) pods None.

Fixpoint match_hpa (kind name : string) (hpas : list HPA) : option HPA :=
  match hpas with
  | [] => None
  | h :: rest =>
      if decide (hpa_TargetKind h = kind ∧ hpa_TargetName h = name) then Some h else match_hpa kind name rest
  end.

Definition snapshotHPA (h : HPA) (at_ : Time) : Hpa.Snapshot :=
  Hpa.mkSnapshot at_ (hpa_CurrentReplicas h) (hpa_DesiredReplicas h) (default 0 (hpa_MinReplicas h))
    (hpa_MaxReplicas h) (hpa_Conditions h).

Fixpoint readiness_period (cs : list Container) : Z :=
  match cs with
  | [] => 0
  | c :: rest => match ct_ReadinessProbe c with Some p => pr_PeriodSeconds p | None => readiness_period rest end
  end.

Definition readinessPeriodSeconds (pod : Pod) : Z := readiness_period (pod_Containers pod).

Definition slaVerdict (r : Hpa.Report) : Verdict :=
  if Hpa.SLABreached r then VerdictFail else VerdictPass.

Definition trafficVerdict (r : LoadResult) : Verdict :=
  if f64_lt trafficFailThreshold (FailureRate r) then VerdictFail else VerdictPass.

Definition toLeakageSamples (l : list ErrorSample) : list Leakage.ErrorSample :=
  (λ s, Leakage.mkSample (es_At s) (es_Category s) (es_Status s)) <$> l.

Record observed := mkObserved {
  ob_cgroup : option Cgroup.Report;
  ob_probelag : option ProbeLag.Report;
  ob_dns : option Dns.Report;
  ob_pdb : option Pdb.Report
}.

Definition option_alerts {A} (f : A → list DiagnosticAlert) (o : option A) : list DiagnosticAlert :=
  match o with Some a => f a | None => [] end.

Definition skew_alert : DiagnosticAlert :=
  mkAlert "MetricsLikelySkewed" "Info"
    "endpoint event timestamps reflect informer-watch receive time, not kubelet/apiserver decision time; leakage and drain counts can be off by tens to hundreds of milliseconds"
    "treat the leakage / drain counts as directional; cross-check with kubelet logs or audit events when the failure count looks borderline".

Section report.
Context `{SortSlice}.

Definition correlation_alerts (events : list Leakage.EndpointEvent) (samples : list ErrorSample) : list DiagnosticAlert :=
  let errs := toLeakageSamples samples in
  let diags := Leakage.Diagnostics (Leakage.Correlate events errs 0)
               ++ Drain.Diagnostics (Drain.Correlate events errs 0) in
  match diags with [] => [] | _ => diags ++ [skew_alert] end.

(** [Session.report], on the endpoint events accumulated by the session. *)
Definition report (hpaReport : option Hpa.Report) (obs : option observed) (load : option LoadResult)
    (events : list Leakage.EndpointEvent) : Report :=
  let diags := option_alerts Hpa.Diagnostics hpaReport in
  let sla := match hpaReport with Some r => slaVerdict r | None => VerdictUnknown end in
  let up := match hpaReport with
            | Some r => if Hpa.Settled r then Some (Hpa.SettleLatency r) else None
            | None => None
            end in
  let diags := diags ++
    match obs with
    | Some o => option_alerts Cgroup.Diagnostics (ob_cgroup o) ++ option_alerts ProbeLag.Diagnostics (ob_probelag o)
                ++ option_alerts Dns.Diagnostics (ob_dns o) ++ option_alerts Pdb.Diagnostics (ob_pdb o)
    | None => []
    end in
  match load with
  | None => mkReport diags up sla VerdictUnknown 0 0 (f64_of_int 0)
  | Some r =>
      mkReport (diags ++ correlation_alerts events (lr_ErrorSamples r)) up sla (trafficVerdict r)
        (lr_Sent r) (lr_Failed r) (FailureRate r)
  end.
End report.

(** ** The session *)

(** encoding/json at the load generator's result. *)
Class ResultJson := {
  MarshalResult : LoadResult → res string;
  UnmarshalResult : string → res LoadResult
}.

(** All the text of a result is ASCII. *)
Definition plain_result (r : LoadResult) : Prop :=
  map_Forall (λ k v, plain_text k ∧ plain_text v) (lr_Labels r) ∧
  map_Forall (λ k _, plain_text k) (lr_Errors r) ∧ Forall (λ s, plain_text (es_Category s)) (lr_ErrorSamples r) ∧
  Forall (λ s, plain_text (su_Name s) ∧ plain_text (su_Pattern s)) (lr_Phases r).

Class ResultJsonLaws `{ResultJson} : Prop := {
  result_roundtrip : ∀ r s, plain_result r → MarshalResult r = Ok s → UnmarshalResult s = Ok r
}.

(** The cAdvisor text parser and the platform's float conversion, as in Cgroup.v. *)
Class CAdvisor := { text_to_families : string → Cgroup.parse_outcome; uint64_overflow : f64 → Z }.

Section session.
Context `{K8sLib, SortSlice, ResultJson, CAdvisor}.

Inductive ocall :=
| OGetScale (ns : string) (gvr : GroupVersionResource) (name : string)
| OListPods (ns : string) (selector : string)
| OListHPAs (ns : string)
| OGetHPA (ns name : string)
| OListPDBs (ns : string)
| OStream (path : list string)
| OReadAll (rc : nat)
| OCloseStream (rc : nat)
| OReadFile (path : string)
| OEvents
| OTick
| ONow.

Definition oanswer (c : ocall) : Type :=
  match c with
  | OGetScale _ _ _ => res Unstructured
  | OListPods _ _ => res (list Pod)
  | OListHPAs _ => res (list HPA)
  | OGetHPA _ _ => res HPA
  | OListPDBs _ => res (list Pdb.PodDisruptionBudget)
  | OStream _ => res nat
  | OReadAll _ => res string
  | OCloseStream _ => unit
  | OReadFile _ => res string
  | OEvents => list Leakage.EndpointEvent
  | OTick => bool
  | ONow => Time
  end.

Context (cfg : Config).

Definition findHPA : prog oanswer (option HPA) :=
  l ← call (OListHPAs (oc_Namespace cfg));
  match l with
  | Err _ => mret None
  | Ok hpas => mret (match_hpa (oc_TargetKind cfg) (oc_TargetName cfg) hpas)
  end.

Definition resolveTarget : prog oanswer (res target) :=
  let who := oc_TargetKind cfg +:+ " " +:+ oc_TargetName cfg in
  s ← call (OGetScale (oc_Namespace cfg) (targetGVR cfg) (oc_TargetName cfg));
  match s with
  | Err e => mret (Err (wrapf ("get scale of " +:+ who) e))
  | Ok scale =>
      match NestedString scale ["status"; "selector"] with
      | Err e => mret (Err (wrapf ("read scale status.selector of " +:+ who) e))
      | Ok v =>
          let selector := default "" v in
          if decide (selector = "") then mret (Err (errorf (who +:+ " reports an empty scale status.selector")))
          else
            p ← call (OListPods (oc_Namespace cfg) selector);
            match p with
            | Err e => mret (Err (wrapf "list target pods" e))
            | Ok [] => mret (Err (errorf (who +:+ " has no pods")))
            | Ok (pod :: _) => h ← findHPA; mret (Ok (mkTargetObjects pod selector h))
            end
      end
  end.

(** The kubelet's cAdvisor endpoint through the API server's proxy. *)
Definition defaultCAdvisorOpen (node : string) : prog oanswer (res nat) :=
  r ← call (OStream ["api"; "v1"; "nodes"; node; "proxy"; "metrics"; "cadvisor"]);
  match r with
  | Err e => mret (Err (wrapf ("proxy cadvisor on node " +:+ node) e))
  | Ok rc => mret (Ok rc)
  end.

(** A session in production has no opener of its own. *)
Definition fetchCAdvisor (node : string) : prog oanswer (res string) :=
  o ← defaultCAdvisorOpen node;
  match o with
  | Err e => mret (Err e)
  | Ok rc =>
      b ← call (OReadAll rc);
      _ ← call (OCloseStream rc);
      match b with
      | Err e => mret (Err (wrapf "read cadvisor body" e))
      | Ok body => mret (Ok body)
      end
  end.

Definition scrapeCgroup (pod : Pod) : prog oanswer (res Cgroup.Stat) :=
  match pod_Containers pod with
  | [] => mret (Err (errorf "no pod or container to scrape"))
  | c :: _ =>
      if decide (pod_NodeName pod = "") then
        mret (Err (errorf ("pod " +:+ pod_Name pod +:+ " not yet scheduled to a node")))
      else
        b ← fetchCAdvisor (pod_NodeName pod);
        match b with
        | Err e => mret (Err e)
        | Ok body =>
            mret (Cgroup.ParseCAdvisor text_to_families uint64_overflow body (pod_Name pod)
                    (pod_Namespace pod) (ct_Name c))
        end
  end.

(** [pollHPA]: at most [ticks] iterations; the run ends when [OTick] answers false. *)
Fixpoint pollHPA (ticks : nat) (name : string) (w : Hpa.Watcher) : prog oanswer Hpa.Watcher :=
  match ticks with
  | O => mret w
  | S n =>
      fired ← call OTick;
      if negb fired then mret w
      else
        h ← call (OGetHPA (oc_Namespace cfg) name);
        match h with
        | Err _ => pollHPA n name w
        | Ok h => now ← call ONow; pollHPA n name (Hpa.Record_ w (snapshotHPA h now))
        end
  end.

Definition collectProbeLag (t : target) (runStart : Time) : prog oanswer (option ProbeLag.Report) :=
  if decide (tg_selector t = "") then mret None
  else
    l ← call (OListPods (oc_Namespace cfg) (tg_selector t));
    match l with
    | Err _ => mret None
    | Ok pods =>
        match pickColdStartPod pods runStart with
        | None => mret None
        | Some pod => mret (Some (ProbeLag.FromPodConditions (pod_Conditions pod) (readinessPeriodSeconds pod)))
        end
    end.

(** The pods that match the selector, when neither the scale subresource nor the HPA tells. *)
Definition count_pods (t : target) : prog oanswer Z :=
  l ← call (OListPods (oc_Namespace cfg) (tg_selector t));
  match l with
  | Err _ => mret 0
  | Ok pods => mret (int32 (Z.of_nat (length pods)))
  end.

Definition fallback_replicas (t : target) : prog oanswer Z :=
  match tg_hpa t with
  | Some h => if 0 <? hpa_CurrentReplicas h then mret (hpa_CurrentReplicas h) else count_pods t
  | None => count_pods t
  end.

Definition currentReplicas (t : target) : prog oanswer Z :=
  s ← call (OGetScale (oc_Namespace cfg) (targetGVR cfg) (oc_TargetName cfg));
  match s with
  | Ok scale =>
      match NestedInt64 scale ["status"; "replicas"] with
      | Ok (Some n) => mret (int32 n)
      | _ => fallback_replicas t
      end
  | Err _ => fallback_replicas t
  end.

Definition collectResilience (t : target) : prog oanswer (option Dns.Report * option Pdb.Report) :=
  let dns := match Dns.Audit (pod_DNSConfig (tg_samplePod t)) with Ok r => Some r | Err _ => None end in
  if decide (tg_selector t = "") then mret (dns, None)
  else
    l ← call (OListPDBs (oc_Namespace cfg));
    match l with
    | Err _ => mret (dns, None)
    | Ok pdbs =>
        n ← currentReplicas t;
        match Pdb.Audit (pod_Labels (tg_samplePod t)) n pdbs with
        | Err _ => mret (dns, None)
        | Ok r => mret (dns, Some r)
        end
    end.

Definition loadResult : prog oanswer (option LoadResult) :=
  if decide (oc_ResultFile cfg = "") then mret None
  else
    f ← call (OReadFile (oc_ResultFile cfg));
    match f with
    | Err _ => mret None
    | Ok raw => mret (match UnmarshalResult raw with Ok r => Some r | Err _ => None end)
    end.

Definition final_report (hpaReport : option Hpa.Report) (obs : option observed) : prog oanswer Report :=
  load ← loadResult;
  events ← call OEvents;
  mret (report hpaReport obs load events).

(** What is gathered once the run is over. *)
Definition finish (t : target) (start : Time) (before : res Cgroup.Stat) (w : option Hpa.Watcher) : prog oanswer Report :=
  end_ ← call ONow;
  after ← scrapeCgroup (tg_samplePod t);
  let cg := match after with
            | Err _ => None
            | Ok a => Some (Cgroup.Compare (match before with Ok b => b | Err _ => Cgroup.zero_stat end) a
                              (time_sub end_ start))
            end in
  probe ← collectProbeLag t start;
  res ← collectResilience t;
  final_report (Hpa.report <$> w) (Some (mkObserved cg probe res.1 res.2)).

(** [Session.Run] with at most [ticks] HPA samples. *)
Definition Run (ticks : nat) : prog oanswer Report :=
  start ← call ONow;
  t ← resolveTarget;
  match t with
  | Err _ => final_report None None
  | Ok t =>
      before ← scrapeCgroup (tg_samplePod t);
      match tg_hpa t with
      | None => finish t start before None
      | Some h =>
          w ← pollHPA ticks (hpa_Name h) (Hpa.New (snapshotHPA h start) (oc_SLA cfg));
          finish t start before (Some w)
      end
  end.
End session.

(** ** The cold-start subject *)

Lemma pick_snoc pods p runStart :
  pickColdStartPod (pods ++ [p]) runStart = pick_step runStart (pickColdStartPod pods runStart) p.
Proof. unfold pickColdStartPod. by rewrite fold_left_app. Qed.

(** The pod chosen for the probe-lag analysis was created after the run began, is the newest such
    pod, and the first listed of that age; there is none only when no pod was created since. *)
Theorem cold_start_newest (pods : list Pod) (runStart : Time) :
  match pickColdStartPod pods runStart with
  | Some p =>
      ∃ before after, pods = before ++ p :: after ∧ runStart < pod_CreationTimestamp p ∧
        Forall (λ q, pod_CreationTimestamp q <= pod_CreationTimestamp p) after ∧
        Forall (λ q, runStart < pod_CreationTimestamp q → pod_CreationTimestamp q < pod_CreationTimestamp p) before
  | None => Forall (λ q, pod_CreationTimestamp q <= runStart) pods
  end.
Proof.
  induction pods as [|p pods IH] using rev_ind; [constructor|]. rewrite pick_snoc. unfold pick_step, time_after.
  destruct (Z.ltb_spec runStart (pod_CreationTimestamp p)) as [Hlt|Hge]; cbn [negb].
  - destruct (pickColdStartPod pods runStart) as [q|].
    + destruct IH as (before & after & -> & Hq & Ha & Hb).
      destruct (Z.ltb_spec (pod_CreationTimestamp q) (pod_CreationTimestamp p)).
      * exists (before ++ q :: after), []. split_and!; [done|done|constructor|].
        apply Forall_app. split; [|constructor; [done|]].
        -- eapply Forall_impl; [exact Hb|]. simpl. intros; lia.
        -- eapply Forall_impl; [exact Ha|]. simpl. intros; lia.
      * exists before, (after ++ [p]). rewrite <- app_assoc. split_and!; [done..| |done].
        apply Forall_app. split; [done|]. constructor; [lia|constructor].
    + exists pods, []. split_and!; [done|done|constructor|].
      eapply Forall_impl; [exact IH|]. simpl. intros; lia.
  - destruct (pickColdStartPod pods runStart) as [q|].
    + destruct IH as (before & after & -> & Hq & Ha & Hb).
      exists before, (after ++ [p]). rewrite <- app_assoc. split_and!; [done..| |done].
      apply Forall_app. split; [done|]. constructor; [lia|constructor].
    + apply Forall_app. split; [done|]. constructor; [lia|constructor].
Qed.

(** ** The verdicts of a session *)

Section verdicts.
Context `{K8sLib, SortSlice, ResultJson, CAdvisor}.

Lemma report_verdicts hpaReport obs load events :
  let rep := report hpaReport obs load events in
  rp_SLAStatus rep = match hpaReport with Some r => slaVerdict r | None => VerdictUnknown end ∧
  rp_TrafficIntegrity rep = match load with Some r => trafficVerdict r | None => VerdictUnknown end ∧
  rp_TotalRequests rep = match load with Some r => lr_Sent r | None => 0 end ∧
  rp_FailedRequests rep = match load with Some r => lr_Failed r | None => 0 end.
Proof. unfold report. by destruct load. Qed.

(** ** What a session has seen, read off its calls *)

Definition as_now (e : event oanswer) : option Time :=
  match e with Ev c r => match c as c return oanswer c → option Time with ONow => Some | _ => λ _, None end r end.

Definition as_hpas (e : event oanswer) : option (list HPA) :=
  match e with
  | Ev c r =>
      match c as c return oanswer c → option (list HPA) with
      | OListHPAs _ => λ r, match r with Ok l => Some l | Err _ => None end
      | _ => λ _, None
      end r
  end.

Definition as_hpa (e : event oanswer) : option HPA :=
  match e with
  | Ev c r =>
      match c as c return oanswer c → option HPA with
      | OGetHPA _ _ => λ r, match r with Ok h => Some h | Err _ => None end
      | _ => λ _, None
      end r
  end.

Definition as_file (e : event oanswer) : option string :=
  match e with
  | Ev c r =>
      match c as c return oanswer c → option string with
      | OReadFile _ => λ r, match r with Ok raw => Some raw | Err _ => None end
      | _ => λ _, None
      end r
  end.

(** The instant of the first call, which starts the run. *)
Definition start_of (h : history oanswer) : option Time := last h ≫= as_now.

(** The target's HPA among those that were listed, if any were. *)
Definition found_hpa (cfg : Config) (h : history oanswer) : option HPA :=
  head (omap as_hpas h) ≫= match_hpa (oc_TargetKind cfg) (oc_TargetName cfg).

(** The snapshots of the polls that were answered, oldest first, each at the instant read after it. *)
Fixpoint polled (h : history oanswer) : list Hpa.Snapshot :=
  match h with
  | [] => []
  | e :: rest =>
      match as_now e, head rest ≫= as_hpa with
      | Some now, Some hp => polled rest ++ [snapshotHPA hp now]
      | _, _ => polled rest
      end
  end.

(** The report of the HPA that a session must give: none without an HPA. *)
Definition observed_hpa (cfg : Config) (h : history oanswer) : option Hpa.Report :=
  hp ← found_hpa cfg h; start ← start_of h;
  Some (Hpa.report (Hpa.watch (snapshotHPA hp start) (oc_SLA cfg) (polled h))).

(** The load generator's result that was read, if one could be read and decoded. *)
Definition read_result (h : history oanswer) : option LoadResult :=
  raw ← head (omap as_file h); match UnmarshalResult raw with Ok r => Some r | Err _ => None end.

(** A session's report is the one made of the HPA polls and of the result file as the calls of that
    very session were answered, and of a snapshot of the endpoint events it took. *)
Definition sound_report (cfg : Config) (h : history oanswer) (rep : Report) : Prop :=
  ∃ obs events, Ev OEvents events ∈ h ∧ rep = report (observed_hpa cfg h) obs (read_result h) events.

(** Calls that tell nothing about these. *)
Definition silent (c : ocall) : Prop :=
  match c with OListHPAs _ | OGetHPA _ _ | OReadFile _ | ONow => False | _ => True end.

Notation all_silent := (Forall (λ e, silent (ev_call e))).

Lemma silent_omap l : all_silent l → omap as_hpas l = [] ∧ omap as_file l = [].
Proof.
  induction 1 as [|[c r] l Hc _ [IH1 IH2]]; [done|].
  change (omap as_hpas (Ev c r :: l)) with (match as_hpas (Ev c r) with Some x => x :: omap as_hpas l | None => omap as_hpas l end).
  change (omap as_file (Ev c r :: l)) with (match as_file (Ev c r) with Some x => x :: omap as_file l | None => omap as_file l end).
  by destruct c.
Qed.

Lemma silent_polled l h : all_silent l → polled (l ++ h) = polled h.
Proof. induction 1 as [|[c r] l Hc _ IH]; [done|]. by destruct c. Qed.

(** What is known of the calls so far: the instant of the first, the lists of HPAs, the snapshots, and
    the files. *)
Record seen (h : history oanswer) (start : Time) (lists : list (list HPA)) (snaps : list Hpa.Snapshot)
    (files : list string) : Prop := {
  se_start : start_of h = Some start;
  se_lists : omap as_hpas h = lists;
  se_polled : polled h = snaps;
  se_files : omap as_file h = files;
  (** the last call is not a poll whose instant has not been read *)
  se_settled : head h ≫= as_hpa = None
}.

Lemma start_app l h start : start_of h = Some start → start_of (l ++ h) = Some start.
Proof. unfold start_of. rewrite last_app. by destruct (last h). Qed.

Lemma seen_silent l h start lists snaps files : all_silent l →
  seen h start lists snaps files → seen (l ++ h) start lists snaps files.
Proof.
  intros Hl [Hs Hh Hp Hr He]. destruct (silent_omap l Hl) as [Hh' Hf']. split.
  - by apply start_app.
  - by rewrite omap_app, Hh'.
  - by rewrite silent_polled.
  - by rewrite omap_app, Hf'.
  - destruct Hl as [|[c r] l Hc _]; [done|]. by destruct c.
Qed.

Lemma skip_silent {A B} (p : prog oanswer A) (f : A → prog oanswer B) h start lists snaps files Q :
  only_calls silent p → seen h start lists snaps files →
  (∀ h' a, seen h' start lists snaps files → returns (f a) h' Q) → returns (p ≫= f) h Q.
Proof.
  intros Hp Hs Hf. apply wp_bind. apply (wp_only_calls _ _ silent); [done|done|].
  intros l a _ Hl. apply Hf. by apply seen_silent.
Qed.

Ltac silence :=
  repeat first [ done | apply only_calls_bind | split | progress intros | case_match ].

Lemma scrapeCgroup_silent pod : only_calls silent (scrapeCgroup pod).
Proof. unfold scrapeCgroup, fetchCAdvisor, defaultCAdvisorOpen. silence. Qed.

Lemma collectProbeLag_silent cfg t start : only_calls silent (collectProbeLag cfg t start).
Proof. unfold collectProbeLag. silence. Qed.

Lemma collectResilience_silent cfg t : only_calls silent (collectResilience cfg t).
Proof. unfold collectResilience, currentReplicas, fallback_replicas, count_pods. silence. Qed.

Lemma findHPA_seen cfg h start : seen h start [] [] [] →
  returns (findHPA cfg) h (λ h' hp, ∃ lists, seen h' start lists [] [] ∧
    hp = (head lists ≫= match_hpa (oc_TargetKind cfg) (oc_TargetName cfg))).
Proof.
  intros [Hs Hh Hp Hr He]. unfold findHPA. apply wp_call; [done|]. intros [hpas|e] _.
  - exists [hpas]. split; [|done]. split; [by apply (start_app [_])|exact (f_equal (cons hpas) Hh)|done..].
  - exists []. split; [|done]. split; [by apply (start_app [_])|done..].
Qed.

Lemma resolveTarget_seen cfg h start : seen h start [] [] [] →
  returns (resolveTarget cfg) h (λ h' t, ∃ lists, seen h' start lists [] [] ∧
    match t with
    | Ok t => tg_hpa t = (head lists ≫= match_hpa (oc_TargetKind cfg) (oc_TargetName cfg))
    | Err _ => lists = []
    end).
Proof.
  intros Hs. assert (Hstep : ∀ c r, silent c → ∀ lists snaps files, seen h start lists snaps files →
    seen (Ev c r :: h) start lists snaps files) by (intros; apply (seen_silent [_]); [by constructor|done]).
  unfold resolveTarget. apply wp_call; [done|]. intros [scale|e] _; [|exists []; split; [by apply Hstep|done]].
  destruct (NestedString scale _) as [v|e]; [|exists []; split; [by apply Hstep|done]].
  case_decide; [exists []; split; [by apply Hstep|done]|]. clear Hstep.
  apply (seen_silent [Ev (OGetScale (oc_Namespace cfg) (targetGVR cfg) (oc_TargetName cfg)) (Ok scale)]) in Hs; [|by repeat constructor].
  apply wp_call; [done|]. intros l _.
  apply (seen_silent [Ev (OListPods (oc_Namespace cfg) (default "" v)) l]) in Hs; [|by repeat constructor].
  destruct l as [[|pod pods]|e]; [by exists []| |by exists []].
  apply wp_bind. eapply wp_mono; [by apply findHPA_seen|]. intros h' hp (lists & Hl & ->). by exists lists.
Qed.

(** The watcher sees the snapshots of the polls, and no others. *)
Lemma pollHPA_seen cfg ticks name initial h start lists snaps : seen h start lists snaps [] →
  returns (pollHPA cfg ticks name (Hpa.watch initial (oc_SLA cfg) snaps)) h
    (λ h' w, ∃ snaps', seen h' start lists snaps' [] ∧ w = Hpa.watch initial (oc_SLA cfg) snaps').
Proof.
  revert h snaps. induction ticks as [|n IH]; intros h snaps Hs; [by exists snaps|].
  unfold returns in *. simpl. split; [done|]. intros fired _.
  apply (seen_silent [Ev OTick fired]) in Hs; [|by repeat constructor]. destruct fired; [|by exists snaps].
  split; [done|]. intros [hp|e] _; [|apply IH; destruct Hs; split; [by apply (start_app [_])|done..]].
  split; [done|]. intros now _.
  assert (Hw : Hpa.Record_ (Hpa.watch initial (oc_SLA cfg) snaps) (snapshotHPA hp now)
    = Hpa.watch initial (oc_SLA cfg) (snaps ++ [snapshotHPA hp now])) by (unfold Hpa.watch; by rewrite foldl_app).
  change (wp (λ _ _, True) (λ _, True)
    (pollHPA cfg n name (Hpa.Record_ (Hpa.watch initial (oc_SLA cfg) snaps) (snapshotHPA hp now)))
    (Ev ONow now :: Ev (OGetHPA (oc_Namespace cfg) name) (Ok hp) :: Ev OTick true :: h)
    (λ h' w, ∃ snaps', seen h' start lists snaps' [] ∧ w = Hpa.watch initial (oc_SLA cfg) snaps')).
  rewrite Hw. apply IH. destruct Hs as [Hst Hl Hp Hf He]. split; [by apply (start_app [_; _])|done| |done..].
  simpl. by rewrite <- Hp.
Qed.

Lemma read_files h files : omap as_file h = files →
  read_result h = raw ← head files; match UnmarshalResult raw with Ok r => Some r | Err _ => None end.
Proof. unfold read_result. by intros ->. Qed.

Lemma loadResult_seen cfg h start lists snaps : seen h start lists snaps [] →
  returns (loadResult cfg) h (λ h' load, ∃ files, seen h' start lists snaps files ∧ load = read_result h').
Proof.
  intros Hs. pose proof Hs as [Hst Hl Hp Hf He]. unfold loadResult. case_decide.
  { exists []. split; [done|]. by rewrite (read_files _ _ Hf). }
  apply wp_call; [done|]. intros [raw|e] _.
  - assert (omap as_file (Ev (OReadFile (oc_ResultFile cfg)) (Ok raw) :: h) = [raw]) as Hf' by exact (f_equal (cons raw) Hf).
    exists [raw]. split; [split; [by apply (start_app [_])|done..]|]. by rewrite (read_files _ _ Hf').
  - assert (omap as_file (Ev (OReadFile (oc_ResultFile cfg)) (Err e) :: h) = []) as Hf' by exact Hf.
    exists []. split; [split; [by apply (start_app [_])|done..]|]. by rewrite (read_files _ _ Hf').
Qed.

Lemma observed_seen cfg h start lists snaps files : seen h start lists snaps files →
  observed_hpa cfg h = hp ← (head lists ≫= match_hpa (oc_TargetKind cfg) (oc_TargetName cfg));
    Some (Hpa.report (Hpa.watch (snapshotHPA hp start) (oc_SLA cfg) snaps)).
Proof. intros [Hs Hl Hp _ _]. unfold observed_hpa, found_hpa. by rewrite Hl, Hs, Hp. Qed.

Lemma final_sound cfg hpaReport obs h start lists snaps : seen h start lists snaps [] →
  hpaReport = (hp ← (head lists ≫= match_hpa (oc_TargetKind cfg) (oc_TargetName cfg));
    Some (Hpa.report (Hpa.watch (snapshotHPA hp start) (oc_SLA cfg) snaps))) →
  returns (final_report cfg hpaReport obs) h (sound_report cfg).
Proof.
  intros Hs ->. unfold final_report. apply wp_bind. eapply wp_mono; [by apply loadResult_seen|].
  intros h1 load (files & Hs1 & ->). apply wp_call; [done|]. intros events _. exists obs, events. split; [left|].
  apply (seen_silent [Ev OEvents events]) in Hs1 as Hs2; [|by repeat constructor].
  simpl in Hs2. by rewrite (observed_seen cfg _ _ _ _ _ Hs2).
Qed.

Lemma finish_sound cfg t start t0 before w h lists snaps : seen h start lists snaps [] →
  Hpa.report <$> w = (hp ← (head lists ≫= match_hpa (oc_TargetKind cfg) (oc_TargetName cfg));
    Some (Hpa.report (Hpa.watch (snapshotHPA hp start) (oc_SLA cfg) snaps))) →
  returns (finish cfg t t0 before w) h (sound_report cfg).
Proof.
  intros Hs Hw. unfold finish. apply wp_call; [done|]. intros end_ _.
  assert (seen (Ev ONow end_ :: h) start lists snaps []) as Hs1.
  { destruct Hs as [Hst Hl Hp Hf He]. split; [by apply (start_app [_])|done| |done..]. simpl. by rewrite He. }
  eapply skip_silent; [apply scrapeCgroup_silent|exact Hs1|]. intros h1 after Hs2.
  eapply skip_silent; [apply collectProbeLag_silent|exact Hs2|]. intros h2 probe Hs3.
  eapply skip_silent; [apply collectResilience_silent|exact Hs3|]. intros h3 res Hs4.
  eapply final_sound; [exact Hs4|exact Hw].
Qed.

Lemma Run_sound cfg ticks : returns (Run cfg ticks) [] (sound_report cfg).
Proof.
  unfold Run. apply wp_call; [done|]. intros start _.
  assert (seen [Ev ONow start] start [] [] []) as Hs by (by split).
  apply wp_bind. eapply wp_mono; [by apply resolveTarget_seen|]. intros h1 t (lists & Hs1 & Ht).
  destruct t as [t|e]; [|subst lists; by eapply final_sound].
  eapply skip_silent; [apply scrapeCgroup_silent|exact Hs1|]. intros h2 before Hs2.
  destruct (tg_hpa t) as [hp|]; [|by eapply finish_sound; [exact Hs2|rewrite <- Ht]].
  apply wp_bind. eapply wp_mono; [by apply (pollHPA_seen _ _ _ _ _ start lists [])|].
  intros h3 w (snaps & Hs3 & ->). eapply finish_sound; [exact Hs3|by rewrite <- Ht].
Qed.

(** C34: Every session, in every environment and however many polls it makes, reports what it saw in
    that session: its SLA verdict and scale-up duration are those of exactly the snapshots that
    the polls of its target's HPA were answered with, in order, and Unknown and absent exactly when
    no HPA of the target was listed; its traffic verdict and figures are those of the result file
    as it was read, and Unknown and zero exactly when none could be read and decoded; and it took
    the snapshot of the endpoint events that the report is made of. *)
Theorem session_report_sound (cfg : Config) (env : history oanswer → ∀ c, oanswer c) (ticks : nat) :
  let '(h, rep) := exec env (Run cfg ticks) [] in
  rp_SLAStatus rep = match observed_hpa cfg h with Some r => slaVerdict r | None => VerdictUnknown end ∧
  rp_ScaleUpDuration rep = (r ← observed_hpa cfg h; if Hpa.Settled r then Some (Hpa.SettleLatency r) else None) ∧
  rp_TrafficIntegrity rep = match read_result h with Some r => trafficVerdict r | None => VerdictUnknown end ∧
  rp_TotalRequests rep = match read_result h with Some r => lr_Sent r | None => 0 end ∧
  rp_FailedRequests rep = match read_result h with Some r => lr_Failed r | None => 0 end ∧
  rp_FailureRate rep = match read_result h with Some r => FailureRate r | None => f64_of_int 0 end ∧
  sound_report cfg h rep.
Proof.
  pose proof (returns_runs _ _ _ _ _ (exec_runs env (Run cfg ticks) []) (Run_sound cfg ticks)) as Hsound.
  destruct (exec env (Run cfg ticks) []) as [h rep]. simpl in Hsound. split_and!; [..|exact Hsound]; destruct Hsound as (obs & events & _ & ->); unfold report;
    destruct (read_result h); try done; by destruct (observed_hpa cfg h).
Qed.

(** When the scrape before the load fails, the later one is compared with a zero baseline: the
    whole lifetime of the container is attributed to the run. *)
Lemma lost_baseline a window : 0 <= Cgroup.NRPeriods a →
  Cgroup.Periods (Cgroup.Compare Cgroup.zero_stat a window) = Cgroup.NRPeriods a.
Proof. unfold Cgroup.Compare, Cgroup.saturatingSub. simpl. case_match; lia. Qed.
End verdicts.
