(* ===== verification/Session.v ===== *)
(** * A session and its watch goroutine (internal/observer)

    [Session.Run] starts [watchEndpoints] in a goroutine of its own and, when the load run is over,
    cancels it without waiting for it to return.  The two share the list of endpoint events under
    a mutex: adding a batch and taking a snapshot are atomic.  Here they run as two threads over
    that list, in every interleaving; the goroutine may also start before [Run] gets to its [go]
    statement and go on after its context is done, which allows more than the code. *)

From S2P Require Import Leakage Drain Hpa Cgroup ProbeLag Dns Pdb.
From S2P Require Import Prelude GoFloat GoText Api K8s Correlation Report Effects Collector Endpoints EndpointWatch Interleave Observer.

Open Scope Z_scope.

Section session.
Context `{K8sLib, SortSlice, ResultJson, CAdvisor, MapRange}.

Inductive scall :=
| SObserve (c : ocall)
| SWatch (c : ecall).

Definition sanswer (c : scall) : Type := match c with SObserve c => oanswer c | SWatch c => eanswer c end.

(** What the two threads return: the report, or how the goroutine ended. *)
Definition outcome : Type := Report + (bool * endpointTracker).

Fixpoint session_thread (p : prog oanswer Report) : prog sanswer outcome :=
  match p with
  | Ret rep => Ret (inl rep)
  | Call c k => Call (R := sanswer) (SObserve c) (λ r, session_thread (k r))
  end.

Fixpoint watch_thread (p : EM (bool * endpointTracker)) : prog sanswer outcome :=
  match p with
  | Ret a => Ret (inr a)
  | Call c k => Call (R := sanswer) (SWatch c) (λ r, watch_thread (k r))
  end.

(** The effect of a call on the events of the session. *)
Definition session_handle (events : list EndpointEvent) (c : scall) : sanswer c → list EndpointEvent → Prop :=
  match c as c return sanswer c → list EndpointEvent → Prop with
  | SObserve c =>
      match c as c return oanswer c → list EndpointEvent → Prop with
      | OEvents => λ r events', r = snapshotEvents events ∧ events' = events
      | _ => λ _ events', events' = events
      end
  | SWatch c => λ _ events', events' = match c with EAddEvents evs => append_events events evs | _ => events end
  end.

(** [Run] with at most [ticks] HPA samples, and the goroutine. *)
Definition session_start (cfg : Config) (ticks watches fuel : nat) : conf sanswer (list EndpointEvent) outcome :=
  mkConf [] [session_thread (Run cfg ticks);
             watch_thread (watchEndpoints watches fuel (oc_Namespace cfg) (oc_ServiceName cfg))] [].

(** ** The two halves of a trace *)

Fixpoint session_calls (h : history sanswer) : history oanswer :=
  match h with
  | [] => []
  | Ev c r :: rest =>
      match c as c return sanswer c → history oanswer with
      | SObserve c => λ r, Ev c r :: session_calls rest
      | SWatch _ => λ _, session_calls rest
      end r
  end.

Fixpoint watch_calls (h : history sanswer) : history eanswer :=
  match h with
  | [] => []
  | Ev c r :: rest =>
      match c as c return sanswer c → history eanswer with
      | SObserve _ => λ _, watch_calls rest
      | SWatch c => λ r, Ev c r :: watch_calls rest
      end r
  end.

Lemma session_calls_split c r (h : history sanswer) : Ev c r ∈ session_calls h →
  ∃ later earlier, h = later ++ Ev (R := sanswer) (SObserve c) r :: earlier.
Proof.
  induction h as [|[[c'|c'] r'] h IH]; simpl; intros Hin.
  - by apply elem_of_nil in Hin.
  - apply elem_of_cons in Hin as [Heq|Hin].
    + exists [], h. simpl. f_equal.
      exact (f_equal (λ e : event oanswer, match e with Ev c r => Ev (R := sanswer) (SObserve c) r end) (eq_sym Heq)).
    + destruct (IH Hin) as (later & earlier & ->). by exists (Ev (R := sanswer) (SObserve c') r' :: later), earlier.
  - destruct (IH Hin) as (later & earlier & ->). by exists (Ev (R := sanswer) (SWatch c') r' :: later), earlier.
Qed.

(** ** The report of a session is made of one snapshot *)

Definition from_snapshot (h : history oanswer) (rep : Report) : Prop :=
  ∃ hpaReport obs load events, Ev OEvents events ∈ h ∧ rep = report hpaReport obs load events.

Lemma final_from_snapshot cfg hpaReport obs h : returns (final_report cfg hpaReport obs) h from_snapshot.
Proof.
  unfold final_report. apply returns_skip. intros h1 load. apply wp_call; [done|]. intros events _.
  exists hpaReport, obs, load, events. split; [left|done].
Qed.

Lemma finish_from_snapshot cfg t start before w h : returns (finish cfg t start before w) h from_snapshot.
Proof.
  unfold finish. apply returns_skip. intros h1 end_. do 3 (apply returns_skip; intros ? ?). apply final_from_snapshot.
Qed.

Lemma Run_from_snapshot cfg ticks h : returns (Run cfg ticks) h from_snapshot.
Proof.
  unfold Run. apply returns_skip. intros h1 start. apply returns_skip. intros h2 [t|e]; [|apply final_from_snapshot].
  apply returns_skip. intros h3 before. destruct (tg_hpa t); [|apply finish_from_snapshot].
  apply returns_skip. intros h4 w. apply finish_from_snapshot.
Qed.

(** ** Every interleaving *)

(** [us] are the updates in [delivered], but for the last one when its events are on their way. *)
Definition behind {U} (us delivered : list U) : Prop := delivered = us ∨ ∃ u, delivered = us ++ [u].

(** A snapshot of the events at a moment at which the goroutine has made the calls [w]. *)
Definition snapshot_of (w : history eanswer) (events : list EndpointEvent) : Prop :=
  ∃ us, events = (watch_slices us).2 ∧ behind us (delivered w).

Notation watching := (wp watch_guard (λ _, True)).

Lemma watching_snapshot (p : EM (bool * endpointTracker)) w :
  watching p w (λ h r, tracks h r.2 ∧ (r.1 = true → open_watches h = 0)) → snapshot_of w (added w).
Proof.
  destruct p as [a|c k].
  - intros [Ht _]. exists (delivered w). split; [by eapply tracks_added|by left].
  - intros [Hg _]. destruct c; try (exists (delivered w); split; [exact Hg|by left]).
    destruct Hg as (us & u & Hd & Ha & _). exists us. split; [done|]. right. by exists u.
Qed.

(** Every snapshot so far was one. *)
Definition snapshots_sound (h : history sanswer) : Prop :=
  ∀ later events earlier, h = later ++ Ev (R := sanswer) (SObserve OEvents) events :: earlier →
    snapshot_of (watch_calls earlier) events.

(** The threads, the events and the trace fit together. *)
Record in_step (cf : conf sanswer (list EndpointEvent) outcome) : Prop := {
  is_threads : ∃ p q, cf_threads cf = [session_thread p; watch_thread q] ∧
    returns p (session_calls (cf_trace cf)) from_snapshot ∧
    watching q (watch_calls (cf_trace cf)) (λ h r, tracks h r.2 ∧ (r.1 = true → open_watches h = 0));
  is_events : cf_state cf = added (watch_calls (cf_trace cf));
  is_snapshots : snapshots_sound (cf_trace cf)
}.

Lemma session_start_in_step cfg ticks watches fuel : in_step (session_start cfg ticks watches fuel).
Proof.
  split; [|done|by intros []]. eexists _, _. split; [done|]. split; [apply Run_from_snapshot|apply watchEndpoints_tracks].
Qed.

(** A new event in front of a trace changes nothing earlier. *)
Lemma snapshots_cons c (r : sanswer c) (h : history sanswer) : snapshots_sound h →
  (∀ events, Ev c r = Ev (R := sanswer) (SObserve OEvents) events → snapshot_of (watch_calls h) events) →
  snapshots_sound (Ev c r :: h).
Proof.
  intros Hold Hnew [|e later] events earlier Heq; simpl in Heq.
  - pose proof (f_equal head Heq) as Hh. pose proof (f_equal tail Heq) as Ht. simpl in Hh, Ht. subst earlier.
    apply Hnew. congruence.
  - pose proof (f_equal tail Heq) as Ht. by apply (Hold later events earlier).
Qed.

(** The events an entry of the trace answers with, if it is a snapshot. *)
Definition snapshot_event (e : event sanswer) : option (list EndpointEvent) :=
  match e with
  | Ev c r =>
      match c as c return sanswer c → option (list EndpointEvent) with
      | SObserve c => match c as c return oanswer c → option (list EndpointEvent) with OEvents => Some | _ => λ _, None end
      | SWatch _ => λ _, None
      end r
  end.

Lemma snapshots_add e (h : history sanswer) : snapshots_sound h →
  (∀ events, snapshot_event e = Some events → snapshot_of (watch_calls h) events) →
  snapshots_sound (e :: h).
Proof. destruct e as [c r]. intros Hold Hnew. apply snapshots_cons; [done|]. intros events Heq. apply Hnew. by rewrite Heq. Qed.

(** The next call of a thread, whatever its answer, keeps the threads in step. *)
Definition next_in_step (events : list EndpointEvent) (h : history sanswer)
    (put : prog sanswer outcome → list (prog sanswer outcome)) (x : prog sanswer outcome) : Prop :=
  match x with
  | Ret _ => True
  | Call c k => ∀ r events', session_handle events c r events' → in_step (mkConf events' (put (k r)) (Ev c r :: h))
  end.

Lemma session_next p q events h : in_step (mkConf events [session_thread p; watch_thread q] h) →
  returns p (session_calls h) from_snapshot →
  watching q (watch_calls h) (λ h r, tracks h r.2 ∧ (r.1 = true → open_watches h = 0)) →
  next_in_step events h (λ x, [x; watch_thread q]) (session_thread p).
Proof.
  intros [_ He Hs] Hp Hq. simpl in He, Hs. destruct p as [rep|c k]; [done|]. simpl.
  intros r events' Hh. destruct Hp as [_ Hk].
  assert (events' = events ∧ ∀ evs, snapshot_event (Ev (SObserve c) r) = Some evs → evs = events) as [-> Hsnap].
  { destruct c; simpl in *; try (split; [done|intros ? Hev; discriminate]). destruct Hh as [-> ->]. by split; [|intros ? [= <-]]. }
  split; simpl; [|done|].
  - exists (k r), q. split; [done|]. split; [by apply Hk|done].
  - apply snapshots_add; [done|]. intros evs Hev. rewrite (Hsnap evs Hev), He. by eapply watching_snapshot.
Qed.

Lemma watch_next p q events h : in_step (mkConf events [session_thread p; watch_thread q] h) →
  returns p (session_calls h) from_snapshot →
  watching q (watch_calls h) (λ h r, tracks h r.2 ∧ (r.1 = true → open_watches h = 0)) →
  next_in_step events h (λ x, [session_thread p; x]) (watch_thread q).
Proof.
  intros [_ He Hs] Hp Hq. simpl in He, Hs. destruct q as [a|c k]; [done|]. simpl.
  intros r events' ->. destruct Hq as [_ Hk]. split; simpl.
  - exists p, (k r). split; [done|]. split; [done|by apply Hk].
  - rewrite He. by destruct c.
  - by apply snapshots_add.
Qed.

Lemma in_step_step cf cf' : in_step cf → cstep session_handle cf cf' → in_step cf'.
Proof.
  intros Hin Hstep. destruct Hstep as [events ps h i c k r events' Hi Hh].
  pose proof Hin as [(p & q & Hps & Hp & Hq) _ _]. simpl in Hps, Hp, Hq. subst ps.
  destruct i as [|[|i]]; simpl in Hi; [| |done]; injection Hi as Hi.
  - pose proof (session_next p q events h Hin Hp Hq) as Hn. rewrite Hi in Hn. by apply Hn.
  - pose proof (watch_next p q events h Hin Hp Hq) as Hn. rewrite Hi in Hn. by apply Hn.
Qed.

Lemma session_thread_ret p rep : session_thread p = Ret (inl rep) → p = Ret rep.
Proof. destruct p; simpl; congruence. Qed.

(** C28: Whatever the interleaving of a session with its watch goroutine, the report that the session
    returns is built from one snapshot of the endpoint events, and that snapshot is consistent: it
    holds the events of whole updates, in order, as one uninterrupted watch would have reported
    them, for all the updates the goroutine had received by then but at most the last one, whose
    events were still on their way to the list. *)
Theorem session_report_consistent (cfg : Config) (ticks watches fuel : nat)
    (cf : conf sanswer (list EndpointEvent) outcome) (rep : Report) :
  rtc (cstep session_handle) (session_start cfg ticks watches fuel) cf →
  cf_threads cf !! 0%nat = Some (Ret (inl rep)) →
  ∃ us later earlier hpaReport obs load,
    cf_trace cf = later ++ Ev (R := sanswer) (SObserve OEvents) (watch_slices us).2 :: earlier ∧
    behind us (delivered (watch_calls earlier)) ∧ rep = report hpaReport obs load (watch_slices us).2.
Proof.
  intros Hr Hret. assert (in_step cf) as [(p & q & Hps & Hp & _) _ Hs].
  { pose proof (session_start_in_step cfg ticks watches fuel) as Hstart.
    induction Hr as [|x y z Hxy _ IH]; [done|]. apply IH; [done|]. by eapply in_step_step. }
  rewrite Hps in Hret. injection Hret as ->%session_thread_ret. destruct Hp as (hpaReport & obs & load & events & Hin & ->).
  destruct (session_calls_split _ _ _ Hin) as (later & earlier & Heq).
  destruct (Hs later events earlier Heq) as (us & -> & Hb). by exists us, later, earlier, hpaReport, obs, load.
Qed.
End session.

(** ** A snapshot between an update and its events *)

#[local] Existing Instance SimpleLib.
#[local] Existing Instance sample_range.
#[local] Existing Instance Correlation.insertion_SortSlice.

#[local] Instance no_result : ResultJson :=
  {| MarshalResult := λ _, Err (errorf "unsupported"); UnmarshalResult := λ _, Err (errorf "unexpected") |}.

#[local] Instance no_cadvisor : CAdvisor :=
  {| text_to_families := λ _, ParseFailed (errorf "no metrics"); uint64_overflow := λ _, 0 |}.

Definition lone_config : Config := mkObserverConfig "web" "prod" "" "" "" "" "web" Second Second "/result.json".

(** A session that finds no target, and a goroutine that is told of one slice. *)
Definition lone_observe (c : ocall) : oanswer c :=
  match c as c return oanswer c with
  | OGetScale _ _ _ => Err (errorf "not found")
  | OListPods _ _ => Ok []
  | OListHPAs _ => Ok []
  | OGetHPA _ _ => Err (errorf "not found")
  | OListPDBs _ => Ok []
  | OStream _ => Err (errorf "forbidden")
  | OReadAll _ => Err (errorf "closed")
  | OCloseStream _ => tt
  | OReadFile _ => Err (errorf "no such file")
  | OEvents => []
  | OTick => false
  | ONow => 0
  end.

Definition lone_react (events : list EndpointEvent) (h : history sanswer) (c : scall) :
    option (sanswer c * list EndpointEvent) :=
  match c as c return option (sanswer c * list EndpointEvent) with
  | SObserve OEvents => Some (snapshotEvents events, events)
  | SObserve c => Some (lone_observe c, events)
  | SWatch (EAddEvents evs) => Some (tt, append_events events evs)
  | SWatch c => Some (sample_messages (watch_calls h) c, events)
  end.

Lemma lone_react_handles events h c r events' : lone_react events h c = Some (r, events') → session_handle events c r events'.
Proof. destruct c as [[]|[]]; simpl; by intros [= <- <-]. Qed.

(** The goroutine opens its watch, is told of the slice and looks at the clock; the session runs to
    its end; then the goroutine goes on. *)
Definition lone_schedule : list nat := ([1; 1; 1; 0; 0; 0; 0; 1; 1])%nat.

Definition lone_start : conf sanswer (list EndpointEvent) outcome := session_start lone_config 1 1 5.

Definition lone_end : conf sanswer (list EndpointEvent) outcome :=
  default lone_start (run_schedule lone_react lone_schedule lone_start).

Definition is_some {A} (o : option A) : bool := match o with Some _ => true | None => false end.

Definition returned_report (cf : conf sanswer (list EndpointEvent) outcome) : option Report :=
  match cf_threads cf !! 0%nat with Some (Ret (inl rep)) => Some rep | _ => None end.

Lemma returned_ret cf : is_Some (returned_report cf) → ∃ rep, cf_threads cf !! 0%nat = Some (Ret (inl rep)).
Proof.
  unfold returned_report. intros [rep Hr]. destruct (cf_threads cf !! 0%nat) as [[[rep'|]|]|]; try done. by exists rep'.
Qed.

Lemma session_report_consistent_witness :
  length (cf_state lone_end) = 1%nat ∧
  ∃ rep us later earlier hpaReport obs load,
    cf_trace lone_end = later ++ Ev (R := sanswer) (SObserve OEvents) (watch_slices us).2 :: earlier ∧
    behind us (delivered (watch_calls earlier)) ∧ rep = report hpaReport obs load (watch_slices us).2.
Proof.
  split; [vm_compute; reflexivity|].
  assert (rtc (cstep session_handle) lone_start lone_end) as Hr.
  { apply (run_schedule_steps session_handle lone_react lone_schedule); [exact lone_react_handles|].
    assert (is_some (run_schedule lone_react lone_schedule lone_start) = true) as Hs by (vm_compute; reflexivity).
    unfold lone_end. by destruct (run_schedule _ _ _). }
  assert (is_some (returned_report lone_end) = true) as Hs by (vm_compute; reflexivity).
  destruct (returned_ret lone_end) as [rep Hret]; [by destruct (returned_report lone_end)|].
  exists rep. exact (session_report_consistent lone_config 1 1 5 lone_end rep Hr Hret).
Defined.
