(* ===== verification/TrafficVerdict.v ===== *)
(** * Exactness of the traffic figures

    The failure rate is a [float64] quotient, compared with the constant 0.01 by the observer and
    scaled to basis points by the controller.  Both are shown to agree with exact arithmetic on
    the request counts, for all counts a run can reach. *)

From S2P Require Import Prelude GoFloat GoText Api Report Status Collector Observer.

Open Scope Z_scope.

(** A result with [failed] of [sent] requests failed. *)
Definition counts (r : LoadResult) (failed sent : Z) : Prop := lr_Failed r = failed ∧ lr_Sent r = sent.

Lemma FailureRate_grid r failed sent : counts r failed sent → 0 <= failed <= sent → 0 < sent <= 2 ^ 53 →
  FailureRate r = Fin (grid_round (failed * one) sent).
Proof.
  intros [Hf Hs] Hr Hp. unfold FailureRate. rewrite Hf, Hs. rewrite (proj2 (Z.eqb_neq _ _)) by lia.
  apply f64_div_int; lia.
Qed.

Lemma threshold_side failed sent : 0 <= failed <= sent → 0 < sent <= 2 ^ 51 →
  grid_round (1 * one) 100 < grid_round (failed * one) sent ↔ sent < 100 * failed.
Proof.
  intros Hf Hs. pose proof one_pos as H1.
  assert (Hbig : 2 ^ 105 < one) by (vm_compute; done). split; intros Hlt.
  - destruct (Z.lt_ge_cases sent (100 * failed)) as [|Hge]; [done|exfalso].
    assert (grid_round (failed * one) sent <= grid_round (1 * one) 100) by (apply grid_round_mono; nia). lia.
  - destruct (Z.lt_ge_cases (grid_round (1 * one) 100) (grid_round (failed * one) sent)) as [|Hge]; [done|exfalso].
    pose proof (grid_round_ratio_err failed sent ltac:(lia) ltac:(lia) ltac:(nia)) as E1.
    pose proof (grid_round_ratio_err 1 100 ltac:(lia) ltac:(lia) ltac:(lia)) as E2.
    set (F := grid_round (failed * one) sent) in *. set (T := grid_round (1 * one) 100) in *.
    assert (E1' : failed * one * (2 ^ 53 - 1) <= F * sent * 2 ^ 53) by lia.
    assert (E2' : T * 100 * 2 ^ 53 <= one * (2 ^ 53 + 1)) by lia. clear E1 E2.
    assert (F1 : F * sent * 2 ^ 53 * 100 <= one * (2 ^ 53 + 1) * sent) by nia.
    assert (F2 : 100 * failed * (2 ^ 53 - 1) <= (2 ^ 53 + 1) * sent) by nia.
    nia.
Qed.

(** C32: Traffic integrity fails exactly when more than one request in a hundred failed: the
    floating-point comparison decides the exact inequality, on either side of the threshold. *)
Theorem traffic_verdict_exact (r : LoadResult) (failed sent : Z) :
  counts r failed sent → 0 <= failed <= sent → sent <= 2 ^ 51 →
  trafficVerdict r = (if sent <? 100 * failed then VerdictFail else VerdictPass).
Proof.
  intros Hc Hf Hs. pose proof Hc as [Hrf Hrs]. unfold trafficVerdict, trafficFailThreshold.
  rewrite f64_ratio_fin by lia.
  destruct (Z.eq_dec sent 0) as [Hz|Hz].
  - unfold FailureRate. rewrite Hrs, Hz, Z.eqb_refl. rewrite f64_of_int_exact by lia. unfold f64_lt.
    assert (0 <= grid_round (1 * one) 100) by (apply grid_round_nonneg; pose proof one_pos; lia).
    rewrite (proj2 (Z.ltb_ge (grid_round _ _) _)), (proj2 (Z.ltb_ge 0 _)) by lia. done.
  - rewrite (FailureRate_grid r failed sent) by (done || lia). unfold f64_lt.
    pose proof (threshold_side failed sent ltac:(lia) ltac:(lia)) as Hside.
    destruct (Z.ltb_spec (grid_round (1 * one) 100) (grid_round (failed * one) sent)),
      (Z.ltb_spec sent (100 * failed)); [reflexivity|lia|lia|reflexivity].
Qed.

Definition sample_result (sent failed : Z) : LoadResult :=
  mkLoadResult 0 0 0 0 0 sent (sent - failed) failed ∅ ∅ 0 0 0 0 ∅ [] [].

Lemma traffic_verdict_exact_witness :
  trafficVerdict (sample_result 1000 10) = VerdictPass ∧ trafficVerdict (sample_result 1000 11) = VerdictFail.
Proof.
  split; [rewrite (traffic_verdict_exact _ 10 1000)|rewrite (traffic_verdict_exact _ 11 1000)]; done || lia.
Defined.

(** ** Basis points *)

Lemma f64_mul_int g k : 0 <= g → 0 <= k <= 2 ^ 53 → g * k <= 2 ^ 60 * one →
  f64_mul (Fin g) (f64_of_int k) = Fin (grid_round (g * k) 1).
Proof.
  intros Hg Hk Hgk. pose proof one_pos. rewrite f64_of_int_exact by lia. unfold f64_mul.
  replace (g * (k * one)) with (g * k * one) by lia. rewrite f64_round_small by nia. f_equal.
  rewrite <- (grid_round_scale (g * k) 1 one) by lia. by rewrite Z.mul_1_l.
Qed.

(** Rounding half away from zero of a nonnegative multiple of the grid unit. *)
Lemma math_round_trunc x : 0 <= x →
  f64_math_round (Fin x) = Fin ((2 * x + one) / (2 * one) * one) ∧
  f64_trunc (Fin ((2 * x + one) / (2 * one) * one)) = Some ((2 * x + one) / (2 * one)).
Proof.
  intros Hx. pose proof one_pos. split.
  - unfold f64_math_round. rewrite Z.abs_eq by lia. f_equal.
    destruct (Z.eq_dec x 0) as [->|]; [|rewrite Z.sgn_pos by lia; lia].
    rewrite Z.div_small by lia. simpl. lia.
  - unfold f64_trunc. f_equal. apply Z.quot_mul. lia.
Qed.

Section basis_points.
Context `{Platform}.

(** The scaled rate and the two roundings it went through. *)
Lemma scaled_rate failed sent : 0 < failed <= sent → sent <= 2 ^ 36 →
  let g := grid_round (failed * one) sent in
  let x := grid_round (g * 10000) 1 in
  0 < g <= one ∧ 0 <= x <= 10000 * one ∧
  2 ^ 53 * Z.abs (x * sent - 10000 * failed * one) <= 30000 * sent * one.
Proof.
  intros Hf Hs g x. pose proof one_pos as H1. assert (Hbig : 2 ^ 105 < one) by (vm_compute; done).
  assert (Hg1 : g <= one).
  { unfold g. replace one with (grid_round (1 * one * 1) 1) at 2 by (rewrite grid_round_int by lia; lia).
    apply grid_round_mono; nia. }
  pose proof (grid_round_ratio_err failed sent ltac:(lia) ltac:(lia) ltac:(nia)) as E1. fold g in E1.
  assert (Hg0 : 2 ^ 52 <= g) by nia.
  pose proof (grid_round_err (g * 10000) 1 ltac:(lia) ltac:(lia) ltac:(lia)) as E2. fold x in E2.
  assert (Hx1 : x <= 10000 * one).
  { unfold x. replace (10000 * one) with (grid_round (10000 * one * 1) 1) by (rewrite grid_round_int by lia; lia).
    apply grid_round_mono; lia. }
  assert (Hx0 : 0 <= x) by (apply grid_round_nonneg; lia).
  split_and!; try lia.
  assert (E3 : 2 ^ 53 * Z.abs ((x - 10000 * g) * sent) <= g * 10000 * sent).
  { rewrite Z.abs_mul, (Z.abs_eq sent) by lia. rewrite Z.mul_1_r in E2. 
    replace (x - 10000 * g) with (x - g * 10000) by lia. nia. }
  assert (E4 : 2 ^ 53 * Z.abs (10000 * (g * sent - failed * one)) <= 10000 * (failed * one)).
  { rewrite Z.abs_mul, (Z.abs_eq 10000) by lia. lia. }
  assert (E5 : g * sent * 10000 <= 10000 * sent * one) by nia.
  assert (E6 : failed * one <= sent * one) by nia.
  replace (x * sent - 10000 * failed * one) with ((x - 10000 * g) * sent + 10000 * (g * sent - failed * one)) by lia.
  pose proof (Z.abs_triangle ((x - 10000 * g) * sent) (10000 * (g * sent - failed * one))). lia.
Qed.

(** C33: The basis points on the status are the exact failure ratio rounded to the nearest, and lie
    between 0 and 10000. *)
Theorem basis_points_nearest (r : LoadResult) (failed sent : Z) :
  counts r failed sent → 0 <= failed <= sent → 0 < sent <= 2 ^ 36 →
  let bp := failureRateBasisPoints (FailureRate r) in
  0 <= bp <= 10000 ∧ 2 * Z.abs (bp * sent - 10000 * failed) <= sent.
Proof.
  intros Hc Hf Hs. pose proof one_pos as H1. rewrite (FailureRate_grid r failed sent) by (done || lia).
  unfold failureRateBasisPoints. rewrite (f64_of_int_exact 0) by lia. unfold f64_le.
  destruct (Z.eq_dec failed 0) as [->|Hnz].
  { change (0 * one) with (0 * one * sent). rewrite grid_round_int by lia. rewrite Z.leb_refl. lia. }
  destruct (scaled_rate failed sent ltac:(lia) ltac:(lia)) as (Hg & Hx & Herr).
  set (g := grid_round (failed * one) sent) in *. set (x := grid_round (g * 10000) 1) in *.
  rewrite (proj2 (Z.leb_gt _ _)) by lia.
  unfold FailureRateScale. rewrite f64_mul_int by lia. fold x.
  destruct (math_round_trunc x ltac:(lia)) as [Hr Ht]. cbv zeta. rewrite Hr, Ht.
  set (n := (2 * x + one) / (2 * one)) in *.
  assert (Hn1 : 2 * one * n <= 2 * x + one) by (apply Z.mul_div_le; lia).
  assert (Hn2 : 2 * x + one < 2 * one * (n + 1)).
  { pose proof (Z.mul_succ_div_gt (2 * x + one) (2 * one) ltac:(lia)). fold n in H0. lia. }
  assert (Hn : 0 <= n <= 10000) by nia.
  unfold MaxInt32. rewrite (f64_of_int_exact (2 ^ 31 - 1)) by lia. unfold f64_lt.
  rewrite (proj2 (Z.ltb_ge _ _)) by nia.
  rewrite (proj2 (Z.leb_le _ _)), (proj2 (Z.ltb_lt _ _)) by lia. cbn [andb]. split; [lia|].
  assert (Hd : Z.abs (2 * one * n - 2 * x) <= one) by lia.
  assert (Hd' : Z.abs ((2 * one * n - 2 * x) * sent) <= one * sent) by (rewrite Z.abs_mul, (Z.abs_eq sent) by lia; nia).
  assert (Htot : 2 ^ 53 * Z.abs (2 * one * (n * sent - 10000 * failed)) <= 2 ^ 53 * (one * sent) + 60000 * sent * one).
  { replace (2 * one * (n * sent - 10000 * failed))
      with ((2 * one * n - 2 * x) * sent + 2 * (x * sent - 10000 * failed * one)) by lia.
    pose proof (Z.abs_triangle ((2 * one * n - 2 * x) * sent) (2 * (x * sent - 10000 * failed * one))).
    rewrite (Z.abs_mul 2), (Z.abs_eq 2) in H0 by lia. lia. }
  rewrite !Z.abs_mul, (Z.abs_eq 2), (Z.abs_eq one) in Htot by lia.
  assert (2 ^ 53 * (2 * Z.abs (n * sent - 10000 * failed)) <= 2 ^ 53 * sent + 60000 * sent) by nia.
  lia.
Qed.
End basis_points.

Lemma basis_points_nearest_witness :
  let bp := @failureRateBasisPoints {| float_to_int32 := λ _, 0 |} (FailureRate (sample_result 8 1)) in
  0 <= bp <= 10000 ∧ 2 * Z.abs (bp * 8 - 10000 * 1) <= 8.
Proof.
  apply (@basis_points_nearest {| float_to_int32 := λ _, 0 |} (sample_result 8 1) 1 8); done || lia.
Defined.

(** Rounded to the nearest, a failure rate below half a basis point still reads as zero. *)
Lemma tiny_rate_reads_zero :
  @failureRateBasisPoints {| float_to_int32 := λ _, 0 |} (FailureRate (sample_result 100000 1)) = 0.
Proof. vm_compute. reflexivity. Qed.
