(* ===== verification/Cluster.v ===== *)
(** * What the reconcilers call

    The calls a reconcile pass makes to the controller-runtime client, the pods/log subresource,
    the clock, the event recorder, the metrics registry and the random source, with the type of
    answer each gets.  An update of an object answers with the object the API server stored,
    which the client writes back into the caller's variable. *)

From S2P Require Import Prelude GoFloat Api K8s Effects.

Open Scope Z_scope.

(** types.NamespacedName *)
Record NamespacedName := mkKey { nn_Namespace : string; nn_Name : string }.

#[export] Instance namespaced_name_eq_dec : EqDecision NamespacedName.
Proof. solve_decision. Defined.

(** ctrl.Result: only RequeueAfter is set by the code. *)
Record Result := mkResult { RequeueAfter : Duration }.

Definition done_result : Result := mkResult 0.

Definition EventTypeNormal : string := "Normal".
Definition EventTypeWarning : string := "Warning".

Section cluster.
Context `{K8sLib}.

(** apps/v1 Deployment: its metadata and label selector. *)
Record Deployment := mkDeployment { dep_Meta : ObjectMeta; dep_Selector : LabelSelector }.

(** How a pod list is filtered: by a parsed selector or by exact labels. *)
Inductive pod_filter :=
| BySelector (s : Selector)
| ByLabels (l : gmap string string).

Inductive api :=
| GetCR (key : NamespacedName)
| UpdateCR (cr : ScaleValidation)
| UpdateStatus (cr : ScaleValidation)
| CreateCR (cr : ScaleValidation)
| GetJob (key : NamespacedName)
| CreateJob (job : Job)
| DeleteJob (job : Job)
| DeletePod (pod : Pod)
| ListPods (namespace : string) (f : pod_filter)
| GetScale (namespace : string) (gvk : GroupVersionKind) (name : string)
| GetObject (namespace : string) (gvk : GroupVersionKind) (name : string)
| GetDeployment (key : NamespacedName)
| GetConfigMap (key : NamespacedName)
| RESTMapping (gvk : GroupVersionKind)
| PodLog (namespace name container : string)
| Now
| RandIntN
| Eventf (cr : ScaleValidation) (eventType reason message : string)
| IncRunsTotal (namespace name verdict : string)
| IncAlertsTotal (namespace name alert severity : string)
| ObserveRunDuration (namespace name : string) (seconds : f64)
| ObserveHPAReact (namespace name : string) (seconds : f64).

Definition answer (c : api) : Type :=
  match c with
  | GetCR _ | UpdateCR _ | UpdateStatus _ | CreateCR _ => res ScaleValidation
  | GetJob _ => res Job
  | CreateJob _ | DeleteJob _ | DeletePod _ => res unit
  | ListPods _ _ => res (list Pod)
  | GetScale _ _ _ | GetObject _ _ _ => res Unstructured
  | GetDeployment _ => res Deployment
  | GetConfigMap _ => res (gmap string string)
  | RESTMapping _ => res GroupVersionResource
  | PodLog _ _ _ => res string
  | Now => Time
  | RandIntN => nat → Z
  | Eventf _ _ _ _ | IncRunsTotal _ _ _ | IncAlertsTotal _ _ _ _
  | ObserveRunDuration _ _ _ | ObserveHPAReact _ _ _ => unit
  end.

(** The ScaleValidation of a pass: the last one the API server answered with. *)
Fixpoint current_cr (h : history answer) : option ScaleValidation :=
  match h with
  | [] => None
  | Ev c r :: h' =>
      match c, r with
      | GetCR _, Ok cr => Some cr
      | UpdateCR _, Ok cr => Some cr
      | UpdateStatus _, Ok cr => Some cr
      | _, _ => current_cr h'
      end
  end.

(** Calls that change the cluster. *)
Definition mutates (c : api) : bool :=
  match c with
  | UpdateCR _ | UpdateStatus _ | CreateCR _ | CreateJob _ | DeleteJob _ | DeletePod _ => true
  | _ => false
  end.

Definition is_DeletePod (c : api) : bool := match c with DeletePod _ => true | _ => false end.

Definition issued (P : api → bool) (h : history answer) : nat :=
  length (filter (λ e, P (ev_call e) = true) h).

Lemma issued_cons P c (a : answer c) (h : history answer) :
  issued P (Ev c a :: h) = ((if P c then 1 else 0) + issued P h)%nat.
Proof.
  unfold issued, history. destruct (P c) eqn:Hc.
  - by rewrite filter_cons_True.
  - rewrite filter_cons_False; [done|]. simpl. by rewrite Hc.
Qed.
End cluster.

(** A reconcile step. *)
Notation M := (prog answer).
