(* ===== verification/Target.v ===== *)
(** * Resolving the target workload (internal/controller/target.go) *)

From S2P Require Import Prelude GoText Api K8s Effects Cluster.

Open Scope Z_scope.

Definition defaultTargetAPIVersion : string := "apps/v1".

(** An error whose chain starts at [errTargetUnresolvable], optionally wrapping another. *)
Definition unresolvable (msg : string) : goerr :=
  GoErr OtherErr true ("targetRef is unresolvable: " +:+ msg).

Definition wrap_unresolvable (msg : string) (e : goerr) : goerr :=
  GoErr (err_kind e) true ("targetRef is unresolvable: " +:+ msg +:+ ": " +:+ err_text e).

Fixpoint ready_condition (cs : list PodCondition) : bool :=
  match cs with
  | [] => false
  | c :: rest =>
      if decide (pc_Type c = "Ready") then bool_decide (pc_Status c = "True") else ready_condition rest
  end.

Definition podReady (p : Pod) : bool := ready_condition (pod_Conditions p).

Definition classifyTargetError (cr : ScaleValidation) (e : goerr) : goerr :=
  let ref := sv_TargetRef cr in
  match err_kind e with
  | NoMatch => wrap_unresolvable ("cluster serves no " +:+ ref_Kind ref +:+ " in " +:+ ref_APIVersion ref) e
  | Forbidden =>
      wrap_unresolvable ("not permitted to read " +:+ ref_Kind ref +:+ " " +:+ ref_Name ref
        +:+ " or its scale subresource, extend the manager ClusterRole") e
  | _ => e
  end.

Section target.
Context `{K8sLib}.

Definition targetGVK (cr : ScaleValidation) : res GroupVersionKind :=
  let apiVersion := if decide (ref_APIVersion (sv_TargetRef cr) = "") then defaultTargetAPIVersion
                    else ref_APIVersion (sv_TargetRef cr) in
  match ParseGroupVersion apiVersion with
  | Err e => Err (wrap_unresolvable ("parse apiVersion " +:+ quote apiVersion) e)
  | Ok (group, version) =>
      if decide (ref_Kind (sv_TargetRef cr) = "") then Err (unresolvable "kind is empty")
      else Ok (mkGVK group version (ref_Kind (sv_TargetRef cr)))
  end.

Definition targetObject (cr : ScaleValidation) : M (res Unstructured) :=
  match targetGVK cr with
  | Err e => mret (Err e)
  | Ok gvk =>
      r ← call (GetObject (sv_Namespace cr) gvk (ref_Name (sv_TargetRef cr)));
      match r with
      | Err e => mret (Err (classifyTargetError cr e))
      | Ok obj => mret (Ok obj)
      end
  end.

Definition targetSelector (cr : ScaleValidation) : M (res string) :=
  let ref := sv_TargetRef cr in
  match targetGVK cr with
  | Err e => mret (Err e)
  | Ok gvk =>
      r ← call (GetScale (sv_Namespace cr) gvk (ref_Name ref));
      match r with
      | Err e => mret (Err (classifyTargetError cr e))
      | Ok scale =>
          match NestedString scale ["status"; "selector"] with
          | Err e =>
              mret (Err (wrapf ("read scale status.selector for " +:+ ref_Kind ref +:+ " " +:+ ref_Name ref) e))
          | Ok v =>
              let selector := default "" v in
              if decide (selector = "") then
                mret (Err (unresolvable (ref_Kind ref +:+ " " +:+ ref_Name ref
                  +:+ " reports an empty scale status.selector, so its pods cannot be identified")))
              else mret (Ok selector)
          end
      end
  end.

Definition count_ready (pods : list Pod) : Z :=
  fold_left (λ n p, if podReady p then int32 (n + 1) else n) pods 0.

(** Whether at least one pod of the target is ready, and how many are. *)
Definition targetPodsReady (cr : ScaleValidation) : M (res (bool * Z)) :=
  sel ← targetSelector cr;
  match sel with
  | Err e => if IsNotFound e then mret (Ok (false, 0)) else mret (Err e)
  | Ok selector =>
      match ParseSelector selector with
      | Err e => mret (Err (wrapf ("parse scale status.selector " +:+ quote selector) e))
      | Ok sel =>
          r ← call (ListPods (sv_Namespace cr) (BySelector sel));
          match r with
          | Err e => mret (Err (wrapf "list target pods" e))
          | Ok pods => let ready := count_ready pods in mret (Ok (1 <=? ready, ready))
          end
      end
  end.
End target.

(** ** Lemmas *)

Lemma count_ready_none pods n : Forall (λ p, podReady p = false) pods →
  fold_left (λ n p, if podReady p then int32 (n + 1) else n) pods n = n.
Proof. intros Hno. revert n. induction Hno as [|p pods Hp _ IH]; intros n; simpl; [done|]. by rewrite Hp. Qed.

Lemma count_ready_one pods : 1 <= count_ready pods → Exists (λ p, podReady p = true) pods.
Proof.
  intros Hc. destruct (decide (Exists (λ p, podReady p = true) pods)) as [|Hno]; [done|]. exfalso.
  apply not_Exists_Forall in Hno; [|apply _]. unfold count_ready in Hc.
  rewrite count_ready_none in Hc; [lia|].
  eapply Forall_impl; [exact Hno|]. intros p Hp. by apply not_true_is_false.
Qed.
