(* ===== verification/Shadow.v ===== *)
(** * The shadow reconciler (internal/controller/shadow_controller.go)

    Opted-in Deployments get a ScaleValidation of their own, created once and never updated. *)

From S2P Require Import Prelude GoText GoDuration Api K8s Effects Cluster.

Open Scope Z_scope.

Definition shadowEnableAnnotation : string := "validation.scale-sentry.ek.co/enabled".
Definition shadowPortAnnotation : string := "validation.scale-sentry.ek.co/port".
Definition shadowSLAAnnotation : string := "validation.scale-sentry.ek.co/sla".
Definition shadowRPSAnnotation : string := "validation.scale-sentry.ek.co/base-rps".

Definition shadowDefaultPort : Z := 80.
Definition shadowDefaultSLA : Duration := 5 * Minute.
Definition shadowDefaultBaseRPS : Z := 50.

(** The zero value of the status of a new object. *)
Definition empty_status : ScaleValidationStatus :=
  mkStatus "" None "" "" 0 0 0 [] None [] None 0 [].

(** An optional annotation: its parsed value, the default when it is absent. *)
Definition annotation {A} (parse : string → res A) (default : A) (annotations : gmap string string)
    (key : string) : res A :=
  match annotations !! key with
  | Some v => match parse v with Ok a => Ok a | Err e => Err (wrapf ("annotation " +:+ key) e) end
  | None => Ok default
  end.

Section shadow.
Context `{K8sLib}.

Definition shadowScaleValidation (deploy : Deployment) (name : string) : res ScaleValidation :=
  let annotations := om_Annotations (dep_Meta deploy) in
  port ← annotation ParseInt32 shadowDefaultPort annotations shadowPortAnnotation;
  sla ← annotation ParseDuration shadowDefaultSLA annotations shadowSLAAnnotation;
  baseRPS ← annotation ParseInt32 shadowDefaultBaseRPS annotations shadowRPSAnnotation;
  mret (mkSV (new_meta name (om_Namespace (dep_Meta deploy)) ∅)
    (mkSpec (mkRef "apps/v1" "Deployment" (om_Name (dep_Meta deploy))) sla
      (mkTarget "ServiceDefault" "" port "ClusterIP" "" "" None None)
      (mkLoad baseRPS 0 0 None None) None "" false)
    empty_status).

(** [DeploymentShadowReconciler.Reconcile]. *)
Definition ShadowReconcile (key : NamespacedName) : M (res Result) :=
  g ← call (GetDeployment key);
  match g with
  | Err e => if IsNotFound e then mret (Ok done_result) else mret (Err e)
  | Ok deploy =>
      if decide (om_Annotations (dep_Meta deploy) !! shadowEnableAnnotation ≠ Some "true")
      then mret (Ok done_result)
      else
        let name := om_Name (dep_Meta deploy) +:+ "-shadow" in
        s ← call (GetCR (mkKey (om_Namespace (dep_Meta deploy)) name));
        match s with
        | Ok _ => mret (Ok done_result)
        | Err e =>
            if negb (IsNotFound e) then mret (Err (wrapf "get shadow scalevalidation" e))
            else
              match shadowScaleValidation deploy name with
              | Err _ => mret (Ok done_result)
              | Ok sv =>
                  match SetControllerReference (dep_Meta deploy) (sv_Meta sv) with
                  | Err e => mret (Err (wrapf "set owner reference" e))
                  | Ok meta =>
                      c ← call (CreateCR (set_Meta meta sv));
                      match c with
                      | Err e => mret (Err (wrapf "create shadow scalevalidation" e))
                      | Ok _ => mret (Ok done_result)
                      end
                  end
              end
        end
  end.

(** ** What a pass may do *)

(** The created object is the one the annotations describe, for an opted-in Deployment read in
    the pass, and was found missing in the pass. *)
Definition may_shadow (h : history answer) (sv : ScaleValidation) : Prop :=
  ∃ key deploy meta e built,
    let name := om_Name (dep_Meta deploy) +:+ "-shadow" in
    h = [Ev (GetCR (mkKey (om_Namespace (dep_Meta deploy)) name)) (Err e); Ev (GetDeployment key) (Ok deploy)] ∧
    IsNotFound e = true ∧ om_Annotations (dep_Meta deploy) !! shadowEnableAnnotation = Some "true" ∧
    shadowScaleValidation deploy name = Ok built ∧
    SetControllerReference (dep_Meta deploy) (sv_Meta built) = Ok meta ∧ sv = set_Meta meta built.

Definition shadow_guard (h : history answer) (c : api) : Prop :=
  match c with
  | CreateCR sv => may_shadow h sv
  | _ => mutates c = false
  end.

Lemma shadow_safe key : wp shadow_guard (λ _, True) (ShadowReconcile key) [] (λ _ _, True).
Proof.
  unfold ShadowReconcile. apply wp_call; [done|]. intros [deploy|e] _; [|by case_match].
  case_decide as Hen; [done|]. apply wp_call; [done|]. intros [cr|e] _; [done|].
  destruct (IsNotFound e) eqn:He; cbn [negb]; [|done].
  destruct (shadowScaleValidation deploy _) as [sv|] eqn:Hsv; [|done].
  destruct (SetControllerReference _ _) as [meta|] eqn:Hm; [|done].
  apply wp_call; [|by intros [] _]. exists key, deploy, meta, e, sv. done.
Qed.

(** C38: A pass changes the cluster at most once, and only by creating the shadow validation: for a
    Deployment it has just read with the opt-in annotation, after the validation was found
    missing, with the content the annotations describe and the Deployment as its owner.  An
    existing shadow validation is never touched. *)
Theorem shadow_creates_once (key : NamespacedName) (h : history answer) (a : res Result) :
  runs (ShadowReconcile key) [] h a →
  (issued mutates h <= 1)%nat ∧
  ∀ later c ans earlier, h = later ++ Ev c ans :: earlier → mutates c = true →
    ∃ sv, c = CreateCR sv ∧ may_shadow earlier sv.
Proof.
  intros Hr. destruct (wp_sound_nil shadow_guard (λ _, True) _ _ _ _ Hr ltac:(by apply Forall_true) (shadow_safe key)) as [Hg _].
  assert (Hc : ∀ later c ans earlier, h = later ++ Ev c ans :: earlier → mutates c = true →
    ∃ sv, c = CreateCR sv ∧ may_shadow earlier sv).
  { intros later c ans earlier Heq Hm. pose proof (Hg later c ans earlier Heq) as Hs.
    destruct c; simpl in *; try congruence. eauto. }
  split; [|done]. clear Hr Hg. induction h as [|[c ans] h IH]; [unfold issued; simpl; lia|].
  rewrite issued_cons. destruct (mutates c) eqn:Hm.
  - destruct (Hc [] c ans h eq_refl Hm) as (sv & _ & k & d & m & e & b & Hh & _). rewrite Hh.
    rewrite !issued_cons. unfold issued. simpl. lia.
  - apply IH. intros later c' ans' earlier -> Hm'. by apply (Hc (Ev c ans :: later) c' ans' earlier).
Qed.

Lemma annotation_printed {A} (parse : string → res A) (print : A → string) default annotations key (o : option A) :
  annotations !! key = print <$> o → (∀ a, o = Some a → parse (print a) = Ok a) →
  annotation parse default annotations key = Ok (from_option id default o).
Proof. intros Ha Hp. unfold annotation. rewrite Ha. destruct o as [a|]; simpl; [|done]. by rewrite Hp. Qed.

(** Annotations that print a port, a rate and an SLA are read back exactly, absent ones get the
    defaults, and the validation targets the Deployment itself. *)
Theorem shadow_follows_annotations (deploy : Deployment) (name : string) (port rps : option Z) (sla : option Duration) :
  let annotations := om_Annotations (dep_Meta deploy) in
  annotations !! shadowPortAnnotation = itoa <$> port → annotations !! shadowRPSAnnotation = itoa <$> rps →
  annotations !! shadowSLAAnnotation = duration_string <$> sla →
  (∀ p, port = Some p → in_int32 p) → (∀ r, rps = Some r → in_int32 r) → (∀ d, sla = Some d → in_int64 d) →
  ∃ sv, shadowScaleValidation deploy name = Ok sv ∧
    tc_Port (sp_Target (sv_Spec sv)) = from_option id 80 port ∧
    lc_BaseRPS (sp_Load (sv_Spec sv)) = from_option id 50 rps ∧
    sp_SLA (sv_Spec sv) = from_option id (5 * Minute) sla ∧
    sv_TargetRef sv = mkRef "apps/v1" "Deployment" (om_Name (dep_Meta deploy)) ∧
    sv_Namespace sv = om_Namespace (dep_Meta deploy) ∧ sv_Phase sv = "".
Proof.
  intros annotations Hp Hr Hs Hpi Hri Hsi. unfold shadowScaleValidation. fold annotations.
  rewrite (annotation_printed ParseInt32 itoa _ _ shadowPortAnnotation port),
    (annotation_printed ParseDuration duration_string _ _ shadowSLAAnnotation sla),
    (annotation_printed ParseInt32 itoa _ _ shadowRPSAnnotation rps); try done.
  - eexists. split; [reflexivity|]. split_and!; reflexivity.
  - intros r Hr'. apply ParseInt32_itoa. by apply Hri.
  - intros d Hd. apply ParseDuration_string. by apply Hsi.
  - intros p Hp'. apply ParseInt32_itoa. by apply Hpi.
Qed.
End shadow.

Definition sample_deployment : Deployment (H := SimpleLib) :=
  mkDeployment (H := SimpleLib)
    (mkMeta "web" "prod" 1 0 None ∅
      {[ shadowEnableAnnotation := "true"; shadowPortAnnotation := "8080"; shadowSLAAnnotation := "1m30s" ]} [] [])
    {[ "app" := "web" ]}.

Lemma shadow_follows_annotations_witness :
  ∃ sv, shadowScaleValidation (H := SimpleLib) sample_deployment "web-shadow" = Ok sv ∧
    tc_Port (sp_Target (sv_Spec sv)) = 8080 ∧ lc_BaseRPS (sp_Load (sv_Spec sv)) = 50 ∧
    sp_SLA (sv_Spec sv) = 90 * Second ∧ sv_TargetRef sv = mkRef "apps/v1" "Deployment" "web" ∧
    sv_Namespace sv = "prod" ∧ sv_Phase sv = "".
Proof.
  apply (shadow_follows_annotations (H := SimpleLib) sample_deployment "web-shadow" (Some 8080) None (Some (90 * Second)));
    [reflexivity..| | |]; intros x [= <-]; unfold in_int32, in_int64; vm_compute; done.
Defined.
