(* ===== verification/LoadgenJob.v ===== *)
(** * The validation Job (internal/controller/job.go) *)

From S2P Require Import Probe.
From S2P Require Import Prelude GoText Api K8s Effects Cluster Target LoadPhase LoadProfile.

Open Scope Z_scope.

(** The configuration of a ScaleValidationReconciler that its methods read.  [rc_Recorder] says
    whether an event recorder is set; [rc_targetReadyTimeout] is zero in production. *)
Record Reconciler := mkReconciler {
  rc_LoadgenImage : string;
  rc_ObserverImage : string;
  rc_ObserverServiceAccount : string;
  rc_ImagePullSecrets : list string;
  rc_Recorder : bool;
  rc_targetReadyTimeout : Duration
}.

(** encoding/json at a phase list. *)
Class PhasesJson := {
  MarshalPhases : list LPhase → res string;
  UnmarshalPhases : string → res (list LPhase)
}.

(** ASCII phases (the encoder replaces bytes that are not UTF-8) are decoded as they were, from a
    text that is not empty. *)
Class PhasesJsonLaws `{PhasesJson} : Prop := {
  phases_roundtrip : ∀ ps s, Forall plain_phase ps → MarshalPhases ps = Ok s → s ≠ "" ∧ UnmarshalPhases s = Ok ps
}.

Definition loadgenForLabel : string := "validation.scale-sentry.ek.co/loadgen-for".
Definition defaultLoadgenConnectionMode : string := "KeepAlive".
Definition loadgenContainerName : string := "loadgen".
Definition observerContainerName : string := "observer".
Definition runVolumeName : string := "scale-sentry-run".
Definition runVolumePath : string := "/run/scale-sentry".
Definition resultFilePath : string := runVolumePath +:+ "/result.json".
Definition tlsCAVolumeName : string := "scale-sentry-tls-ca".
Definition tlsCAMountPath : string := "/etc/scale-sentry/tls-ca".
Definition jobGracePeriodSeconds : Z := 45.

Definition loadgenJobName (cr : ScaleValidation) : string := sv_Name cr +:+ "-loadgen".

Definition caBundleRef (cr : ScaleValidation) : option ConfigMapKeyRef :=
  match tc_TLS (sp_Target (sv_Spec cr)) with
  | None => None
  | Some tls => match tls_CABundle tls with None => None | Some b => Some (ca_ConfigMapRef b) end
  end.

Definition restrictedPodSecurityContext : PodSecurityContext := mkPodSC true "RuntimeDefault".

Definition restrictedContainerSecurityContext : SecurityContext :=
  mkSC false true true ["ALL"] "RuntimeDefault".

Definition imagePullSecretRefs (names : list string) : list string := names.

Definition targetURL (scheme host : string) (port : Z) (path : string) : string :=
  let path := if decide (path = "") then "/" else path in
  let path := if HasPrefix path "/" then path else "/" +:+ path in
  scheme +:+ "://" +:+ host +:+ ":" +:+ itoa port +:+ path.

Section job.
Context `{K8sLib, PhasesJson}.

Definition loadgenArgs (cr : ScaleValidation) (url caBundlePath : string) : res (list string) :=
  let target := sp_Target (sv_Spec cr) in
  let load := sp_Load (sv_Spec cr) in
  let args := ["--url"; url; "--connection-mode"; defaultLoadgenConnectionMode;
               "--target-mode"; tc_Mode target; "--network-path"; tc_NetworkPath target;
               "--result-file"; resultFilePath] in
  let args := if 0 <? lc_Concurrency load
              then args ++ ["--concurrency"; itoa (lc_Concurrency load)] else args in
  let args := if decide (tc_Protocol target = "") then args
              else args ++ ["--protocol"; tc_Protocol target] in
  let args := match tc_GRPC target with
              | Some g => if decide (grpc_Service g = "") then args
                          else args ++ ["--grpc-service"; grpc_Service g]
              | None => args
              end in
  phases ← buildPhases cr;
  rate ← match phases with
         | Some phases => js ← phasesJSON MarshalPhases phases; mret ["--phases"; js]
         | None => mret ["--rps"; itoa (lc_BaseRPS load); "--duration"; duration_string (sp_SLA (sv_Spec cr))]
         end;
  let args := args ++ rate in
  let args := match tc_TLS target with
              | Some tls => if tls_InsecureSkipVerify tls then args ++ ["--tls-insecure-skip-verify"] else args
              | None => args
              end in
  mret (if decide (caBundlePath = "") then args else args ++ ["--tls-ca-bundle"; caBundlePath]).

Definition observerArgs (cr : ScaleValidation) : M (res (list string)) :=
  match targetGVK cr with
  | Err e => mret (Err e)
  | Ok gvk =>
      r ← call (RESTMapping gvk);
      match r with
      | Err e =>
          mret (Err (wrap_unresolvable ("no REST mapping for " +:+ gvk_Group gvk +:+ "/" +:+ gvk_Version gvk
            +:+ ", Kind=" +:+ gvk_Kind gvk) e))
      | Ok mapping =>
          mret (Ok ["--target-name"; ref_Name (sv_TargetRef cr);
                    "--namespace"; sv_Namespace cr;
                    "--target-kind"; gvk_Kind gvk;
                    "--target-group"; gvr_Group mapping;
                    "--target-version"; gvr_Version mapping;
                    "--target-resource"; gvr_Resource mapping;
                    "--sla"; duration_string (sp_SLA (sv_Spec cr));
                    "--result-file"; resultFilePath])
      end
  end.

Definition buildLoadgenJob (r : Reconciler) (cr : ScaleValidation) (url : string) : M (res Job) :=
  let labels : gmap string string := {[ loadgenForLabel := sv_Name cr ]} in
  let run := mkMount runVolumeName runVolumePath false in
  obs ← observerArgs cr;
  match obs with
  | Err e => mret (Err e)
  | Ok obsArgs =>
      let '(caBundlePath, volumes, loadgenMounts) :=
        match caBundleRef cr with
        | Some ca =>
            (tlsCAMountPath +:+ "/" +:+ cm_Key ca,
             [EmptyDir runVolumeName; ConfigMapVolume tlsCAVolumeName (cm_Name ca) [(cm_Key ca, cm_Key ca)]],
             [run; mkMount tlsCAVolumeName tlsCAMountPath true])
        | None => ("", [EmptyDir runVolumeName], [run])
        end in
      match loadgenArgs cr url caBundlePath with
      | Err e => mret (Err e)
      | Ok lgArgs =>
          mret (Ok (mkJob (new_meta (loadgenJobName cr) (sv_Namespace cr) labels)
            (mkJobSpec 0 labels "Never" (rc_ObserverServiceAccount r) jobGracePeriodSeconds
               restrictedPodSecurityContext (imagePullSecretRefs (rc_ImagePullSecrets r)) volumes
               [mkJobContainer observerContainerName (rc_ObserverImage r) obsArgs (Some "Always")
                  restrictedContainerSecurityContext [run]]
               [mkJobContainer loadgenContainerName (rc_LoadgenImage r) lgArgs None
                  restrictedContainerSecurityContext loadgenMounts])
            []))
      end
  end.

Definition discoverProbe (cr : ScaleValidation) : M (res Probe.Spec) :=
  let ref := sv_TargetRef cr in
  let who := ref_Kind ref +:+ " " +:+ ref_Name ref in
  o ← targetObject cr;
  match o with
  | Err e => mret (Err e)
  | Ok obj =>
      match NestedSlice obj ["spec"; "template"; "spec"; "containers"] with
      | Err e => mret (Err (wrapf ("read pod template of " +:+ who) e))
      | Ok None | Ok (Some []) =>
          mret (Err (errorf (who +:+ " has no pod template containers, AutoDiscoverProbe needs one")))
      | Ok (Some (first :: _)) =>
          match AsMap first with
          | None => mret (Err (errorf (who +:+ " has a malformed first container")))
          | Some fields =>
              match ContainerFromUnstructured fields with
              | Err e => mret (Err (wrapf ("decode first container of " +:+ who) e))
              | Ok container => mret (Probe.DiscoverFromContainer container)
              end
          end
      end
  end.

Definition resolveTargetURL (cr : ScaleValidation) : M (res string) :=
  let target := sp_Target (sv_Spec cr) in
  let host := if decide (tc_Host target = "")
              then ref_Name (sv_TargetRef cr) +:+ "." +:+ sv_Namespace cr +:+ ".svc.cluster.local"
              else tc_Host target in
  if decide (tc_Mode target = "CustomPath") then
    mret (Ok (targetURL "http" host (tc_Port target) (tc_CustomPath target)))
  else if decide (tc_Mode target = "AutoDiscoverProbe") then
    p ← discoverProbe cr;
    match p with
    | Err e => mret (Err (wrapf "auto-discover probe" e))
    | Ok spec =>
        let port := if Probe.ps_Port spec =? 0 then tc_Port target else Probe.ps_Port spec in
        let scheme := if EqualFold (Probe.ps_Scheme spec) "HTTPS" then "https" else "http" in
        mret (Ok (targetURL scheme host port (Probe.ps_Path spec)))
    end
  else mret (Ok (targetURL "http" host (tc_Port target) "/")).
End job.
