(* ===== verification/Manager.v ===== *)
(** * The controller command (cmd/scale-sentry/controller.go)

    [runController] builds the manager and the clientset, registers the two reconcilers and the
    health checks, and starts the manager.  controller-runtime is third-party: each of its
    functions is a call. *)

From S2P Require Import Prelude Flags Effects LoadgenJob.

Open Scope Z_scope.

Definition defaultLoadgenImage : string := "scale-sentry-loadgen:latest".
Definition defaultObserverImage : string := "scale-sentry-observer:latest".
Definition defaultObserverServiceAccnt : string := "scale-sentry-observer".
Definition leaderElectionID : string := "scale-sentry-leader".

Record controllerOpts := mkControllerOpts {
  co_metricsAddr : string;
  co_probeAddr : string;
  co_leaderElect : bool;
  co_leaderElectNamespace : string;
  co_loadgenImage : string;
  co_observerImage : string;
  co_observerServiceAccount : string;
  co_imagePullSecrets : list string;
  co_devLogging : bool
}.

Definition controller_flags : list flag := [
  mkFlag "metrics-bind-address" (VString ":8080");
  mkFlag "health-probe-bind-address" (VString ":8081");
  mkFlag "leader-elect" (VBool true);
  mkFlag "leader-elect-namespace" (VString "");
  mkFlag "loadgen-image" (VString defaultLoadgenImage);
  mkFlag "observer-image" (VString defaultObserverImage);
  mkFlag "observer-service-account" (VString defaultObserverServiceAccnt);
  mkFlag "image-pull-secret" (VStrings []);
  mkFlag "dev-logging" (VBool false)].

Definition bind_controller_opts (m : flags_map) : controllerOpts :=
  mkControllerOpts (get_string m "metrics-bind-address") (get_string m "health-probe-bind-address")
    (get_bool m "leader-elect") (get_string m "leader-elect-namespace") (get_string m "loadgen-image")
    (get_string m "observer-image") (get_string m "observer-service-account") (get_strings m "image-pull-secret")
    (get_bool m "dev-logging").

Definition controller_main `{Pflag} (args : list string) : res controllerOpts :=
  m ← ParseFlags controller_flags [] args; mret (bind_controller_opts m).

(** ctrl.Options, as far as it is set. *)
Record managerOptions := mkManagerOptions {
  mo_MetricsBindAddress : string;
  mo_HealthProbeBindAddress : string;
  mo_LeaderElection : bool;
  mo_LeaderElectionID : string;
  mo_LeaderElectionNamespace : string
}.

(** schema.GroupVersion *)
Record group_version := mkGV { gv_Group : string; gv_Version : string }.

(** The group of the API and the types its [init] registers with the scheme builder. *)
Definition GroupVersion : group_version := mkGV "validation.scale-sentry.ek.co" "v1beta1".

Definition registered_types : list string := ["ScaleValidation"; "ScaleValidationList"].

Inductive mcall :=
| MAddClientGoTypes
| MAddToScheme (gv : group_version) (types : list string)
| MGetConfig
| MNewManager (o : managerOptions)
| MNewClientset
| MSetupScaleValidation (r : Reconciler)
| MSetupShadow
| MAddHealthz
| MAddReadyz
| MStart.

Definition manswer (_ : mcall) : Type := res unit.

(** How a command ends: it returns, or the process dies with an exit code. *)
Inductive outcome :=
| Returned (r : res unit)
| Died (code : Z).

Definition succeeded (o : outcome) : bool := match o with Returned r => is_ok r | Died _ => false end.

(** [if err := ...; err != nil { return fmt.Errorf("what: %w", err) }]. *)
Definition must (what : string) (c : mcall) (next : prog manswer outcome) : prog manswer outcome :=
  r ← call (R := manswer) c;
  match r with Err e => mret (Returned (Err (wrapf what e))) | Ok _ => next end.

(** A call that takes the process down on an error: utilruntime.Must panics, which ends a Go process
    with code 2, and ctrl.GetConfigOrDie exits with code 1. *)
Definition or_die (code : Z) (c : mcall) (next : prog manswer outcome) : prog manswer outcome :=
  r ← call (R := manswer) c;
  match r with Err _ => mret (Died code) | Ok _ => next end.

Definition manager_options (o : controllerOpts) : managerOptions :=
  mkManagerOptions (co_metricsAddr o) (co_probeAddr o) (co_leaderElect o) leaderElectionID (co_leaderElectNamespace o).

(** The reconciler gets an event recorder and keeps its own readiness timeout. *)
Definition reconciler_of (o : controllerOpts) : Reconciler :=
  mkReconciler (co_loadgenImage o) (co_observerImage o) (co_observerServiceAccount o) (co_imagePullSecrets o) true 0.

Definition runController (o : controllerOpts) : prog manswer outcome :=
  or_die 2 MAddClientGoTypes
  (or_die 2 (MAddToScheme GroupVersion registered_types)
  (or_die 1 MGetConfig
  (must "create manager" (MNewManager (manager_options o))
  (must "build clientset" MNewClientset
  (must "set up scalevalidation controller" (MSetupScaleValidation (reconciler_of o))
  (must "set up deployment-shadow controller" MSetupShadow
  (must "add healthz check" MAddHealthz
  (must "add readyz check" MAddReadyz
  (must "run manager" MStart (mret (Returned (Ok tt)))))))))))).

(** The steps of the start-up, in order. *)
Definition startup (o : controllerOpts) : list mcall :=
  [MAddClientGoTypes; MAddToScheme GroupVersion registered_types; MGetConfig; MNewManager (manager_options o);
   MNewClientset; MSetupScaleValidation (reconciler_of o); MSetupShadow; MAddHealthz; MAddReadyz; MStart].

(** The calls of a history, oldest first. *)
Definition calls_of (h : history manswer) : list mcall := rev (ev_call <$> h).

Definition failed (e : event manswer) : bool := match e with Ev _ r => negb (is_ok r) end.

(** What a run of the command leaves: a first part of the start-up of which all steps but the
    last succeeded. *)
Definition started_in_order (o : controllerOpts) (h : history manswer) (r : outcome) : Prop :=
  calls_of h `prefix_of` startup o ∧ forallb (λ e, negb (failed e)) (tail h) = true ∧
  (succeeded r = true ↔ calls_of h = startup o ∧ forallb (λ e, negb (failed e)) h = true).

Lemma runController_order (o : controllerOpts) : returns (runController o) [] (started_in_order o).
Proof.
  unfold runController, must, or_die.
  repeat (apply wp_call; [done|]; intros [[]|e] _;
          [|split_and!; [by eexists|done|split; [done|by intros [? ?]]]]).
  split_and!; [by exists []|done|done].
Qed.

Lemma runController_dies (o : controllerOpts) : returns (runController o) [] (λ _ r, r ≠ Died 0).
Proof. unfold runController, must, or_die. repeat (apply wp_call; [done|]; intros [[]|e] _; [|done]). done. Qed.

(** Every failure ends the start-up: the API types are registered and the configuration found before
    the manager is made, and it is started only when both reconcilers and both health checks were
    registered, with the options of the command line; the command succeeds exactly when every step
    did. *)
Theorem controller_starts_in_order (o : controllerOpts) (h : history manswer) (r : outcome) :
  runs (runController o) [] h r → started_in_order o h r.
Proof. intros Hr. exact (returns_runs _ _ _ _ _ Hr (runController_order o)). Qed.

Lemma controller_starts_in_order_witness :
  let o := mkControllerOpts ":8080" ":8081" true "" "lg" "obs" "sa" [] false in
  let '(h, r) := exec (λ _ c, Ok tt : manswer c) (runController o) [] in
  started_in_order o h r ∧ calls_of h = startup o.
Proof.
  intros o. pose proof (exec_runs (λ _ c, Ok tt : manswer c)
    (runController o) []) as Hr. split; [exact (controller_starts_in_order o _ _ Hr)|reflexivity].
Defined.
