(* ===== verification/Commands.v ===== *)
(** * The container commands (cmd/loadgen/main.go, cmd/observer/main.go)

    Each command declares its flags, turns the parsed values into the configuration of its
    component and runs it.  A run is a program over the calls of the component and the command's
    own: what the generator measured, and writes to stdout and to the result file. *)

From S2P Require Import Observer.
From S2P Require Import Prelude GoText GoDuration Flags LoadPhase LoadConfig Collector Report Effects Clients LoadgenJob.

Open Scope Z_scope.

(** ** cmd/loadgen: flags *)

Record opts := mkOpts {
  o_url : string;
  o_method : string;
  o_headers : list string;
  o_rps : Z;
  o_duration : Duration;
  o_concurrency : Z;
  o_connectionMode : string;
  o_timeout : Duration;
  o_targetMode : string;
  o_networkPath : string;
  o_resultFile : string;
  o_tlsInsecure : bool;
  o_tlsCABundle : string;
  o_phasesJSON : string;
  o_protocol : string;
  o_grpcService : string
}.

Definition loadgen_flags : list flag := [
  mkFlag "url" (VString "");
  mkFlag "method" (VString "GET");
  mkFlag "header" (VStrings []);
  mkFlag "rps" (VInt 0);
  mkFlag "duration" (VDuration 0);
  mkFlag "concurrency" (VInt 0);
  mkFlag "connection-mode" (VString "");
  mkFlag "timeout" (VDuration (5 * Second));
  mkFlag "target-mode" (VString "");
  mkFlag "network-path" (VString "");
  mkFlag "result-file" (VString "");
  mkFlag "tls-insecure-skip-verify" (VBool false);
  mkFlag "tls-ca-bundle" (VString "");
  mkFlag "phases" (VString "");
  mkFlag "protocol" (VString "");
  mkFlag "grpc-service" (VString "")].

Definition loadgen_required : list string := ["url"; "connection-mode"].

(** The variables the flags are bound to. *)
Definition bind_opts (m : flags_map) : opts :=
  mkOpts (get_string m "url") (get_string m "method") (get_strings m "header") (get_int m "rps")
    (get_duration m "duration") (get_int m "concurrency") (get_string m "connection-mode")
    (get_duration m "timeout") (get_string m "target-mode") (get_string m "network-path")
    (get_string m "result-file") (get_bool m "tls-insecure-skip-verify") (get_string m "tls-ca-bundle")
    (get_string m "phases") (get_string m "protocol") (get_string m "grpc-service").

Definition loadgen_main `{Pflag} (args : list string) : res opts :=
  m ← ParseFlags loadgen_flags loadgen_required args; mret (bind_opts m).

(** ** cmd/loadgen: run *)

Section loadgen.
Context `{PhasesJson, NetHttp, CertPool, Histogram, ResultJson}.

(** The configuration [run] builds before it starts anything. *)
Definition gen_config (o : opts) : res GenConfig :=
  headers ← parseHeaders (o_headers o);
  let cfg := mkGenConfig (o_url o) (o_method o) headers (o_rps o) (o_duration o) (o_concurrency o)
    (o_connectionMode o) (o_timeout o) (o_targetMode o) (o_networkPath o) (o_tlsInsecure o) (o_tlsCABundle o)
    (o_protocol o) (o_grpcService o) in
  phases ← (if decide (o_phasesJSON o = "") then mret []
            else match UnmarshalPhases (o_phasesJSON o) with
                 | Err e => Err (wrapf "parse --phases" e)
                 | Ok ps => Ok ps
                 end);
  if decide (o_phasesJSON o = "" ∧ (o_rps o = 0 ∨ o_duration o = 0)) then
    Err (errorf "either --phases or both --rps and --duration are required")
  else mret (cfg phases).

(** What the generator's run produced. *)
Record generated := mkGenerated {
  gn_start : Time;
  gn_logs : list phase_log;
  gn_finish : Time;
  gn_stats : ClientStats
}.

Inductive rcall :=
| RClient (c : ccall)
| RGenerate (cfg : GenConfig)
| RPrintln (s : string)
| RWriteFile (path s : string).

Definition ranswer (c : rcall) : Type :=
  match c with
  | RClient c => canswer c
  | RGenerate _ => generated
  | RPrintln _ => res unit
  | RWriteFile _ _ => res unit
  end.

Fixpoint lift_client {A} (p : CM A) : prog ranswer A :=
  match p with
  | Ret a => Ret a
  | Call c k => Call (R := ranswer) (RClient c) (λ r, lift_client (k r))
  end.

Definition run_labels (cfg : GenConfig) : RunLabels :=
  mkLabels (gc_ConnectionMode cfg) (gc_Protocol cfg) (gc_TargetMode cfg) (gc_NetworkPath cfg) (gc_GRPCService cfg).

Definition run_result (cfg : GenConfig) (g : generated) : LoadResult :=
  Collector.Run (run_labels cfg) (gn_start g) (gn_finish g) (gn_logs g) (gn_stats g).

(** Printing the result and leaving it for the observer. *)
Definition write_result (o : opts) (result : LoadResult) : prog ranswer (res unit) :=
  match MarshalResult result with
  | Err e => mret (Err (wrapf "encode result" e))
  | Ok pretty =>
      p ← call (R := ranswer) (RPrintln pretty);
      match p with
      | Err e => mret (Err (wrapf "write result to stdout" e))
      | Ok _ =>
          if decide (o_resultFile o = "") then mret (Ok tt)
          else
            w ← call (R := ranswer) (RWriteFile (o_resultFile o) pretty);
            match w with
            | Err e => mret (Err (wrapf ("write result file " +:+ o_resultFile o) e))
            | Ok _ => mret (Ok tt)
            end
      end
  end.

(** [run]; [None] is a panic. *)
Definition loadgen_run (o : opts) : prog ranswer (option (res unit)) :=
  match gen_config o with
  | Err e => mret (Some (Err e))
  | Ok cfg =>
      g ← lift_client (New cfg);
      match g with
      | None => mret None
      | Some (Err e) => mret (Some (Err (wrapf "new generator" e)))
      | Some (Ok (cfg, _)) =>
          g ← call (R := ranswer) (RGenerate cfg);
          r ← write_result o (run_result cfg g);
          mret (Some r)
      end
  end.
End loadgen.

(** ** cmd/observer *)

Definition observer_flags : list flag := [
  mkFlag "target-name" (VString "");
  mkFlag "namespace" (VString "");
  mkFlag "target-kind" (VString "Deployment");
  mkFlag "target-group" (VString "apps");
  mkFlag "target-version" (VString "v1");
  mkFlag "target-resource" (VString "deployments");
  mkFlag "service-name" (VString "");
  mkFlag "sla" (VDuration 0);
  mkFlag "poll-interval" (VDuration 0);
  mkFlag "result-file" (VString "")].

Definition observer_required : list string := ["target-name"; "namespace"; "sla"].

Definition bind_config (m : flags_map) : Config :=
  mkObserverConfig (get_string m "target-name") (get_string m "namespace") (get_string m "target-kind")
    (get_string m "target-group") (get_string m "target-version") (get_string m "target-resource")
    (get_string m "service-name") (get_duration m "sla") (get_duration m "poll-interval") (get_string m "result-file").

Definition observer_main `{Pflag} (args : list string) : res Config :=
  m ← ParseFlags observer_flags observer_required args; mret (bind_config m).

Section observer.
Context `{K8s.K8sLib, Correlation.SortSlice, ResultJson, CAdvisor, ReportJson}.

Inductive vcall :=
| VInClusterConfig
| VNewForConfig
| VNewDynamic
| VObserve (c : ocall)
| VPrintln (s : string).

Definition vanswer (c : vcall) : Type :=
  match c with
  | VObserve c => oanswer c
  | _ => res unit
  end.

Fixpoint lift_observer {A} (p : prog oanswer A) : prog vanswer A :=
  match p with
  | Ret a => Ret a
  | Call c k => Call (R := vanswer) (VObserve c) (λ r, lift_observer (k r))
  end.

Definition NewSession (cfg : Config) : prog vanswer (res Config) :=
  c ← call (R := vanswer) VNewForConfig;
  match c with
  | Err e => mret (Err (wrapf "build clientset" e))
  | Ok _ =>
      d ← call (R := vanswer) VNewDynamic;
      match d with
      | Err e => mret (Err (wrapf "build dynamic client" e))
      | Ok _ => mret (Ok (session_config cfg))
      end
  end.

Definition observer_run (cfg : Config) (ticks : nat) : prog vanswer (res unit) :=
  r ← call (R := vanswer) VInClusterConfig;
  match r with
  | Err e => mret (Err (wrapf "in-cluster config" e))
  | Ok _ =>
      s ← NewSession cfg;
      match s with
      | Err e => mret (Err e)
      | Ok sess =>
          report ← lift_observer (Observer.Run sess ticks);
          match MarshalReportLine report with
          | Err e => mret (Err e)
          | Ok line =>
              p ← call (R := vanswer) (VPrintln line);
              match p with
              | Err e => mret (Err (wrapf "write report line" e))
              | Ok _ => mret (Ok tt)
              end
          end
      end
  end.
End observer.
