(* ===== verification/Wiring.v ===== *)
(** * From the CR to the containers and back

    The controller renders command lines, the commands parse them; the load generator leaves its
    result in a file, the observer reads it; the observer prints its report, the controller reads
    it.  The theorems here join the two ends of each of these hand-overs. *)

From S2P Require Import Observer.
From S2P Require Import Prelude GoFloat GoText GoDuration Flags Api K8s Effects Cluster LoadPhase LoadConfig Collector Report LoadProfile Clients LoadgenJob Commands.

Open Scope Z_scope.

(** ** The load generator's command line *)

Section loadgen_args.
Context (cr : ScaleValidation) (url caBundlePath : string).

Let target := sp_Target (sv_Spec cr).
Let load := sp_Load (sv_Spec cr).

Definition grpc_service : string := match tc_GRPC target with Some g => grpc_Service g | None => "" end.

Definition skip_verify : bool := match tc_TLS target with Some tls => tls_InsecureSkipVerify tls | None => false end.

Definition single_shot : list setting :=
  [number "rps" (lc_BaseRPS load); period "duration" (sp_SLA (sv_Spec cr))].

(** The flags of the load generator's container, [rate] being those of the rate. *)
Definition loadgen_settings (rate : list setting) : list setting :=
  [text "url" url; text "connection-mode" defaultLoadgenConnectionMode; text "target-mode" (tc_Mode target);
   text "network-path" (tc_NetworkPath target); text "result-file" resultFilePath]
  ++ optional (0 <? lc_Concurrency load) (number "concurrency" (lc_Concurrency load))
  ++ optional (bool_decide (tc_Protocol target ≠ "")) (text "protocol" (tc_Protocol target))
  ++ optional (bool_decide (grpc_service ≠ "")) (text "grpc-service" grpc_service)
  ++ rate
  ++ optional skip_verify (Switch "tls-insecure-skip-verify")
  ++ optional (bool_decide (caBundlePath ≠ "")) (text "tls-ca-bundle" caBundlePath).

Lemma command_line_app l k : command_line (l ++ k) = command_line l ++ command_line k.
Proof. unfold command_line. by rewrite fmap_app, concat_app. Qed.

Lemma command_line_optional b s : command_line (optional b s) = if b then render s else [].
Proof. unfold command_line. destruct b; [|done]. simpl. by rewrite app_nil_r. Qed.

(** Arguments that are appended under a condition. *)
Lemma append_if (b : bool) (l k : list string) : (if b then l ++ k else l) = l ++ if b then k else [].
Proof. destruct b; [done|]. by rewrite app_nil_r. Qed.

Lemma append_unless (s : string) (l k : list string) :
  (if decide (s = "") then l else l ++ k) = l ++ if bool_decide (s ≠ "") then k else [].
Proof. case_decide; case_bool_decide; try done. by rewrite app_nil_r. Qed.

(** The rendered arguments are those flags, in that order. *)
Lemma loadgenArgs_settings `{K8sLib, PhasesJson} args : loadgenArgs cr url caBundlePath = Ok args →
  ∃ rate, args = command_line (loadgen_settings rate) ∧
    ((buildPhases cr = Ok None ∧ rate = single_shot) ∨
     ∃ phases js, buildPhases cr = Ok (Some phases) ∧ MarshalPhases phases = Ok js ∧ rate = [text "phases" js]).
Proof.
  unfold loadgenArgs. cbv zeta. fold target load. rewrite append_if, append_unless.
  assert (Hgrpc : ∀ l, match tc_GRPC target with
    | Some g => if decide (grpc_Service g = "") then l else l ++ ["--grpc-service"; grpc_Service g] | None => l end
    = l ++ if bool_decide (grpc_service ≠ "") then ["--grpc-service"; grpc_service] else []).
  { intros l. unfold grpc_service. destruct (tc_GRPC target); [apply append_unless|]. symmetry. apply app_nil_r. }
  assert (Htls : ∀ l, match tc_TLS target with
    | Some tls => if tls_InsecureSkipVerify tls then l ++ ["--tls-insecure-skip-verify"] else l | None => l end
    = l ++ if skip_verify then ["--tls-insecure-skip-verify"] else []).
  { intros l. unfold skip_verify. destruct (tc_TLS target); [apply append_if|]. symmetry. apply app_nil_r. }
  rewrite Hgrpc. unfold loadgen_settings. intros Ha.
  destruct (buildPhases cr) as [[phases|]|] eqn:Hp; [| |done].
  - cbn [mbind res_bind] in Ha. unfold phasesJSON in Ha. destruct (MarshalPhases phases) as [js|] eqn:Hj; [|done].
    cbn [mbind res_bind mret res_ret] in Ha. rewrite Htls, append_unless in Ha. injection Ha as <-.
    exists [text "phases" js]. split; [|right; by exists phases, js].
    rewrite !command_line_app, !command_line_optional, <- !app_assoc. reflexivity.
  - cbn [mbind res_bind mret res_ret] in Ha. rewrite Htls, append_unless in Ha. injection Ha as <-.
    exists single_shot. split; [|by left].
    rewrite !command_line_app, !command_line_optional, <- !app_assoc. reflexivity.
Qed.

Definition ranges_fit : Prop :=
  in_int64 (lc_Concurrency load) ∧ in_int64 (lc_BaseRPS load) ∧ in_int64 (sp_SLA (sv_Spec cr)).

Lemma Forall_optional (P : setting → Prop) b s : P s → Forall P (optional b s).
Proof. intros. destruct b; by repeat constructor. Qed.

Lemma loadgen_settings_wf rate : ranges_fit → Forall (well_formed loadgen_flags) rate →
  Forall (well_formed loadgen_flags) (loadgen_settings rate).
Proof.
  intros (Hc & _) Hrate. unfold loadgen_settings.
  repeat (apply Forall_app; split); try done; try apply Forall_optional; repeat apply Forall_cons_2; try apply Forall_nil_2;
    first [by eapply text_wf|by eapply number_wf|by eapply switch_wf].
Qed.

(** What the load generator's command makes of them. *)
Definition loadgen_opts (rps : Z) (duration : Duration) (js : string) : opts :=
  mkOpts url "GET" [] rps duration (Z.max 0 (lc_Concurrency load)) defaultLoadgenConnectionMode (5 * Second)
    (tc_Mode target) (tc_NetworkPath target) resultFilePath skip_verify caBundlePath js (tc_Protocol target)
    grpc_service.

(** Evaluates the value of a flag that the settings give or leave out. *)
Ltac flag_lookup :=
  rewrite ?assigned_lookup; unfold loadgen_settings; rewrite ?setting_for_app, ?setting_for_optional;
  cbn [setting_name setting_value text number period single_shot setting_for String.eqb Ascii.eqb Bool.eqb];
  rewrite ?andb_false_r, ?andb_true_r; cbv match;
  repeat match goal with
  | |- context [defaults loadgen_flags !! ?n] =>
      let v := eval vm_compute in (defaults loadgen_flags !! n) in change (defaults loadgen_flags !! n) with v
  end.

(** Every field is a literal, the setting that is always there, or one that is left out when it is
    the default. *)
Ltac bound_field :=
  first [reflexivity | destruct skip_verify; reflexivity
        | destruct (Z.ltb_spec 0 (lc_Concurrency load)); lia
        | case_bool_decide; [reflexivity|match goal with H : _ = "" |- _ => rewrite H; reflexivity end]].

Ltac bind_fields :=
  unfold bind_opts, loadgen_opts, get_string, get_int, get_duration, get_bool, get_strings;
  f_equal; flag_lookup; bound_field.

Lemma bind_single_shot :
  bind_opts (assigned loadgen_flags (loadgen_settings single_shot))
  = loadgen_opts (lc_BaseRPS load) (sp_SLA (sv_Spec cr)) "".
Proof. bind_fields. Qed.

Lemma bind_phases js :
  bind_opts (assigned loadgen_flags (loadgen_settings [text "phases" js])) = loadgen_opts 0 0 js.
Proof. bind_fields. Qed.

(** The load generator's container reads back what the controller rendered. *)
Lemma loadgen_main_reads `{K8sLib, PhasesJson, PflagLaws} args :
  loadgenArgs cr url caBundlePath = Ok args → ranges_fit →
  ∃ rps duration js, loadgen_main args = Ok (loadgen_opts rps duration js) ∧
    ((buildPhases cr = Ok None ∧ rps = lc_BaseRPS load ∧ duration = sp_SLA (sv_Spec cr) ∧ js = "") ∨
     ∃ phases, buildPhases cr = Ok (Some phases) ∧ MarshalPhases phases = Ok js ∧ rps = 0 ∧ duration = 0).
Proof.
  intros Ha Hfit. destruct (loadgenArgs_settings args Ha) as (rate & -> & Hrate). unfold loadgen_main.
  assert (Hwf : Forall (well_formed loadgen_flags) rate).
  { destruct Hrate as [[_ ->]|(? & ? & _ & _ & ->)]; repeat apply Forall_cons_2; try apply Forall_nil_2;
      first [by eapply text_wf|by eapply number_wf; [|apply Hfit]|by eapply period_wf; [|apply Hfit]]. }
  rewrite parse_settings; [|apply (bool_decide_unpack _); by vm_compute|by apply loadgen_settings_wf|].
  - cbn [mbind res_bind mret res_ret]. destruct Hrate as [[Hp ->]|(phases & js & Hp & Hj & ->)].
    + rewrite bind_single_shot. eexists _, _, _. split; [done|]. by left.
    + rewrite bind_phases. eexists _, _, _. split; [done|]. right. by exists phases.
  - intros n Hn. unfold loadgen_settings. rewrite fmap_app. apply elem_of_app. left.
    apply elem_of_cons in Hn as [->|Hn]; [left|]. apply elem_of_cons in Hn as [->|Hn]; [right; left|].
    by apply elem_of_nil in Hn.
Qed.
End loadgen_args.

(** ** The generator a Job's container builds *)

(** The widths of the fields of a CR that the load comes from. *)
Record field_widths (cr : ScaleValidation) : Prop := {
  width_base : in_int32 (lc_BaseRPS (sp_Load (sv_Spec cr)));
  width_concurrency : in_int32 (lc_Concurrency (sp_Load (sv_Spec cr)));
  width_sla : in_int64 (sp_SLA (sv_Spec cr))
}.

Lemma widths_fit cr : field_widths cr → ranges_fit cr.
Proof. intros [Hb Hc Hs]. unfold ranges_fit. solve_range. Qed.

(** The phases that a CR asks for: those of its profile and warmup, or a single shot of its base
    rate over its SLA. *)
Definition asked_phases (cr : ScaleValidation) : list LPhase :=
  match buildPhases cr with
  | Ok (Some phases) => phases
  | _ => [constant_phase MeasurePhaseName (sp_SLA (sv_Spec cr)) (lc_BaseRPS (sp_Load (sv_Spec cr)))]
  end.

(** What the load generator asks of a CR: phases that are all valid, and a protocol it has. *)
Definition runnable (cr : ScaleValidation) : Prop :=
  Forall valid_phase (asked_phases cr) ∧ tc_Protocol (sp_Target (sv_Spec cr)) ∈ [""; "HTTP1"; "HTTP2"; "GRPC"].

Lemma asked_phases_nonempty cr : asked_phases cr ≠ [].
Proof.
  unfold asked_phases. destruct (buildPhases cr) as [[phases|]|] eqn:Hp; [|done..].
  by apply (buildPhases_nonempty cr).
Qed.

Lemma asked_phases_fill cr : field_widths cr → Forall valid_phase (asked_phases cr) →
  (∀ p, lc_Profile (sp_Load (sv_Spec cr)) = Some p → profile_fills p) →
  total_duration (asked_phases cr) = sp_SLA (sv_Spec cr).
Proof.
  intros [Hb _ Hs] Hv Hfill. unfold asked_phases in *. destruct (buildPhases cr) as [[phases|]|] eqn:Hp; simpl; try lia.
  apply (buildPhases_fill cr phases); try done. solve_range.
Qed.

(** An http or https URL with a host, of which a GET request can be made. *)
Definition usable_url `{NetHttp} (url : string) : Prop :=
  url ≠ "" ∧ (∃ scheme host, url_Parse url = Ok (scheme, host) ∧ scheme ∈ ["http"; "https"] ∧ host ≠ "") ∧
  http_NewRequest "GET" url = Ok tt.

Lemma validate_phases_valid i ps : Forall valid_phase ps → validate_phases i ps = Ok tt.
Proof.
  intros Hps. revert i. induction Hps as [|p ps Hp _ IH]; intros i; [done|]. simpl.
  apply LoadPhase.Validate_ok in Hp. by rewrite Hp.
Qed.

(** The configuration that the container's command builds, from a run of [phases] or a single
    shot. *)
Definition job_config (cr : ScaleValidation) (url caBundlePath : string) (rps : Z) (duration : Duration)
    (phases : list LPhase) : GenConfig :=
  mkGenConfig url "GET" ∅ rps duration (Z.max 0 (lc_Concurrency (sp_Load (sv_Spec cr)))) KeepAlive (5 * Second)
    (tc_Mode (sp_Target (sv_Spec cr))) (tc_NetworkPath (sp_Target (sv_Spec cr))) (skip_verify cr) caBundlePath
    (tc_Protocol (sp_Target (sv_Spec cr))) (grpc_service cr) phases.

Lemma validate_rate_iff cfg : validate_rate cfg = Ok tt ↔ Forall valid_phase (run_phases cfg).
Proof.
  split; [apply validate_rate_ok|]. unfold validate_rate, run_phases.
  destruct (gc_Phases cfg) as [|p ps]; [|by apply validate_phases_valid].
  intros (_ & Hd & Hr & _)%Forall_singleton. simpl in *. by rewrite !(proj2 (Z.leb_gt _ _)) by lia.
Qed.

(** Which of these configurations validate. *)
Lemma job_config_valid `{NetHttp} cr url ca rps duration phases :
  usable_url url → let cfg := job_config cr url ca rps duration phases in
  LoadConfig.Validate cfg = Ok tt ↔
  Forall valid_phase (run_phases cfg) ∧ tc_Protocol (sp_Target (sv_Spec cr)) ∈ [""; "HTTP1"; "HTTP2"; "GRPC"].
Proof.
  intros (Hne & (scheme & host & Hu & Hscheme & Hhost) & Hreq) cfg. rewrite <- validate_rate_iff. split.
  { by intros (_ & ? & _ & ?)%Config_Validate_ok. }
  intros [Hrate Hproto]. unfold LoadConfig.Validate. rewrite Hrate. subst cfg.
  cbn [gc_URL gc_ConnectionMode gc_Protocol gc_Method job_config] in *.
  rewrite decide_False by done. rewrite Hu. rewrite decide_False by set_solver. rewrite decide_False by done.
  cbn [mbind res_bind]. rewrite !decide_False; [|done|by intros Hp; apply Hp|naive_solver|done].
  by rewrite Hreq.
Qed.

Section configs.
Context `{PhasesJsonLaws, NetHttp} (cr : ScaleValidation) (url caBundlePath : string).

(** The command builds a configuration with the phases asked for, or gives up on phases that the
    generator would refuse. *)
Definition config_for (o : opts) (cfg : GenConfig) : Prop :=
  run_phases cfg = asked_phases cr ∧
  (gen_config o = Ok cfg ∨ is_ok (gen_config o) = false ∧ ~ Forall valid_phase (asked_phases cr)).

Lemma single_shot_config :
  let base := lc_BaseRPS (sp_Load (sv_Spec cr)) in let sla := sp_SLA (sv_Spec cr) in
  buildPhases cr = Ok None →
  config_for (loadgen_opts cr url caBundlePath base sla "") (job_config cr url caBundlePath base sla []).
Proof.
  intros base sla Hp. unfold config_for, asked_phases. rewrite Hp. split; [done|].
  unfold gen_config. cbn [o_headers o_phasesJSON o_rps o_duration loadgen_opts parseHeaders header_loop mbind res_bind].
  rewrite decide_True by done. cbn [mbind res_bind mret res_ret].
  case_decide as Hzero; [right|by left]. split; [done|]. intros (_ & ? & ? & _)%Forall_singleton. simpl in *. lia.
Qed.

Lemma phased_config phases js :
  buildPhases cr = Ok (Some phases) → MarshalPhases phases = Ok js →
  config_for (loadgen_opts cr url caBundlePath 0 0 js) (job_config cr url caBundlePath 0 0 phases).
Proof.
  intros Hp Hj. destruct (phases_roundtrip phases js (buildPhases_plain cr phases Hp) Hj) as [Hne Hu].
  pose proof (buildPhases_nonempty cr phases Hp) as Hnil.
  unfold config_for, asked_phases. rewrite Hp. split; [by destruct phases|]. left.
  unfold gen_config. cbn [o_headers o_phasesJSON o_rps o_duration loadgen_opts parseHeaders header_loop mbind res_bind].
  rewrite decide_False by done. rewrite Hu. cbn [mbind res_bind mret res_ret]. rewrite decide_False by (by intros [? _]). done.
Qed.
End configs.

(** C11: The load generator's container reads the rendered arguments back and starts exactly when the
    CR asks for something the generator can run: phases that are all valid (positive rates and
    lengths, and whatever their pattern needs) and one of its protocols.  Then the configuration
    gets its defaults, and the generator drives the given URL over the CR's protocol and TLS
    settings, with at least one worker, through exactly the phases that the CR asks for.  They
    last exactly as long as the SLA, unless a ramp has a duration of its own or the end of a
    spike overflows.  (The URL is taken to be usable, and the peak rate of a Step profile not to
    overflow.) *)
Theorem loadgen_container_runs `{K8sLib, PhasesJsonLaws, PflagLaws, NetHttp}
    (cr : ScaleValidation) (url caBundlePath : string) (args : list string) :
  loadgenArgs cr url caBundlePath = Ok args → field_widths cr → usable_url url →
  Forall peak_fits (asked_phases cr) →
  ∃ o, loadgen_main args = Ok o ∧ o_resultFile o = resultFilePath ∧
    ((∃ cfg, gen_config o = Ok cfg ∧ LoadConfig.Validate cfg = Ok tt) ↔ runnable cr) ∧
    ∀ cfg, gen_config o = Ok cfg → LoadConfig.Validate cfg = Ok tt →
      ∃ cfg', withDefaults cfg = Some cfg' ∧
        gc_URL cfg' = url ∧ gc_ConnectionMode cfg' = KeepAlive ∧ gc_TLSCABundlePath cfg' = caBundlePath ∧
        gc_TLSInsecureSkipVerify cfg' = skip_verify cr ∧ gc_Protocol cfg' ∈ ["HTTP1"; "HTTP2"; "GRPC"] ∧
        gc_GRPCService cfg' = grpc_service cr ∧ 1 <= gc_Concurrency cfg' ∧ gc_Phases cfg' = asked_phases cr ∧
        ((∀ p, lc_Profile (sp_Load (sv_Spec cr)) = Some p → profile_fills p) →
         total_duration (gc_Phases cfg') = sp_SLA (sv_Spec cr)).
Proof.
  intros Ha Hwidths Hurl Hpeak.
  destruct (loadgen_main_reads cr url caBundlePath args Ha (widths_fit cr Hwidths)) as (rps & d & js & Hmain & Hcase).
  assert (∃ phases, config_for cr (loadgen_opts cr url caBundlePath rps d js) (job_config cr url caBundlePath rps d phases))
    as (phases & Hrun & Hgen).
  { destruct Hcase as [(Hp & -> & -> & ->)|(phases & Hp & Hj & -> & ->)].
    - exists []. by apply single_shot_config.
    - exists phases. by apply phased_config. }
  pose proof (job_config_valid cr url caBundlePath rps d phases Hurl) as Hvalid. cbv zeta in Hvalid. rewrite Hrun in Hvalid.
  exists (loadgen_opts cr url caBundlePath rps d js). split; [done|]. split; [done|]. split.
  - unfold runnable. rewrite <- Hvalid. destruct Hgen as [->|[Hno Hbad]]; [naive_solver|].
    split; [intros (? & Hok & _); by rewrite Hok in Hno|]. intros [? _]%Hvalid. by destruct Hbad.
  - intros cfg Hcfg Hv. destruct Hgen as [Hgen|[Hno _]]; [|by rewrite Hcfg in Hno].
    rewrite Hcfg in Hgen. injection Hgen as ->. apply Hvalid in Hv as [Hv Hproto].
    destruct (withDefaults_runs (job_config cr url caBundlePath rps d phases)) as (cfg' & Hd & Hn & Hph & Hu & Hm & Hca & Hskip & Hg & Hpr);
      rewrite ?Hrun; try done; [apply asked_phases_nonempty|simpl; lia|].
    exists cfg'. rewrite Hph, Hrun. split_and!; try done; [|by apply asked_phases_fill].
    rewrite Hpr. clear -Hproto. simpl. case_decide; set_solver.
Qed.

(** ** The observer's command line *)

Section observer_args.
Context (cr : ScaleValidation) (gvk : GroupVersionKind) (mapping : GroupVersionResource).

Definition observer_settings : list setting :=
  [text "target-name" (ref_Name (sv_TargetRef cr)); text "namespace" (sv_Namespace cr);
   text "target-kind" (gvk_Kind gvk); text "target-group" (gvr_Group mapping);
   text "target-version" (gvr_Version mapping); text "target-resource" (gvr_Resource mapping);
   period "sla" (sp_SLA (sv_Spec cr)); text "result-file" resultFilePath].

Definition observer_config : Config :=
  mkObserverConfig (ref_Name (sv_TargetRef cr)) (sv_Namespace cr) (gvk_Kind gvk) (gvr_Group mapping)
    (gvr_Version mapping) (gvr_Resource mapping) "" (sp_SLA (sv_Spec cr)) 0 resultFilePath.

Lemma observer_main_reads `{PflagLaws} : in_int64 (sp_SLA (sv_Spec cr)) →
  observer_main (command_line observer_settings) = Ok observer_config.
Proof.
  intros Hs. unfold observer_main. rewrite parse_settings.
  - reflexivity.
  - apply (bool_decide_unpack _); by vm_compute.
  - repeat apply Forall_cons_2; try apply Forall_nil_2; first [by eapply text_wf|by eapply period_wf].
  - intros n Hn. unfold observer_required in Hn. unfold observer_settings. cbn. set_solver.
Qed.
End observer_args.

(** The session watches what the CR names, as the API server resolved it. *)
Definition watches_target (cr : ScaleValidation) (gvk : GroupVersionKind) (mapping : GroupVersionResource) (s : Config) : Prop :=
  oc_TargetName s = ref_Name (sv_TargetRef cr) ∧ oc_Namespace s = sv_Namespace cr ∧
  (gvk_Kind gvk ≠ "" → oc_TargetKind s = gvk_Kind gvk) ∧
  (gvr_Resource mapping ≠ "" → gvr_Version mapping ≠ "" → targetGVR s = mapping) ∧
  oc_ServiceName s = ref_Name (sv_TargetRef cr) ∧ oc_SLA s = sp_SLA (sv_Spec cr) ∧
  oc_PollInterval s = 5 * Second ∧ oc_ResultFile s = resultFilePath.

Lemma observer_config_watches cr gvk mapping :
  watches_target cr gvk mapping (session_config (observer_config cr gvk mapping)).
Proof.
  unfold watches_target, session_config, applyTargetDefaults, observer_config. simpl.
  assert (Hsvc : (if decide ("" = "") then ref_Name (sv_TargetRef cr) else "") = ref_Name (sv_TargetRef cr)) by done.
  destruct (decide (gvr_Resource mapping = "")) as [Hres|Hres]; simpl; split_and!; try done;
    try (intros Hk; by rewrite decide_False).
  intros _ Hver. unfold targetGVR. simpl. rewrite decide_False by done. by destruct mapping.
Qed.

(** The observer's container watches the CR's target: its command reads the arguments that the
    controller rendered back, and the session it starts has the target's name, namespace and
    kind, the resource that the API server mapped it to in the same pass, the CR's SLA, the
    default cadence and Service, and the file in which the load generator leaves its result. *)
Theorem observer_container_watches `{K8sLib, PflagLaws} (cr : ScaleValidation) (h h' : history answer) (args : list string) :
  runs (observerArgs cr) h h' (Ok args) → in_int64 (sp_SLA (sv_Spec cr)) →
  ∃ gvk mapping cfg, Target.targetGVK cr = Ok gvk ∧ h' = Ev (RESTMapping gvk) (Ok mapping) :: h ∧
    observer_main args = Ok cfg ∧ watches_target cr gvk mapping (session_config cfg).
Proof.
  intros Hr Hs. refine (returns_runs _ _ _ _ _ Hr (_ : returns _ _ (λ h' r, r = Ok args → _)) eq_refl).
  unfold observerArgs. destruct (Target.targetGVK cr) as [gvk|e]; [|done]. apply wp_call; [done|]. intros [mapping|e] _; [|done].
  intros [= <-]. exists gvk, mapping, (observer_config cr gvk mapping).
  split; [done|]. split; [done|]. split; [by apply observer_main_reads|]. apply observer_config_watches.
Qed.

(** ** The result file *)

Section result_file.
Context `{PhasesJson, NetHttp, CertPool, Histogram, ResultJson}.

(** The calls of the writing end. *)
Lemma write_result_calls o result h :
  returns (write_result o result) h (λ h' r, r = Ok tt →
    ∃ pretty, MarshalResult result = Ok pretty ∧
      h' = (if decide (o_resultFile o = "") then [] else [Ev (RWriteFile (o_resultFile o) pretty) (Ok tt)])
           ++ Ev (RPrintln pretty) (Ok tt) :: h).
Proof.
  unfold write_result. destruct (MarshalResult result) as [pretty|e]; [|done]. apply wp_call; [done|].
  intros [[]|e] _; [|done]. case_decide; [intros _; by exists pretty|].
  apply wp_call; [done|]. intros [[]|e] _; [|done]. intros _. by exists pretty.
Qed.

(** The last two actions of a load generator: it printed [pretty] and wrote it to its result file. *)
Definition left_result (o : opts) (pretty : string) (rest h : history ranswer) : Prop :=
  h = Ev (RWriteFile (o_resultFile o) pretty) (Ok tt) :: Ev (RPrintln pretty) (Ok tt) :: rest.

(** A load generator that exits without an error has done so. *)
Lemma loadgen_leaves_result (o : opts) (h : history ranswer) :
  runs (loadgen_run o) [] h (Some (Ok tt)) → o_resultFile o ≠ "" →
  ∃ cfg g pretty rest, Ev (RGenerate cfg) g ∈ rest ∧ MarshalResult (run_result cfg g) = Ok pretty ∧
    left_result o pretty rest h.
Proof.
  intros Hr Hfile. refine (returns_runs _ _ _ _ _ Hr (_ : returns _ _ (λ h r, r = Some (Ok tt) → _)) eq_refl).
  clear Hr h. unfold loadgen_run. destruct (gen_config o) as [cfg0|e]; [|done].
  apply returns_skip. intros h0 [[[cfg client]|e]|]; [|done..]. apply wp_call; [done|]. intros g _. apply wp_bind.
  eapply wp_mono; [apply write_result_calls|]. intros h r Hw [= ->]. destruct (Hw eq_refl) as (pretty & Hm & ->).
  rewrite decide_False by done. exists cfg, g, pretty, (Ev (RGenerate cfg) g :: h0). split_and!; [left|done..].
Qed.

(** C25: A load generator that exits without an error has printed the result of its run, and left
    exactly that text in the result file as its last action; an observer that is pointed to that
    file and reads it gets that result, so the totals and the traffic verdict of its report are
    those of the run. *)
Theorem result_reaches_observer `{!ResultJsonLaws} (o : opts) (h : history ranswer) (ocfg : Config) :
  runs (loadgen_run o) [] h (Some (Ok tt)) → o_resultFile o ≠ "" → oc_ResultFile ocfg = o_resultFile o →
  ∃ cfg g pretty rest, Ev (RGenerate cfg) g ∈ rest ∧
    left_result o pretty rest h ∧
    ∀ `{K8sLib, Correlation.SortSlice, CAdvisor} (env : history oanswer → ∀ c, oanswer c) ho,
      env ho (OReadFile (o_resultFile o)) = Ok pretty → plain_result (run_result cfg g) →
      (exec env (Observer.loadResult ocfg) ho).2 = Some (run_result cfg g).
Proof.
  intros Hr Hfile Hocfg. destruct (loadgen_leaves_result o h Hr Hfile) as (cfg & g & pretty & rest & Hg & Hm & Hleft).
  exists cfg, g, pretty, rest. split_and!; [done..|].
  intros ? ? ? env ho Henv Hplain. unfold Observer.loadResult. rewrite decide_False by congruence. rewrite Hocfg. simpl.
  rewrite Henv. simpl. by rewrite (result_roundtrip _ _ Hplain Hm).
Qed.
End result_file.

(** ** The report line *)

Section report_line.
Context `{K8sLib, Correlation.SortSlice, ResultJson, CAdvisor, ReportJsonLaws}.

(** The calls of the session among those of the observer's process. *)
Definition as_session (e : event vanswer) : option (event oanswer) :=
  match e with
  | Ev c r =>
      match c as c return vanswer c → option (event oanswer) with
      | VObserve c => λ r, Some (Ev c r)
      | _ => λ _, None
      end r
  end.

Definition session_history (h : history vanswer) : history oanswer := omap as_session h.

Lemma returns_lift {A} (p : prog oanswer A) (Q : history oanswer → A → Prop) h :
  returns p (session_history h) Q → returns (lift_observer p) h (λ h' a, Q (session_history h') a).
Proof.
  revert h. induction p as [a|c k IH]; intros h Hp; [done|]. destruct Hp as [_ Hk]. split; [done|].
  intros r _. exact (IH r (Ev (R := vanswer) (VObserve c) r :: h) (Hk r I)).
Qed.

Lemma NewSession_config cfg h :
  returns (NewSession cfg) h (λ h' r, session_history h' = session_history h ∧
    match r with Ok s => s = session_config cfg | Err _ => True end).
Proof.
  unfold NewSession. apply wp_call; [done|]. intros [[]|e] _; [|done].
  apply wp_call; [done|]. by intros [[]|e] _.
Qed.

(** The log of the observer's container with [line] in it. *)
Definition pod_log (before : list string) (line : string) (after : list string) (tail : string) : string :=
  unlines (before ++ line :: after) tail.

(** An observer that exits without an error has printed its encoded report as its last action. *)
Lemma observer_prints_report (cfg : Config) (ticks : nat) (h : history vanswer) :
  runs (observer_run cfg ticks) [] h (Ok tt) →
  ∃ rep line rest, h = Ev (VPrintln line) (Ok tt) :: rest ∧ sound_report (session_config cfg) (session_history rest) rep ∧
    MarshalReportLine rep = Ok line.
Proof.
  intros Hr. refine (returns_runs _ _ _ _ _ Hr (_ : returns _ _ (λ h r, r = Ok tt → _)) eq_refl).
  unfold observer_run. apply wp_call; [done|]. intros [[]|e] _; [|done]. apply wp_bind.
  eapply wp_mono; [apply NewSession_config|]. intros h0 [s|e] [Hh0 Hs]; [|done]. cbv beta iota. rewrite Hs. apply wp_bind.
  eapply wp_mono; [apply (returns_lift _ (sound_report (session_config cfg))); rewrite Hh0; apply Run_sound|].
  intros h1 rep Hsound. destruct (MarshalReportLine rep) as [line|e] eqn:Hl; [|done].
  apply wp_call; [done|]. intros [[]|e] _; [|done]. intros _. by exists rep, line, h1.
Qed.

(** An observer that exits without an error has printed, as its last action, one line from which
    the controller reads a sound report, whatever unmarked lines surround it in the log. *)
Theorem observer_report_reaches_controller (cfg : Config) (ticks : nat) (h : history vanswer) :
  runs (observer_run cfg ticks) [] h (Ok tt) →
  ∃ rep line rest, h = Ev (VPrintln line) (Ok tt) :: rest ∧ sound_report (session_config cfg) (session_history rest) rep ∧
    ∀ before after tail, Forall plain_line before →
      ParseReportLog (pod_log before line after tail) = Ok rep.
Proof.
  intros (rep & line & rest & Hh & Hsound & Hl)%observer_prints_report. exists rep, line, rest.
  split_and!; [done..|]. intros before after tail Hb. by apply report_log_found.
Qed.
End report_line.

(** ** Sample hand-overs *)

#[local] Existing Instance SimpleLib.
#[local] Existing Instance SimpleFlags.
#[local] Existing Instance Clients.sample_net.
#[local] Existing Instance Clients.sample_pool.
#[local] Existing Instance sample_codec.
#[local] Existing Instance list_hist.

(** The phases of [example_cr], and a codec for them. *)
Definition example_phases : list LPhase :=
  [mkPhase "Warmup" "Constant" (3 * Second) 10 0 0 0 false; mkPhase "Measure" "Constant" (7 * Second) 10 0 0 0 true].

#[local] Instance example_json : PhasesJson := {|
  MarshalPhases := λ ps, if decide (ps = example_phases) then Ok "[...]" else Err (errorf "unsupported");
  UnmarshalPhases := λ s, if decide (s = "[...]") then Ok example_phases else Err (errorf "unexpected")
|}.

#[local] Instance example_json_laws : PhasesJsonLaws.
Proof. split. intros ps s _. simpl. case_decide as Hps; [|done]. intros [= <-]. by subst ps. Qed.

Definition example_url : string := "https://web.prod.svc.cluster.local:8080/".

Lemma loadgen_container_runs_witness :
  ∃ o cfg cfg',
    loadgen_main ["--url"; example_url; "--connection-mode"; "KeepAlive"; "--target-mode"; "ServiceDefault";
                  "--network-path"; "ClusterIP"; "--result-file"; "/run/scale-sentry/result.json"; "--phases"; "[...]"]
      = Ok o ∧ gen_config o = Ok cfg ∧ withDefaults cfg = Some cfg' ∧
    gc_URL cfg' = example_url ∧ gc_Phases cfg' = example_phases ∧ total_duration (gc_Phases cfg') = 10 * Second.
Proof.
  destruct (loadgen_container_runs example_cr example_url ""
    ["--url"; example_url; "--connection-mode"; "KeepAlive"; "--target-mode"; "ServiceDefault";
     "--network-path"; "ClusterIP"; "--result-file"; "/run/scale-sentry/result.json"; "--phases"; "[...]"])
    as (o & Hm & _ & Hstart & Hrun).
  - reflexivity.
  - split; vm_compute; intuition congruence.
  - split; [done|]. split; [|done]. exists "https", "web". split; [done|]. split; [set_solver|done].
  - vm_compute asked_phases. by repeat constructor.
  - destruct (proj2 Hstart) as (cfg & Hg & Hv).
    { split; [|set_solver]. vm_compute asked_phases. repeat constructor; try done; by left. }
    destruct (Hrun cfg Hg Hv) as (cfg' & Hd & Hu & _ & _ & _ & _ & _ & _ & Hph & Htotal).
    exists o, cfg, cfg'. split_and!; [done..|by apply Htotal].
Defined.

Definition example_args : list string :=
  ["--target-name"; "web"; "--namespace"; "prod"; "--target-kind"; "Deployment"; "--target-group"; "apps";
   "--target-version"; "v1"; "--target-resource"; "deployments"; "--sla"; "10s";
   "--result-file"; "/run/scale-sentry/result.json"].

Lemma observer_container_watches_witness :
  ∃ gvk mapping cfg, Target.targetGVK example_cr = Ok gvk ∧
    [Ev (R := answer) (RESTMapping (mkGVK "apps" "v1" "Deployment")) (Ok (mkGVR "apps" "v1" "deployments"))]
      = Ev (RESTMapping gvk) (Ok mapping) :: [] ∧
    observer_main example_args = Ok cfg ∧ oc_SLA (session_config cfg) = 10 * Second.
Proof.
  destruct (observer_container_watches example_cr []
    [Ev (R := answer) (RESTMapping (mkGVK "apps" "v1" "Deployment")) (Ok (mkGVR "apps" "v1" "deployments"))] example_args)
    as (gvk & mapping & cfg & Hg & Hm & Hc & Hs).
  - exact (runs_call (R := answer) (RESTMapping (mkGVK "apps" "v1" "Deployment")) _ (Ok (mkGVR "apps" "v1" "deployments"))
      _ _ _ (runs_ret _ _)).
  - vm_compute. intuition congruence.
  - exists gvk, mapping, cfg. split_and!; [exact Hg|exact Hm|exact Hc|apply Hs].
Defined.

(** A load generator's run of one request, and a codec for its result. *)
Definition example_opts : opts :=
  mkOpts "https://web" "GET" [] 50 Second 0 "KeepAlive" Second "" "" "/result.json" false "" "" "" "".

Definition example_generated : generated :=
  mkGenerated 0 [mkLog (mkPhase "Measure" "Constant" Second 50 0 0 0 true) 0
                   [Answered 0 (GotStatus 200) Millisecond false] Second] Second (mkClientStats 0 0 0).

Definition example_result : LoadResult :=
  match gen_config example_opts ≫= (λ cfg, match withDefaults cfg with Some c => Ok c | None => Err (errorf "panic") end) with
  | Ok cfg => run_result cfg example_generated
  | Err _ => Collector.Run (mkLabels "" "" "" "" "") 0 0 [] (mkClientStats 0 0 0)
  end.

#[local] Instance LoadResult_eq_dec : EqDecision LoadResult.
Proof.
  assert (EqDecision ErrorSample) by solve_decision. assert (EqDecision PhaseSummary) by solve_decision.
  solve_decision.
Defined.

#[local] Instance example_result_json : ResultJson := {|
  MarshalResult := λ r, if decide (r = example_result) then Ok "{...}" else Err (errorf "unsupported");
  UnmarshalResult := λ s, if decide (s = "{...}") then Ok example_result else Err (errorf "unexpected")
|}.

#[local] Instance example_result_laws : ResultJsonLaws.
Proof. split. intros r s _. simpl. case_decide as Hr; [|done]. intros [= <-]. by subst r. Qed.

Definition example_answers (h : history ranswer) (c : rcall) : ranswer c :=
  match c as c return ranswer c with
  | RClient c => sample_answers c
  | RGenerate _ => example_generated
  | RPrintln _ => Ok tt
  | RWriteFile _ _ => Ok tt
  end.

Lemma result_reaches_observer_witness :
  ∃ cfg g pretty rest, Ev (RGenerate cfg) g ∈ rest ∧
    (exec example_answers (loadgen_run example_opts) []).1
      = Ev (RWriteFile "/result.json" pretty) (Ok tt) :: Ev (RPrintln pretty) (Ok tt) :: rest.
Proof.
  destruct (result_reaches_observer example_opts (exec example_answers (loadgen_run example_opts) []).1
    (mkObserverConfig "web" "prod" "" "" "" "" "" Second 0 "/result.json")) as (cfg & g & pretty & rest & Hin & Hh & _).
  - assert (Hok : (exec example_answers (loadgen_run example_opts) []).2 = Some (Ok tt)) by (vm_compute; reflexivity).
    rewrite <- Hok. apply exec_runs.
  - done.
  - done.
  - exists cfg, g, pretty, rest. split; [exact Hin|exact Hh].
Defined.

(** An observer that finds nothing, and a codec for its report. *)
#[local] Instance example_sort : Correlation.SortSlice := Correlation.insertion_SortSlice.

#[local] Instance example_cadvisor : CAdvisor :=
  {| text_to_families := λ _, Cgroup.ParseFailed (errorf "no metrics"); uint64_overflow := λ _, 0 |}.

Definition empty_report : Report := mkReport [] None VerdictUnknown VerdictUnknown 0 0 (f64_of_int 0).

#[local] Instance empty_codec : ReportJson := codec_for empty_report.

Definition example_observer (h : history vanswer) (c : vcall) : vanswer c :=
  match c as c return vanswer c with
  | VObserve c =>
      match c as c return oanswer c with
      | OGetScale _ _ _ => Err (errorf "not found")
      | OListPods _ _ => Ok []
      | OListHPAs _ => Ok []
      | OGetHPA _ _ => Err (errorf "not found")
      | OListPDBs _ => Ok []
      | OStream _ => Err (errorf "forbidden")
      | OReadAll _ => Err (errorf "closed")
      | OCloseStream _ => tt
      | OReadFile _ => Err (errorf "no such file")
      | OEvents => []
      | OTick => false
      | ONow => 0
      end
  | VInClusterConfig => Ok tt
  | VNewForConfig => Ok tt
  | VNewDynamic => Ok tt
  | VPrintln _ => Ok tt
  end.

Lemma observer_report_reaches_controller_witness :
  let cfg := mkObserverConfig "web" "prod" "" "" "" "" "" Second 0 "/result.json" in
  ∃ rep line rest, (exec example_observer (observer_run cfg 3) []).1 = Ev (VPrintln line) (Ok tt) :: rest ∧
    sound_report (session_config cfg) (session_history rest) rep ∧
    ParseReportLog (pod_log ["observer: watching prod/web"] line [] "") = Ok rep.
Proof.
  intros cfg. destruct (observer_report_reaches_controller cfg 3 (exec example_observer (observer_run cfg 3) []).1)
    as (rep & line & rest & Hh & Hs & Hp).
  - assert (Hok : (exec example_observer (observer_run cfg 3) []).2 = Ok tt) by (vm_compute; reflexivity).
    rewrite <- Hok. apply exec_runs.
  - exists rep, line, rest. split_and!; [exact Hh|apply Hs..|]. apply (Hp ["observer: watching prod/web"] [] "").
    repeat constructor.
Defined.
