(* ===== verification/Entry.v ===== *)
(** * Entry points: processes and their exit codes

    The three binaries end alike: [main] executes a cobra command; an error it returns is printed to
    stderr and the process exits with code 1, otherwise the code is 0.  What the exit codes say
    matters to Kubernetes: the Job is complete when its load generator exits with 0, and failed,
    never retried, when it exits with anything else.  cobra is third-party; it finds a subcommand
    by the first argument. *)

From S2P Require Import Prelude GoFloat GoText Flags K8s Effects Correlation Cgroup Report LoadConfig Clients Collector Observer.
From S2P Require Import Dashboard LoadPhase LoadProfile LoadgenJob Commands Manager Wiring.

Open Scope Z_scope.

(** ** A process *)

Definition exit_code (o : outcome) : Z :=
  match o with Returned (Ok _) => 0 | Returned (Err _) => 1 | Died code => code end.

Section process.
Context {C : Type} {R : C → Type}.

Inductive pcall :=
| POwn (c : C)
| PStderr (line : string).

Definition panswer (c : pcall) : Type := match c with POwn c => R c | PStderr _ => unit end.

Fixpoint own_calls {A} (p : prog R A) : prog panswer A :=
  match p with
  | Ret a => Ret a
  | Call c k => Call (R := panswer) (POwn c) (λ r, own_calls (k r))
  end.

Definition own_event (e : event R) : event panswer :=
  match e with Ev c r => Ev (R := panswer) (POwn c) r end.

(** The process whose command is [p]. *)
Definition process (p : prog R outcome) : prog panswer Z :=
  o ← own_calls p;
  match o with
  | Returned (Err e) => _ ← call (R := panswer) (PStderr (err_text e)); mret (exit_code o)
  | _ => mret (exit_code o)
  end.

(** What a process leaves behind when its command does: the error it returned, on stderr. *)
Definition epilogue (o : outcome) : history panswer :=
  match o with Returned (Err e) => [Ev (R := panswer) (PStderr (err_text e)) tt] | _ => [] end.

Lemma process_returns (p : prog R outcome) (h : history R) :
  returns (process p) (own_event <$> h) (λ H code, ∃ h' o, runs p h h' o ∧ code = exit_code o ∧
    H = epilogue o ++ (own_event <$> h')).
Proof.
  unfold process. revert h. induction p as [o|c k IH]; intros h.
  - destruct o as [[[]|e]|z].
    + exists h, (Returned (Ok tt)). split_and!; [constructor|done..].
    + apply wp_call; [done|]. intros [] _. exists h, (Returned (Err e)). split_and!; [constructor|done..].
    + exists h, (Died z). split_and!; [constructor|done..].
  - split; [done|]. intros r _. eapply wp_mono; [apply (IH r (Ev c r :: h))|].
    intros H code (h' & o & Hr & ? & ?). exists h', o. split_and!; [by apply (runs_call c k r)|done..].
Qed.

(** A process has made the calls of its command and no others, but for the error it printed, and its
    exit code is 0 exactly when the command succeeded. *)
Lemma process_runs (p : prog R outcome) (H : history panswer) (code : Z) : runs (process p) [] H code →
  ∃ h o, runs p [] h o ∧ code = exit_code o ∧ H = epilogue o ++ (own_event <$> h).
Proof. intros Hr. exact (returns_runs _ _ _ _ _ Hr (process_returns p [])). Qed.
End process.

Arguments pcall C : clear implicits.
Arguments panswer {C} R _.

(** ** cmd/loadgen and cmd/observer *)

(** A panic ends a Go process with code 2. *)
Definition returned (r : option (res unit)) : outcome :=
  match r with None => Died 2 | Some r => Returned r end.

Section containers.
Context `{K8sLib, Pflag, PhasesJson, NetHttp, CertPool, Histogram, ResultJson, SortSlice, CAdvisor, ReportJson}.

Definition loadgen_command (args : list string) : prog ranswer outcome :=
  match loadgen_main args with
  | Err e => mret (Returned (Err e))
  | Ok o => r ← loadgen_run o; mret (returned r)
  end.

Definition observer_command (ticks : nat) (args : list string) : prog vanswer outcome :=
  match observer_main args with
  | Err e => mret (Returned (Err e))
  | Ok cfg => r ← observer_run cfg ticks; mret (Returned r)
  end.
End containers.

(** ** cmd/scale-sentry *)

(** The subcommand that the arguments name, and its own arguments. *)
Class Cobra := { find_command : list string → list string → res (string * list string) }.

Class CobraLaws `{Cobra} : Prop := {
  find_named : ∀ names name args, name ∈ names → find_command names (name :: args) = Ok (name, args)
}.

#[local] Instance SimpleCobra : Cobra := {|
  find_command names args :=
    match args with
    | name :: rest => if decide (name ∈ names) then Ok (name, rest) else Err (errorf ("unknown command " +:+ quote name))
    | [] => Err (errorf "no command")
    end
|}.

#[local] Instance SimpleCobraLaws : CobraLaws.
Proof. split. intros names name args Hin. simpl. by rewrite decide_True. Qed.

(** The two [init] functions of the package register these. *)
Definition rootCmd : list string := ["controller"; "report"].

Inductive scall :=
| SController (c : mcall)
| SReport (c : dcall).

Definition sanswer (c : scall) : Type :=
  match c with SController c => manswer c | SReport c => danswer c end.

Fixpoint lift_controller {A} (p : prog manswer A) : prog sanswer A :=
  match p with
  | Ret a => Ret a
  | Call c k => Call (R := sanswer) (SController c) (λ r, lift_controller (k r))
  end.

Fixpoint lift_report {A} (p : prog danswer A) : prog sanswer A :=
  match p with
  | Ret a => Ret a
  | Call c k => Call (R := sanswer) (SReport c) (λ r, lift_report (k r))
  end.

Section root.
Context `{Cobra, Pflag, Lipgloss, AlertsJson}.

Definition controller_command (args : list string) : prog manswer outcome :=
  match controller_main args with
  | Err e => mret (Returned (Err e))
  | Ok o => runController o
  end.

Definition report_command (args : list string) : prog danswer outcome :=
  match ParseFlags report_flags [] args with
  | Err e => mret (Returned (Err e))
  | Ok m => r ← report_cmd (get_string m "file") (get_bool m "plain"); mret (Returned r)
  end.

Definition scale_sentry_command (args : list string) : prog sanswer outcome :=
  match find_command rootCmd args with
  | Err e => mret (Returned (Err e))
  | Ok (name, rest) =>
      if decide (name = "controller") then lift_controller (controller_command rest)
      else lift_report (report_command rest)
  end.
End root.

(** ** What the exit codes say *)

Lemma returned_in {C} {R : C → Type} {A} (a b : A) (h h' : history R) : runs (mret a) h h' b → h' = h ∧ b = a.
Proof. intros Hr. exact (returns_runs _ _ _ _ (λ h' b, h' = h ∧ b = a) Hr (conj eq_refl eq_refl)). Qed.

Section exits.
Context `{K8sLib, Pflag, PhasesJson, NetHttp, CertPool, Histogram, ResultJson, SortSlice, CAdvisor, ReportJson}.

(** When the load generator's process exits with 0, which completes the Job, its last action was to
    leave the result of its run in the result file. *)
Theorem loadgen_exit (args : list string) (o : opts) (trace : history (panswer ranswer)) :
  loadgen_main args = Ok o → o_resultFile o ≠ "" → runs (process (loadgen_command args)) [] trace 0 →
  ∃ (h : history ranswer) cfg g pretty rest, trace = own_event <$> h ∧ left_result o pretty rest h ∧
    Ev (RGenerate cfg) g ∈ rest ∧ MarshalResult (run_result cfg g) = Ok pretty.
Proof.
  intros Ho Hfile (h & out & Hr & Hcode & ->)%process_runs. unfold loadgen_command in Hr. rewrite Ho in Hr.
  apply runs_bind in Hr as (h1 & r & Hr & Hret). apply returned_in in Hret as [-> ->].
  destruct r as [[[]|e]|]; try done. destruct (loadgen_leaves_result o h1 Hr Hfile) as (cfg & g & pretty & rest & ? & ? & ?).
  by exists h1, cfg, g, pretty, rest.
Qed.

(** When the observer's process exits with 0, its last action was to print the line of a sound
    report. *)
Theorem observer_exit (ticks : nat) (args : list string) (cfg : Config) (trace : history (panswer vanswer)) :
  observer_main args = Ok cfg → runs (process (observer_command ticks args)) [] trace 0 →
  ∃ (h : history vanswer) rep line rest, trace = own_event <$> h ∧ h = Ev (VPrintln line) (Ok tt) :: rest ∧
    sound_report (session_config cfg) (session_history rest) rep ∧ MarshalReportLine rep = Ok line.
Proof.
  intros Hcfg (h & out & Hr & Hcode & ->)%process_runs. unfold observer_command in Hr. rewrite Hcfg in Hr.
  apply runs_bind in Hr as (h1 & r & Hr & Hret). apply returned_in in Hret as [-> ->].
  destruct r as [[]|e]; try done. destruct (observer_prints_report cfg ticks h1 Hr) as (rep & line & rest & -> & ? & ?).
  by eexists _, rep, line, rest.
Qed.
End exits.

(** ** The controller's process *)

Definition controller_event (e : event manswer) : event sanswer :=
  match e with Ev c r => Ev (R := sanswer) (SController c) r end.

Lemma lift_controller_returns {A} (p : prog manswer A) (h : history manswer) :
  returns (lift_controller p) (controller_event <$> h) (λ H a, ∃ h', runs p h h' a ∧ H = controller_event <$> h').
Proof.
  revert h. induction p as [a|c k IH]; intros h; [exists h; split; [constructor|done]|]. split; [done|]. intros r _.
  eapply wp_mono; [apply (IH r (Ev c r :: h))|]. intros H a (h' & Hr & ?). exists h'. split; [by apply (runs_call c k r)|done].
Qed.

(** [scale-sentry controller] with the given settings exits with 0 exactly when every step of the
    start-up, with those settings, went through and the manager stopped without an error. *)
Theorem controller_exit `{CobraLaws, PflagLaws, Lipgloss, AlertsJson} (ss : list setting)
    (trace : history (panswer sanswer)) (code : Z) :
  Forall (well_formed controller_flags) ss →
  runs (process (scale_sentry_command ("controller" :: command_line ss))) [] trace code →
  let o := bind_controller_opts (assigned controller_flags ss) in
  ∃ (h : history manswer) out, started_in_order o h out ∧ code = exit_code out ∧ (code = 0 ↔ succeeded out = true) ∧
    trace = epilogue out ++ (own_event <$> (controller_event <$> h)).
Proof.
  intros Hss (h & out & Hr & Hcode & ->)%process_runs o. unfold scale_sentry_command in Hr.
  rewrite find_named in Hr by (by left). rewrite decide_True in Hr by done.
  destruct (returns_runs _ _ _ _ _ Hr (lift_controller_returns _ [])) as (h' & Hrun & ->).
  unfold controller_command, controller_main in Hrun. rewrite parse_settings in Hrun; [|by apply (bool_decide_unpack _); vm_compute|done|by intros ? ?%elem_of_nil].
  pose proof (returns_runs _ _ _ _ _ Hrun (runController_order o)) as Ho. exists h', out. split_and!; try done.
  pose proof (returns_runs _ _ _ _ _ Hrun (runController_dies _)) as Hdie. subst code.
  destruct out as [[[]|e]|z]; simpl; try done. split; [intros ->|]; done.
Qed.
