(* ===== verification/JobShape.v ===== *)
(** * The validation Job as an object (internal/controller/job.go)

    The Job that the controller creates, against the rules the API server checks of such an object:
    its names, labels, images, volumes, mounts and restart policies.  In a namespace that enforces
    the restricted Pod Security Standard it is admitted as well.  And its two containers meet: they
    share the volume of the result file, and the CA bundle the load generator is told to trust is
    mounted where it is told. *)

From Stdlib Require Import Ascii String.
From S2P Require Import Prelude GoText Flags Api K8s Effects Cluster LoadPhase LoadProfile LoadgenJob Commands Wiring.

Open Scope Z_scope.


(** ** The rules of the API server

    Those of k8s.io/kubernetes' and apimachinery's validation that bear on the fields the controller
    sets. *)



























Section arguments.
Context `{K8sLib, PhasesJson} (cr : ScaleValidation) (url : string).



End arguments.








#[local] Existing Instance SimpleLib.
#[local] Existing Instance example_json.



