(* ===== verification/Controller.v ===== *)
(** * The ScaleValidation reconciler (internal/controller)

    scalevalidation_controller.go, schedule.go, disruption.go and the writing half of
    conditions.go.  A method that mutates the object behind its pointer and then ends the pass is
    a function of the object; [r.Status().Update] answers with the stored object, which
    [finishRun] goes on with.  Log lines are left out. *)

From S2P Require Import Chaos.
From S2P Require Import Prelude GoFloat GoText Api K8s Effects.
From S2P Require Import Cluster Target LoadPhase LoadProfile LoadgenJob Report Status.

Open Scope Z_scope.

Definition targetReadyPollInterval : Duration := 5 * Second.
Definition targetReadyWaitTimeout : Duration := 5 * Minute.
Definition scaleValidationFinalizer : string := "validation.scale-sentry.ek.co/finalizer".
Definition childTerminationRequeue : Duration := 2 * Second.

Definition EventReasonLoadgenJobCreated : string := "LoadgenJobCreated".
Definition EventReasonLoadgenJobFailed : string := "LoadgenJobFailed".
Definition EventReasonLoadgenJobVanished : string := "LoadgenJobVanished".
Definition EventReasonTargetReadyTimeout : string := "TargetReadyTimeout".
Definition EventReasonTargetUnresolvable : string := "TargetUnresolvable".
Definition EventReasonTLSCABundleMissing : string := "TLSCABundleMissing".
Definition EventReasonVerdictPass : string := "VerdictPass".
Definition EventReasonVerdictFail : string := "VerdictFail".
Definition EventReasonRunErrored : string := "RunErrored".
Definition EventReasonFinalizerDraining : string := "FinalizerDraining".
Definition EventReasonChaosInjected : string := "ChaosInjected".
Definition EventReasonChaosSkipped : string := "ChaosSkipped".
Definition EventReasonRunScheduled : string := "RunScheduled".
Definition EventReasonScheduleInvalid : string := "ScheduleInvalid".
Definition EventReasonSpecChanged : string := "SpecChanged".

Definition DisruptionReasonPodDeleted : string := "PodDeleted".
Definition DisruptionReasonSkipped : string := "Skipped".

Definition JobFailed : string := "Failed".
Definition JobComplete : string := "Complete".

Fixpoint condition_true (cs : list JobCondition) (t : string) : bool :=
  match cs with
  | [] => false
  | c :: rest =>
      if decide (jcd_Type c = t ∧ jcd_Status c = "True") then true else condition_true rest t
  end.

Definition jobConditionTrue (job : Job) (t : string) : bool := condition_true (job_Conditions job) t.

Fixpoint status_terminated (ss : list ContainerStatus) : bool :=
  match ss with
  | [] => false
  | cs :: rest =>
      if decide (cs_Name cs = observerContainerName) then cs_Terminated cs else status_terminated rest
  end.

Definition observerTerminated (pod : Pod) : bool := status_terminated (pod_InitContainerStatuses pod).

Definition add_alert (a : DiagnosticAlert) (cr : ScaleValidation) : ScaleValidation :=
  on_Status (λ s, set_Diagnostics (st_Diagnostics s ++ [a]) s) cr.

Section controller.
Context `{K8sLib, PhasesJson, ReportJson, Platform}.
Context (r : Reconciler).

Definition eventf (cr : ScaleValidation) (eventType reason message : string) : M unit :=
  if rc_Recorder r then call (Eventf cr eventType reason message) else mret tt.

(** ** Status writes (conditions.go, scalevalidation_controller.go) *)

(** An update, with its error wrapped. *)
Definition write_status (cr : ScaleValidation) (doing : string) : M (res ScaleValidation) :=
  w ← call (UpdateStatus cr);
  match w with
  | Err e => mret (Err (wrapf doing e))
  | Ok cr => mret (Ok cr)
  end.

(** A status write that ends the pass. *)
Definition write_and_return (cr : ScaleValidation) (doing : string) (result : Result) : M (res Result) :=
  w ← write_status cr doing;
  match w with
  | Err e => mret (Err e)
  | Ok _ => mret (Ok result)
  end.

Definition setPhase (cr : ScaleValidation) (phase : Phase) : M (res Result) :=
  write_and_return (on_Status (set_Phase phase) cr) ("update status to " +:+ phase) done_result.

Definition setTerminalPhase (cr : ScaleValidation) (phase : Phase) (reason message : string) : M (res Result) :=
  setPhase (markFinished reason message cr) phase.

(** The counters of a run that ends with a Critical diagnostic of its own. *)
Definition count_failure (cr : ScaleValidation) (alert : string) : M unit :=
  _ ← call (IncRunsTotal (sv_Namespace cr) (sv_Name cr) MetricVerdictUnknown);
  call (IncAlertsTotal (sv_Namespace cr) (sv_Name cr) alert "Critical").

Definition failTargetUnresolvable (cr : ScaleValidation) (cause : goerr) : M (res Result) :=
  let ref := sv_TargetRef cr in
  let msg := "cannot resolve targetRef " +:+ ref_APIVersion ref +:+ "/" +:+ ref_Kind ref +:+ " "
             +:+ ref_Name ref +:+ ": " +:+ err_text cause in
  let cr := add_alert (mkAlert "TargetUnsupported" "Critical" msg
    "check spec.targetRef.apiVersion and .kind name a scalable workload that exists in this cluster, and that the manager ClusterRole grants read access to it and its scale subresource") cr in
  _ ← eventf cr EventTypeWarning EventReasonTargetUnresolvable msg;
  _ ← count_failure cr "TargetUnsupported";
  setTerminalPhase cr PhaseError FinishedReasonTargetUnsupported msg.

Definition failTargetNotReady (cr : ScaleValidation) (readyReplicas : Z) (timeout : Duration) : M (res Result) :=
  let name := ref_Name (sv_TargetRef cr) in
  let had := " had " +:+ itoa readyReplicas +:+ " ready replicas after waiting " +:+ duration_string timeout in
  let cr := add_alert (mkAlert "TargetNotReady" "Critical"
    ("target deployment " +:+ sv_Namespace cr +:+ "/" +:+ name +:+ had)
    "ensure the target Deployment is healthy before applying the ScaleValidation") cr in
  _ ← eventf cr EventTypeWarning EventReasonTargetReadyTimeout
        ("target Deployment " +:+ sv_Namespace cr +:+ "/" +:+ name +:+ had);
  _ ← count_failure cr "TargetNotReady";
  setTerminalPhase cr PhaseError FinishedReasonTargetNotReady
    ("target " +:+ ref_Kind (sv_TargetRef cr) +:+ " " +:+ name +:+ had).

Definition failTLSCABundle (cr : ScaleValidation) (msg rec : string) : M (res Result) :=
  let cr := add_alert (mkAlert "TLSCABundleMissing" "Critical" msg rec) cr in
  _ ← eventf cr EventTypeWarning EventReasonTLSCABundleMissing msg;
  _ ← count_failure cr "TLSCABundleMissing";
  setTerminalPhase cr PhaseError FinishedReasonTLSCABundleMissing msg.

(** [Ok true] when the run was ended. *)
Definition validateTLSCABundle (cr : ScaleValidation) : M (res bool) :=
  match caBundleRef cr with
  | None => mret (Ok false)
  | Some ref =>
      let where_ := "CA bundle ConfigMap " +:+ sv_Namespace cr +:+ "/" +:+ cm_Name ref in
      let fail msg rec :=
        f ← failTLSCABundle cr msg rec;
        match f with Err e => mret (Err e) | Ok _ => mret (Ok true) end in
      g ← call (GetConfigMap (mkKey (sv_Namespace cr) (cm_Name ref)));
      match g with
      | Err e =>
          if IsNotFound e then
            fail (where_ +:+ " not found")
              "create the ConfigMap referenced by spec.target.tls.caBundle.configMapRef before applying the ScaleValidation"
          else mret (Err (wrapf "get CA bundle configmap" e))
      | Ok data =>
          match data !! cm_Key ref with
          | None =>
              fail (where_ +:+ " missing key " +:+ quote (cm_Key ref))
                "set the configured key in the ConfigMap, or update spec.target.tls.caBundle.configMapRef.key"
          | Some _ => mret (Ok false)
          end
      end
  end.

(** ** Starting a run *)

(** The creation of a Job owned by the object, once it is built. *)
Definition create_job (cr : ScaleValidation) (job : Job) (url : string) : M (res Result) :=
  match SetControllerReference (sv_Meta cr) (job_Meta job) with
  | Err e => mret (Err (wrapf "set owner reference" e))
  | Ok meta =>
      let job := mkJob meta (job_Spec job) (job_Conditions job) in
      c ← call (CreateJob job);
      match c with
      | Err e => mret (Err (wrapf "create loadgen job" e))
      | Ok _ =>
          _ ← eventf cr EventTypeNormal EventReasonLoadgenJobCreated
                ("loadgen Job " +:+ om_Name meta +:+ " created against " +:+ url);
          now ← call Now;
          setPhase (on_Status (set_LastRunTime (Some now)) cr) PhaseRunning
      end
  end.

Definition spawnJob (cr : ScaleValidation) : M (res Result) :=
  u ← resolveTargetURL cr;
  match u with
  | Err e =>
      if err_unresolvable e then failTargetUnresolvable cr e
      else setTerminalPhase cr PhaseError FinishedReasonTargetURLUnresolved
             ("could not resolve the target URL: " +:+ err_text e)
  | Ok url =>
      t ← validateTLSCABundle cr;
      match t with
      | Err e => mret (Err e)
      | Ok true => mret (Ok done_result)
      | Ok false =>
          j ← buildLoadgenJob r cr url;
          match j with
          | Err e =>
              if err_unresolvable e then failTargetUnresolvable cr e
              else setTerminalPhase cr PhaseError FinishedReasonJobBuildFailed
                     ("could not build the loadgen Job: " +:+ err_text e)
          | Ok job => create_job cr job url
          end
      end
  end.

(** ** Finishing a run *)

Definition findJobPod (cr : ScaleValidation) : M (res (option Pod)) :=
  l ← call (ListPods (sv_Namespace cr) (ByLabels {[ loadgenForLabel := sv_Name cr ]}));
  match l with
  | Err e => mret (Err (wrapf "list job pods" e))
  | Ok pods => mret (Ok (head pods))
  end.

Definition observerLog (pod : Pod) : M (res string) :=
  l ← call (PodLog (pod_Namespace pod) (pod_Name pod) observerContainerName);
  match l with
  | Err e => mret (Err (wrapf "get observer log" e))
  | Ok raw => mret (Ok raw)
  end.

Definition emitVerdictEvent (cr : ScaleValidation) (report : Report) : M unit :=
  let verdicts := "SLA=" +:+ rp_SLAStatus report +:+ " traffic=" +:+ rp_TrafficIntegrity report in
  if decide (sv_Phase cr = PhaseSucceeded) then
    eventf cr EventTypeNormal EventReasonVerdictPass
      (verdicts +:+ " requests=" +:+ itoa (rp_TotalRequests report) +:+ " failed=" +:+ itoa (rp_FailedRequests report))
  else
    eventf cr EventTypeWarning EventReasonVerdictFail
      (verdicts +:+ " failed=" +:+ itoa (rp_FailedRequests report) +:+ " top diagnostic: "
       +:+ topDiagnostic (rp_Diagnostics report)).

Fixpoint count_alerts (cr : ScaleValidation) (ds : list DiagnosticAlert) : M unit :=
  match ds with
  | [] => mret tt
  | d :: rest =>
      _ ← call (IncAlertsTotal (sv_Namespace cr) (sv_Name cr) (da_Type d) (da_Severity d));
      count_alerts cr rest
  end.

Definition recordRunMetrics (cr : ScaleValidation) (report : Report) : M unit :=
  _ ← call (IncRunsTotal (sv_Namespace cr) (sv_Name cr)
              (VerdictFromStatus (rp_SLAStatus report) (rp_TrafficIntegrity report)));
  _ ← match st_LastRunTime (sv_Status cr) with
      | Some t =>
          now ← call Now;
          call (ObserveRunDuration (sv_Namespace cr) (sv_Name cr) (seconds (time_sub now t)))
      | None => mret tt
      end;
  _ ← match rp_ScaleUpDuration report with
      | Some d => call (ObserveHPAReact (sv_Namespace cr) (sv_Name cr) (seconds d))
      | None => mret tt
      end;
  count_alerts cr (rp_Diagnostics report).

(** The object [finishRun] writes for a report received at [now]. *)
Definition finished_cr (now : Time) (report : Report) (cr : ScaleValidation) : ScaleValidation :=
  let cr := applyReport report cr in
  let '(phase, reason, message) :=
    finishedVerdict (rp_SLAStatus report) (rp_TrafficIntegrity report)
      (rp_TotalRequests report) (rp_FailedRequests report) in
  appendRunHistory now (markFinished reason message (on_Status (set_Phase phase) cr)).

(** An unreadable observer report ends the run in Error. *)
Definition report_unreadable (cr : ScaleValidation) (event message : string) : M (res Result) :=
  _ ← eventf cr EventTypeWarning EventReasonRunErrored event;
  setTerminalPhase cr PhaseError FinishedReasonObserverReportUnreadable message.

Definition finishRun (cr : ScaleValidation) : M (res Result) :=
  p ← findJobPod cr;
  match p with
  | Err e => mret (Err e)
  | Ok None =>
      report_unreadable cr
        ("loadgen Job " +:+ loadgenJobName cr +:+ " completed but no pod found to read observer report from")
        ("loadgen Job " +:+ loadgenJobName cr +:+ " completed but no pod was found to read the observer report from")
  | Ok (Some pod) =>
      if negb (observerTerminated pod) then mret (Ok (mkResult (5 * Second)))
      else
        l ← observerLog pod;
        match l with
        | Err e =>
            report_unreadable cr
              ("reading observer log from pod " +:+ pod_Name pod +:+ " failed: " +:+ err_text e)
              ("reading the observer log from pod " +:+ pod_Name pod +:+ " failed: " +:+ err_text e)
        | Ok raw =>
            match ParseReportLog raw with
            | Err e =>
                report_unreadable cr
                  ("parsing observer report from pod " +:+ pod_Name pod +:+ " failed: " +:+ err_text e)
                  ("parsing the observer report from pod " +:+ pod_Name pod +:+ " failed: " +:+ err_text e)
            | Ok report =>
                now ← call Now;
                w ← write_status (finished_cr now report cr) "write run results";
                match w with
                | Err e => mret (Err e)
                | Ok cr =>
                    _ ← recordRunMetrics cr report;
                    _ ← emitVerdictEvent cr report;
                    mret (Ok done_result)
                end
            end
        end
  end.

(** ** Schedules (schedule.go) *)

(** [err != nil && !apierrors.IsNotFound(err)] after a deletion. *)
Definition delete_failed (d : res unit) : option goerr :=
  match d with
  | Err e => if IsNotFound e then None else Some e
  | Ok _ => None
  end.

Definition startNextRun (cr : ScaleValidation) : M (res Result) :=
  g ← call (GetJob (mkKey (sv_Namespace cr) (loadgenJobName cr)));
  match g with
  | Ok job =>
      match om_DeletionTimestamp (job_Meta job) with
      | None =>
          d ← call (DeleteJob job);
          match delete_failed d with
          | Some e => mret (Err (wrapf "delete finished loadgen job" e))
          | None => mret (Ok (mkResult childTerminationRequeue))
          end
      | Some _ => mret (Ok (mkResult childTerminationRequeue))
      end
  | Err e =>
      if negb (IsNotFound e) then mret (Err (wrapf "get loadgen job" e))
      else
        let cr := resetForNextRun cr in
        _ ← eventf cr EventTypeNormal EventReasonRunScheduled
              ("starting the next run on schedule " +:+ quote (sp_Schedule (sv_Spec cr)));
        setPhase cr PhasePending
  end.

Definition failScheduleInvalid (cr : ScaleValidation) (cause : goerr) : M (res Result) :=
  let msg := "spec.schedule " +:+ quote (sp_Schedule (sv_Spec cr)) +:+ " is not a valid cron expression: "
             +:+ err_text cause in
  let example := String dquote ("0 2 * * *" +:+ String dquote "") in
  let cr := add_alert (mkAlert "ScheduleInvalid" "Critical" msg
    ("use standard five-field cron (" +:+ example +:+ ") or a descriptor (@daily, @every 30m)")) cr in
  _ ← eventf cr EventTypeWarning EventReasonScheduleInvalid msg;
  _ ← count_failure cr "ScheduleInvalid";
  setTerminalPhase cr PhaseError FinishedReasonScheduleInvalid msg.

Definition parkSuspended (cr : ScaleValidation) : M (res Result) :=
  let next := bool_decide (st_NextRunTime (sv_Status cr) ≠ None) in
  let stale := negb (st_ObservedGeneration (sv_Status cr) =? sv_Generation cr) in
  if negb (next || stale) then mret (Ok done_result)
  else
    write_and_return
      (on_Status (λ s, set_NextRunTime None (set_ObservedGeneration (sv_Generation cr) s)) cr)
      "park suspended validation" done_result.

Definition restartForSpecChange (cr : ScaleValidation) : M (res Result) :=
  match parseSchedule cr with
  | Err e => failScheduleInvalid (on_Status (set_Diagnostics []) cr) e
  | Ok _ =>
      _ ← eventf cr EventTypeNormal EventReasonSpecChanged
            ("spec changed (generation " +:+ itoa (sv_Generation cr) +:+ " supersedes "
             +:+ itoa (st_ObservedGeneration (sv_Status cr)) +:+ "), starting a new run");
      startNextRun cr
  end.

Definition reconcileTerminal (cr : ScaleValidation) : M (res Result) :=
  if st_ObservedGeneration (sv_Status cr) =? 0 then
    write_and_return (on_Status (set_ObservedGeneration (sv_Generation cr)) cr)
      "adopt observed generation" done_result
  else if sp_Suspend (sv_Spec cr) then parkSuspended cr
  else if negb (sv_Generation cr =? st_ObservedGeneration (sv_Status cr)) then restartForSpecChange cr
  else
    match parseSchedule cr with
    | Err _ => mret (Ok done_result)
    | Ok None => mret (Ok done_result)
    | Ok (Some sched) =>
        let next := CronNext sched (lastRunAnchor cr) in
        now ← call Now;
        let remaining := time_sub next now in
        if 0 <? remaining then
          if decide (st_NextRunTime (sv_Status cr) = Some next) then mret (Ok (mkResult remaining))
          else write_and_return (on_Status (set_NextRunTime (Some next)) cr)
                 "publish next run time" (mkResult remaining)
        else startNextRun cr
    end.

(** ** Disruption (disruption.go) *)

Definition recordDisruption (cr : ScaleValidation) (status reason msg : string) : M (res Result) :=
  let cr := on_Status (λ s, set_Conditions (SetStatusCondition
    (mkCondition ConditionDisruptionInjected status (sv_Generation cr) reason msg) (st_Conditions s)) s) cr in
  write_and_return cr "record disruption decision" done_result.

Definition targetPods (cr : ScaleValidation) : M (res (list Pod)) :=
  let name := ref_Name (sv_TargetRef cr) in
  g ← call (GetDeployment (mkKey (sv_Namespace cr) name));
  match g with
  | Err e => mret (Err (wrapf ("get target deployment " +:+ name) e))
  | Ok deploy =>
      match LabelSelectorAsSelector (dep_Selector deploy) with
      | Err e => mret (Err (wrapf "target deployment selector" e))
      | Ok sel =>
          l ← call (ListPods (sv_Namespace cr) (BySelector sel));
          match l with
          | Err e => mret (Err (wrapf "list target pods" e))
          | Ok pods => mret (Ok pods)
          end
      end
  end.

(** The decision at or past the trigger point, on the pods listed. *)
Definition disrupt (cr : ScaleValidation) (d : DisruptionConfig) (loadStart : Time) (delay : Duration)
    (pods : list Pod) (pick : nat → Z) : M (res Result) :=
  let decision := Chaos.Plan
    (Chaos.mkConfig (dc_InjectPodDeletion d) (dc_MinReplicasForChaos d) delay) loadStart pods pick in
  match Chaos.Inject decision, Chaos.Victim decision with
  | true, Some victim =>
      del ← call (DeletePod victim);
      match delete_failed del with
      | Some e => mret (Err (wrapf ("delete disruption victim " +:+ pod_Name victim) e))
      | None =>
          let msg := "deleted pod " +:+ pod_Name victim +:+ " during load ("
                     +:+ itoa (Z.of_nat (Chaos.HealthyCount decision)) +:+ " healthy replicas)" in
          _ ← eventf cr EventTypeNormal EventReasonChaosInjected msg;
          recordDisruption cr ConditionTrue DisruptionReasonPodDeleted msg
      end
  | _, _ =>
      _ ← eventf cr EventTypeWarning EventReasonChaosSkipped (Chaos.SkipReason decision);
      recordDisruption cr ConditionFalse DisruptionReasonSkipped (Chaos.SkipReason decision)
  end.

Definition maybeInjectDisruption (cr : ScaleValidation) : M (res Result) :=
  match sp_Disruption (sv_Spec cr) with
  | None => mret (Ok done_result)
  | Some d =>
      if negb (dc_InjectPodDeletion d) || negb (bool_decide (sv_Phase cr = PhaseRunning)) then mret (Ok done_result)
      else
        match FindStatusCondition (sv_Conditions cr) ConditionDisruptionInjected with
        | Some _ => mret (Ok done_result)
        | None =>
            let loadStart := match st_LastRunTime (sv_Status cr) with
                             | Some t => t
                             | None => om_CreationTimestamp (sv_Meta cr)
                             end in
            let delay := default 0 (dc_TriggerDelay d) in
            now ← call Now;
            let wait := time_sub (time_add loadStart delay) now in
            if 0 <? wait then mret (Ok (mkResult wait))
            else
              p ← targetPods cr;
              match p with
              | Err e => mret (Err e)
              | Ok pods => pick ← call RandIntN; disrupt cr d loadStart delay pods pick
              end
        end
  end.

(** ** The reconcile loop *)

(** The deletion of the Job of an object being deleted, unless it is already under way. *)
Definition drain_job (cr : ScaleValidation) (job : Job) : M (res Result) :=
  match om_DeletionTimestamp (job_Meta job) with
  | Some _ => mret (Ok (mkResult childTerminationRequeue))
  | None =>
      d ← call (DeleteJob job);
      match delete_failed d with
      | Some e => mret (Err (wrapf "delete loadgen job" e))
      | None =>
          _ ← eventf cr EventTypeNormal EventReasonFinalizerDraining
                ("requested deletion of loadgen Job " +:+ om_Name (job_Meta job) +:+ " during CR finalize");
          mret (Ok (mkResult childTerminationRequeue))
      end
  end.

Definition finalize (cr : ScaleValidation) : M (res Result) :=
  if negb (ContainsFinalizer (om_Finalizers (sv_Meta cr)) scaleValidationFinalizer) then mret (Ok done_result)
  else
    g ← call (GetJob (mkKey (sv_Namespace cr) (loadgenJobName cr)));
    match g with
    | Err e =>
        if IsNotFound e then
          u ← call (UpdateCR (set_Meta (set_Finalizers
                 (RemoveFinalizer (om_Finalizers (sv_Meta cr)) scaleValidationFinalizer) (sv_Meta cr)) cr));
          match u with
          | Err e => mret (Err (wrapf "remove finalizer" e))
          | Ok _ => mret (Ok done_result)
          end
        else mret (Err (wrapf "get loadgen job during finalize" e))
    | Ok job =>
        w ← (if decide (sv_Phase cr = PhaseTerminating) then mret (Ok cr)
             else write_status (on_Status (set_Phase PhaseTerminating) cr) "set Terminating phase");
        match w with
        | Err e => mret (Err e)
        | Ok cr =>
            drain_job cr job
        end
    end.

(** No loadgen Job: the run has not started, or its Job is gone. *)
Definition reconcile_no_job (cr : ScaleValidation) : M (res Result) :=
  if decide (sv_Phase cr = PhaseRunning) then
    let msg := "loadgen Job " +:+ loadgenJobName cr +:+ " disappeared while phase=Running" in
    _ ← eventf cr EventTypeWarning EventReasonLoadgenJobVanished msg;
    setTerminalPhase cr PhaseError FinishedReasonLoadgenJobVanished msg
  else
    t ← targetPodsReady cr;
    match t with
    | Err e => if err_unresolvable e then failTargetUnresolvable cr e else mret (Err e)
    | Ok (ready, readyReplicas) =>
        if negb ready then
          let timeout := if rc_targetReadyTimeout r =? 0 then targetReadyWaitTimeout
                         else rc_targetReadyTimeout r in
          now ← call Now;
          if timeout <? time_sub now (om_CreationTimestamp (sv_Meta cr))
          then failTargetNotReady cr readyReplicas timeout
          else mret (Ok (mkResult targetReadyPollInterval))
        else spawnJob cr
    end.

Definition reconcile_job (cr : ScaleValidation) (job : Job) : M (res Result) :=
  if jobConditionTrue job JobFailed then
    let msg := "loadgen Job " +:+ om_Name (job_Meta job) +:+ " reached condition Failed=True" in
    _ ← eventf cr EventTypeWarning EventReasonLoadgenJobFailed msg;
    _ ← call (IncRunsTotal (sv_Namespace cr) (sv_Name cr) MetricVerdictUnknown);
    setTerminalPhase cr PhaseError FinishedReasonLoadgenJobFailed msg
  else if jobConditionTrue job JobComplete then finishRun cr
  else maybeInjectDisruption cr.

(** The lifecycle of an object that is not being deleted and carries the finalizer. *)
Definition reconcile_live (cr : ScaleValidation) : M (res Result) :=
  if decide (sv_Phase cr = PhaseSucceeded ∨ sv_Phase cr = PhaseFailed ∨ sv_Phase cr = PhaseError)
  then reconcileTerminal cr
  else if decide (sv_Phase cr = "") then
    match parseSchedule cr with
    | Err e => failScheduleInvalid cr e
    | Ok _ => setPhase cr PhasePending
    end
  else
    g ← call (GetJob (mkKey (sv_Namespace cr) (loadgenJobName cr)));
    match g with
    | Err e => if IsNotFound e then reconcile_no_job cr else mret (Err (wrapf "get loadgen job" e))
    | Ok job => reconcile_job cr job
    end.

Definition Reconcile (key : NamespacedName) : M (res Result) :=
  g ← call (GetCR key);
  match g with
  | Err e => if IsNotFound e then mret (Ok done_result) else mret (Err e)
  | Ok cr =>
      match om_DeletionTimestamp (sv_Meta cr) with
      | Some _ => finalize cr
      | None =>
          if ContainsFinalizer (om_Finalizers (sv_Meta cr)) scaleValidationFinalizer then reconcile_live cr
          else
            u ← call (UpdateCR (set_Meta (set_Finalizers
                   (AddFinalizer (om_Finalizers (sv_Meta cr)) scaleValidationFinalizer) (sv_Meta cr)) cr));
            match u with
            | Err e => mret (Err (wrapf "add finalizer" e))
            | Ok cr => reconcile_live cr
            end
      end
  end.
End controller.
