(* ===== verification/Refinement.v ===== *)
(** * Every reconcile pass stays inside the contract

    [guard] says in which circumstances a pass may issue each call that changes the cluster,
    in terms of what the API server has answered so far in the pass.  [Reconcile_safe] shows
    that the reconciler of Controller.v issues no others; the theorems read the lifecycle,
    Job, disruption and finalizer guarantees off it. *)

From S2P Require Import Chaos.
From S2P Require Import Prelude GoText Api K8s Effects Cluster Target.
From S2P Require Import LoadPhase LoadProfile LoadgenJob Report Status Lifecycle Controller.

Open Scope Z_scope.

Section guard.
Context `{K8sLib}.

(** What the API server promises of the answer to an update: the modelled fields of the object
    are stored as sent (an update based on an older version is refused with an error). *)
Definition stored (e : event answer) : Prop :=
  match e with
  | Ev (UpdateCR new) (Ok cr) => cr = new
  | Ev (UpdateStatus new) (Ok cr) => cr = new
  | _ => True
  end.

(** Calls that neither change the cluster nor answer with a ScaleValidation. *)
Definition quiet (c : api) : Prop :=
  match c with
  | GetCR _ | UpdateCR _ | UpdateStatus _ | CreateCR _ | CreateJob _ | DeleteJob _ | DeletePod _ => False
  | _ => True
  end.

(** Pods listed in the namespace of [cr] by the selector that the scale subresource of its target
    reports. *)
Definition target_listed (cr : ScaleValidation) (pods : list Pod) (h : history answer) : Prop :=
  ∃ gvk scale selector sel, targetGVK cr = Ok gvk ∧
    Ev (GetScale (sv_Namespace cr) gvk (ref_Name (sv_TargetRef cr))) (Ok scale) ∈ h ∧
    NestedString scale ["status"; "selector"] = Ok (Some selector) ∧ selector ≠ "" ∧
    ParseSelector selector = Ok sel ∧ Ev (ListPods (sv_Namespace cr) (BySelector sel)) (Ok pods) ∈ h.

Definition seen_ready (cr : ScaleValidation) (h : history answer) : Prop :=
  ∃ pods, target_listed cr pods h ∧ Exists (λ p, podReady p = true) pods.

(** Pods listed in the namespace of [cr] by the selector of the Deployment of its target's name. *)
Definition deployment_listed (cr : ScaleValidation) (pods : list Pod) (h : history answer) : Prop :=
  ∃ deploy sel, Ev (GetDeployment (mkKey (sv_Namespace cr) (ref_Name (sv_TargetRef cr)))) (Ok deploy) ∈ h ∧
    LabelSelectorAsSelector (dep_Selector deploy) = Ok sel ∧
    Ev (ListPods (sv_Namespace cr) (BySelector sel)) (Ok pods) ∈ h.

Definition seen_no_job (cr : ScaleValidation) (h : history answer) : Prop :=
  ∃ e, Ev (GetJob (mkKey (sv_Namespace cr) (loadgenJobName cr))) (Err e) ∈ h ∧ IsNotFound e = true.

Definition seen_job (cr : ScaleValidation) (job : Job) (h : history answer) : Prop :=
  Ev (GetJob (mkKey (sv_Namespace cr) (loadgenJobName cr))) (Ok job) ∈ h.

(** A Job may be created only for a live run that has not started, whose Job does not exist and
    one of whose target pods is ready. *)
Definition may_create (cr : ScaleValidation) (job : Job) (h : history answer) : Prop :=
  live cr ∧ active (sv_Phase cr) ∧ sv_Phase cr ≠ PhaseRunning ∧ seen_no_job cr h ∧ seen_ready cr h ∧
  om_Name (job_Meta job) = loadgenJobName cr ∧ om_Namespace (job_Meta job) = sv_Namespace cr ∧
  js_BackoffLimit (job_Spec job) = 0 ∧ sv_Name cr ∈ om_OwnerReferences (job_Meta job).

(** A pod may be deleted only for a running validation that asks for it, at or after its trigger
    point, once per pass and only if no decision is recorded yet; it is a healthy pod among those
    of the Deployment that bears the target's name, and enough healthy ones remain. *)
Definition may_disrupt (cr : ScaleValidation) (pod : Pod) (h : history answer) : Prop :=
  live cr ∧ sv_Phase cr = PhaseRunning ∧ disruption cr = None ∧ issued is_DeletePod h = 0%nat ∧
  ∃ d pods others now, sp_Disruption (sv_Spec cr) = Some d ∧ dc_InjectPodDeletion d = true ∧
    Ev Now now ∈ h ∧ deployment_listed cr pods h ∧
    lastRunAnchor cr + default 0 (dc_TriggerDelay d) <= now ∧
    Chaos.HealthyPods pods ≡ₚ pod :: others ∧
    dc_MinReplicasForChaos d - 1 <= Z.of_nat (length others).

(** The Job may be deleted while the object is, or to make room for the next run. *)
Definition may_delete_job (cr : ScaleValidation) (job : Job) (h : history answer) : Prop :=
  seen_job cr job h ∧
  (~ live cr ∨ (live cr ∧ terminal (sv_Phase cr) ∧ sp_Suspend (sv_Spec cr) = false)).

(** The object itself is only updated to take the finalizer before anything else, or to drop it
    once the Job is gone; nothing else of it changes. *)
Definition may_update (cr new : ScaleValidation) (h : history answer) : Prop :=
  sv_Spec new = sv_Spec cr ∧ sv_Status new = sv_Status cr ∧
  sv_Meta new = set_Finalizers (om_Finalizers (sv_Meta new)) (sv_Meta cr) ∧
  ((live cr ∧ ContainsFinalizer (om_Finalizers (sv_Meta new)) scaleValidationFinalizer = true) ∨
   (~ live cr ∧ seen_no_job cr h ∧
    ContainsFinalizer (om_Finalizers (sv_Meta new)) scaleValidationFinalizer = false)).

Definition guard (h : history answer) (c : api) : Prop :=
  match c with
  | UpdateStatus new => ∃ cr, current_cr h = Some cr ∧ status_write cr new
  | UpdateCR new => ∃ cr, current_cr h = Some cr ∧ may_update cr new h
  | CreateJob job => ∃ cr, current_cr h = Some cr ∧ may_create cr job h
  | DeleteJob job => ∃ cr, current_cr h = Some cr ∧ may_delete_job cr job h
  | DeletePod pod => ∃ cr, current_cr h = Some cr ∧ may_disrupt cr pod h
  | CreateCR _ => False
  | _ => True
  end.
End guard.

(** ** Reasoning about passes *)

Section safety.
Context `{K8sLaws, !PhasesJson, !ReportJson, !Platform}.
Context (r : Reconciler).

Definition safe {A} (p : M A) (h : history answer) : Prop := wp guard stored p h (λ _ _, True).

Lemma current_quiet l (h : history answer) :
  Forall (λ e, quiet (ev_call e)) l → current_cr (l ++ h) = current_cr h.
Proof. induction 1 as [|[c a] l Hc _ IH]; [done|]. by destruct c. Qed.

Lemma issued_quiet l (h : history answer) :
  Forall (λ e, quiet (ev_call e)) l → issued is_DeletePod (l ++ h) = issued is_DeletePod h.
Proof.
  unfold issued, history. rewrite (filter_app _ l h), length_app. intros Hl.
  replace (filter _ l) with (@nil (event (@answer _))); [done|].
  induction Hl as [|[c a] l Hc _ IH]; [done|]. rewrite filter_cons_False; [done|]. by destruct c.
Qed.

Lemma guard_quiet (h : history answer) c : quiet c → guard h c.
Proof. by destruct c. Qed.

Lemma safe_quiet {A B} (p : M A) (f : A → M B) h :
  only_calls quiet p →
  (∀ l a, runs p h (l ++ h) a → Forall (λ e, quiet (ev_call e)) l → safe (f a) (l ++ h)) →
  safe (p ≫= f) h.
Proof.
  intros Hp Hf. apply wp_bind. apply (wp_only_calls _ _ quiet); [exact guard_quiet|done|done].
Qed.

(** The common use: what the program found out does not matter for what follows. *)
Lemma safe_quiet_cr {A B} (p : M A) (f : A → M B) h cr :
  only_calls quiet p → current_cr h = Some cr →
  (∀ h' a, current_cr h' = Some cr → safe (f a) h') →
  safe (p ≫= f) h.
Proof.
  intros Hp Hcr Hf. apply safe_quiet; [done|]. intros l a _ Hl. apply Hf. by rewrite current_quiet.
Qed.

Lemma safe_ret {A} (a : A) h : safe (mret a) h.
Proof. done. Qed.

Lemma safe_write cr new doing h : current_cr h = Some cr → status_write cr new →
  safe (write_status new doing) h.
Proof. intros Hcr Hw. split; [by exists cr|]. intros [?|?] _; done. Qed.

Lemma safe_write_return cr new doing result h : current_cr h = Some cr → status_write cr new →
  safe (write_and_return new doing result) h.
Proof. intros Hcr Hw. split; [by exists cr|]. intros [?|?] _; done. Qed.
End safety.

Ltac solve_quiet :=
  repeat first
    [ done
    | apply only_calls_bind
    | split
    | progress intros
    | case_match ].

Section quiet_programs.
Context `{K8sLib, !PhasesJson, !ReportJson, !Platform}.
Context (r : Reconciler).

Lemma eventf_quiet cr ty reason msg : only_calls quiet (eventf r cr ty reason msg).
Proof. unfold eventf. solve_quiet. Qed.

Lemma count_failure_quiet cr alert : only_calls quiet (count_failure cr alert).
Proof. unfold count_failure. solve_quiet. Qed.

Lemma targetPodsReady_quiet cr : only_calls quiet (targetPodsReady cr).
Proof. unfold targetPodsReady, targetSelector. solve_quiet. Qed.

Lemma resolveTargetURL_quiet cr : only_calls quiet (resolveTargetURL cr).
Proof. unfold resolveTargetURL, discoverProbe, targetObject. solve_quiet. Qed.

Lemma buildLoadgenJob_quiet cr url : only_calls quiet (buildLoadgenJob r cr url).
Proof. unfold buildLoadgenJob, observerArgs. solve_quiet. Qed.

Lemma findJobPod_quiet cr : only_calls quiet (findJobPod cr).
Proof. unfold findJobPod. solve_quiet. Qed.

Lemma observerLog_quiet pod : only_calls quiet (observerLog pod).
Proof. unfold observerLog. solve_quiet. Qed.

Lemma count_alerts_quiet cr ds : only_calls quiet (count_alerts cr ds).
Proof. induction ds; simpl; [done|]. split; [done|]. by intros. Qed.

Lemma recordRunMetrics_quiet cr report : only_calls quiet (recordRunMetrics cr report).
Proof.
  unfold recordRunMetrics. split; [done|]. intros ?. apply only_calls_bind; [solve_quiet|]. intros ?.
  apply only_calls_bind; [solve_quiet|]. intros ?. apply count_alerts_quiet.
Qed.

Lemma emitVerdictEvent_quiet cr report : only_calls quiet (emitVerdictEvent r cr report).
Proof. unfold emitVerdictEvent. case_match; apply eventf_quiet. Qed.

Lemma targetPods_quiet cr : only_calls quiet (targetPods cr).
Proof. unfold targetPods. solve_quiet. Qed.
End quiet_programs.

Create HintDb quiet.
#[export] Hint Resolve eventf_quiet count_failure_quiet targetPodsReady_quiet resolveTargetURL_quiet
  buildLoadgenJob_quiet findJobPod_quiet observerLog_quiet recordRunMetrics_quiet
  emitVerdictEvent_quiet targetPods_quiet : quiet.

(** ** Ending a run *)

Section ending.
Context `{K8sLaws, !PhasesJson, !ReportJson, !Platform}.
Context (r : Reconciler).

Definition can_fail (old : ScaleValidation) : Prop :=
  live old ∧
  (active (sv_Phase old) ∨ sv_Phase old = "" ∨
   (terminal (sv_Phase old) ∧ sp_Suspend (sv_Spec old) = false ∧
    sv_Generation old ≠ st_ObservedGeneration (sv_Status old))).

(** A local copy that differs from the object read in phase, results and diagnostics only. *)
Definition staged (old cr : ScaleValidation) : Prop :=
  keeps_identity old cr ∧ same_history old cr ∧ sv_Conditions cr = sv_Conditions old.

Lemma staged_refl cr : staged cr cr.
Proof. done. Qed.

Lemma staged_alert old a cr : staged old cr → staged old (add_alert a cr).
Proof. done. Qed.

Lemma finished_mark reason msg cr :
  finished (markFinished reason msg cr)
  = Some (mkCondition ConditionFinished ConditionTrue (sv_Generation cr) reason msg).
Proof. apply (find_set_eq (mkCondition ConditionFinished _ _ _ _)). Qed.

Lemma disruption_mark reason msg cr : disruption (markFinished reason msg cr) = disruption cr.
Proof. by apply (find_set_ne (mkCondition ConditionFinished _ _ _ _)). Qed.

Lemma ended_mark reason msg cr : ended (markFinished reason msg cr).
Proof. split; [done|]. rewrite finished_mark. eauto. Qed.

Lemma error_write old cr reason msg : can_fail old → staged old cr →
  status_write old (on_Status (set_Phase PhaseError) (markFinished reason msg cr)).
Proof.
  intros [Hl Hc] (Hid & Hh & Hcs). split; [done|].
  apply t_error; try done.
  - apply (ended_mark reason msg cr).
  - transitivity (disruption (markFinished reason msg cr)); [done|].
    rewrite disruption_mark. unfold disruption. by rewrite Hcs.
Qed.

Lemma safe_error h old cr reason msg :
  current_cr h = Some old → can_fail old → staged old cr →
  safe (setTerminalPhase cr PhaseError reason msg) h.
Proof. intros Hcr Hc Hs. eapply safe_write_return; [exact Hcr|by apply error_write]. Qed.

Lemma safe_eventf {B} (f : unit → M B) h old cr ty reason msg :
  current_cr h = Some old → (∀ h' a, current_cr h' = Some old → safe (f a) h') →
  safe (eventf r cr ty reason msg ≫= f) h.
Proof. intros ? ?. by eapply safe_quiet_cr; [auto with quiet|..]. Qed.

Lemma safe_count {B} (f : unit → M B) h old cr alert :
  current_cr h = Some old → (∀ h' a, current_cr h' = Some old → safe (f a) h') →
  safe (count_failure cr alert ≫= f) h.
Proof. intros ? ?. by eapply safe_quiet_cr; [auto with quiet|..]. Qed.

Lemma safe_failTargetUnresolvable h cr e : current_cr h = Some cr → can_fail cr →
  safe (failTargetUnresolvable r cr e) h.
Proof.
  intros Hcr Hc. eapply safe_eventf; [done|]. intros h1 ? Hh1. eapply safe_count; [done|]. intros h2 ? Hh2.
  by eapply safe_error.
Qed.

Lemma safe_failTargetNotReady h cr n t : current_cr h = Some cr → can_fail cr →
  safe (failTargetNotReady r cr n t) h.
Proof.
  intros Hcr Hc. eapply safe_eventf; [done|]. intros h1 ? Hh1. eapply safe_count; [done|]. intros h2 ? Hh2.
  by eapply safe_error.
Qed.

Lemma safe_failScheduleInvalid h old cr e : current_cr h = Some old → can_fail old → staged old cr →
  safe (failScheduleInvalid r cr e) h.
Proof.
  intros Hcr Hc Hs. eapply safe_eventf; [done|]. intros h1 ? Hh1. eapply safe_count; [done|]. intros h2 ? Hh2.
  by eapply safe_error.
Qed.

Lemma safe_report_unreadable h cr ev msg : current_cr h = Some cr → can_fail cr →
  safe (report_unreadable r cr ev msg) h.
Proof. intros Hcr Hc. eapply safe_eventf; [done|]. intros h1 ? Hh1. by eapply safe_error. Qed.

Lemma ended_append now cr : ended cr → ended (appendRunHistory now cr).
Proof. done. Qed.

Lemma disruption_append now cr : disruption (appendRunHistory now cr) = disruption cr.
Proof. done. Qed.

(** A measured run. *)
Lemma verdict_write now report cr : live cr → active (sv_Phase cr) →
  status_write cr (finished_cr now report cr).
Proof.
  intros Hl Hact. unfold finished_cr. destruct (finishedVerdict _ _ _ _) as [[phase reason] msg] eqn:Hv.
  set (cr1 := on_Status (set_Phase phase) (applyReport report cr)).
  split; [done|]. apply t_verdict with now; try done.
  - change (phase = if decide (rp_SLAStatus report = VerdictFail ∨ rp_TrafficIntegrity report = VerdictFail)
                    then PhaseFailed else PhaseSucceeded).
    unfold finishedVerdict in Hv. case_decide; by simplify_eq.
  - apply ended_append, ended_mark.
  - by rewrite disruption_append, disruption_mark.
  - rewrite append_history. done.
Qed.

Lemma safe_finishRun h cr : current_cr h = Some cr → live cr → active (sv_Phase cr) →
  safe (finishRun r cr) h.
Proof.
  intros Hcr Hl Hact. assert (Hf : can_fail cr) by (split; auto).
  unfold finishRun. eapply safe_quiet_cr; [auto with quiet|done|]. intros h1 [[pod|]|e] Hh1;
    [|by apply safe_report_unreadable|done].
  case_match; [done|]. eapply safe_quiet_cr; [auto with quiet|done|]. intros h2 [raw|e] Hh2;
    [|by apply safe_report_unreadable].
  destruct (ParseReportLog raw) as [report|e]; [|by apply safe_report_unreadable].
  split; [done|]. intros now _. apply wp_bind. split; [exists cr; split; [done|by apply verdict_write]|].
  intros [cr'|e] _; [|done].
  apply (safe_quiet (recordRunMetrics cr' report)); [auto with quiet|]. intros l ? _ _.
  apply (safe_quiet (emitVerdictEvent r cr' report)); [auto with quiet|]. by intros.
Qed.
End ending.

(** ** Starting a run *)

Section starting.
Context `{K8sLaws, !PhasesJson, !ReportJson, !Platform}.
Context (r : Reconciler).

Lemma seen_no_job_app cr l h : seen_no_job cr h → seen_no_job cr (l ++ h).
Proof. intros (e & ? & ?). exists e. split; [|done]. apply elem_of_app. by right. Qed.

Lemma target_listed_sub cr pods (h h' : history answer) : h ⊆ h' → target_listed cr pods h → target_listed cr pods h'.
Proof. intros Hs (gvk & scale & selector & sel & ? & ? & ? & ? & ? & ?). exists gvk, scale, selector, sel. split_and!; auto. Qed.

Lemma seen_ready_app cr l h : seen_ready cr h → seen_ready cr (l ++ h).
Proof.
  intros (pods & Hp & ?). exists pods. split; [|done]. eapply target_listed_sub; [|exact Hp].
  intros e He. apply elem_of_app. by right.
Qed.

(** The selector is the one of the scale subresource read in this pass. *)
Lemma targetSelector_seen cr h :
  returns (targetSelector cr) h (λ h' t, ∀ selector, t = Ok selector → ∃ gvk scale, targetGVK cr = Ok gvk ∧
    Ev (GetScale (sv_Namespace cr) gvk (ref_Name (sv_TargetRef cr))) (Ok scale) ∈ h' ∧
    NestedString scale ["status"; "selector"] = Ok (Some selector) ∧ selector ≠ "").
Proof.
  unfold targetSelector. destruct (targetGVK cr) as [gvk|e]; [|done].
  apply wp_call; [done|]. intros [scale|e] _; [|done].
  destruct (NestedString scale ["status"; "selector"]) as [v|e] eqn:Hv; [|done].
  case_decide as Hd; [done|]. intros selector [= <-].
  exists gvk, scale. destruct v as [v|]; [|done]. split_and!; try done. by left.
Qed.

(** A positive answer of the readiness gate comes from a listed ready pod. *)
Lemma targetPodsReady_seen cr h :
  returns (targetPodsReady cr) h (λ h' t, ∀ n, t = Ok (true, n) → seen_ready cr h').
Proof.
  unfold targetPodsReady. apply wp_bind. eapply wp_mono; [apply targetSelector_seen|]. intros h1 [selector|e] Hs; [|by case_match].
  destruct (Hs _ eq_refl) as (gvk & scale & ? & ? & ? & ?).
  destruct (ParseSelector selector) as [sel|e] eqn:Hp; [|done].
  split; [done|]. intros [pods|e] _; [|done]. intros n [= Hn _].
  exists pods. split; [|by apply count_ready_one, Z.leb_le].
  exists gvk, scale, selector, sel. split_and!; try done; [by right|by left].
Qed.

Lemma build_job_result cr url h :
  returns (buildLoadgenJob r cr url) h (λ _ j, ∀ job, j = Ok job →
    om_Name (job_Meta job) = loadgenJobName cr ∧ om_Namespace (job_Meta job) = sv_Namespace cr ∧
    js_BackoffLimit (job_Spec job) = 0).
Proof.
  unfold buildLoadgenJob. apply returns_skip. intros h1 [obs|e]; [|done].
  destruct (caBundleRef cr) as [ca|]; destruct (loadgenArgs _ _ _) as [args|e]; try done;
    intros job [= <-]; done.
Qed.

Definition startable (cr : ScaleValidation) (h : history answer) : Prop :=
  current_cr h = Some cr ∧ live cr ∧ active (sv_Phase cr) ∧ sv_Phase cr ≠ PhaseRunning ∧
  seen_no_job cr h ∧ seen_ready cr h.

Lemma startable_quiet cr l h : Forall (λ e, quiet (ev_call e)) l → startable cr h → startable cr (l ++ h).
Proof.
  intros Hl (Hcr & ? & ? & ? & ? & ?). split_and!; try done.
  - by rewrite current_quiet.
  - by apply seen_no_job_app.
  - by apply seen_ready_app.
Qed.

Lemma startable_can_fail cr h : startable cr h → can_fail cr.
Proof. intros (_ & ? & ? & _). split; auto. Qed.

Lemma safe_create_job cr job url h :
  startable cr h → om_Name (job_Meta job) = loadgenJobName cr →
  om_Namespace (job_Meta job) = sv_Namespace cr → js_BackoffLimit (job_Spec job) = 0 →
  safe (create_job r cr job url) h.
Proof.
  intros (Hcr & Hl & Hact & Hnr & Hno & Hready) Hn Hns Hbl. unfold create_job.
  destruct (SetControllerReference _ _) as [meta|e] eqn:Hm; [|done].
  destruct (controller_ref _ _ _ Hm) as (Hmn & Hmns & _ & Hown).
  split.
  { exists cr. split; [done|]. split_and!; try done; simpl; congruence. }
  intros [[]|e] _; [|done].
  eapply safe_eventf; [exact Hcr|]. intros h1 ? Hh1. split; [done|]. intros now _.
  eapply safe_write_return; [exact Hh1|]. split; [done|]. by eapply t_spawn.
Qed.

Lemma validateTLSCABundle_spec cr h : current_cr h = Some cr → can_fail cr →
  wp guard stored (validateTLSCABundle r cr) h
    (λ h' t, t = Ok false → ∃ l, h' = l ++ h ∧ Forall (λ e, quiet (ev_call e)) l).
Proof.
  intros Hcr Hc. unfold validateTLSCABundle.
  destruct (caBundleRef cr) as [ref|]; [|intros _; by exists []].
  assert (Hfail : ∀ h' msg rec, current_cr h' = Some cr →
    wp guard stored (f ← failTLSCABundle r cr msg rec; match f with Err e => mret (Err e) | Ok _ => mret (Ok true) end)
      h' (λ h' t, t = Ok false → ∃ l, h' = l ++ h ∧ Forall (λ e, quiet (ev_call e)) l)).
  { intros h' msg rec Hh'. apply wp_bind. eapply wp_mono with (Q := λ _ _, True); [|by intros ? [?|?] _].
    eapply safe_eventf; [done|]. intros h1 ? Hh1. eapply safe_count; [done|]. intros h2 ? Hh2.
    by eapply safe_error. }
  apply wp_call; [done|]. intros [data|e] _.
  - destruct (data !! cm_Key ref); [|by apply Hfail]. intros _. eexists [_]. split; [done|]. by repeat constructor.
  - case_match; [by apply Hfail|done].
Qed.

Lemma safe_spawnJob cr h : startable cr h → safe (spawnJob r cr) h.
Proof.
  intros Hs. pose proof (startable_can_fail _ _ Hs) as Hf. pose proof Hs as (Hcr & _). unfold spawnJob.
  apply safe_quiet; [auto with quiet|]. intros l u _ Hl. apply (startable_quiet _ l) in Hs; [|done].
  revert Hs. generalize (l ++ h). clear h l Hcr Hl. intros h Hs. pose proof Hs as (Hcr & _).
  destruct u as [url|e].
  2:{ case_match; [by apply safe_failTargetUnresolvable|by eapply safe_error]. }
  apply wp_bind. eapply wp_mono; [by apply validateTLSCABundle_spec|].
  intros h' [[]|e] Hv; [done| |done]. destruct (Hv eq_refl) as (l & -> & Hl). clear Hv.
  apply (startable_quiet _ l) in Hs; [|done].
  apply safe_quiet; [auto with quiet|]. intros l' j Hrun Hl'.
  apply (startable_quiet _ l') in Hs; [|done].
  pose proof (returns_runs _ _ _ _ _ Hrun (build_job_result cr url _)) as Hj.
  destruct j as [job|e].
  - destruct (Hj job eq_refl) as (? & ? & ?). by apply safe_create_job.
  - destruct Hs as (Hcr' & _). case_match; [by apply safe_failTargetUnresolvable|by eapply safe_error].
Qed.
End starting.

(** ** Terminal phases, disruption, deletion *)

Section passes.
Context `{K8sLaws, !PhasesJson, !ReportJson, !Platform}.
Context (r : Reconciler).

Lemma rerun_write cr : live cr → terminal (sv_Phase cr) → sp_Suspend (sv_Spec cr) = false →
  status_write cr (on_Status (set_Phase PhasePending) (resetForNextRun cr)).
Proof.
  intros Hl Ht Hs. split; [done|]. apply t_rerun; try done.
  - unfold disruption, resetForNextRun, on_Status, sv_Conditions. simpl.
    rewrite find_set_ne by done. apply find_remove_eq.
  - eexists. split; [apply (find_set_eq (mkCondition ConditionFinished _ _ _ _))|done].
Qed.

Lemma safe_startNextRun cr h : current_cr h = Some cr → live cr → terminal (sv_Phase cr) →
  sp_Suspend (sv_Spec cr) = false → safe (startNextRun r cr) h.
Proof.
  intros Hcr Hl Ht Hs. unfold startNextRun. apply wp_call; [done|]. intros [job|e] _.
  - destruct (om_DeletionTimestamp (job_Meta job)); [done|].
    apply wp_call; [|intros d _; by destruct (delete_failed d)].
    exists cr. split; [done|]. split; [by left|]. by right.
  - case_match; [done|]. eapply safe_eventf; [exact Hcr|]. intros h1 ? Hh1.
    eapply safe_write_return; [exact Hh1|by apply rerun_write].
Qed.

Lemma park_write cr next gen : live cr → terminal (sv_Phase cr) →
  gen = st_ObservedGeneration (sv_Status cr) ∨ gen = sv_Generation cr →
  status_write cr (on_Status (λ s, set_NextRunTime next (set_ObservedGeneration gen s)) cr).
Proof. intros. split; [done|]. by eapply t_park. Qed.

Lemma park_next cr next :
  on_Status (set_NextRunTime next) cr
  = on_Status (λ s, set_NextRunTime next (set_ObservedGeneration (st_ObservedGeneration (sv_Status cr)) s)) cr.
Proof. by destruct cr as [? ? []]. Qed.

Lemma park_generation cr gen :
  on_Status (set_ObservedGeneration gen) cr
  = on_Status (λ s, set_NextRunTime (st_NextRunTime (sv_Status cr)) (set_ObservedGeneration gen s)) cr.
Proof. by destruct cr as [? ? []]. Qed.

Lemma safe_reconcileTerminal cr h : current_cr h = Some cr → live cr → terminal (sv_Phase cr) →
  safe (reconcileTerminal r cr) h.
Proof.
  intros Hcr Hl Ht. unfold reconcileTerminal. destruct (Z.eqb_spec (st_ObservedGeneration (sv_Status cr)) 0) as [Hz|Hz].
  { eapply safe_write_return; [exact Hcr|]. rewrite park_generation. by apply park_write; auto. }
  destruct (sp_Suspend (sv_Spec cr)) eqn:Hs.
  { unfold parkSuspended. case_match; [done|]. eapply safe_write_return; [exact Hcr|]. apply park_write; auto. }
  destruct (Z.eqb_spec (sv_Generation cr) (st_ObservedGeneration (sv_Status cr))) as [Hg|Hg]; cbn [negb].
  - destruct (parseSchedule cr) as [[sched|]|e]; try done. apply wp_call; [done|]. intros now _.
    case_match; [|by apply safe_startNextRun]. case_decide; [done|].
    eapply safe_write_return; [exact Hcr|]. rewrite park_next. by apply park_write; auto.
  - unfold restartForSpecChange. destruct (parseSchedule cr) as [s|e].
    + eapply safe_eventf; [exact Hcr|]. intros h1 ? Hh1. by apply safe_startNextRun.
    + eapply safe_failScheduleInvalid; [exact Hcr| |done]. split; [done|]. auto.
Qed.

Lemma disrupt_write cr status reason msg : live cr → sv_Phase cr = PhaseRunning → disruption cr = None →
  status_write cr (on_Status (λ s, set_Conditions (SetStatusCondition
    (mkCondition ConditionDisruptionInjected status (sv_Generation cr) reason msg) (st_Conditions s)) s) cr).
Proof.
  intros. split; [done|].
  by apply (t_disrupt _ _ (mkCondition ConditionDisruptionInjected status (sv_Generation cr) reason msg)).
Qed.

Lemma deployment_listed_sub cr pods (h h' : history answer) :
  h ⊆ h' → deployment_listed cr pods h → deployment_listed cr pods h'.
Proof. intros Hs (deploy & sel & ? & ? & ?). exists deploy, sel. split_and!; auto. Qed.

Lemma safe_disrupt cr d pods pick now h :
  current_cr h = Some cr → live cr → sv_Phase cr = PhaseRunning → disruption cr = None →
  issued is_DeletePod h = 0%nat → sp_Disruption (sv_Spec cr) = Some d → dc_InjectPodDeletion d = true →
  Ev Now now ∈ h → deployment_listed cr pods h →
  lastRunAnchor cr + default 0 (dc_TriggerDelay d) <= now →
  safe (disrupt r cr d (lastRunAnchor cr) (default 0 (dc_TriggerDelay d)) pods pick) h.
Proof.
  intros Hcr Hl Hr Hd Hn Hsd Hi Hnow Hpods Hdue. unfold disrupt.
  pose proof (Chaos.plan_spec (Chaos.mkConfig (dc_InjectPodDeletion d) (dc_MinReplicasForChaos d)
    (default 0 (dc_TriggerDelay d))) (lastRunAnchor cr) pods pick) as [Hplan _].
  set (dec := Chaos.Plan _ _ _ _) in *.
  assert (Hskip : ∀ h' msg status reason, current_cr h' = Some cr →
    safe (recordDisruption cr status reason msg) h').
  { intros. eapply safe_write_return; [done|by apply disrupt_write]. }
  destruct (Chaos.Inject dec) eqn:Hinj; [|eapply safe_eventf; [exact Hcr|]; auto].
  destruct (Hplan eq_refl) as (_ & v & others & -> & _ & _ & Hperm & Hmin & _).
  apply wp_call.
  - exists cr. split; [done|]. split_and!; try done. exists d, pods, others, now. by split_and!.
  - intros del _. destruct (delete_failed del); [done|]. eapply safe_eventf; [exact Hcr|]. auto.
Qed.

(** The pods considered are those listed in this pass. *)
Lemma targetPods_listed cr h :
  returns (targetPods cr) h (λ h' p, ∀ pods, p = Ok pods → deployment_listed cr pods h').
Proof.
  unfold targetPods. apply wp_call; [done|]. intros [deploy|e] _; [|done].
  destruct (LabelSelectorAsSelector (dep_Selector deploy)) as [sel|e] eqn:Hsel; [|done]. apply wp_call; [done|].
  intros [pods|e] _; [|done]. intros pods' [= <-]. exists deploy, sel. split_and!; [right; by left|done|by left].
Qed.

Lemma safe_maybeInjectDisruption cr h : current_cr h = Some cr → live cr → issued is_DeletePod h = 0%nat →
  safe (maybeInjectDisruption r cr) h.
Proof.
  intros Hcr Hl Hn. unfold maybeInjectDisruption. destruct (sp_Disruption (sv_Spec cr)) as [d|] eqn:Hd; [|done].
  destruct (dc_InjectPodDeletion d) eqn:Hi; [|done].
  case_bool_decide as Hr; [|done]. cbn [negb orb].
  destruct (FindStatusCondition _ _) eqn:Hf; [done|].
  fold (lastRunAnchor cr). apply wp_call; [done|]. intros now _.
  destruct (Z.ltb_spec 0 (time_sub (time_add (lastRunAnchor cr) (default 0 (dc_TriggerDelay d))) now)) as [|Hw]; [done|].
  apply safe_quiet; [auto with quiet|]. intros l [pods|e] Hrun Hq; [|done].
  pose proof (returns_runs _ _ _ _ _ Hrun (targetPods_listed cr _) pods eq_refl) as Hin.
  apply wp_call; [done|]. intros pick _.
  set (h' := l ++ Ev Now now :: h) in *.
  assert (Hnow : Ev Now now ∈ h') by (apply elem_of_app; right; by left).
  eapply safe_disrupt with (now := now); try done.
  - simpl. unfold h'. by rewrite current_quiet.
  - change (issued is_DeletePod (Ev RandIntN pick :: h')) with (issued is_DeletePod h').
    unfold h'. by rewrite issued_quiet.
  - by right.
  - eapply deployment_listed_sub; [|exact Hin]. intros e He. by right.
  - unfold time_sub, time_add, minDuration, maxDuration in Hw. lia.
Qed.

Lemma safe_drain_job cr job h : current_cr h = Some cr → ~ live cr → seen_job cr job h →
  safe (drain_job r cr job) h.
Proof.
  intros Hcr Hl Hin. unfold drain_job. destruct (om_DeletionTimestamp (job_Meta job)); [done|].
  apply wp_call.
  - exists cr. split; [done|]. split; [done|]. by left.
  - intros d _. destruct (delete_failed d); [done|]. by eapply safe_eventf.
Qed.

Lemma safe_finalize cr h : current_cr h = Some cr → ~ live cr → safe (finalize r cr) h.
Proof.
  intros Hcr Hl. unfold finalize. case_match; [done|]. apply wp_call; [done|]. intros [job|e] _.
  - case_decide; [apply safe_drain_job; [done..|by left]|]. apply wp_bind, wp_call.
    + exists cr. split; [done|]. split; [done|]. by apply t_drain.
    + intros [cr'|e] Hst; [|done]. simpl in Hst. subst cr'. apply safe_drain_job; [done..|]. right. by left.
  - case_match; [|done]. apply wp_call; [|by intros [?|?] _].
    exists cr. split; [done|]. split_and!; [done..|]. right. split_and!; [done| |apply contains_remove].
    exists e. split; [by left|done].
Qed.

Lemma safe_reconcile_live cr h : current_cr h = Some cr → live cr → issued is_DeletePod h = 0%nat →
  safe (reconcile_live r cr) h.
Proof.
  intros Hcr Hl Hn. unfold reconcile_live. case_decide as Ht; [by apply safe_reconcileTerminal|].
  case_decide as He.
  { destruct (parseSchedule cr) as [s|e].
    - eapply safe_write_return; [exact Hcr|]. split; [done|]. by apply t_begin.
    - eapply safe_failScheduleInvalid; [exact Hcr| |done]. split; auto. }
  assert (Hact : active (sv_Phase cr)) by done.
  assert (Hcf : can_fail cr) by (split; auto).
  apply wp_call; [done|]. intros [job|e] _.
  - unfold reconcile_job. destruct (jobConditionTrue job JobFailed).
    { eapply safe_eventf; [exact Hcr|]. intros h1 ? Hh1. apply wp_call; [done|]. intros ? _.
      by eapply safe_error. }
    destruct (jobConditionTrue job JobComplete); [by apply safe_finishRun|].
    by apply safe_maybeInjectDisruption.
  - destruct (IsNotFound e) eqn:Hnf; [|done]. unfold reconcile_no_job. case_decide.
    { eapply safe_eventf; [exact Hcr|]. intros h1 ? Hh1. by eapply safe_error. }
    apply safe_quiet; [auto with quiet|]. intros l t Hrun Hq.
    assert (Hcr' : current_cr (l ++ Ev (GetJob (mkKey (sv_Namespace cr) (loadgenJobName cr))) (Err e) :: h) = Some cr)
      by (by rewrite current_quiet).
    destruct t as [[[] n]|e']; cbn [negb].
    + apply safe_spawnJob. split_and!; try done.
      * exists e. split; [|done]. apply elem_of_app. right. by left.
      * by apply (returns_runs _ _ _ _ _ Hrun (targetPodsReady_seen cr _) n).
    + apply wp_call; [done|]. intros now _. case_match; [|done]. by apply safe_failTargetNotReady.
    + case_match; [by apply safe_failTargetUnresolvable|done].
Qed.

Lemma Reconcile_safe key : safe (Reconcile r key) [].
Proof.
  unfold Reconcile. apply wp_call; [done|]. intros [cr|e] _; [|by case_match].
  destruct (om_DeletionTimestamp (sv_Meta cr)) as [t|] eqn:Hd.
  { apply safe_finalize; [done|]. unfold live. by rewrite Hd. }
  destruct (ContainsFinalizer _ _); [by apply safe_reconcile_live|].
  apply wp_call.
  - exists cr. split; [done|]. split_and!; [done..|]. left. split; [done|]. apply contains_add.
  - intros [cr'|e] Hst; [|done]. simpl in Hst. subst cr'. by apply safe_reconcile_live.
Qed.
End passes.
