(* ===== verification/Metrics.v ===== *)
(** * Metrics (internal/metrics/metrics.go)

    The collectors the operator registers, with their names and label names, and what a
    reconcile pass makes of them: which runs it counts, and with which labels. *)

From S2P Require Import Prelude GoFloat Api K8s Effects Cluster Target LoadPhase LoadProfile LoadgenJob.
From S2P Require Import Report Status Lifecycle Controller Refinement.

Open Scope Z_scope.

(** ** The collectors *)

(** prometheus.NewCounterVec and NewHistogramVec; a counter has no buckets. *)
Record collector_vec := mkVec {
  cv_Name : string;
  cv_Help : string;
  cv_Buckets : list Z;
  cv_labels : list string
}.

Definition RunsTotal : collector_vec := mkVec "scale_sentry_runs_total"
  "Number of ScaleValidation runs that reached a terminal phase, by verdict, namespace, and name."
  [] ["namespace"; "name"; "verdict"].

Definition RunDurationSeconds : collector_vec := mkVec "scale_sentry_run_duration_seconds"
  "Wall-clock duration of a ScaleValidation run, by namespace and name."
  [5; 15; 30; 60; 120; 300; 600] ["namespace"; "name"].

Definition HPAReactSeconds : collector_vec := mkVec "scale_sentry_hpa_react_seconds"
  "Time from load start to first HPA scale-up action, by namespace and name."
  [1; 5; 10; 20; 30; 60; 120; 300] ["namespace"; "name"].

Definition DiagnosticAlertsTotal : collector_vec := mkVec "scale_sentry_diagnostic_alerts_total"
  "Diagnostic alerts emitted by the analyzer pipeline, by type, severity, namespace, and name."
  [] ["namespace"; "name"; "alert"; "severity"].

(** [init]: what the registry holds. *)
Definition registered : list collector_vec := [RunsTotal; RunDurationSeconds; HPAReactSeconds; DiagnosticAlertsTotal].

Section metrics.
Context `{K8sLib}.

(** The collector a call updates and the label values it passes to [WithLabelValues], which
    panics unless there is one per label name. *)
Definition with_label_values (c : api) : option (collector_vec * list string) :=
  match c with
  | IncRunsTotal ns name v => Some (RunsTotal, [ns; name; v])
  | IncAlertsTotal ns name alert sev => Some (DiagnosticAlertsTotal, [ns; name; alert; sev])
  | ObserveRunDuration ns name _ => Some (RunDurationSeconds, [ns; name])
  | ObserveHPAReact ns name _ => Some (HPAReactSeconds, [ns; name])
  | _ => None
  end.

(** ** What a pass counts *)

(** The verdicts with which a pass counted runs, the latest first. *)
Fixpoint run_counts (h : history answer) : list string :=
  match h with
  | [] => []
  | Ev c _ :: h' => match c with IncRunsTotal _ _ v => [v] | _ => [] end ++ run_counts h'
  end.

(** The writes that end a run: from an object that is not finished to one that is; with each,
    whether the API server accepted it. *)
Definition ends_run (h : history answer) (new : ScaleValidation) : bool :=
  bool_decide (terminal (sv_Phase new)) &&
  match current_cr h with Some cr => negb (bool_decide (terminal (sv_Phase cr))) | None => false end.

Fixpoint run_ends (h : history answer) : list (ScaleValidation * bool) :=
  match h with
  | [] => []
  | Ev c r :: h' =>
      match c as c return answer c → list (ScaleValidation * bool) with
      | UpdateStatus new => λ r, if ends_run h' new then [(new, is_ok r)] else []
      | _ => λ _, []
      end r ++ run_ends h'
  end.

(** The reason of the Finished condition. *)
Definition finished_reason (cr : ScaleValidation) : string :=
  match FindStatusCondition (sv_Conditions cr) ConditionFinished with Some c => cd_Reason c | None => "" end.

Definition measured (cr : ScaleValidation) : Prop := sv_Phase cr = PhaseSucceeded ∨ sv_Phase cr = PhaseFailed.

(** The failures that are counted, just before they are written, and those that are not. *)
Definition counted_failures : list string :=
  [FinishedReasonTargetNotReady; FinishedReasonTargetUnsupported; FinishedReasonTLSCABundleMissing;
   FinishedReasonLoadgenJobFailed; FinishedReasonScheduleInvalid].

Definition uncounted_failures : list string :=
  [FinishedReasonLoadgenJobVanished; FinishedReasonObserverReportUnreadable; FinishedReasonTargetURLUnresolved;
   FinishedReasonJobBuildFailed].

(** What the counter and the status of a pass may have come to. *)
Inductive run_tally (h : history answer) : Prop :=
| tally_no_end : run_counts h = [] → run_ends h = [] → run_tally h
| tally_measured new : measured new → run_ends h = [(new, true)] →
    run_counts h = [VerdictFromStatus (st_SLAStatus (sv_Status new)) (st_TrafficIntegrity (sv_Status new))] →
    run_tally h
| tally_lost new : measured new → run_ends h = [(new, false)] → run_counts h = [] → run_tally h
| tally_failed new ok : sv_Phase new = PhaseError → finished_reason new ∈ counted_failures →
    run_ends h = [(new, ok)] → run_counts h = [MetricVerdictUnknown] → run_tally h
| tally_uncounted new ok : sv_Phase new = PhaseError → finished_reason new ∈ uncounted_failures →
    run_ends h = [(new, ok)] → run_counts h = [] → run_tally h
| tally_refused cr earlier later : h = later ++ earlier → current_cr earlier = Some cr →
    terminal (sv_Phase cr) → is_ok (parseSchedule cr) = false →
    run_ends h = [] → run_counts h = [MetricVerdictUnknown] → run_tally h.

(** Calls that neither write the object nor count a run. *)
Definition silent (c : api) : Prop := quiet c ∧ match c with IncRunsTotal _ _ _ => False | _ => True end.

(** Nothing has been counted or ended, and the object is [cr]. *)
Definition clean (h : history answer) (cr : ScaleValidation) : Prop :=
  current_cr h = Some cr ∧ run_counts h = [] ∧ run_ends h = [].

Lemma silent_counts l (h : history answer) : Forall (λ e, silent (ev_call e)) l →
  current_cr (l ++ h) = current_cr h ∧ run_counts (l ++ h) = run_counts h ∧ run_ends (l ++ h) = run_ends h.
Proof.
  induction 1 as [|[c a] l [Hq Hc] _ (IH1 & IH2 & IH3)]; [done|]. destruct c; try done; simpl; by rewrite ?IH1, ?IH2, ?IH3.
Qed.
End metrics.

Ltac solve_silent :=
  repeat first
    [ done
    | apply only_calls_bind
    | split
    | progress intros
    | case_match ].

Section silent_programs.
Context `{K8sLib, !PhasesJson, !ReportJson, !Platform}.
Context (r : Reconciler).

Lemma eventf_silent cr ty reason msg : only_calls silent (eventf r cr ty reason msg).
Proof. unfold eventf. solve_silent. Qed.

Lemma targetPodsReady_silent cr : only_calls silent (targetPodsReady cr).
Proof. unfold targetPodsReady, targetSelector. solve_silent. Qed.

Lemma resolveTargetURL_silent cr : only_calls silent (resolveTargetURL cr).
Proof. unfold resolveTargetURL, discoverProbe, targetObject. solve_silent. Qed.

Lemma buildLoadgenJob_silent cr url : only_calls silent (buildLoadgenJob r cr url).
Proof. unfold buildLoadgenJob, observerArgs. solve_silent. Qed.

Lemma findJobPod_silent cr : only_calls silent (findJobPod cr).
Proof. unfold findJobPod. solve_silent. Qed.

Lemma observerLog_silent pod : only_calls silent (observerLog pod).
Proof. unfold observerLog. solve_silent. Qed.

Lemma count_alerts_silent cr ds : only_calls silent (count_alerts cr ds).
Proof. induction ds; simpl; [done|]. split; [done|]. by intros. Qed.

Lemma emitVerdictEvent_silent cr report : only_calls silent (emitVerdictEvent r cr report).
Proof. unfold emitVerdictEvent. case_match; apply eventf_silent. Qed.

Lemma targetPods_silent cr : only_calls silent (targetPods cr).
Proof. unfold targetPods. solve_silent. Qed.
End silent_programs.

Create HintDb silent.
#[export] Hint Resolve eventf_silent targetPodsReady_silent resolveTargetURL_silent buildLoadgenJob_silent
  findJobPod_silent observerLog_silent count_alerts_silent emitVerdictEvent_silent targetPods_silent : silent.

Section counting.
Context `{K8sLaws, !PhasesJson, !ReportJson, !Platform}.
Context (r : Reconciler).

Definition tallies {A} (p : M A) (h : history answer) : Prop := returns p h (λ h' _, run_tally h').

Lemma clean_tally h cr : clean h cr → run_tally h.
Proof. intros (_ & Hc & He). by apply tally_no_end. Qed.

Lemma tallies_silent {A B} (p : M A) (f : A → M B) h cr : only_calls silent p → clean h cr →
  (∀ h' a, clean h' cr → tallies (f a) h') → tallies (p ≫= f) h.
Proof.
  intros Hp (Hcr & Hc & He) Hf. apply wp_bind. apply (wp_only_calls _ _ silent); [done|done|].
  intros l a _ Hl. apply Hf. destruct (silent_counts l h Hl) as (Hl1 & Hl2 & Hl3). unfold clean.
  by rewrite Hl1, Hl2, Hl3.
Qed.

Lemma tallies_call {B} (c : api) (f : answer c → M B) h cr : silent c → clean h cr →
  (∀ h' a, clean h' cr → tallies (f a) h') → tallies (call c ≫= f) h.
Proof. intros Hc Hh Hf. by apply (tallies_silent (call c) f h cr). Qed.

Lemma reason_mark reason msg cr : finished_reason (on_Status (set_Phase PhaseError) (markFinished reason msg cr)) = reason.
Proof.
  unfold finished_reason. change (sv_Conditions (on_Status _ ?x)) with (sv_Conditions x).
  pose proof (finished_mark reason msg cr) as Hf. unfold finished in Hf. by rewrite Hf.
Qed.

Lemma returns_write (Q : history answer → Prop) h new doing result :
  (∀ w, Q (Ev (UpdateStatus new) w :: h)) → returns (write_and_return new doing result) h (λ h' _, Q h').
Proof. intros HQ. split; [done|]. intros [cr|e] _; apply HQ. Qed.

Lemma ends_write h old new w : current_cr h = Some old →
  run_ends (Ev (UpdateStatus new) w :: h)
  = (if bool_decide (terminal (sv_Phase new)) && negb (bool_decide (terminal (sv_Phase old))) then [(new, is_ok w)] else [])
    ++ run_ends h.
Proof. intros Hcr. simpl. unfold ends_run. by rewrite Hcr. Qed.

(** A write that ends no run. *)
Lemma tallies_write h old new doing result : clean h old → (terminal (sv_Phase old) ∨ ~ terminal (sv_Phase new)) →
  tallies (write_and_return new doing result) h.
Proof.
  intros (Hcr & Hc & He) Ht. apply returns_write. intros w. apply tally_no_end; [done|].
  rewrite (ends_write _ old), He by done. destruct Ht as [Ht|Ht].
  - by rewrite (bool_decide_eq_true_2 (terminal (sv_Phase old))), andb_false_r by done.
  - by rewrite bool_decide_eq_false_2 by done.
Qed.

Lemma terminal_Error cr : terminal (sv_Phase (on_Status (set_Phase PhaseError) cr)).
Proof. by right; right. Qed.

(** A failure that is not counted. *)
Lemma tallies_uncounted h old cr reason msg : clean h old → ~ terminal (sv_Phase old) → reason ∈ uncounted_failures →
  tallies (setTerminalPhase cr PhaseError reason msg) h.
Proof.
  intros (Hcr & Hc & He) Hnt Hr. apply returns_write. intros w.
  apply (tally_uncounted _ (on_Status (set_Phase PhaseError) (markFinished reason msg cr)) (is_ok w)); [done|by rewrite reason_mark| |exact Hc].
  rewrite (ends_write _ old), He by done. rewrite bool_decide_eq_true_2 by apply terminal_Error.
  by rewrite bool_decide_eq_false_2.
Qed.

(** One that is, whether its write is accepted or not. *)
Lemma tallies_failed h h1 old cr reason msg : clean h old → current_cr h1 = Some old →
  run_counts h1 = [MetricVerdictUnknown] → run_ends h1 = [] → ~ terminal (sv_Phase old) → reason ∈ counted_failures →
  tallies (setTerminalPhase cr PhaseError reason msg) h1.
Proof.
  intros (Hcr & Hc & He) Hcr1 Hc1 He1 Hnt Hr. apply returns_write. intros w.
  apply (tally_failed _ (on_Status (set_Phase PhaseError) (markFinished reason msg cr)) (is_ok w)); [done|by rewrite reason_mark| |exact Hc1].
  rewrite (ends_write _ old), He1 by done. rewrite bool_decide_eq_true_2 by apply terminal_Error.
  by rewrite bool_decide_eq_false_2.
Qed.

Lemma tallies_count_failure h old cr alert cr' reason msg : clean h old → ~ terminal (sv_Phase old) →
  reason ∈ counted_failures →
  tallies (_ ← count_failure cr alert; setTerminalPhase cr' PhaseError reason msg) h.
Proof.
  intros Hh Hnt Hr. destruct Hh as (Hcr & Hc & He) eqn:Hclean. split; [done|]. intros [] _. split; [done|]. intros [] _.
  eapply (tallies_failed h); try done; simpl; by rewrite ?Hc.
Qed.

Lemma tallies_failTargetUnresolvable h cr e : clean h cr → ~ terminal (sv_Phase cr) →
  tallies (failTargetUnresolvable r cr e) h.
Proof.
  intros Hh Hnt. eapply tallies_silent; [auto with silent|exact Hh|]. intros h1 ? Hh1.
  eapply tallies_count_failure; [exact Hh1|done|]. unfold counted_failures. set_solver.
Qed.

Lemma tallies_failTargetNotReady h cr n t : clean h cr → ~ terminal (sv_Phase cr) →
  tallies (failTargetNotReady r cr n t) h.
Proof.
  intros Hh Hnt. eapply tallies_silent; [auto with silent|exact Hh|]. intros h1 ? Hh1.
  eapply tallies_count_failure; [exact Hh1|done|]. unfold counted_failures. set_solver.
Qed.

(** An invalid schedule: of a run that has not started, or of a finished validation. *)
Lemma tallies_failScheduleInvalid h old cr e : clean h old → is_ok (parseSchedule old) = false →
  tallies (failScheduleInvalid r cr e) h.
Proof.
  intros Hh Hp. eapply tallies_silent; [auto with silent|exact Hh|]. intros h1 ? Hh1.
  destruct (decide (terminal (sv_Phase old))) as [Ht|Ht].
  - destruct Hh1 as (Hcr & Hc & He). split; [done|]. intros [] _. split; [done|]. intros [] _. apply returns_write.
    intros w. eapply (tally_refused _ old h1 [_; _; _]); [done..| |simpl; by rewrite Hc].
    rewrite (ends_write _ old), (bool_decide_eq_true_2 (terminal (sv_Phase old))), andb_false_r by done. exact He.
  - eapply tallies_count_failure; [exact Hh1|done|]. unfold counted_failures. set_solver.
Qed.

Lemma tallies_report_unreadable h cr ev msg : clean h cr → ~ terminal (sv_Phase cr) →
  tallies (report_unreadable r cr ev msg) h.
Proof.
  intros Hh Hnt. eapply tallies_silent; [auto with silent|exact Hh|]. intros h1 ? Hh1.
  eapply tallies_uncounted; [exact Hh1|done|]. unfold uncounted_failures. set_solver.
Qed.

Lemma finished_cr_measured now report cr : let new := finished_cr now report cr in
  measured new ∧ st_SLAStatus (sv_Status new) = rp_SLAStatus report ∧
  st_TrafficIntegrity (sv_Status new) = rp_TrafficIntegrity report.
Proof.
  unfold finished_cr. destruct (finishedVerdict _ _ _ _) as [[phase reason] msg] eqn:Hv. split; [|done].
  change (phase = PhaseSucceeded ∨ phase = PhaseFailed). unfold finishedVerdict in Hv. case_decide; simplify_eq; auto.
Qed.

Lemma silent_rest {A} (p : M A) h : only_calls silent p →
  returns p h (λ h' _, run_counts h' = run_counts h ∧ run_ends h' = run_ends h).
Proof.
  intros Hp. apply (wp_only_calls _ _ silent); [done|done|]. intros l a _ Hl. by destruct (silent_counts l h Hl).
Qed.

Lemma recordRunMetrics_rest cr report : ∃ rest, only_calls silent rest ∧
  recordRunMetrics cr report
  = (_ ← call (IncRunsTotal (sv_Namespace cr) (sv_Name cr)
               (VerdictFromStatus (rp_SLAStatus report) (rp_TrafficIntegrity report))); rest).
Proof.
  unfold recordRunMetrics. eexists. split; [|reflexivity].
  apply only_calls_bind; [solve_silent|]. intros ?. apply only_calls_bind; [solve_silent|]. intros ?.
  apply count_alerts_silent.
Qed.

Lemma tallies_finishRun h cr : clean h cr → ~ terminal (sv_Phase cr) → tallies (finishRun r cr) h.
Proof.
  intros Hh Hnt. unfold finishRun. eapply tallies_silent; [auto with silent|exact Hh|]. intros h1 [[pod|]|e] Hh1;
    [|by apply tallies_report_unreadable|by apply (clean_tally _ cr)].
  case_match; [by apply (clean_tally _ cr)|]. eapply tallies_silent; [auto with silent|exact Hh1|].
  intros h2 [raw|e] Hh2; [|by apply tallies_report_unreadable].
  destruct (ParseReportLog raw) as [report|e]; [|by apply tallies_report_unreadable].
  eapply tallies_call; [done|exact Hh2|]. intros h3 now (Hcr & Hc & He).
  destruct (finished_cr_measured now report cr) as (Hm & Hsla & Hti). set (new := finished_cr now report cr) in *.
  assert (Hends : ∀ w, run_ends (Ev (UpdateStatus new) w :: h3) = [(new, is_ok w)]).
  { intros w. rewrite (ends_write _ cr), He by done. rewrite bool_decide_eq_true_2 by (destruct Hm; [left|right; left]; done).
    by rewrite bool_decide_eq_false_2. }
  apply wp_bind. split; [done|]. intros [cr'|e] _; [|by apply (tally_lost _ new)].
  cbn [prog_bind prog_MBind mret prog_MRet wp].
  destruct (recordRunMetrics_rest cr' report) as (rest & Hrest & ->). apply wp_bind. split; [done|]. intros [] _.
  eapply wp_mono; [by apply silent_rest|]. intros h4 [] [Hc4 He4]. apply wp_bind.
  eapply wp_mono; [apply silent_rest; auto with silent|]. intros h5 [] [Hc5 He5].
  apply (tally_measured _ new); [done| |]; rewrite ?He5, ?Hc5, ?He4, ?Hc4; [apply Hends|].
  simpl. by rewrite Hc, Hsla, Hti.
Qed.

(** ** The handlers *)

(** The bundle is fine or could not be read, or the run was ended. *)
Lemma validateTLSCABundle_tally h cr : clean h cr → ~ terminal (sv_Phase cr) →
  returns (validateTLSCABundle r cr) h (λ h' a, clean h' cr ∨ (run_tally h' ∧ a ≠ Ok false)).
Proof.
  intros Hh Hnt. unfold validateTLSCABundle. destruct (caBundleRef cr) as [ref|]; [|by left].
  assert (Hfail : ∀ h' msg rec, clean h' cr → returns (g ← failTLSCABundle r cr msg rec;
    match g with Err e => mret (Err e) | Ok _ => mret (Ok true) end) h' (λ h' a, clean h' cr ∨ (run_tally h' ∧ a ≠ Ok false))).
  { intros h' msg rec Hh'. apply wp_bind. apply (wp_mono _ _ _ _ (λ h2 _, run_tally h2)); [|intros h2 [x|e] Ht; by right].
    eapply tallies_silent; [auto with silent|exact Hh'|]. intros h1 ? Hh1.
    eapply tallies_count_failure; [exact Hh1|done|]. unfold counted_failures. set_solver. }
  apply wp_call; [done|]. intros [data|e] _.
  - destruct (data !! cm_Key ref); [by left|by apply Hfail].
  - destruct (IsNotFound e); [by apply Hfail|by left].
Qed.

Lemma tallies_create_job h cr job url : clean h cr → ~ terminal (sv_Phase cr) → tallies (create_job r cr job url) h.
Proof.
  intros Hh Hnt. unfold create_job. destruct (SetControllerReference _ _) as [meta|e]; [|by apply (clean_tally _ cr)].
  apply wp_call; [done|]. intros [u|e] _; [|by apply (clean_tally _ cr)].
  eapply (tallies_silent _ _ _ cr); [auto with silent|done|]. intros h1 ? Hh1. eapply tallies_call; [done|exact Hh1|].
  intros h2 now Hh2. eapply tallies_write; [exact Hh2|]. right. by intros [?|[?|?]].
Qed.

Lemma tallies_spawnJob h cr : clean h cr → ~ terminal (sv_Phase cr) → tallies (spawnJob r cr) h.
Proof.
  intros Hh Hnt. unfold spawnJob. eapply tallies_silent; [auto with silent|exact Hh|]. intros h1 [url|e] Hh1.
  2:{ case_match; [by apply tallies_failTargetUnresolvable|]. eapply tallies_uncounted; [exact Hh1|done|].
      unfold uncounted_failures. set_solver. }
  apply wp_bind. eapply wp_mono; [by apply validateTLSCABundle_tally|]. intros h2 a [Hh2|[Ht Ha]].
  - destruct a as [[]|e]; [by apply (clean_tally _ cr)| |by apply (clean_tally _ cr)].
    eapply tallies_silent; [auto with silent|exact Hh2|]. intros h3 [job|e] Hh3; [by apply tallies_create_job|].
    case_match; [by apply tallies_failTargetUnresolvable|]. eapply tallies_uncounted; [exact Hh3|done|].
    unfold uncounted_failures. set_solver.
  - by destruct a as [[]|e].
Qed.

Lemma tallies_startNextRun h cr : clean h cr → tallies (startNextRun r cr) h.
Proof.
  intros Hh. unfold startNextRun. eapply tallies_call; [done|exact Hh|]. intros h1 [job|e] Hh1.
  - case_match; [by apply (clean_tally _ cr)|]. apply wp_call; [done|]. intros d _. destruct (delete_failed d); by apply (clean_tally _ cr).
  - case_match; [by apply (clean_tally _ cr)|]. eapply tallies_silent; [auto with silent|exact Hh1|]. intros h2 ? Hh2.
    eapply tallies_write; [exact Hh2|]. right. by intros [?|[?|?]].
Qed.

Lemma tallies_reconcileTerminal h cr : clean h cr → terminal (sv_Phase cr) → tallies (reconcileTerminal r cr) h.
Proof.
  intros Hh Ht. unfold reconcileTerminal. case_match; [eapply tallies_write; [exact Hh|by left]|].
  case_match; [unfold parkSuspended; case_match; [by apply (clean_tally _ cr)|eapply tallies_write; [exact Hh|by left]]|].
  case_match.
  - unfold restartForSpecChange. destruct (parseSchedule cr) eqn:Hp.
    + eapply tallies_silent; [auto with silent|exact Hh|]. intros h1 ? Hh1. by apply tallies_startNextRun.
    + eapply tallies_failScheduleInvalid; [exact Hh|by rewrite Hp].
  - destruct (parseSchedule cr) as [[sched|]|]; [|by apply (clean_tally _ cr)..].
    eapply tallies_call; [done|exact Hh|]. intros h1 now Hh1. case_match; [|by apply tallies_startNextRun].
    case_decide; [by apply (clean_tally _ cr)|]. eapply tallies_write; [exact Hh1|by left].
Qed.

Lemma tallies_maybeInjectDisruption h cr : clean h cr → ~ terminal (sv_Phase cr) → tallies (maybeInjectDisruption r cr) h.
Proof.
  intros Hh Hnt. unfold maybeInjectDisruption. destruct (sp_Disruption (sv_Spec cr)) as [d|]; [|by apply (clean_tally _ cr)].
  case_match; [by apply (clean_tally _ cr)|]. case_match; [by apply (clean_tally _ cr)|].
  eapply tallies_call; [done|exact Hh|]. intros h1 now Hh1. case_match; [by apply (clean_tally _ cr)|].
  eapply tallies_silent; [auto with silent|exact Hh1|]. intros h2 [pods|e] Hh2; [|by apply (clean_tally _ cr)].
  eapply tallies_call; [done|exact Hh2|]. intros h3 pick Hh3.
  assert (Hskip : ∀ h' msg status reason, clean h' cr → tallies (recordDisruption cr status reason msg) h').
  { intros h' msg status reason Hh'. eapply tallies_write; [exact Hh'|]. by right. }
  unfold disrupt. set (decision := Chaos.Plan _ _ _ _).
  destruct (Chaos.Inject decision), (Chaos.Victim decision) as [victim|];
    try (eapply tallies_silent; [auto with silent|exact Hh3|]; intros h4 ? Hh4; by apply Hskip).
  apply wp_call; [done|]. intros d' _. destruct (delete_failed d'); [by apply (clean_tally _ cr)|].
  eapply (tallies_silent _ _ _ cr); [auto with silent|done|]. intros h4 ? Hh4. by apply Hskip.
Qed.

Lemma tallies_finalize h cr : clean h cr → tallies (finalize r cr) h.
Proof.
  intros Hh. unfold finalize. case_match; [by apply (clean_tally _ cr)|]. eapply tallies_call; [done|exact Hh|].
  intros h1 [job|e] Hh1.
  - assert (Hdrain : ∀ h' cr', clean h' cr' → tallies (drain_job r cr' job) h').
    { intros h' cr' Hh'. unfold drain_job. case_match; [by apply (clean_tally _ cr')|].
      apply wp_call; [done|]. intros d _. destruct (delete_failed d); [by apply (clean_tally _ cr')|].
      eapply (tallies_silent _ _ _ cr'); [auto with silent|done|]. intros h2 ? Hh2. by apply (clean_tally _ cr'). }
    case_decide; [by apply Hdrain|]. destruct Hh1 as (Hcr & Hc & He).
    assert (Hends : ∀ w, run_ends (Ev (UpdateStatus (on_Status (set_Phase PhaseTerminating) cr)) w :: h1) = []).
    { intros w. rewrite (ends_write _ cr), He by done. rewrite bool_decide_eq_false_2; [done|]. by intros [?|[?|?]]. }
    apply wp_bind. split; [done|]. intros [cr'|e] _; [|by apply tally_no_end].
    apply Hdrain. split_and!; [done..|apply Hends].
  - case_match; [|by apply (clean_tally _ cr)]. destruct Hh1 as (Hcr & Hc & He). apply wp_call; [done|].
    intros [cr'|e'] _; by apply tally_no_end.
Qed.

Lemma tallies_reconcile_live h cr : clean h cr → tallies (reconcile_live r cr) h.
Proof.
  intros Hh. unfold reconcile_live. case_decide as Ht; [by apply tallies_reconcileTerminal|]. case_decide as He.
  { destruct (parseSchedule cr) as [s|e] eqn:Hp; [|eapply tallies_failScheduleInvalid; [exact Hh|by rewrite Hp]].
    eapply tallies_write; [exact Hh|]. right. by intros [?|[?|?]]. }
  eapply tallies_call; [done|exact Hh|]. intros h1 [job|e] Hh1.
  - unfold reconcile_job. case_match.
    + eapply tallies_silent; [auto with silent|exact Hh1|]. intros h2 ? Hh2. pose proof Hh2 as (Hcr & Hc & Hr).
      split; [done|]. intros [] _. eapply (tallies_failed h2); [exact Hh2|done| |done|done|].
      * simpl. by rewrite Hc.
      * unfold counted_failures. set_solver.
    + case_match; [by apply tallies_finishRun|by apply tallies_maybeInjectDisruption].
  - case_match; [|by apply (clean_tally _ cr)]. unfold reconcile_no_job. case_decide.
    + eapply tallies_silent; [auto with silent|exact Hh1|]. intros h2 ? Hh2.
      eapply tallies_uncounted; [exact Hh2|done|]. unfold uncounted_failures. set_solver.
    + eapply tallies_silent; [auto with silent|exact Hh1|]. intros h2 [[ready n]|e'] Hh2.
      * case_match; [|by apply tallies_spawnJob]. eapply tallies_call; [done|exact Hh2|]. intros h3 now Hh3.
        case_match; [by apply tallies_failTargetNotReady|by apply (clean_tally _ cr)].
      * case_match; [by apply tallies_failTargetUnresolvable|by apply (clean_tally _ cr)].
Qed.

Lemma tallies_Reconcile key : tallies (Reconcile r key) [].
Proof.
  apply wp_call; [done|]. intros [cr|e] _; [|case_match; by apply tally_no_end].
  case_match; [by apply tallies_finalize|]. case_match; [by apply tallies_reconcile_live|].
  apply wp_call; [done|]. intros [cr'|e] _; [by apply tallies_reconcile_live|by apply tally_no_end].
Qed.

Definition verdict_labels : list string := [MetricVerdictPass; MetricVerdictWarn; MetricVerdictFail; MetricVerdictUnknown].

Lemma VerdictFromStatus_bounded sla traffic : VerdictFromStatus sla traffic ∈ verdict_labels.
Proof. unfold VerdictFromStatus, verdict_labels. repeat case_decide; set_solver. Qed.

(** C16: A pass counts at most one run, under one of four verdicts, and what it counts agrees with
    what it writes.  A run whose results the API server accepted is counted exactly once, with
    the verdict of the status written; one whose results it refused is not counted.  A run that
    fails without results is counted as unknown before the failure is written, whether or not
    the write is accepted, and only for some reasons. *)
Theorem passes_count_runs (key : NamespacedName) (h : history answer) (a : res Result) :
  runs (Reconcile r key) [] h a →
  run_tally h ∧ (length (run_counts h) <= 1)%nat ∧ Forall (λ v, v ∈ verdict_labels) (run_counts h).
Proof.
  intros Hr. pose proof (returns_runs _ _ _ _ _ Hr (tallies_Reconcile key)) as Ht. split; [done|].
  assert (Hunknown : MetricVerdictUnknown ∈ verdict_labels) by (unfold verdict_labels; set_solver).
  destruct Ht as [Hc _|new _ _ Hc|new _ _ Hc|new ok _ _ _ Hc|new ok _ _ _ Hc|cr e l _ _ _ _ _ Hc]; rewrite Hc;
    (split; [simpl; lia|]); rewrite ?Forall_singleton; first [apply Forall_nil_2|done|apply VerdictFromStatus_bounded].
Qed.
End counting.
