(* ===== verification/Guarantees.v ===== *)
(** * What a reconcile pass guarantees

    The theorems about [Controller.Reconcile], read off [Refinement.Reconcile_safe] or proved
    directly, for every behaviour of the API server whose updates store what they are sent
    ([Refinement.stored]). *)

From S2P Require Import Chaos.
From S2P Require Import Prelude GoText Api K8s Effects Cluster Target.
From S2P Require Import Flags LoadPhase LoadProfile LoadgenJob Commands Wiring Report Status Lifecycle Controller Refinement.

Open Scope Z_scope.

Section guarantees.
Context `{K8sLaws, !PhasesJson, !ReportJson, !Platform}.

(** A pass for [key] with history [h] and outcome [a]. *)
Definition pass (r : Reconciler) (key : NamespacedName) (h : history answer) (a : res Result) : Prop :=
  runs (Reconcile r key) [] h a ∧ Forall stored h.

Lemma pass_guarded r key h a : pass r key h a → all_calls guard h.
Proof.
  intros [Hr Hs]. by apply (wp_sound_nil guard stored _ _ _ _ Hr Hs (Reconcile_safe r key)).
Qed.

(** C1: Every status write of every pass is a step of the lifecycle machine from the object the API
    server last returned to the pass: no other phase change, no result without its Finished
    condition and generation, no rerun that keeps an old result, no lost history. *)
Theorem reconcile_status_writes (r : Reconciler) (key : NamespacedName) (h : history answer) (a : res Result)
    (later earlier : history answer) (new : ScaleValidation) (ans : res ScaleValidation) :
  pass r key h a → h = later ++ Ev (UpdateStatus new) ans :: earlier →
  ∃ cr, current_cr earlier = Some cr ∧ status_write cr new.
Proof. intros Hp Heq. exact (pass_guarded _ _ _ _ Hp later (UpdateStatus new) ans earlier Heq). Qed.

(** ** The stored object over time

    The object in the cluster changes by the writes of reconcile passes and by its users.  A
    write is based on the object the pass last read; the API server accepts it only when that is
    the stored one.  Passes may fail, be repeated and interleave with the users in any way. *)
Inductive cluster_step (r : Reconciler) (old new : ScaleValidation) : Prop :=
| c_status key h a later ans earlier :
    pass r key h a → h = later ++ Ev (UpdateStatus new) ans :: earlier → current_cr earlier = Some old →
    cluster_step r old new
| c_update key h a later ans earlier :
    pass r key h a → h = later ++ Ev (UpdateCR new) ans :: earlier → current_cr earlier = Some old →
    cluster_step r old new
| c_user : user_step old new → cluster_step r old new.

Inductive occurs (r : Reconciler) : ScaleValidation → Prop :=
| o_created cr : created cr → occurs r cr
| o_step old new : occurs r old → cluster_step r old new → occurs r new.

Lemma cluster_step_world r old new : cluster_step r old new → world_step old new.
Proof.
  intros [key h a later ans earlier Hp Heq Hcur|key h a later ans earlier Hp Heq Hcur|Hu]; [| |by apply w_user].
  - destruct (pass_guarded _ _ _ _ Hp later _ ans earlier Heq) as (cr & Hcr & Hw).
    apply w_status. congruence.
  - destruct (pass_guarded _ _ _ _ Hp later _ ans earlier Heq) as (cr & Hcr & Hsp & Hst & Hm & _).
    assert (cr = old) as -> by congruence. apply w_user, u_meta; try done; unfold sv_Generation, live; by rewrite Hm.
Qed.

(** Whatever the interleaving of reconcile passes, spec edits and deletion, every object that
    occurs in the cluster satisfies the invariant: while it is not being deleted its phase is a
    known one and Finished is True exactly in a terminal phase, the history never exceeds its
    limit and lists measured runs only, and the observed generation is never ahead. *)
Theorem stored_objects_inv (r : Reconciler) (cr : ScaleValidation) : occurs r cr → lifecycle_inv cr.
Proof.
  intros Ho. apply reachable_inv. induction Ho as [cr Hc|old new _ IH Hs]; [by apply r_created|].
  eapply r_step; [exact IH|]. by eapply cluster_step_world.
Qed.


(** C8: A loadgen Job is created only for a run that has not started and is not over, after the Job
    was found missing and a ready pod listed in the same pass by the selector that the target's
    scale subresource reports; it is the CR's own Job, owned by it and never retried. *)
Theorem reconcile_job_creation (r : Reconciler) (key : NamespacedName) (h : history answer) (a : res Result)
    (later earlier : history answer) (job : Job) (ans : res unit) :
  pass r key h a → h = later ++ Ev (CreateJob job) ans :: earlier →
  ∃ cr, current_cr earlier = Some cr ∧ may_create cr job earlier.
Proof. intros Hp Heq. exact (pass_guarded _ _ _ _ Hp later (CreateJob job) ans earlier Heq). Qed.

Lemma guarded_one_delete (h : history answer) : all_calls guard h → (issued is_DeletePod h <= 1)%nat.
Proof.
  induction h as [|[c a] h IH]; intros Hg; [unfold issued; simpl; lia|].
  assert (Hh : all_calls guard h).
  { intros later c' r' earlier ->. by apply (Hg (Ev c a :: later) c' r' earlier). }
  specialize (IH Hh). rewrite issued_cons. destruct (is_DeletePod c) eqn:Hc; [|done].
  destruct c; try done. destruct (Hg [] _ a h eq_refl) as (cr & _ & _ & _ & _ & Hz & _). lia.
Qed.

(** C7: A pass deletes at most one pod, and only for a running validation that asks for it and has
    no disruption decision yet, at or after the trigger point; the pod is a healthy one of those
    listed in the pass by the selector of the target's Deployment, and minReplicasForChaos - 1
    other healthy ones remain. *)
Theorem reconcile_disruption (r : Reconciler) (key : NamespacedName) (h : history answer) (a : res Result) :
  pass r key h a →
  (issued is_DeletePod h <= 1)%nat ∧
  ∀ later pod ans earlier, h = later ++ Ev (DeletePod pod) ans :: earlier →
    ∃ cr, current_cr earlier = Some cr ∧ may_disrupt cr pod earlier.
Proof.
  intros Hp%pass_guarded. split; [by apply guarded_one_delete|].
  intros later pod ans earlier Heq. exact (Hp later (DeletePod pod) ans earlier Heq).
Qed.

(** C9: The finalizer is dropped only from an object under deletion whose loadgen Job was found
    missing in the same pass, and the Job is deleted only for an object under deletion or to
    make room for the next run of a finished, unsuspended one. *)
Theorem reconcile_teardown (r : Reconciler) (key : NamespacedName) (h : history answer) (a : res Result) :
  pass r key h a →
  (∀ later new ans earlier, h = later ++ Ev (UpdateCR new) ans :: earlier →
    ∃ cr, current_cr earlier = Some cr ∧ may_update cr new earlier) ∧
  (∀ later job ans earlier, h = later ++ Ev (DeleteJob job) ans :: earlier →
    ∃ cr, current_cr earlier = Some cr ∧ may_delete_job cr job earlier).
Proof.
  intros Hp%pass_guarded. split.
  - intros later new ans earlier Heq. exact (Hp later (UpdateCR new) ans earlier Heq).
  - intros later job ans earlier Heq. exact (Hp later (DeleteJob job) ans earlier Heq).
Qed.

(** ** Finished validations *)

(** The object read is a finished one that the controller has seen at its generation or not. *)
Definition finished_read (env : history answer → ∀ c, answer c) (key : NamespacedName) (cr : ScaleValidation) : Prop :=
  env [] (GetCR key) = Ok cr ∧ live cr ∧
  ContainsFinalizer (om_Finalizers (sv_Meta cr)) scaleValidationFinalizer = true ∧
  terminal (sv_Phase cr) ∧ st_ObservedGeneration (sv_Status cr) ≠ 0.

Lemma exec_finished r env key cr : finished_read env key cr →
  exec env (Reconcile r key) [] = exec env (reconcileTerminal r cr) [Ev (GetCR key) (Ok cr)].
Proof.
  intros (Hg & Hl & Hf & Ht & Ho). unfold Reconcile.
  exec_step. rewrite Hg. unfold live in Hl. rewrite Hl, Hf. unfold reconcile_live. by rewrite decide_True.
Qed.

(** A finished one-shot validation whose spec has not changed is left alone: the pass reads it
    and makes no other call. *)
Theorem one_shot_left_alone (r : Reconciler) (env : history answer → ∀ c, answer c) (key : NamespacedName)
    (cr : ScaleValidation) :
  finished_read env key cr → sv_Generation cr = st_ObservedGeneration (sv_Status cr) →
  sp_Suspend (sv_Spec cr) = false → sp_Schedule (sv_Spec cr) = "" →
  exec env (Reconcile r key) [] = ([Ev (GetCR key) (Ok cr)], Ok done_result).
Proof.
  intros Hr Hgen Hsus Hs. rewrite (exec_finished _ _ _ cr) by done. destruct Hr as (_ & _ & _ & _ & Ho).
  unfold reconcileTerminal. destruct (Z.eqb_spec (st_ObservedGeneration (sv_Status cr)) 0); [done|].
  rewrite Hsus, Hgen, Z.eqb_refl. unfold parseSchedule. by rewrite decide_True.
Qed.

Lemma exec_write_return env new doing result h :
  (exec env (write_and_return new doing result) h).1 = Ev (UpdateStatus new) (env h (UpdateStatus new)) :: h.
Proof.
  unfold write_and_return, write_status. exec_into. exec_step.
  by destruct (env h (UpdateStatus new)).
Qed.

(** The object with no next run advertised and its generation observed. *)
Definition parked (cr : ScaleValidation) : ScaleValidation :=
  on_Status (λ s, set_NextRunTime None (set_ObservedGeneration (sv_Generation cr) s)) cr.

(** Suspending outranks a spec edit and the schedule: a finished suspended validation is at most
    parked by one status write, its Job is not touched and no run starts; once parked, a pass
    makes no call but the read. *)
Theorem suspended_is_parked (r : Reconciler) (env : history answer → ∀ c, answer c) (key : NamespacedName)
    (cr : ScaleValidation) :
  finished_read env key cr → sp_Suspend (sv_Spec cr) = true →
  let read := Ev (GetCR key) (Ok cr) in
  (exec env (Reconcile r key) []).1
    = (if decide (st_NextRunTime (sv_Status cr) = None ∧
                  st_ObservedGeneration (sv_Status cr) = sv_Generation cr)
       then [read] else [Ev (UpdateStatus (parked cr)) (env [read] (UpdateStatus (parked cr))); read]).
Proof.
  intros Hr Hs. rewrite (exec_finished _ _ _ cr) by done. destruct Hr as (_ & _ & _ & _ & Ho).
  unfold reconcileTerminal. destruct (Z.eqb_spec (st_ObservedGeneration (sv_Status cr)) 0); [done|].
  rewrite Hs. unfold parkSuspended. fold (parked cr).
  destruct (st_NextRunTime (sv_Status cr)) as [t|] eqn:Hn.
  - rewrite bool_decide_eq_true_2 by done. cbn [negb orb]. rewrite decide_False by naive_solver.
    by apply exec_write_return.
  - rewrite bool_decide_eq_false_2 by naive_solver.
    destruct (Z.eqb_spec (st_ObservedGeneration (sv_Status cr)) (sv_Generation cr)); cbn [negb orb].
    + by rewrite decide_True.
    + rewrite decide_False by naive_solver. by apply exec_write_return.
Qed.

(** ** Progress *)

(** The answers at the end of a run: its Job is complete, the observer of its pod has exited, and
    the log of the observer is [log]. *)
Record finish_answers (env : history answer → ∀ c, answer c) (key : NamespacedName) (cr : ScaleValidation)
    (job : Job) (pod : Pod) (rest : list Pod) (log : string) : Prop := {
  fa_read : env [] (GetCR key) = Ok cr;
  fa_job : ∀ h, env h (GetJob (mkKey (sv_Namespace cr) (loadgenJobName cr))) = Ok job;
  fa_failed : jobConditionTrue job JobFailed = false;
  fa_complete : jobConditionTrue job JobComplete = true;
  fa_pods : ∀ h, env h (ListPods (sv_Namespace cr) (ByLabels {[ loadgenForLabel := sv_Name cr ]})) = Ok (pod :: rest);
  fa_exited : observerTerminated pod = true;
  fa_log : ∀ h, env h (PodLog (pod_Namespace pod) (pod_Name pod) observerContainerName) = Ok log
}.

(** The status shows the report, with the failure rate in basis points and the phase its verdicts
    call for, and the run is the newest entry of the history. *)
Definition shows (rep : Report) (now : Time) (s : ScaleValidationStatus) : Prop :=
  st_SLAStatus s = rp_SLAStatus rep ∧ st_TrafficIntegrity s = rp_TrafficIntegrity rep ∧
  st_TotalRequests s = rp_TotalRequests rep ∧ st_FailedRequests s = rp_FailedRequests rep ∧
  st_FailureRateBasisPoints s = failureRateBasisPoints (rp_FailureRate rep) ∧
  st_Diagnostics s = rp_Diagnostics rep ∧ st_ScaleUpDuration s = rp_ScaleUpDuration rep ∧
  st_Phase s = (if decide (rp_SLAStatus rep = VerdictFail ∨ rp_TrafficIntegrity rep = VerdictFail)
                then PhaseFailed else PhaseSucceeded) ∧
  head (st_History s)
    = Some (mkRun now (st_Phase s) (rp_SLAStatus rep) (rp_TrafficIntegrity rep)
              (failureRateBasisPoints (rp_FailureRate rep))).

(** The run is a new first entry before the history there was, of which the limit keeps the newest. *)
Definition records_run (now : Time) (cr cr' : ScaleValidation) : Prop :=
  st_History (sv_Status cr')
    = take RunHistoryLimit (run_summary now (sv_Status cr') :: st_History (sv_Status cr)).

Lemma finished_cr_status now rep cr : shows rep now (sv_Status (finished_cr now rep cr)).
Proof.
  unfold shows, finished_cr. destruct (finishedVerdict _ _ _ _) as [[phase reason] msg] eqn:Hv.
  rewrite append_history. split_and!; try done.
  change (phase = if decide (rp_SLAStatus rep = VerdictFail ∨ rp_TrafficIntegrity rep = VerdictFail)
                  then PhaseFailed else PhaseSucceeded).
  unfold finishedVerdict in Hv. case_decide; by simplify_eq.
Qed.

Lemma finished_cr_records now rep cr : records_run now cr (finished_cr now rep cr).
Proof.
  unfold records_run, finished_cr. destruct (finishedVerdict _ _ _ _) as [[phase reason] msg]. rewrite append_history. done.
Qed.

Lemma finished_cr_ended now rep cr : ended (finished_cr now rep cr).
Proof.
  unfold finished_cr. destruct (finishedVerdict _ _ _ _) as [[phase reason] msg]. apply ended_append, ended_mark.
Qed.

(** The pass that finds the run finished writes the report and then only touches metrics and
    events. *)
Lemma exec_finish `{!ReportJsonLaws} (r : Reconciler) (env : history answer → ∀ c, answer c)
    (key : NamespacedName) (cr : ScaleValidation) (job : Job) (pod : Pod) (rest : list Pod)
    (rep : Report) (line : string) (before after : list string) (tail : string) :
  finish_answers env key cr job pod rest (unlines (before ++ line :: after) tail) →
  live cr → active (sv_Phase cr) →
  ContainsFinalizer (om_Finalizers (sv_Meta cr)) scaleValidationFinalizer = true →
  MarshalReportLine rep = Ok line → Forall plain_line before →
  ∃ now h l, (exec env (Reconcile r key) []).1
      = l ++ Ev (UpdateStatus (finished_cr now rep cr)) (env h (UpdateStatus (finished_cr now rep cr))) :: h ∧
    Forall (λ e, quiet (ev_call e)) l.
Proof.
  intros [Hcr Hjob Hnf Hc Hpods Hterm Hlog] Hl [Hne Hact] Hfin Hline Hplain.
  unfold Reconcile. exec_step. rewrite Hcr. unfold live in Hl. rewrite Hl, Hfin.
  unfold reconcile_live. rewrite decide_False by done. rewrite decide_False by done.
  exec_step. rewrite Hjob. unfold reconcile_job. rewrite Hnf, Hc.
  unfold finishRun, findJobPod. exec_into. exec_step. rewrite Hpods. cbn [head exec fst snd mret prog_MRet].
  rewrite Hterm. cbn [negb]. unfold observerLog. exec_into. exec_step. rewrite Hlog. cbn [exec fst snd mret prog_MRet].
  rewrite (report_log_found rep line) by done.
  exec_step. set (now := env _ Now). unfold write_status. exec_into. exec_step.
  match goal with |- context [Ev (UpdateStatus _) _ :: ?h0] => set (h1 := h0) end.
  exists now, h1. set (ans := env h1 (UpdateStatus (finished_cr now rep cr))).
  assert (Hq : ∀ A (p : M A) h, only_calls quiet p → ∃ l, (exec env p h).1 = l ++ h ∧ Forall (λ e, quiet (ev_call e)) l).
  { intros A p h Hp. by apply (exec_only_calls env quiet). }
  clearbody ans. destruct ans as [cr'|e]; cbn [exec mret prog_MRet fst snd]; [|by exists []].
  exec_into. destruct (Hq _ (recordRunMetrics cr' rep) (Ev (UpdateStatus (finished_cr now rep cr)) (Ok cr') :: h1))
    as (l1 & -> & Hl1); [auto with quiet|].
  exec_into. match goal with |- context [exec env (emitVerdictEvent r cr' rep) ?h0] =>
    destruct (Hq _ (emitVerdictEvent r cr' rep) h0) as (l2 & -> & Hl2); [auto with quiet|] end.
  exists (l2 ++ l1). split; [by rewrite <- app_assoc|by apply Forall_app].
Qed.

(** C10: The Job is complete and the observer has exited; its log is read, and no line before the one it
    printed its report on carries the report marker, whatever follows.  Then the pass writes a
    status that shows that report, every figure and diagnostic of it, with the phase its verdicts
    call for; the run is the newest entry before the history there was; and the outcome is
    published as finished for the object's generation. *)
Theorem report_reaches_status `{!ReportJsonLaws} (r : Reconciler) (env : history answer → ∀ c, answer c)
    (key : NamespacedName) (cr : ScaleValidation) (job : Job) (pod : Pod) (rest : list Pod)
    (rep : Report) (line : string) (before after : list string) (tail : string) :
  finish_answers env key cr job pod rest (unlines (before ++ line :: after) tail) →
  live cr → active (sv_Phase cr) →
  ContainsFinalizer (om_Finalizers (sv_Meta cr)) scaleValidationFinalizer = true →
  MarshalReportLine rep = Ok line → Forall plain_line before →
  ∃ new ans now, Ev (UpdateStatus new) ans ∈ (exec env (Reconcile r key) []).1 ∧
    shows rep now (sv_Status new) ∧ records_run now cr new ∧ ended new.
Proof.
  intros Ha Hl Hact Hfin Hline Hb.
  destruct (exec_finish r env key cr job pod rest rep line before after tail) as (now & h & l & -> & _); try done.
  exists (finished_cr now rep cr). eexists _, now. split_and!;
    [apply elem_of_app; right; by left|apply finished_cr_status|apply finished_cr_records|apply finished_cr_ended..].
Qed.

Lemma exec_startNextRun r (env : history answer → ∀ c, answer c) cr h e :
  env h (GetJob (mkKey (sv_Namespace cr) (loadgenJobName cr))) = Err e → IsNotFound e = true →
  ∃ ans, Ev (UpdateStatus (on_Status (set_Phase PhasePending) (resetForNextRun cr))) ans
         ∈ (exec env (startNextRun r cr) h).1.
Proof.
  intros Hj He. unfold startNextRun. exec_step. rewrite Hj, He. cbn [negb].
  exec_into. eexists. unfold setPhase. rewrite exec_write_return. by left.
Qed.


(** An edit of the spec of a finished, unsuspended validation, if its schedule parses and the old
    Job is gone, puts it back to Pending with the old results cleared. *)
Theorem spec_change_reruns (r : Reconciler) (env : history answer → ∀ c, answer c) (key : NamespacedName)
    (cr : ScaleValidation) (e : goerr) :
  finished_read env key cr → sv_Generation cr ≠ st_ObservedGeneration (sv_Status cr) →
  sp_Suspend (sv_Spec cr) = false → is_ok (parseSchedule cr) = true →
  (∀ h, env h (GetJob (mkKey (sv_Namespace cr) (loadgenJobName cr))) = Err e) → IsNotFound e = true →
  ∃ ans, Ev (UpdateStatus (on_Status (set_Phase PhasePending) (resetForNextRun cr))) ans
         ∈ (exec env (Reconcile r key) []).1.
Proof.
  intros Hr Hgen Hsus Hok Hj He. rewrite (exec_finished _ _ _ cr) by done.
  destruct Hr as (_ & _ & _ & _ & Ho). unfold reconcileTerminal.
  destruct (Z.eqb_spec (st_ObservedGeneration (sv_Status cr)) 0); [done|].
  rewrite Hsus. destruct (Z.eqb_spec (sv_Generation cr) (st_ObservedGeneration (sv_Status cr))); [done|].
  cbn [negb]. unfold restartForSpecChange. destruct (parseSchedule cr); [|done].
  exec_into. by apply (exec_startNextRun r env cr _ e).
Qed.

(** The target's workload has a first container whose probe can be read, for a validation that asks for the
    probe's URL. *)
Definition probe_discoverable (env : history answer → ∀ c, answer c) (cr : ScaleValidation) (gvk : GroupVersionKind) : Prop :=
  tc_Mode (sp_Target (sv_Spec cr)) = TargetModeAutoDiscoverProbe →
  ∃ obj first more fields container,
    (∀ h, env h (GetObject (sv_Namespace cr) gvk (ref_Name (sv_TargetRef cr))) = Ok obj) ∧
    NestedSlice obj ["spec"; "template"; "spec"; "containers"] = Ok (Some (first :: more)) ∧
    AsMap first = Some fields ∧ ContainerFromUnstructured fields = Ok container ∧
    is_ok (Probe.DiscoverFromContainer container) = true.

(** The ConfigMap of the CA bundle, if there is to be one, has the configured key. *)
Definition bundle_available (env : history answer → ∀ c, answer c) (cr : ScaleValidation) : Prop :=
  ∀ ref, caBundleRef cr = Some ref →
    ∃ data, (∀ h, env h (GetConfigMap (mkKey (sv_Namespace cr) (cm_Name ref))) = Ok data) ∧ is_Some (data !! cm_Key ref).

(** The answers with which a validation of a ready target can start: its Job is missing, the
    scale subresource names a selector that lists a ready pod, the probe and the CA bundle are
    there if they are asked for, the kind maps to a resource and the API server accepts the Job. *)
Record start_answers (env : history answer → ∀ c, answer c) (key : NamespacedName) (cr : ScaleValidation)
    (gvk : GroupVersionKind) (scale : Unstructured) (selector : string) (sel : Selector) (pods : list Pod)
    (mapping : GroupVersionResource) (missing : goerr) : Prop := {
  sa_read : env [] (GetCR key) = Ok cr;
  sa_job : ∀ h, env h (GetJob (mkKey (sv_Namespace cr) (loadgenJobName cr))) = Err missing;
  sa_missing : IsNotFound missing = true;
  sa_target : targetGVK cr = Ok gvk;
  sa_scale : ∀ h, env h (GetScale (sv_Namespace cr) gvk (ref_Name (sv_TargetRef cr))) = Ok scale;
  sa_nested : NestedString scale ["status"; "selector"] = Ok (Some selector);
  sa_nonempty : selector ≠ "";
  sa_parse : ParseSelector selector = Ok sel;
  sa_list : ∀ h, env h (ListPods (sv_Namespace cr) (BySelector sel)) = Ok pods;
  sa_ready : 1 <= count_ready pods;
  sa_probe : probe_discoverable env cr gvk;
  sa_bundle : bundle_available env cr;
  sa_map : ∀ h, env h (RESTMapping gvk) = Ok mapping;
  sa_create : ∀ h job, env h (CreateJob job) = Ok tt
}.

(** What is asked of the object for its Job to be built: its load profile, if it has one, translates
    into phases that can be encoded, and the API server can refer to it as an owner. *)
Record buildable (cr : ScaleValidation) : Prop := {
  bd_profile : match buildPhases cr with
               | Err _ => False
               | Ok None => True
               | Ok (Some phases) => is_ok (MarshalPhases phases) = true
               end;
  bd_owner : ∀ m, om_Namespace m = sv_Namespace cr → is_ok (SetControllerReference (sv_Meta cr) m) = true
}.

Lemma loadgenArgs_ok cr url ca : buildable cr → is_ok (loadgenArgs cr url ca) = true.
Proof.
  intros [Hp _]. unfold loadgenArgs, phasesJSON. destruct (buildPhases cr) as [[phases|]|e]; [|done..].
  cbn [mbind res_bind]. by destruct (MarshalPhases phases).
Qed.

(** Whatever the target's mode, the URL is found. *)
Lemma exec_resolve (env : history answer → ∀ c, answer c) (cr : ScaleValidation) (gvk : GroupVersionKind) h :
  targetGVK cr = Ok gvk → probe_discoverable env cr gvk → ∃ h' url, exec env (resolveTargetURL cr) h = (h', Ok url).
Proof.
  intros Hgvk Hp. unfold resolveTargetURL. case_decide; [do 2 eexists; reflexivity|]. case_decide as Hm; [|do 2 eexists; reflexivity].
  destruct (Hp Hm) as (obj & first & more & fields & container & Hobj & Hn & Hf & Hc & Hspec).
  unfold discoverProbe, targetObject. rewrite Hgvk. exec_into. exec_into. exec_step. rewrite Hobj. simpl.
  rewrite Hn. simpl. rewrite Hf. simpl. rewrite Hc. simpl.
  destruct (Probe.DiscoverFromContainer container); [|done]. do 2 eexists; reflexivity.
Qed.

Lemma exec_validate (r : Reconciler) (env : history answer → ∀ c, answer c) (cr : ScaleValidation) h :
  bundle_available env cr → ∃ h', exec env (validateTLSCABundle r cr) h = (h', Ok false).
Proof.
  intros Hb. unfold validateTLSCABundle. destruct (caBundleRef cr) as [ref|] eqn:Href; [|eexists; reflexivity].
  destruct (Hb ref Href) as (data & Hdata & v & Hv). exec_step. rewrite Hdata, Hv. eexists; reflexivity.
Qed.

(** The Job is built, with the observer's arguments. *)
Lemma exec_build (r : Reconciler) (env : history answer → ∀ c, answer c) (cr : ScaleValidation) (gvk : GroupVersionKind)
    (mapping : GroupVersionResource) (url : string) h :
  targetGVK cr = Ok gvk → (∀ h, env h (RESTMapping gvk) = Ok mapping) → buildable cr →
  ∃ h' job, exec env (buildLoadgenJob r cr url) h = (h', Ok job) ∧
    om_Name (job_Meta job) = loadgenJobName cr ∧ om_Namespace (job_Meta job) = sv_Namespace cr ∧
    (jc_Args <$> js_InitContainers (job_Spec job)) = [command_line (observer_settings cr gvk mapping)].
Proof.
  intros Hgvk Hmap Hb. unfold buildLoadgenJob, observerArgs. rewrite Hgvk. exec_into. exec_step. rewrite Hmap.
  cbn [exec mret prog_MRet fst snd]. destruct (caBundleRef cr) as [ca|]; cbv beta iota zeta;
    (match goal with |- context [loadgenArgs cr url ?p] =>
       pose proof (loadgenArgs_ok cr url p Hb) as Hargs; destruct (loadgenArgs cr url p) as [args|]; [|done] end);
    do 2 eexists; (split; [reflexivity|done]).
Qed.

(** Such a pass ends with the status write, after the Job was created; the arguments of the Job's
    observer are those of the target and of the resource it was mapped to. *)
Lemma exec_start (r : Reconciler) (env : history answer → ∀ c, answer c) (key : NamespacedName)
    (cr : ScaleValidation) (gvk : GroupVersionKind) (scale : Unstructured) (selector : string) (sel : Selector)
    (pods : list Pod) (mapping : GroupVersionResource) (missing : goerr) :
  start_answers env key cr gvk scale selector sel pods mapping missing →
  live cr → active (sv_Phase cr) → sv_Phase cr ≠ PhaseRunning →
  ContainsFinalizer (om_Finalizers (sv_Meta cr)) scaleValidationFinalizer = true → buildable cr →
  ∃ job now h, let new := on_Status (set_Phase PhaseRunning) (on_Status (set_LastRunTime (Some now)) cr) in
    (exec env (Reconcile r key) []).1 = Ev (UpdateStatus new) (env h (UpdateStatus new)) :: h ∧
    Ev (CreateJob job) (Ok tt) ∈ h ∧ om_Name (job_Meta job) = loadgenJobName cr ∧
    (jc_Args <$> js_InitContainers (job_Spec job)) = [command_line (observer_settings cr gvk mapping)].
Proof.
  intros [Hr Hj Hm Hgvk Hsc Hn Hne Hp Hl Hready Hprobe Hca Hmap Hc] Hlive [Hph Hact] Hnr Hfin Hb.
  unfold Reconcile. exec_step. rewrite Hr. unfold live in Hlive. rewrite Hlive, Hfin.
  unfold reconcile_live. rewrite decide_False by done. rewrite decide_False by done.
  exec_step. rewrite Hj, Hm. unfold reconcile_no_job. rewrite decide_False by done.
  unfold targetPodsReady, targetSelector. rewrite Hgvk. exec_into. exec_into. exec_step.
  rewrite Hsc, Hn. cbn [default from_option id]. rewrite decide_False by done. cbn [exec mret prog_MRet fst snd].
  rewrite Hp. exec_step. rewrite Hl. cbn [exec mret prog_MRet fst snd].
  rewrite (proj2 (Z.leb_le _ _) Hready). cbn [negb]. unfold spawnJob.
  exec_into. match goal with |- context [exec env (resolveTargetURL cr) ?h] =>
    destruct (exec_resolve env cr gvk h Hgvk Hprobe) as (h1 & url & ->) end. cbn [fst snd].
  exec_into. destruct (exec_validate r env cr h1 Hca) as (h2 & ->). cbn [fst snd].
  exec_into. destruct (exec_build r env cr gvk mapping url h2 Hgvk Hmap Hb) as (h3 & job & -> & Hname & Hns & Hobs). cbn [fst snd].
  unfold create_job. pose proof (bd_owner _ Hb (job_Meta job) Hns) as Hown.
  destruct (SetControllerReference _ _) as [meta|] eqn:Hmeta; [|done].
  destruct (controller_ref _ _ _ Hmeta) as (Hname' & _).
  exec_step. rewrite Hc. exec_into. exec_step. set (now := env _ Now). unfold setPhase.
  eexists _, now, _. rewrite exec_write_return.
  split_and!; [done|right; apply exec_keeps; left|simpl; congruence|exact Hobs].
Qed.

(** A validation that can start does: the pass creates its Job and records Running together
    with the start time. *)
Theorem run_starts (r : Reconciler) (env : history answer → ∀ c, answer c) (key : NamespacedName)
    (cr : ScaleValidation) (gvk : GroupVersionKind) (scale : Unstructured) (selector : string) (sel : Selector)
    (pods : list Pod) (mapping : GroupVersionResource) (missing : goerr) :
  start_answers env key cr gvk scale selector sel pods mapping missing →
  live cr → active (sv_Phase cr) → sv_Phase cr ≠ PhaseRunning →
  ContainsFinalizer (om_Finalizers (sv_Meta cr)) scaleValidationFinalizer = true → buildable cr →
  ∃ job now ans,
    Ev (CreateJob job) (Ok tt) ∈ (exec env (Reconcile r key) []).1 ∧
    om_Name (job_Meta job) = loadgenJobName cr ∧
    Ev (UpdateStatus (on_Status (set_Phase PhaseRunning) (on_Status (set_LastRunTime (Some now)) cr))) ans
      ∈ (exec env (Reconcile r key) []).1.
Proof.
  intros Ha Hl Hact Hnr Hfin Hb.
  destruct (exec_start r env key cr gvk scale selector sel pods mapping missing) as (job & now & h & -> & Hin & Hn & _); try done.
  eexists job, now, _. split_and!; [by right|done|left].
Qed.
End guarantees.
