(* ===== verification/Scenarios.v ===== *)
(** * Scenarios

    The reconciler run against small concrete clusters: the hypotheses of the theorems of
    Guarantees.v and Lifecycle.v hold there, and two passes show behaviours worth knowing. *)

From S2P Require Import Chaos.
From S2P Require Import Prelude GoFloat GoText Api K8s Effects Cluster Target LoadPhase.
From S2P Require Import LoadProfile LoadgenJob Report Status Lifecycle Controller Refinement Guarantees Shadow Metrics.

Open Scope Z_scope.

#[local] Existing Instance SimpleLib.
#[local] Existing Instance sample_codec.

#[local] Instance sample_phases : PhasesJson := {| MarshalPhases := λ _, Ok "[]"; UnmarshalPhases := λ _, Ok [] |}.

#[local] Instance sample_platform : Platform := {| float_to_int32 := λ _, 0 |}.

Definition sample_reconciler : Reconciler :=
  mkReconciler "loadgen:1" "observer:1" "observer" [] true 0.

Definition sample_key : NamespacedName := mkKey "prod" "web".

(** A validation of Deployment web, created at 0, in the given phase. *)
Definition sample_meta (generation : Z) (deleted : option Time) (finalizers : list string) : ObjectMeta :=
  mkMeta "web" "prod" generation 0 deleted ∅ ∅ [] finalizers.

Definition sample_spec (schedule : string) (suspend : bool) : ScaleValidationSpec :=
  mkSpec (mkRef "apps/v1" "Deployment" "web") (60 * Second)
    (mkTarget "ServiceDefault" "" 8080 "ClusterIP" "" "" None None)
    (mkLoad 10 0 0 None None) (Some (mkDisruption true 2 (Some (10 * Second)))) schedule suspend.

Definition sample_status (phase : Phase) (observed : Z) : ScaleValidationStatus :=
  mkStatus phase None "" "" 0 0 0 [] (Some 0) [] None observed [].

Definition sample_cr (phase : Phase) (generation observed : Z) (schedule : string) (suspend : bool) : ScaleValidation :=
  mkSV (sample_meta generation None [scaleValidationFinalizer]) (sample_spec schedule suspend)
    (sample_status phase observed).

Definition not_found : goerr := GoErr NotFound false "not found".

Definition conflict : goerr := errorf "the object has been modified".

Definition sample_job (condition : string) : Job :=
  mkJob (new_meta "web-loadgen" "prod" ∅)
    (mkJobSpec 0 ∅ "Never" "" 45 restrictedPodSecurityContext [] [] [] [])
    [mkJobCond condition "True"].

Definition observer_pod : Pod :=
  mkPod "web-loadgen-x" "prod" ∅ 0 None "node-1" None [] "Running"
    [mkPodCond "Ready" "True" 0] [mkCStatus "observer" true].

Definition target_pod (name : string) : Pod :=
  mkPod name "prod" {[ "app" := "web" ]} 0 None "node-1" None [] "Running" [mkPodCond "Ready" "True" 0] [].

(** A cluster that answers the same at every moment of the pass. *)
Definition sample_env (cr : ScaleValidation) (job : res Job) (pods : list Pod) (now : Time)
    (writes : bool) (h : history answer) (c : api) : answer c :=
  match c with
  | GetCR _ => Ok cr
  | UpdateCR new => Ok new
  | UpdateStatus new => if writes then Ok new else Err conflict
  | CreateCR new => Ok new
  | GetJob _ => job
  | CreateJob _ => Ok tt
  | DeleteJob _ => Ok tt
  | DeletePod _ => Ok tt
  | ListPods _ _ => Ok pods
  | GetScale _ _ _ => Ok (Branch [("status", Branch [("selector", Leaf "web")])])
  | GetObject _ _ _ => Err not_found
  | GetDeployment _ => Ok (mkDeployment (new_meta "web" "prod" ∅) {[ "app" := "web" ]})
  | GetConfigMap _ => Err not_found
  | RESTMapping _ => Ok (mkGVR "apps" "v1" "deployments")
  | PodLog _ _ _ => Ok (unlines ["observer: no HPA targets Deployment web"; "SCALE_SENTRY_REPORT {sample}"] "")
  | Now => now
  | RandIntN => λ _, 0
  | Eventf _ _ _ _ => tt
  | IncRunsTotal _ _ _ => tt
  | IncAlertsTotal _ _ _ _ => tt
  | ObserveRunDuration _ _ _ => tt
  | ObserveHPAReact _ _ _ => tt
  end.

Definition run_pass (env : history answer → ∀ c, answer c) : history answer * res Result :=
  exec env (Reconcile sample_reconciler sample_key) [].

(** The calls that change the cluster, oldest first, in words. *)
Definition describe (c : api) : option string :=
  match c with
  | UpdateCR _ => Some "update"
  | UpdateStatus cr => Some ("status " +:+ sv_Phase cr)
  | CreateCR cr => Some ("create validation " +:+ sv_Name cr)
  | CreateJob job => Some ("create job " +:+ om_Name (job_Meta job))
  | DeleteJob job => Some ("delete job " +:+ om_Name (job_Meta job))
  | DeletePod pod => Some ("delete pod " +:+ pod_Name pod)
  | _ => None
  end.

Definition changes (h : history answer) : list string := omap (describe ∘ ev_call) (rev h).

Lemma sample_stored {A} cr job pods now writes (p : M A) h : Forall stored h →
  Forall stored (exec (sample_env cr job pods now writes) p h).1.
Proof.
  revert h. induction p as [a|c k IH]; intros h Hh; simpl; [done|]. apply IH. constructor; [|done].
  destruct c; try done. simpl. by destruct writes.
Qed.

Lemma sample_pass cr job pods now writes :
  let p := run_pass (sample_env cr job pods now writes) in pass sample_reconciler sample_key p.1 p.2.
Proof. split; [apply exec_runs|]. by apply sample_stored. Qed.

(** ** A validation from start to verdict *)

Definition pending : ScaleValidation := sample_cr PhasePending 1 0 "" false.

Definition starting_env := sample_env pending (Err not_found) [target_pod "a"; target_pod "b"] Second true.

Definition running : ScaleValidation := on_Status (set_Phase PhaseRunning) (on_Status (set_LastRunTime (Some Second)) pending).

Example start_pass : changes (run_pass starting_env).1 = ["create job web-loadgen"; "status Running"].
Proof. vm_compute. reflexivity. Qed.

Lemma run_starts_witness :
  ∃ job now ans, Ev (CreateJob job) (Ok tt) ∈ (exec starting_env (Reconcile sample_reconciler sample_key) []).1 ∧
    om_Name (job_Meta job) = loadgenJobName pending ∧
    Ev (UpdateStatus (on_Status (set_Phase PhaseRunning) (on_Status (set_LastRunTime (Some now)) pending))) ans
      ∈ (exec starting_env (Reconcile sample_reconciler sample_key) []).1.
Proof.
  apply (run_starts sample_reconciler starting_env sample_key pending (mkGVK "apps" "v1" "Deployment")
    (Branch [("status", Branch [("selector", Leaf "web")])]) "web" {[ "app" := "web" ]}
    [target_pod "a"; target_pod "b"] (mkGVR "apps" "v1" "deployments") not_found);
    [split; try reflexivity; done|try reflexivity..].
  - split; [done|]. by intros [|[|]].
  - done.
  - split; [done|]. intros m Hm. simpl. rewrite decide_True by done. reflexivity.
Defined.

Definition started : history answer * res Result := run_pass starting_env.

Lemma reconcile_status_writes_witness :
  ∃ cr, current_cr (tail started.1) = Some cr ∧ status_write cr running.
Proof.
  apply (reconcile_status_writes sample_reconciler sample_key started.1 started.2 [] (tail started.1)
    running (Ok running)).
  - apply sample_pass.
  - reflexivity.
Defined.

Definition created_job : Job :=
  match started.1 !! 3%nat with
  | Some (Ev (CreateJob job) _) => job
  | _ => sample_job ""
  end.

Lemma reconcile_job_creation_witness :
  ∃ cr, current_cr (drop 4 started.1) = Some cr ∧ may_create cr created_job (drop 4 started.1).
Proof.
  apply (reconcile_job_creation sample_reconciler sample_key started.1 started.2 (take 3 started.1)
    (drop 4 started.1) created_job (Ok tt)).
  - apply sample_pass.
  - reflexivity.
Defined.

Definition complete_env := sample_env running (Ok (sample_job "Complete")) [observer_pod] (70 * Second) true.

Example finish_pass : changes (run_pass complete_env).1 = ["status Succeeded"].
Proof. vm_compute. reflexivity. Qed.

Lemma report_reaches_status_witness :
  ∃ new ans now, Ev (UpdateStatus new) ans ∈ (exec complete_env (Reconcile sample_reconciler sample_key) []).1 ∧
    shows sample_report now (sv_Status new) ∧ records_run now running new ∧ ended new.
Proof.
  apply (report_reaches_status sample_reconciler complete_env sample_key running (sample_job "Complete")
    observer_pod [] sample_report "SCALE_SENTRY_REPORT {sample}"
    ["observer: no HPA targets Deployment web"] [] ""); [split; reflexivity|try reflexivity..].
  - split; [done|]. by intros [|[|]].
  - repeat constructor.
Defined.

(** ** Disruption *)

Definition in_flight : Job := mkJob (new_meta "web-loadgen" "prod" ∅) (job_Spec (sample_job "")) [].

Definition chaos_env (writes : bool) :=
  sample_env running (Ok in_flight) [target_pod "a"; target_pod "b"] (20 * Second) writes.

Example chaos_pass : changes (run_pass (chaos_env true)).1 = ["delete pod a"; "status Running"].
Proof. vm_compute. reflexivity. Qed.

Definition disrupted : history answer * res Result := run_pass (chaos_env true).

Lemma reconcile_disruption_witness :
  (issued is_DeletePod disrupted.1 <= 1)%nat ∧
  ∃ cr, current_cr (drop 3 disrupted.1) = Some cr ∧ may_disrupt cr (target_pod "a") (drop 3 disrupted.1).
Proof.
  pose proof (reconcile_disruption sample_reconciler sample_key disrupted.1 disrupted.2
    (sample_pass _ _ _ _ _)) as [Hone Hall].
  split; [exact Hone|]. apply (Hall (take 2 disrupted.1) (target_pod "a") (Ok tt) (drop 3 disrupted.1)).
  reflexivity.
Defined.

(** The status update that records the decision can fail after the pod is gone; the next pass
    reads an object without the condition and deletes another pod. *)
Lemma disruption_can_repeat :
  changes (run_pass (chaos_env false)).1 = ["delete pod a"; "status Running"] ∧
  is_ok (run_pass (chaos_env false)).2 = false.
Proof. vm_compute. split; reflexivity. Qed.

(** ** Deletion *)

Definition deleted : ScaleValidation :=
  mkSV (sample_meta 1 (Some (30 * Second)) [scaleValidationFinalizer]) (sample_spec "" false)
    (sample_status PhaseRunning 0).

Definition released : history answer * res Result :=
  run_pass (sample_env deleted (Err not_found) [] (30 * Second) true).

Example drain_pass :
  changes (run_pass (sample_env deleted (Ok in_flight) [] (30 * Second) true)).1
  = ["status Terminating"; "delete job web-loadgen"].
Proof. vm_compute. reflexivity. Qed.

Definition unfinalized : ScaleValidation :=
  set_Meta (set_Finalizers [] (sv_Meta deleted)) deleted.

Lemma reconcile_teardown_witness :
  ∃ cr, current_cr (tail released.1) = Some cr ∧ may_update cr unfinalized (tail released.1).
Proof.
  pose proof (reconcile_teardown sample_reconciler sample_key released.1 released.2
    (sample_pass _ _ _ _ _)) as [Hup _].
  apply (Hup [] unfinalized (Ok unfinalized) (tail released.1)). reflexivity.
Defined.

(** ** Finished validations *)

Lemma sample_finished phase generation schedule suspend observed job pods now writes :
  terminal phase → observed ≠ 0 →
  finished_read (sample_env (sample_cr phase generation observed schedule suspend) job pods now writes) sample_key
    (sample_cr phase generation observed schedule suspend).
Proof. intros Ht Ho. by repeat split. Qed.

Definition succeeded : ScaleValidation := sample_cr PhaseSucceeded 2 2 "" false.

Lemma one_shot_left_alone_witness :
  run_pass (sample_env succeeded (Err not_found) [] Second true)
  = ([Ev (GetCR sample_key) (Ok succeeded)], Ok done_result).
Proof.
  apply one_shot_left_alone; [|reflexivity..]. apply sample_finished; [by left|done].
Defined.

Definition suspended : ScaleValidation := sample_cr PhaseFailed 3 2 "@hourly" true.

Lemma suspended_is_parked_witness :
  (run_pass (sample_env suspended (Err not_found) [] Second true)).1
  = [Ev (UpdateStatus (parked suspended)) (Ok (parked suspended)); Ev (GetCR sample_key) (Ok suspended)].
Proof.
  unfold run_pass. rewrite (suspended_is_parked sample_reconciler _ sample_key suspended).
  - reflexivity.
  - apply sample_finished; [by right; left|done].
  - reflexivity.
Defined.



Definition edited : ScaleValidation := sample_cr PhaseSucceeded 3 2 "" false.

Lemma spec_change_reruns_witness :
  ∃ ans, Ev (UpdateStatus (on_Status (set_Phase PhasePending) (resetForNextRun edited))) ans
         ∈ (run_pass (sample_env edited (Err not_found) [] Second true)).1.
Proof.
  apply (spec_change_reruns sample_reconciler _ sample_key edited not_found); try reflexivity; [|done].
  apply sample_finished; [by left|done].
Defined.

(** The readiness gate measures its timeout from the creation of the object, not from the start
    of the run: a rerun of an object older than the timeout fails at its first look at a target
    that is not ready. *)
Lemma rerun_has_no_grace :
  changes (run_pass (sample_env (sample_cr PhasePending 2 1 "" false) (Err not_found) [] (6 * Minute) true)).1
  = ["status Error"].
Proof. vm_compute. reflexivity. Qed.

(** ** Runs and their metrics *)

Lemma passes_count_runs_witness :
  let h := (run_pass (sample_env running (Ok (sample_job JobComplete)) [observer_pod] (70 * Second) true)).1 in
  run_counts h = [MetricVerdictPass] ∧ length (run_ends h) = 1%nat ∧ run_tally h.
Proof.
  intros h. split; [vm_compute; reflexivity|]. split; [vm_compute; reflexivity|].
  exact (proj1 (passes_count_runs sample_reconciler sample_key h _ (exec_runs _ _ _))).
Defined.

(** A failed run whose status write is refused has been counted already, and the next pass counts
    it again. *)
Lemma refused_failure_counted :
  let h := (run_pass (sample_env running (Ok (sample_job JobFailed)) [] (70 * Second) false)).1 in
  run_counts h = [MetricVerdictUnknown] ∧ snd <$> run_ends h = [false].
Proof. vm_compute. split; reflexivity. Qed.

(** A run whose Job is gone ends in Error without being counted. *)
Lemma vanished_not_counted :
  let h := (run_pass (sample_env running (Err not_found) [] (70 * Second) true)).1 in
  run_counts h = [] ∧ snd <$> run_ends h = [true].
Proof. vm_compute. split; reflexivity. Qed.

(** ** Two runs that go wrong *)

(** A Job that the API server refuses (a validation's name is a label value of its Job, and label
    values end at 63 characters) is tried again for ever: the pass fails and nothing in the object
    says why. *)
Definition refusing_env (h : history answer) (c : api) : answer c :=
  match c with
  | CreateJob _ => Err (errorf "metadata.labels: must be no more than 63 characters")
  | c => starting_env h c
  end.

Lemma refused_job_stays_pending :
  changes (run_pass refusing_env).1 = ["create job web-loadgen"] ∧ is_ok (run_pass refusing_env).2 = false.
Proof. vm_compute. split; reflexivity. Qed.

(** The pods whose logs a pass reads. *)
Definition logs_read (h : history answer) : list string :=
  omap (λ e, match ev_call e with PodLog _ name _ => Some name | _ => None end) (rev h).

(** The observer's pod is found by the name of the validation alone; one that an earlier run left
    behind, when it is listed first, is read in place of the pod of this run. *)
Definition leftover_pod : Pod :=
  mkPod "web-loadgen-old" "prod" ∅ 0 None "node-1" None [] "Succeeded" [] [mkCStatus "observer" true].

Lemma leftover_pod_read :
  let p := run_pass (sample_env running (Ok (sample_job "Complete")) [leftover_pod; observer_pod] (70 * Second) true) in
  changes p.1 = ["status Succeeded"] ∧ logs_read p.1 = ["web-loadgen-old"].
Proof. vm_compute. split; reflexivity. Qed.

(** ** A reachable object *)

Definition fresh : ScaleValidation :=
  mkSV (sample_meta 1 None []) (sample_spec "" false)
    (mkStatus "" None "" "" 0 0 0 [] None [] None 0 []).

Definition first_pass : history answer * res Result := run_pass (sample_env fresh (Err not_found) [] 0 true).

Definition finalized : ScaleValidation := set_Meta (set_Finalizers [scaleValidationFinalizer] (sv_Meta fresh)) fresh.

Lemma stored_objects_inv_witness : lifecycle_inv (on_Status (set_Phase PhasePending) finalized).
Proof.
  apply (stored_objects_inv sample_reconciler). apply (o_step _ finalized); [apply (o_step _ fresh); [by apply o_created|]|].
  - apply (c_update _ _ _ sample_key first_pass.1 first_pass.2 (take 1 first_pass.1) (Ok finalized) (drop 2 first_pass.1));
      [apply sample_pass|reflexivity..].
  - apply (c_status _ _ _ sample_key first_pass.1 first_pass.2 [] (Ok (on_Status (set_Phase PhasePending) finalized)) (drop 1 first_pass.1));
      [apply sample_pass|reflexivity..].
Defined.

(** ** A shadow validation is created *)

(** A Deployment that opted in, and no shadow validation yet. *)
Definition shadow_env (h : history answer) (c : api) : answer c :=
  match c with
  | GetDeployment _ => Ok sample_deployment
  | GetCR _ => Err not_found
  | c => sample_env pending (Err not_found) [] 0 true h c
  end.

Example shadow_pass :
  changes (exec shadow_env (ShadowReconcile sample_key) []).1 = ["create validation web-shadow"].
Proof. reflexivity. Qed.

Lemma shadow_creates_once_witness :
  let h := (exec shadow_env (ShadowReconcile sample_key) []).1 in
  (issued mutates h <= 1)%nat ∧
  ∀ later c ans earlier, h = later ++ Ev c ans :: earlier → mutates c = true →
    ∃ sv, c = CreateCR sv ∧ may_shadow earlier sv.
Proof.
  apply (shadow_creates_once sample_key _ (exec shadow_env (ShadowReconcile sample_key) []).2). apply exec_runs.
Defined.
