(* ===== verification/Wakeup.v ===== *)
(** * What brings a validation back to the reconciler

    [SetupWithManager] of the two reconcilers says which objects they are woken for; a pass may
    also ask to be repeated.  controller-runtime, which turns events about objects into reconcile
    requests, repeats failed passes and honours [RequeueAfter], is third-party: a class with the
    laws the code relies on.  The theorem is that no pass leaves a validation behind that nothing
    will bring back. *)

From S2P Require Import Chaos.
From S2P Require Import Prelude GoText Api K8s Effects Cluster Target.
From S2P Require Import LoadPhase LoadProfile LoadgenJob Report Status Lifecycle Controller Refinement Guarantees Shadow Scenarios.

Open Scope Z_scope.

(** ** The watches *)

(** ctrl.NewControllerManagedBy: For, Owns, WithEventFilter and Named. *)
Record registration := mkRegistration {
  rg_For : string;
  rg_Owns : list string;
  rg_filter : ObjectMeta → bool;
  rg_Named : string
}.

Definition ScaleValidation_SetupWithManager : registration :=
  mkRegistration "ScaleValidation" ["Job"] (λ _, true) "scalevalidation".

(** [enabled]: [obj.GetAnnotations()[shadowEnableAnnotation] == "true"]. *)
Definition enabled (m : ObjectMeta) : bool :=
  bool_decide (default "" (om_Annotations m !! shadowEnableAnnotation) = "true").

Definition Deployment_SetupWithManager : registration :=
  mkRegistration "Deployment" [] enabled "deployment-shadow".

Definition key_of (m : ObjectMeta) : NamespacedName := mkKey (om_Namespace m) (om_Name m).

(** The requests of a controller for an event about an object of the given kind. *)
Class ControllerRuntime := { requests : registration → string → ObjectMeta → list NamespacedName }.

(** An event that the filter passes requests the object itself, or its owners if it is of an owned
    kind; another event requests nothing. *)
Class ControllerRuntimeLaws `{ControllerRuntime} : Prop := {
  requests_for : ∀ g m, rg_filter g m = true → key_of m ∈ requests g (rg_For g) m;
  requests_owner : ∀ g k m owner, rg_filter g m = true → k ∈ rg_Owns g → owner ∈ om_OwnerReferences m →
    mkKey (om_Namespace m) owner ∈ requests g k m;
  requests_filtered : ∀ g k m, rg_filter g m = false → requests g k m = []
}.

Section wakeup.
Context `{K8sLaws, !PhasesJson, !ReportJson, !Platform}.

(** ** The shadow filter *)

(** The event filter drops exactly the Deployments on which a pass would stop after its read. *)
Lemma filter_agrees (env : history answer → ∀ c, answer c) (key : NamespacedName) (deploy : Deployment) :
  env [] (GetDeployment key) = Ok deploy →
  let h := (exec env (ShadowReconcile key) []).1 in
  let read := Ev (GetDeployment key) (Ok deploy) in
  let shadow := GetCR (mkKey (om_Namespace (dep_Meta deploy)) (om_Name (dep_Meta deploy) +:+ "-shadow")) in
  if enabled (dep_Meta deploy) then ∃ ans later, h = later ++ [Ev shadow ans; read] else h = [read].
Proof.
  intros Hread h read shadow. unfold h, ShadowReconcile. exec_step. rewrite Hread. unfold enabled.
  destruct (om_Annotations (dep_Meta deploy) !! shadowEnableAnnotation) as [v|]; cbn [from_option id]; [|done].
  destruct (decide (v = "true")) as [->|Hv].
  - rewrite bool_decide_eq_true_2, decide_False by naive_solver. cbv zeta. exec_step. fold shadow. exists (env [read] shadow).
    match goal with |- context [exec env ?p ?h0] =>
      destruct (runs_extends _ _ _ _ (exec_runs env p h0)) as [l Hl]; rewrite Hl end.
    by exists l.
  - by rewrite bool_decide_eq_false_2, decide_True by naive_solver.
Qed.

(** ** What a pass leaves behind *)

(** What is known of answers: writes are stored as sent, and a stored object has a generation. *)
Definition known (e : event answer) : Prop :=
  stored e ∧ match e with Ev (GetCR _) (Ok cr) => 0 < sv_Generation cr | _ => True end.

(** The pass changed the stored validation, so there is an event about it. *)
Inductive changed (h : history answer) : Prop :=
| ch_status later new cr earlier old :
    h = later ++ Ev (UpdateStatus new) (Ok cr) :: earlier → current_cr earlier = Some old → new ≠ old → changed h
| ch_update later new cr earlier old :
    h = later ++ Ev (UpdateCR new) (Ok cr) :: earlier → current_cr earlier = Some old → new ≠ old → changed h.

(** No disruption of the run is still to be decided on. *)
Definition undisturbed (cr : ScaleValidation) : Prop :=
  ∀ d, sp_Disruption (sv_Spec cr) = Some d → dc_InjectPodDeletion d = true → sv_Phase cr = PhaseRunning →
    disruption cr ≠ None.

(** The pass saw the Job of its unfinished validation at work. *)
Definition waiting (h : history answer) (cr : ScaleValidation) (job : Job) : Prop :=
  current_cr h = Some cr ∧ active (sv_Phase cr) ∧
  Ev (GetJob (mkKey (sv_Namespace cr) (loadgenJobName cr))) (Ok job) ∈ h ∧
  jobConditionTrue job JobComplete = false ∧ jobConditionTrue job JobFailed = false.

(** A validation with nothing left to do.  It is finished for the spec it has now, and either
    suspended, with no next run advertised, or without a schedule that could bring a next run; or it
    is deleted and released. *)
Definition at_rest (cr : ScaleValidation) : Prop :=
  (live cr ∧ terminal (sv_Phase cr) ∧ st_ObservedGeneration (sv_Status cr) = sv_Generation cr ∧
   ((sp_Suspend (sv_Spec cr) = true ∧ st_NextRunTime (sv_Status cr) = None) ∨
    (sp_Suspend (sv_Spec cr) = false ∧ ∀ sched, parseSchedule cr ≠ Ok (Some sched)))) ∨
  (~ live cr ∧ ContainsFinalizer (om_Finalizers (sv_Meta cr)) scaleValidationFinalizer = false).

(** Why a pass may end: it failed and is retried, it asked to be repeated, it changed the
    validation, only the end of the Job is awaited, or there is nothing left to do. *)
Inductive wakes (h : history answer) : res Result → Prop :=
| wk_error e : wakes h (Err e)
| wk_requeue r : 0 < RequeueAfter r → wakes h (Ok r)
| wk_changed r : changed h → wakes h (Ok r)
| wk_job r cr job : waiting h cr job → undisturbed cr → wakes h (Ok r)
| wk_rest r cr : current_cr h = Some cr → at_rest cr → wakes h (Ok r)
| wk_gone r key e : h = [Ev (GetCR key) (Err e)] → IsNotFound e = true → wakes h (Ok r).

Lemma changed_app l h : changed h → changed (l ++ h).
Proof.
  intros [later new cr earlier old -> ? ?|later new cr earlier old -> ? ?].
  - by apply (ch_status _ (l ++ later) new cr earlier old); [rewrite <- app_assoc|..].
  - by apply (ch_update _ (l ++ later) new cr earlier old); [rewrite <- app_assoc|..].
Qed.

Lemma waiting_app l h cr job : Forall (λ e, quiet (ev_call e)) l → waiting h cr job → waiting (l ++ h) cr job.
Proof.
  intros Hl (Hcr & Ha & Hj & Hrest). split_and!; [by rewrite current_quiet|done| |apply Hrest..].
  apply elem_of_app. by right.
Qed.

(** ** Writes *)

Notation knows := (wp (λ _ _, True) known).

(** A program that has changed the validation whenever it does not fail. *)
Definition changes_it {A} (p : M (res A)) (h : history answer) : Prop :=
  knows p h (λ h' a, is_ok a = true → changed h').

Definition awake (p : M (res Result)) (h : history answer) : Prop := knows p h wakes.

Lemma changes_awake p h : changes_it p h → awake p h.
Proof.
  intros Hp. eapply wp_mono; [exact Hp|]. intros h' [a|e] Hc; [|apply wk_error]. by apply wk_changed, Hc.
Qed.

Lemma after_quiet {A B} (p : M A) (f : A → M B) h cr Q : only_calls quiet p → current_cr h = Some cr →
  (∀ l a, current_cr (l ++ h) = Some cr → Forall (λ e, quiet (ev_call e)) l → knows (f a) (l ++ h) Q) →
  knows (p ≫= f) h Q.
Proof.
  intros Hp Hcr Hf. apply wp_bind. apply (wp_only_calls _ _ quiet); [done|done|].
  intros l a _ Hl. apply Hf; [by rewrite current_quiet|done].
Qed.

Lemma write_changes h old new doing result : current_cr h = Some old → new ≠ old →
  changes_it (write_and_return new doing result) h.
Proof. intros Hcr Hne. split; [done|]. intros [cr|e] _; [|done]. intros _. by eapply (ch_status _ []). Qed.

Lemma phase_changes h old cr phase : current_cr h = Some old → phase ≠ sv_Phase old →
  changes_it (setPhase cr phase) h.
Proof. intros Hcr Hne. eapply write_changes; [done|]. by intros <-. Qed.

(** A run is failed that was not over, or for a generation that was not observed. *)
Definition unfinished (old cr : ScaleValidation) : Prop :=
  ~ terminal (sv_Phase old) ∨ (sv_Generation cr ≠ st_ObservedGeneration (sv_Status old)).

Lemma error_changes h old cr reason msg : current_cr h = Some old → unfinished old cr →
  changes_it (setTerminalPhase cr PhaseError reason msg) h.
Proof.
  intros Hcr [Hne|Hne]; [apply (phase_changes _ old); [done|]|eapply write_changes; [done|]].
  - intros Heq. apply Hne. rewrite <- Heq. by right; right.
  - by intros <-.
Qed.

Lemma failing_changes h old cr msg e alert cr' reason msg' (r : Reconciler) :
  current_cr h = Some old → unfinished old cr' →
  changes_it (_ ← eventf r cr EventTypeWarning e msg; _ ← count_failure cr' alert;
              setTerminalPhase cr' PhaseError reason msg') h.
Proof.
  intros Hcr Hu. eapply after_quiet; [auto with quiet|exact Hcr|]. intros l ? Hl _.
  eapply after_quiet; [auto with quiet|exact Hl|]. intros l' ? Hl' _. by eapply error_changes.
Qed.

(** ** The handlers *)

Lemma finished_cr_terminal now rep cr : terminal (sv_Phase (finished_cr now rep cr)).
Proof.
  unfold finished_cr. destruct (finishedVerdict _ _ _ _) as [[phase reason] msg] eqn:Hv.
  change (terminal phase). unfold finishedVerdict in Hv. unfold terminal. case_decide; simplify_eq; auto.
Qed.

Context (r : Reconciler).

Lemma failTargetUnresolvable_changes h cr e : current_cr h = Some cr → ~ terminal (sv_Phase cr) →
  changes_it (failTargetUnresolvable r cr e) h.
Proof. intros Hcr Hnt. eapply failing_changes; [exact Hcr|by left]. Qed.

Lemma failTargetNotReady_changes h cr n t : current_cr h = Some cr → ~ terminal (sv_Phase cr) →
  changes_it (failTargetNotReady r cr n t) h.
Proof. intros Hcr Hnt. eapply failing_changes; [exact Hcr|by left]. Qed.

Lemma failTLSCABundle_changes h cr msg rec : current_cr h = Some cr → ~ terminal (sv_Phase cr) →
  changes_it (failTLSCABundle r cr msg rec) h.
Proof. intros Hcr Hnt. eapply failing_changes; [exact Hcr|by left]. Qed.

Lemma failScheduleInvalid_changes h old cr e : current_cr h = Some old → unfinished old cr →
  changes_it (failScheduleInvalid r cr e) h.
Proof. intros Hcr Hu. by eapply failing_changes. Qed.

Lemma report_unreadable_changes h cr ev msg : current_cr h = Some cr → ~ terminal (sv_Phase cr) →
  changes_it (report_unreadable r cr ev msg) h.
Proof.
  intros Hcr Hnt. eapply after_quiet; [auto with quiet|exact Hcr|]. intros l ? Hl _.
  eapply error_changes; [exact Hl|by left].
Qed.

(** The bundle is fine, the run was ended, or the pass fails. *)
Lemma validateTLSCABundle_changes h cr : current_cr h = Some cr → ~ terminal (sv_Phase cr) →
  knows (validateTLSCABundle r cr) h (λ h' a,
    match a with Ok false => current_cr h' = Some cr | Ok true => changed h' | Err _ => True end).
Proof.
  intros Hcr Hnt. unfold validateTLSCABundle. destruct (caBundleRef cr) as [ref|]; [|done].
  assert (Hfail : ∀ h' msg rec, current_cr h' = Some cr → knows (g ← failTLSCABundle r cr msg rec;
    match g with Err e => mret (Err e) | Ok _ => mret (Ok true) end) h' (λ h' a,
    match a with Ok false => current_cr h' = Some cr | Ok true => changed h' | Err _ => True end)).
  { intros h' msg rec Hh'. apply wp_bind. eapply wp_mono; [by apply failTLSCABundle_changes|].
    intros h1 [x|e] Hc; [by apply Hc|done]. }
  apply wp_call; [done|]. intros [data|e] _.
  - destruct (data !! cm_Key ref); [done|by apply Hfail].
  - destruct (IsNotFound e); [by apply Hfail|done].
Qed.

Lemma create_job_awake h cr job url : current_cr h = Some cr → sv_Phase cr ≠ PhaseRunning →
  awake (create_job r cr job url) h.
Proof.
  intros Hcr Hnr. unfold create_job. destruct (SetControllerReference _ _) as [meta|e]; [|apply wk_error].
  apply wp_call; [done|]. intros [u|e] _; [|apply wk_error].
  eapply after_quiet; [auto with quiet|exact Hcr|]. intros l ? Hl _. apply wp_call; [done|]. intros now _.
  by eapply changes_awake, phase_changes.
Qed.

Lemma spawnJob_awake h cr : current_cr h = Some cr → active (sv_Phase cr) → sv_Phase cr ≠ PhaseRunning →
  awake (spawnJob r cr) h.
Proof.
  intros Hcr [_ Hnt] Hnr. unfold spawnJob. eapply after_quiet; [auto with quiet|exact Hcr|].
  intros l u Hl _. destruct u as [url|e].
  2:{ case_match; [by apply changes_awake, failTargetUnresolvable_changes|].
      eapply changes_awake, error_changes; [exact Hl|by left]. }
  apply wp_bind. eapply wp_mono; [by apply validateTLSCABundle_changes|].
  intros h1 [[]|e] Ht; [by apply wk_changed| |apply wk_error].
  eapply after_quiet; [auto with quiet|exact Ht|]. intros l' j Hl' _. destruct j as [job|e].
  - by apply create_job_awake.
  - case_match; [by apply changes_awake, failTargetUnresolvable_changes|].
    eapply changes_awake, error_changes; [exact Hl'|by left].
Qed.

Lemma reconcile_no_job_awake h cr : current_cr h = Some cr → active (sv_Phase cr) → awake (reconcile_no_job r cr) h.
Proof.
  intros Hcr Ha. pose proof Ha as [_ Hnt]. unfold reconcile_no_job. case_decide.
  - eapply after_quiet; [auto with quiet|exact Hcr|]. intros l ? Hl _.
    eapply changes_awake, error_changes; [exact Hl|by left].
  - eapply after_quiet; [auto with quiet|exact Hcr|]. intros l t Hl _. destruct t as [[ready n]|e].
    + case_match; [|by apply spawnJob_awake]. apply wp_call; [done|]. intros now _.
      case_match; [by apply changes_awake, failTargetNotReady_changes|by apply wk_requeue].
    + case_match; [by apply changes_awake, failTargetUnresolvable_changes|apply wk_error].
Qed.

Lemma finishRun_awake h cr : current_cr h = Some cr → active (sv_Phase cr) → awake (finishRun r cr) h.
Proof.
  intros Hcr [_ Hnt]. unfold finishRun. eapply after_quiet; [auto with quiet|exact Hcr|].
  intros l p Hl _. destruct p as [[pod|]|e]; [|by apply changes_awake, report_unreadable_changes|apply wk_error].
  case_match; [by apply wk_requeue|]. eapply after_quiet; [auto with quiet|exact Hl|].
  intros l' raw Hl' _. destruct raw as [raw|e]; [|by apply changes_awake, report_unreadable_changes].
  destruct (ParseReportLog raw) as [report|e]; [|by apply changes_awake, report_unreadable_changes].
  apply wp_call; [done|]. intros now _. apply wp_bind. split; [done|]. intros [cr'|e] _; [|apply wk_error].
  assert (changed (Ev (UpdateStatus (finished_cr now report cr)) (Ok cr') :: Ev Now now :: l' ++ l ++ h)) as Hc.
  { eapply (ch_status _ []); [done|exact Hl'|]. intros Heq. apply Hnt. rewrite <- Heq.
    apply finished_cr_terminal. }
  apply changes_awake. apply wp_bind. apply (wp_only_calls _ _ quiet); [done|auto with quiet|]. intros l1 ? _ _.
  apply wp_bind. apply (wp_only_calls _ _ quiet); [done|auto with quiet|]. intros l2 ? _ _ _.
  by do 2 apply changed_app.
Qed.

Lemma disrupt_awake h cr d t0 delay pods pick : current_cr h = Some cr → disruption cr = None →
  awake (disrupt r cr d t0 delay pods pick) h.
Proof.
  intros Hcr Hd. unfold disrupt. set (decision := Chaos.Plan _ _ _ _).
  assert (Hrec : ∀ h' status reason msg, current_cr h' = Some cr → awake (recordDisruption cr status reason msg) h').
  { intros h' status reason msg Hh'. eapply changes_awake, write_changes; [exact Hh'|]. intros Heq.
    pose proof (f_equal disruption Heq) as Hf. rewrite Hd in Hf. revert Hf. unfold disruption.
    change (FindStatusCondition (SetStatusCondition (mkCondition ConditionDisruptionInjected status (sv_Generation cr) reason msg)
      (st_Conditions (sv_Status cr))) ConditionDisruptionInjected ≠ None).
    by rewrite (find_set_eq (mkCondition ConditionDisruptionInjected _ _ _ _)). }
  destruct (Chaos.Inject decision), (Chaos.Victim decision) as [victim|];
    try (eapply after_quiet; [auto with quiet|exact Hcr|]; intros l ? Hl _; by apply Hrec).
  apply wp_call; [done|]. intros del _. destruct (delete_failed del); [apply wk_error|].
  eapply after_quiet; [auto with quiet|exact Hcr|]. intros l ? Hl _. by apply Hrec.
Qed.

Lemma maybeInjectDisruption_awake h cr job : waiting h cr job → awake (maybeInjectDisruption r cr) h.
Proof.
  intros Hw. pose proof Hw as (Hcr & _). unfold maybeInjectDisruption.
  assert (Hjob : undisturbed cr → ∀ a, wakes h (Ok a)) by (intros ? a; by eapply wk_job).
  unfold undisturbed, disruption in Hjob.
  destruct (sp_Disruption (sv_Spec cr)) as [d|]; [|by apply Hjob].
  case_match eqn:Hi; [apply Hjob; intros d' [= <-] Hinj Hrun; by rewrite Hinj, bool_decide_eq_true_2 in Hi by done|].
  destruct (FindStatusCondition _ _) eqn:Hd; [by apply Hjob|]. clear Hjob.
  apply wp_call; [done|]. intros now _. destruct (Z.ltb_spec 0 (time_sub (time_add
    match st_LastRunTime (sv_Status cr) with Some t => t | None => om_CreationTimestamp (sv_Meta cr) end
    (default 0 (dc_TriggerDelay d))) now)); [by apply wk_requeue|].
  eapply after_quiet; [auto with quiet|exact Hcr|]. intros l p Hl _. destruct p as [pods|e]; [|apply wk_error].
  apply wp_call; [done|]. intros pick _. by apply disrupt_awake.
Qed.

Lemma startNextRun_awake h cr : current_cr h = Some cr → terminal (sv_Phase cr) → awake (startNextRun r cr) h.
Proof.
  intros Hcr Ht. unfold startNextRun. apply wp_call; [done|]. intros [job|e] _.
  - case_match; [by apply wk_requeue|]. apply wp_call; [done|]. intros d _.
    destruct (delete_failed d); [apply wk_error|by apply wk_requeue].
  - case_match; [apply wk_error|]. eapply after_quiet; [auto with quiet|exact Hcr|]. intros l ? Hl _.
    eapply changes_awake, phase_changes; [exact Hl|]. intros Heq. by destruct Ht as [Ht|[Ht|Ht]]; rewrite Ht in Heq.
Qed.

Lemma reconcileTerminal_awake h cr : current_cr h = Some cr → live cr → 0 < sv_Generation cr →
  terminal (sv_Phase cr) → awake (reconcileTerminal r cr) h.
Proof.
  intros Hcr Hl Hgen Ht. unfold reconcileTerminal.
  destruct (Z.eqb_spec (st_ObservedGeneration (sv_Status cr)) 0) as [Hz|Hz].
  { eapply changes_awake, write_changes; [exact Hcr|]. intros Heq.
    pose proof (f_equal (λ cr, st_ObservedGeneration (sv_Status cr)) Heq) as Ho. simpl in Ho. lia. }
  destruct (sp_Suspend (sv_Spec cr)) eqn:Hs.
  { unfold parkSuspended. case_match eqn:Hp.
    { apply negb_true_iff, orb_false_iff in Hp as [Hnext%bool_decide_eq_false Hobs%negb_false_iff%Z.eqb_eq].
      apply (wk_rest _ _ cr); [done|]. left. split_and!; [done..|]. left. split; [done|]. by apply dec_stable. }
    eapply changes_awake, write_changes; [exact Hcr|]. intros Heq.
    pose proof (f_equal (λ cr, st_NextRunTime (sv_Status cr)) Heq) as Hn.
    pose proof (f_equal (λ cr, st_ObservedGeneration (sv_Status cr)) Heq) as Ho. simpl in Hn, Ho.
    rewrite bool_decide_eq_false_2, <- Ho, Z.eqb_refl in Hp by naive_solver. done. }
  destruct (Z.eqb_spec (sv_Generation cr) (st_ObservedGeneration (sv_Status cr))) as [Hg|Hg]; cbn [negb].
  - destruct (parseSchedule cr) as [[sched|]|e] eqn:Hp;
      [|apply (wk_rest _ _ cr); [done|]; left; split_and!; [done..|right; split; congruence]..].
    apply wp_call; [done|]. intros now _. case_match eqn:Hr; [|by apply startNextRun_awake].
    apply Z.ltb_lt in Hr. case_decide; [by apply wk_requeue|]. eapply wp_mono.
    + eapply (changes_awake (write_and_return _ _ _)), write_changes; [exact Hcr|]. intros Heq.
      by pose proof (f_equal (λ cr, st_NextRunTime (sv_Status cr)) Heq).
    + done.
  - unfold restartForSpecChange. destruct (parseSchedule cr) as [s|e].
    + eapply after_quiet; [auto with quiet|exact Hcr|]. intros l ? Hl' _. by apply startNextRun_awake.
    + eapply changes_awake, failScheduleInvalid_changes; [exact Hcr|by right].
Qed.

Lemma drain_job_awake h cr job : awake (drain_job r cr job) h.
Proof.
  unfold drain_job. case_match; [by apply wk_requeue|]. apply wp_call; [done|]. intros d _.
  destruct (delete_failed d); [apply wk_error|]. apply wp_bind.
  apply (wp_only_calls _ _ quiet); [done|auto with quiet|]. intros l ? _ _. by apply wk_requeue.
Qed.

Lemma finalize_awake h cr : current_cr h = Some cr → ~ live cr → awake (finalize r cr) h.
Proof.
  intros Hcr Hl. unfold finalize. destruct (ContainsFinalizer _ _) eqn:Hf; cbn [negb].
  2:{ apply (wk_rest _ _ cr); [done|]. by right. }
  apply wp_call; [done|]. intros [job|e] _.
  - apply wp_bind. case_decide; [apply drain_job_awake|]. apply wp_bind. split; [done|].
    intros [cr'|e] _; [apply drain_job_awake|apply wk_error].
  - case_match; [|apply wk_error]. apply wp_call; [done|]. intros [cr'|e'] _; [|apply wk_error].
    apply wk_changed. eapply (ch_update _ []); [done|exact Hcr|]. intros Heq.
    pose proof (f_equal (λ cr, ContainsFinalizer (om_Finalizers (sv_Meta cr)) scaleValidationFinalizer) Heq) as Hc.
    simpl in Hc. by rewrite contains_remove, Hf in Hc.
Qed.

Lemma reconcile_live_awake h cr : current_cr h = Some cr → live cr → 0 < sv_Generation cr →
  awake (reconcile_live r cr) h.
Proof.
  intros Hcr Hl Hgen. unfold reconcile_live. case_decide as Ht; [by apply reconcileTerminal_awake|].
  case_decide as He.
  { destruct (parseSchedule cr) as [s|e].
    - eapply changes_awake, phase_changes; [exact Hcr|]. by rewrite He.
    - eapply changes_awake, failScheduleInvalid_changes; [exact Hcr|by left]. }
  apply wp_call; [done|]. intros [job|e] _.
  - unfold reconcile_job. destruct (jobConditionTrue job JobFailed) eqn:Hjf.
    + eapply after_quiet; [auto with quiet|exact Hcr|]. intros l ? Hl' _. apply wp_call; [done|]. intros ? _.
      eapply changes_awake, error_changes; [exact Hl'|by left].
    + destruct (jobConditionTrue job JobComplete) eqn:Hjc; [by apply finishRun_awake|].
      apply (maybeInjectDisruption_awake _ cr job). split_and!; try done. left.
  - case_match; [|apply wk_error]. by apply reconcile_no_job_awake.
Qed.

Lemma Reconcile_awake key : awake (Reconcile r key) [].
Proof.
  apply wp_call; [done|]. intros [cr|e] [_ Hgen].
  2:{ case_match; [by eapply wk_gone|apply wk_error]. }
  destruct (om_DeletionTimestamp (sv_Meta cr)) eqn:Hd; [apply finalize_awake; [done|unfold live; congruence]|].
  case_match eqn:Hf; [by apply reconcile_live_awake|].
  apply wp_call; [done|]. intros [cr'|e] [Hs _]; [|apply wk_error]. rewrite Hs. by apply reconcile_live_awake.
Qed.

(** C6: No pass leaves a validation behind that nothing brings back: whatever the API server answers,
    a pass that does not fail asks to be repeated, or has changed the stored validation, or saw
    the Job of the unfinished run at work with no disruption left to decide on, unless the
    validation is gone or at rest: finished for the generation it has now, with no next run ahead,
    so never one whose spec was edited since its last run.  And the
    reconciler is woken for all of these: for every event about the validation it watches, and for
    every event about a Job that a pass created, since that Job names the validation as its
    controller. *)
Theorem no_lost_wakeup `{ControllerRuntimeLaws} (key : NamespacedName) (h : history answer) (a : res Result) :
  runs (Reconcile r key) [] h a → Forall known h →
  wakes h a ∧
  (∀ cr, key_of (sv_Meta cr) ∈ requests ScaleValidation_SetupWithManager "ScaleValidation" (sv_Meta cr)) ∧
  ∀ later job ans earlier, h = later ++ Ev (CreateJob job) ans :: earlier →
    ∃ cr, current_cr earlier = Some cr ∧
      ∀ m, om_Namespace m = om_Namespace (job_Meta job) → om_OwnerReferences m = om_OwnerReferences (job_Meta job) →
        key_of (sv_Meta cr) ∈ requests ScaleValidation_SetupWithManager "Job" m.
Proof.
  intros Hr Hk. split_and!.
  - by apply (wp_sound_nil _ known _ _ _ _ Hr Hk (Reconcile_awake key)).
  - intros cr. by apply requests_for.
  - intros later job ans earlier Heq.
    assert (Forall stored h) as Hs by (eapply Forall_impl; [exact Hk|]; by intros ? [? _]).
    destruct (wp_sound_nil guard stored _ _ _ _ Hr Hs (Reconcile_safe r key)) as [Hg _].
    destruct (Hg later (CreateJob job) ans earlier Heq) as (cr & Hcr & Hmay). exists cr. split; [done|].
    destruct Hmay as (_ & _ & _ & _ & _ & _ & Hns & _ & Hown). intros m Hm Ho. unfold key_of.
    change (om_Namespace (sv_Meta cr)) with (sv_Namespace cr). rewrite <- Hns, <- Hm.
    apply requests_owner; [done|left|]. by rewrite Ho.
Qed.
End wakeup.

(** ** A pass that starts a run *)

#[local] Existing Instance SimpleLib.
#[local] Existing Instance sample_codec.
#[local] Existing Instance sample_phases.
#[local] Existing Instance sample_platform.

#[local] Instance simple_runtime : ControllerRuntime := {|
  requests g k m :=
    if rg_filter g m then
      (if decide (k = rg_For g) then [key_of m] else [])
      ++ (if decide (k ∈ rg_Owns g) then mkKey (om_Namespace m) <$> om_OwnerReferences m else [])
    else []
|}.

#[local] Instance simple_runtime_laws : ControllerRuntimeLaws.
Proof.
  split; simpl.
  - intros g m ->. rewrite decide_True by done. left.
  - intros g k m owner -> Hk Ho. rewrite (decide_True (P := k ∈ rg_Owns g)) by done.
    apply elem_of_app. right. by apply list_elem_of_fmap_2.
  - by intros g k m ->.
Qed.

Lemma sample_known {A} cr job pods now writes (p : M A) h : 0 < sv_Generation cr → Forall known h →
  Forall known (exec (sample_env cr job pods now writes) p h).1.
Proof.
  intros Hg. revert h. induction p as [a|c k IH]; intros h Hh; simpl; [done|]. apply IH. constructor; [|done].
  destruct c; try done. simpl. by destruct writes.
Qed.

Lemma no_lost_wakeup_witness :
  wakes started.1 started.2 ∧ changes started.1 = ["create job web-loadgen"; "status Running"] ∧
  sample_key ∈ requests ScaleValidation_SetupWithManager "Job" (job_Meta created_job).
Proof.
  destruct (no_lost_wakeup sample_reconciler sample_key started.1 started.2) as (Hw & _ & Hj).
  - apply exec_runs.
  - apply sample_known; [done|constructor].
  - split; [exact Hw|]. split; [vm_compute; reflexivity|].
    destruct (Hj (take 3 started.1) created_job (Ok tt) (drop 4 started.1)) as (cr & Hcr & Hm); [reflexivity|].
    assert (Some cr = Some pending) as [= ->] by (rewrite <- Hcr; reflexivity).
    by apply (Hm (job_Meta created_job)).
Defined.
