(* ===== verification/Isolation.v ===== *)
(** * A pass keeps to its own objects

    The controller serves the validations of every namespace of a cluster.  A pass for one of them
    reads and updates no other validation, its Job calls are all for the one Job named after it,
    and whatever else it reads, deletes, reports or counts is in its namespace or bears its name.
    Two passes for different validations therefore never touch the same object, and may run in any
    order or at the same time. *)

From S2P Require Import Chaos.
From S2P Require Import Prelude GoText Api K8s Effects Cluster Target.
From S2P Require Import LoadPhase LoadProfile LoadgenJob Report Status Lifecycle Controller Refinement Guarantees Scenarios.

Open Scope Z_scope.

Definition cr_key (cr : ScaleValidation) : NamespacedName := mkKey (sv_Namespace cr) (sv_Name cr).

Definition job_key (job : Job) : NamespacedName := mkKey (om_Namespace (job_Meta job)) (om_Name (job_Meta job)).

(** The Job of a validation. *)
Definition own_job (key : NamespacedName) : NamespacedName :=
  mkKey (nn_Namespace key) (nn_Name key +:+ "-loadgen").

Section isolation.
Context `{K8sLib}.

(** An answer is about what was asked for. *)
Definition located (e : event answer) : Prop :=
  match e with
  | Ev (GetCR key) (Ok cr) => cr_key cr = key
  | Ev (UpdateCR new) (Ok cr) | Ev (UpdateStatus new) (Ok cr) => cr_key cr = cr_key new
  | Ev (GetJob key) (Ok job) => job_key job = key
  | Ev (ListPods ns _) (Ok pods) => Forall (λ p, pod_Namespace p = ns) pods
  | _ => True
  end.

(** What a pass for [key] may call. *)
Definition own (key : NamespacedName) (c : api) : Prop :=
  match c with
  | GetCR k => k = key
  | UpdateCR cr | UpdateStatus cr | Eventf cr _ _ _ => cr_key cr = key
  | CreateCR _ => False
  | GetJob k => k = own_job key
  | CreateJob job | DeleteJob job => job_key job = own_job key
  | DeletePod pod => pod_Namespace pod = nn_Namespace key
  | ListPods ns _ | GetScale ns _ _ | GetObject ns _ _ | PodLog ns _ _ => ns = nn_Namespace key
  | GetDeployment k | GetConfigMap k => nn_Namespace k = nn_Namespace key
  | IncRunsTotal ns name _ | IncAlertsTotal ns name _ _ | ObserveRunDuration ns name _ | ObserveHPAReact ns name _ =>
      mkKey ns name = key
  | RESTMapping _ | Now | RandIntN => True
  end.

(** The validations and Jobs a call reads or writes. *)
Inductive object_kind := ScaleValidationKind | JobKind.

Definition touches (c : api) : option (object_kind * NamespacedName) :=
  match c with
  | GetCR k => Some (ScaleValidationKind, k)
  | UpdateCR cr | UpdateStatus cr | CreateCR cr => Some (ScaleValidationKind, cr_key cr)
  | GetJob k => Some (JobKind, k)
  | CreateJob job | DeleteJob job => Some (JobKind, job_key job)
  | _ => None
  end.
End isolation.

Lemma append_inj_l s t u : s +:+ u = t +:+ u → s = t.
Proof.
  revert t. induction s as [|a s IH]; intros [|b t] E; try done;
    try (apply (f_equal String.length) in E; rewrite !length_append in E; simpl in E; lia).
  injection E as -> E. f_equal. by apply IH.
Qed.

#[export] Instance own_job_inj : Inj (=) (=) own_job.
Proof. intros [ns n] [ns' n'] [= -> E]. by apply append_inj_l in E as ->. Qed.

(** ** Every handler stays *)

Section stays.
Context `{K8sLaws, !PhasesJson, !ReportJson, !Platform}.
Context (key : NamespacedName).

Definition stays {A} (p : M A) (h : history answer) : Prop := wp (λ _ c, own key c) located p h (λ _ _, True).

Lemma stays_ret {A} (a : A) h : stays (mret a) h.
Proof. done. Qed.

Lemma stays_call {B} c (f : answer c → M B) h :
  own key c → (∀ r, located (Ev c r) → stays (f r) (Ev c r :: h)) → stays (call c ≫= f) h.
Proof. intros ? ?. by split. Qed.

Lemma stays_bind {A B} (p : M A) (f : A → M B) h :
  (∀ h, stays p h) → (∀ a h, stays (f a) h) → stays (p ≫= f) h.
Proof. intros Hp Hf. apply wp_bind. eapply wp_mono; [apply Hp|]. intros h' a _. apply Hf. Qed.

Context (r : Reconciler).

Implicit Types (cr : ScaleValidation) (h : history answer).

Lemma own_job_key cr : cr_key cr = key → mkKey (sv_Namespace cr) (loadgenJobName cr) = own_job key.
Proof. by intros <-. Qed.

Lemma own_ns cr : cr_key cr = key → sv_Namespace cr = nn_Namespace key.
Proof. by intros <-. Qed.

Hint Resolve own_job_key own_ns : core.

Lemma stays_write cr doing result h : cr_key cr = key → stays (write_and_return cr doing result) h.
Proof. intros Hk. split; [done|]. by intros [?|?] _. Qed.

Lemma stays_eventf cr ty reason msg h : cr_key cr = key → stays (eventf r cr ty reason msg) h.
Proof. intros Hk. unfold eventf. case_match; [by split|done]. Qed.

Lemma stays_count cr alert h : cr_key cr = key → stays (count_failure cr alert) h.
Proof. intros Hk. split; [done|]. intros ? _. by split. Qed.

Lemma stays_reads {A B} (p : M A) (f : A → M B) h :
  only_calls (own key) p → (∀ a h, stays (f a) h) → stays (p ≫= f) h.
Proof.
  intros Hp Hf. apply wp_bind. apply (wp_only_calls _ _ (own key)); [done|done|]. intros l a _ _. apply Hf.
Qed.

(** What a first part returns, given what is known of answers. *)
Lemma stays_post {A B} (Q : A → Prop) (p : M A) (f : A → M B) h :
  wp (λ _ c, own key c) located p h (λ _ a, Q a) → (∀ a h, Q a → stays (f a) h) → stays (p ≫= f) h.
Proof. intros Hp Hf. apply wp_bind. eapply wp_mono; [exact Hp|]. intros h' a Ha. by apply Hf. Qed.

Lemma stays_event {B} cr ty reason msg (f : unit → M B) h : cr_key cr = key →
  (∀ a h, stays (f a) h) → stays (eventf r cr ty reason msg ≫= f) h.
Proof. intros ? ?. apply stays_bind; [|done]. intros. by apply stays_eventf. Qed.

(** An announced failure. *)
Lemma stays_fail cr cr' reason msg alert doing result h : cr_key cr = key → cr_key cr' = key →
  stays (_ ← eventf r cr EventTypeWarning reason msg; _ ← count_failure cr alert; write_and_return cr' doing result) h.
Proof.
  intros Hk Hk'. apply stays_event; [done|]. intros _ h1. apply stays_bind; [intros; by apply stays_count|].
  intros _ h2. by apply stays_write.
Qed.

Lemma stays_failTargetUnresolvable cr e h : cr_key cr = key → stays (failTargetUnresolvable r cr e) h.
Proof. intros. by apply stays_fail. Qed.

Lemma stays_failTargetNotReady cr n t h : cr_key cr = key → stays (failTargetNotReady r cr n t) h.
Proof. intros. by apply stays_fail. Qed.

Lemma stays_failScheduleInvalid cr e h : cr_key cr = key → stays (failScheduleInvalid r cr e) h.
Proof. intros. by apply stays_fail. Qed.

Lemma stays_failTLSCABundle cr msg rec h : cr_key cr = key → stays (failTLSCABundle r cr msg rec) h.
Proof. intros. by apply stays_fail. Qed.

Ltac reads :=
  repeat first
    [ done
    | apply only_calls_bind
    | split; [by first [apply own_ns | done]|]
    | progress intros
    | case_match ].

Lemma targetSelector_own cr : cr_key cr = key → only_calls (own key) (targetSelector cr).
Proof. intros Hk. unfold targetSelector. reads. Qed.

Lemma targetPodsReady_own cr : cr_key cr = key → only_calls (own key) (targetPodsReady cr).
Proof. intros Hk. unfold targetPodsReady. apply only_calls_bind; [by apply targetSelector_own|]. reads. Qed.

Lemma resolveTargetURL_own cr : cr_key cr = key → only_calls (own key) (resolveTargetURL cr).
Proof. intros Hk. unfold resolveTargetURL, discoverProbe, targetObject. reads. Qed.

Lemma buildLoadgenJob_own cr url : only_calls (own key) (buildLoadgenJob r cr url).
Proof. unfold buildLoadgenJob, observerArgs. reads. Qed.

Lemma stays_validateTLSCABundle cr h : cr_key cr = key → stays (validateTLSCABundle r cr) h.
Proof.
  intros Hk. unfold validateTLSCABundle. destruct (caBundleRef cr) as [ref|]; [|done].
  assert (Hfail : ∀ msg rec h, stays (f ← failTLSCABundle r cr msg rec;
    match f with Err e => mret (Err e) | Ok _ => mret (Ok true) end) h).
  { intros. apply stays_bind; [intros; by apply stays_failTLSCABundle|]. by intros [?|?] ?. }
  apply stays_call; [by apply own_ns|]. intros [data|e] _; case_match; done || apply Hfail.
Qed.

Lemma stays_create_job cr job url h : cr_key cr = key → job_key job = own_job key → stays (create_job r cr job url) h.
Proof.
  intros Hk Hj. unfold create_job. destruct (SetControllerReference _ _) as [meta|e] eqn:Hm; [|done].
  destruct (controller_ref _ _ _ Hm) as (Hn & Hns & _).
  apply stays_call; [cbn [own]; rewrite <- Hj; unfold job_key; simpl; congruence|]. intros [[]|e] _; [|done].
  apply stays_event; [done|]. intros _ h1. apply stays_call; [done|]. intros now _. by apply stays_write.
Qed.

Lemma stays_spawnJob cr h : cr_key cr = key → stays (spawnJob r cr) h.
Proof.
  intros Hk. unfold spawnJob.
  assert (Hend : ∀ e reason msg h, stays (if err_unresolvable e then failTargetUnresolvable r cr e
    else setTerminalPhase cr PhaseError reason msg) h).
  { intros. case_match; [by apply stays_failTargetUnresolvable|by apply stays_write]. }
  apply stays_reads; [by apply resolveTargetURL_own|]. intros [url|e] h1; [|apply Hend].
  apply stays_bind; [intros; by apply stays_validateTLSCABundle|]. intros [[]|e] h2; [done| |done].
  apply wp_bind. apply (wp_only_calls _ _ (own key)); [done|apply buildLoadgenJob_own|].
  intros l [job|e] Hrun _; [|apply Hend]. destruct (returns_runs _ _ _ _ _ Hrun (build_job_result r cr url _) job eq_refl)
    as (Hn & Hns & _). apply stays_create_job; [done|]. unfold job_key. rewrite Hn, Hns. by apply own_job_key.
Qed.

Lemma count_alerts_own cr ds : cr_key cr = key → only_calls (own key) (count_alerts cr ds).
Proof. intros Hk. induction ds; simpl; [done|]. split; [done|]. by intros. Qed.

Lemma recordRunMetrics_own cr report : cr_key cr = key → only_calls (own key) (recordRunMetrics cr report).
Proof.
  intros Hk. pose proof (count_alerts_own cr (rp_Diagnostics report) Hk). unfold recordRunMetrics. reads.
Qed.

Lemma finished_cr_key now report cr : cr_key (finished_cr now report cr) = cr_key cr.
Proof. unfold finished_cr. by destruct (finishedVerdict _ _ _ _) as [[??]?]. Qed.

Lemma findJobPod_ns cr h : cr_key cr = key → wp (λ _ c, own key c) located (findJobPod cr) h
  (λ _ p, ∀ pod, p = Ok (Some pod) → pod_Namespace pod = nn_Namespace key).
Proof.
  intros Hk. pose proof (own_ns _ Hk) as Hns. apply wp_call; [done|]. intros [[|p pods]|e] Hl; try done.
  intros pod [= <-]. apply Forall_cons in Hl as [Hl _]. congruence.
Qed.

Lemma stays_finishRun cr h : cr_key cr = key → stays (finishRun r cr) h.
Proof.
  intros Hk. unfold finishRun.
  assert (Herr : ∀ ev msg h, stays (report_unreadable r cr ev msg) h).
  { intros. apply stays_event; [done|]. intros. by apply stays_write. }
  eapply stays_post; [by apply findJobPod_ns|]. intros [[pod|]|e] h1 Hp; [|apply Herr|done].
  case_match; [done|]. apply stays_reads; [split; [by apply Hp|by intros [?|?]]|]. intros [raw|e] h2; [|apply Herr].
  destruct (ParseReportLog raw) as [report|e]; [|apply Herr]. apply stays_call; [done|]. intros now _.
  apply (stays_post (λ w, ∀ cr', w = Ok cr' → cr_key cr' = key)).
  { split; [by cbn [own]; rewrite finished_cr_key|]. intros [w|e] Hl; [|done]. intros cr' [= <-].
    simpl in Hl. by rewrite finished_cr_key, Hk in Hl. }
  intros [cr'|e] h3 Hw; [|done]. specialize (Hw _ eq_refl). apply stays_reads; [by apply recordRunMetrics_own|].
  intros _ h4. apply stays_bind; [|done]. intros. unfold emitVerdictEvent. case_match; by apply stays_eventf.
Qed.
Lemma stays_startNextRun cr h : cr_key cr = key → stays (startNextRun r cr) h.
Proof.
  intros Hk. unfold startNextRun. apply stays_call; [by apply own_job_key|]. intros [job|e] Hl.
  - simpl in Hl. rewrite own_job_key in Hl by done. case_match; [done|].
    apply stays_call; [done|]. intros d _. by destruct (delete_failed d).
  - case_match; [done|]. apply stays_event; [done|]. intros. by apply stays_write.
Qed.

Lemma stays_reconcileTerminal cr h : cr_key cr = key → stays (reconcileTerminal r cr) h.
Proof.
  intros Hk. unfold reconcileTerminal. case_match; [by apply stays_write|]. case_match.
  { unfold parkSuspended. case_match; [done|by apply stays_write]. }
  case_match.
  - unfold restartForSpecChange. destruct (parseSchedule cr); [|by apply stays_failScheduleInvalid].
    apply stays_event; [done|]. intros. by apply stays_startNextRun.
  - destruct (parseSchedule cr) as [[sched|]|e]; [|done..]. apply stays_call; [done|]. intros now _.
    case_match; [|by apply stays_startNextRun]. case_decide; [done|by apply stays_write].
Qed.

Lemma targetPods_ns cr h : cr_key cr = key → wp (λ _ c, own key c) located (targetPods cr) h
  (λ _ p, ∀ pods, p = Ok pods → Forall (λ p, pod_Namespace p = nn_Namespace key) pods).
Proof.
  intros Hk. pose proof (own_ns _ Hk) as Hns. apply wp_call; [done|]. intros [deploy|e] _; [|done].
  destruct (LabelSelectorAsSelector _) as [sel|e]; [|done]. apply wp_call; [done|]. intros [pods|e] Hl; [|done].
  intros pods' [= <-]. by rewrite <- Hns.
Qed.

Lemma stays_disrupt cr d start delay pods pick h : cr_key cr = key →
  Forall (λ p, pod_Namespace p = nn_Namespace key) pods → stays (disrupt r cr d start delay pods pick) h.
Proof.
  intros Hk Hpods. unfold disrupt.
  assert (Hrec : ∀ status reason msg h, stays (recordDisruption cr status reason msg) h) by (intros; by apply stays_write).
  pose proof (Chaos.plan_spec (Chaos.mkConfig (dc_InjectPodDeletion d) (dc_MinReplicasForChaos d) delay) start pods pick)
    as [Hplan _]. set (dec := Chaos.Plan _ _ _ _) in *.
  destruct (Chaos.Inject dec); [|apply stays_event; [done|]; intros; apply Hrec].
  destruct (Hplan eq_refl) as (_ & v & others & -> & Hv & _).
  apply stays_call; [by eapply (proj1 (Forall_forall _ _) Hpods)|]. intros del _.
  destruct (delete_failed del); [done|]. apply stays_event; [done|]. intros. apply Hrec.
Qed.

Lemma stays_maybeInjectDisruption cr h : cr_key cr = key → stays (maybeInjectDisruption r cr) h.
Proof.
  intros Hk. unfold maybeInjectDisruption. destruct (sp_Disruption (sv_Spec cr)) as [d|]; [|done].
  case_match; [done|]. destruct (FindStatusCondition _ _); [done|]. apply stays_call; [done|]. intros now _.
  case_match; [done|]. eapply stays_post; [by apply targetPods_ns|]. intros [pods|e] h1 Hp; [|done].
  apply stays_call; [done|]. intros pick _. apply stays_disrupt; [done|by apply Hp].
Qed.

Lemma stays_drain_job cr job h : cr_key cr = key → job_key job = own_job key → stays (drain_job r cr job) h.
Proof.
  intros Hk Hj. unfold drain_job. case_match; [done|]. apply stays_call; [done|]. intros d _.
  destruct (delete_failed d); [done|]. by apply stays_event.
Qed.

Lemma stays_finalize cr h : cr_key cr = key → stays (finalize r cr) h.
Proof.
  intros Hk. unfold finalize. case_match; [done|]. apply stays_call; [by apply own_job_key|]. intros [job|e] Hl.
  - simpl in Hl. rewrite own_job_key in Hl by done.
    apply (stays_post (λ w, ∀ cr', w = Ok cr' → cr_key cr' = key)).
    { case_decide; [by intros cr' [= <-]|]. split; [done|]. intros [w|e] Hw; [|done]. intros cr' [= <-]. by rewrite <- Hk. }
    intros [cr'|e] h1 Hw; [|done]. by apply stays_drain_job; [apply Hw|].
  - case_match; [|done]. apply stays_call; [done|]. by intros [?|?] _.
Qed.

Lemma stays_reconcile_live cr h : cr_key cr = key → stays (reconcile_live r cr) h.
Proof.
  intros Hk. unfold reconcile_live. case_decide; [by apply stays_reconcileTerminal|]. case_decide.
  { destruct (parseSchedule cr); [by apply stays_write|by apply stays_failScheduleInvalid]. }
  apply stays_call; [by apply own_job_key|]. intros [job|e] _.
  - unfold reconcile_job. case_match.
    { apply stays_event; [done|]. intros. apply stays_call; [done|]. intros. by apply stays_write. }
    case_match; [by apply stays_finishRun|by apply stays_maybeInjectDisruption].
  - case_match; [|done]. unfold reconcile_no_job. case_decide.
    { apply stays_event; [done|]. intros. by apply stays_write. }
    apply stays_reads; [by apply targetPodsReady_own|]. intros [[ready n]|e'] h1.
    + case_match; [|by apply stays_spawnJob]. apply stays_call; [done|]. intros now _.
      case_match; [by apply stays_failTargetNotReady|done].
    + case_match; [by apply stays_failTargetUnresolvable|done].
Qed.

Lemma stays_Reconcile : stays (Reconcile r key) [].
Proof.
  apply stays_call; [done|]. intros [cr|e] Hl; [|by case_match]. simpl in Hl.
  case_match; [by apply stays_finalize|]. case_match; [by apply stays_reconcile_live|].
  apply stays_call; [done|]. intros [cr'|e] Hu; [|done]. apply stays_reconcile_live.
  change (cr_key cr' = cr_key cr) in Hu. congruence.
Qed.
End stays.

Section theorem.
Context `{K8sLaws, !PhasesJson, !ReportJson, !Platform}.

Lemma calls_own (r : Reconciler) (key : NamespacedName) (h : history answer) (a : res Result) (e : event answer) :
  runs (Reconcile r key) [] h a → Forall located h → e ∈ h → own key (ev_call e).
Proof.
  intros Hr Hl. destruct e as [c ans]. intros (later & earlier & ->)%list_elem_of_split.
  destruct (wp_sound_nil _ _ _ _ _ _ Hr Hl (stays_Reconcile key r)) as [Hcalls _]. by eapply Hcalls.
Qed.

Lemma own_touches (key : NamespacedName) (c : api) obj : own key c → touches c = Some obj →
  obj = (ScaleValidationKind, key) ∨ obj = (JobKind, own_job key).
Proof. intros Ho Ht. destruct c; try done; injection Ht as <-; simpl in Ho; subst; rewrite ?Ho; auto. Qed.

(** C26: A pass for one validation stays with it: it reads and updates no other validation, its Job
    calls are for the Job of that name, and everything else it looks up, deletes, reports or
    counts is in its namespace or under its name.  So two passes for different validations never
    touch the same validation or Job. *)
Theorem passes_isolated (r : Reconciler) (key : NamespacedName) (h : history answer) (a : res Result) :
  runs (Reconcile r key) [] h a → Forall located h →
  (∀ e, e ∈ h → own key (ev_call e)) ∧
  ∀ r' key' h' a', key' ≠ key → runs (Reconcile r' key') [] h' a' → Forall located h' →
    ∀ e e' obj, e ∈ h → e' ∈ h' → touches (ev_call e) = Some obj → touches (ev_call e') ≠ Some obj.
Proof.
  intros Hr Hl. split; [intros e; by apply (calls_own r key h a)|].
  intros r' key' h' a' Hne Hr' Hl' e e' obj He He' Ht Ht'.
  destruct (own_touches key _ _ (calls_own r key h a e Hr Hl He) Ht) as [->| ->];
    destruct (own_touches key' _ _ (calls_own r' key' h' a' e' Hr' Hl' He') Ht') as [[=]|[=]]; [done|].
  apply Hne, (inj own_job). unfold own_job. congruence.
Qed.

(** In an environment that answers what it is asked for, every answer of a pass is located. *)
Lemma exec_located env (key : NamespacedName) {A} (p : M A) (h : history answer) :
  (∀ h c, own key c → located (Ev c (env h c))) → stays key p h → Forall located h → Forall located (exec env p h).1.
Proof.
  intros He. revert h. induction p as [a|c k IH]; intros h Hp Hh; [done|]. destruct Hp as [Hc Hk].
  apply IH; [by apply Hk, He|]. constructor; [by apply He|done].
Qed.
End theorem.

(** ** Two validations of one target *)

#[local] Existing Instance SimpleLib.
#[local] Existing Instance sample_codec.
#[local] Existing Instance sample_phases.
#[local] Existing Instance sample_platform.

(** A second validation of the same Deployment. *)
Definition twin_key : NamespacedName := mkKey "prod" "api".

Definition twin : ScaleValidation :=
  mkSV (mkMeta "api" "prod" 1 0 None ∅ ∅ [] [scaleValidationFinalizer]) (sv_Spec pending) (sv_Status pending).

Lemma starting_located cr key : cr_key cr = key → nn_Namespace key = "prod" →
  Forall located (exec (sample_env cr (Err not_found) [target_pod "a"; target_pod "b"] Second true)
    (Reconcile sample_reconciler key) []).1.
Proof.
  intros Hk Hns. apply (exec_located _ key); [|apply stays_Reconcile|done].
  intros h [] Ho; simpl in *; try done; [congruence|]. rewrite Ho, Hns. by repeat constructor.
Qed.

Definition twin_pass : history answer * res Result :=
  exec (sample_env twin (Err not_found) [target_pod "a"; target_pod "b"] Second true) (Reconcile sample_reconciler twin_key) [].

Lemma passes_isolated_witness :
  changes (run_pass starting_env).1 = ["create job web-loadgen"; "status Running"] ∧
  changes twin_pass.1 = ["create job api-loadgen"; "status Running"] ∧
  ∀ e e' obj, e ∈ (run_pass starting_env).1 → e' ∈ twin_pass.1 →
    touches (ev_call e) = Some obj → touches (ev_call e') ≠ Some obj.
Proof.
  assert (Forall located (run_pass starting_env).1) as Hl by by apply starting_located.
  assert (Forall located twin_pass.1) as Hl' by by apply starting_located.
  assert (runs (Reconcile sample_reconciler sample_key) [] (run_pass starting_env).1 (run_pass starting_env).2) as Hr
    by exact (exec_runs starting_env (Reconcile sample_reconciler sample_key) []).
  assert (runs (Reconcile sample_reconciler twin_key) [] twin_pass.1 twin_pass.2) as Hr'
    by exact (exec_runs _ (Reconcile sample_reconciler twin_key) []).
  assert (twin_key ≠ sample_key) as Hne by done.
  split; [vm_compute; reflexivity|]. split; [vm_compute; reflexivity|].
  exact (proj2 (passes_isolated sample_reconciler sample_key _ _ Hr Hl) sample_reconciler twin_key _ _ Hne Hr' Hl').
Defined.
