(* ===== verification/ApiServer.v ===== *)
(** * Concurrent passes on a versioned API server

    The reconciler relies on the API server's optimistic concurrency: every stored version of an
    object has a resourceVersion, and an update is accepted only when it is based on the stored
    one.  Here any number of passes, for any objects, interleave call by call with users and with
    each other on such a server.  Reads may be stale (they come from a cache), an update may be
    applied although its answer is lost, and a pass may stop anywhere (it is not scheduled any
    more).  What Guarantees.v assumes of the answers to updates is derived here. *)

From S2P Require Import Chaos.
From S2P Require Import Prelude GoText Api K8s Effects Cluster Target.
From S2P Require Import LoadPhase LoadProfile LoadgenJob Report Status Lifecycle Controller Refinement Guarantees Scenarios Isolation.

Open Scope Z_scope.

#[export] Instance namespaced_name_countable : Countable NamespacedName.
Proof.
  refine (inj_countable' (λ k, (nn_Namespace k, nn_Name k)) (λ p, mkKey p.1 p.2) _). by intros [].
Defined.

(** ** The store *)

(** The revision of the latest write, the stored objects with their resourceVersions, and every
    version that was ever stored. *)
Record store := mkStore {
  sr_rev : nat;
  sr_live : gmap NamespacedName (nat * ScaleValidation);
  sr_log : list (nat * ScaleValidation)
}.

Definition empty_store : store := mkStore 0 ∅ [].

Definition put (s : store) (cr : ScaleValidation) : store :=
  let n := S (sr_rev s) in mkStore n (<[ cr_key cr := (n, cr) ]> (sr_live s)) ((n, cr) :: sr_log s).

Definition remove (s : store) (key : NamespacedName) : store :=
  mkStore (sr_rev s) (delete key (sr_live s)) (sr_log s).

(** An update of the status subresource stores the status only, one of the object everything
    else. *)
Definition with_status (new old : ScaleValidation) : ScaleValidation := mkSV (sv_Meta old) (sv_Spec old) (sv_Status new).

Definition with_object (new old : ScaleValidation) : ScaleValidation := mkSV (sv_Meta new) (sv_Spec new) (sv_Status old).

(** The object that an update based on version [base] replaces. *)
Definition replaces (s : store) (base : option nat) (key : NamespacedName) : option ScaleValidation :=
  match sr_live s !! key with
  | Some (v, old) => if decide (base = Some v) then Some old else None
  | None => None
  end.

Section server.
Context `{K8sLib}.

(** An update is applied and answered, applied without the answer arriving, or refused. *)
Inductive updates (s : store) (base : option nat) (key : NamespacedName) (merge : ScaleValidation → ScaleValidation) :
    res ScaleValidation → store → option nat → Prop :=
| up_answered old : replaces s base key = Some old →
    updates s base key merge (Ok (merge old)) (put s (merge old)) (Some (S (sr_rev s)))
| up_lost old e : replaces s base key = Some old → updates s base key merge (Err e) (put s (merge old)) base
| up_refused e : updates s base key merge (Err e) s base.

(** A call of a pass whose variable holds version [base]: its answer, the store and the version it
    holds afterwards.  Only ScaleValidations are stored here; other calls may answer anything that is
    about what was asked for. *)
Definition serves (s : store) (base : option nat) (c : api) : answer c → store → option nat → Prop :=
  match c as c return answer c → store → option nat → Prop with
  | GetCR key => λ r s' base', s' = s ∧
      match r with
      | Ok cr => cr_key cr = key ∧ ∃ v, base' = Some v ∧ (v, cr) ∈ sr_log s
      | Err _ => base' = base
      end
  | UpdateStatus new => updates s base (cr_key new) (with_status new)
  | UpdateCR new => updates s base (cr_key new) (with_object new)
  | c => λ r s' base', located (Ev c r) ∧ s' = s ∧ base' = base
  end.

(** ** The world *)

Record thread := mkThread {
  th_key : NamespacedName;
  th_prog : M (res Result);
  th_hist : history answer;
  th_base : option nat
}.

Record world := mkWorld { w_store : store; w_threads : list thread }.

(** A thread makes its next call. *)
Inductive pass_step (key : NamespacedName) : world → world → Prop :=
| p_call s ts i c k h base r s' base' :
    ts !! i = Some (mkThread key (Call c k) h base) → serves s base c r s' base' →
    pass_step key (mkWorld s ts) (mkWorld s' (<[ i := mkThread key (k r) (Ev c r :: h) base' ]> ts)).
End server.

Section steps.
Context `{K8sLib, !PhasesJson, !ReportJson, !Platform}.

(** A user creates, changes or removes an object, or the work queue starts a pass. *)
Inductive world_moves (r : Reconciler) : world → world → Prop :=
| m_create s ts cr : sr_live s !! cr_key cr = None → created cr →
    world_moves r (mkWorld s ts) (mkWorld (put s cr) ts)
| m_user s ts v old new : sr_live s !! cr_key old = Some (v, old) → user_step old new → cr_key new = cr_key old →
    world_moves r (mkWorld s ts) (mkWorld (put s new) ts)
| m_remove s ts key : world_moves r (mkWorld s ts) (mkWorld (remove s key) ts)
| m_begin s ts key : world_moves r (mkWorld s ts) (mkWorld s (ts ++ [mkThread key (Reconcile r key) [] None]))
| m_pass key w w' : pass_step key w w' → world_moves r w w'.

Definition empty_world : world := mkWorld empty_store [].

(** The worlds that can come about. *)
Definition comes_about (r : Reconciler) (w : world) : Prop := rtc (world_moves r) empty_world w.
End steps.

(** ** What holds of every world *)

Section refinement.
Context `{K8sLaws, !PhasesJson, !ReportJson, !Platform}.

Record store_inv (s : store) : Prop := {
  si_live : ∀ key v cr, sr_live s !! key = Some (v, cr) → cr_key cr = key ∧ (v, cr) ∈ sr_log s;
  si_rev : ∀ v cr, (v, cr) ∈ sr_log s → (v <= sr_rev s)%nat;
  si_version : ∀ v cr cr', (v, cr) ∈ sr_log s → (v, cr') ∈ sr_log s → cr = cr';
  si_reachable : ∀ v cr, (v, cr) ∈ sr_log s → reachable cr
}.

(** The variable of a pass holds the version it goes by. *)
Definition holds (s : store) (key : NamespacedName) (h : history answer) (base : option nat) : Prop :=
  match base with
  | None => current_cr h = None
  | Some v => ∃ cr, current_cr h = Some cr ∧ (v, cr) ∈ sr_log s ∧ cr_key cr = key
  end.

Record thread_inv (s : store) (t : thread) : Prop := {
  ti_stays : stays (th_key t) (th_prog t) (th_hist t);
  ti_safe : wp guard stored (th_prog t) (th_hist t) (λ _ _, True);
  ti_holds : holds s (th_key t) (th_hist t) (th_base t)
}.

Record world_inv (w : world) : Prop := {
  wi_store : store_inv (w_store w);
  wi_threads : Forall (thread_inv (w_store w)) (w_threads w)
}.

(** What a pass may make of a stored object: a status update of the lifecycle machine, or the change
    of a finalizer; never of the spec, nor of the deletion. *)
Definition pass_write (old new : ScaleValidation) : Prop :=
  sv_Spec new = sv_Spec old ∧ om_DeletionTimestamp (sv_Meta new) = om_DeletionTimestamp (sv_Meta old) ∧
  cr_key new = cr_key old ∧ (status_write old new ∨ user_step old new).

(** The effect of a call of a pass for [key]: one write of that object, of which it held the stored
    version, or none. *)
Definition pass_effect (key : NamespacedName) (s s' : store) : Prop :=
  s' = s ∨ ∃ v old new, sr_live s !! key = Some (v, old) ∧ pass_write old new ∧ s' = put s new.

Lemma store_inv_empty : store_inv empty_store.
Proof. split; simpl; intros *; try (by intros ?%elem_of_nil). by rewrite lookup_empty. Qed.

Lemma store_inv_put s cr : store_inv s → reachable cr → store_inv (put s cr).
Proof.
  intros [Hl Hr Hv Hreach] Hcr. split; simpl.
  - intros key v cr'. rewrite lookup_insert_Some. intros [[<- [= <- <-]]|[_ Hk]]; [split; [done|left]|].
    destruct (Hl _ _ _ Hk). split; [done|by right].
  - intros v cr' [[= -> _]|Hin]%elem_of_cons; [done|]. apply Hr in Hin. lia.
  - intros v cr1 cr2 [[= -> ->]|Hin1]%elem_of_cons [E2|Hin2]%elem_of_cons.
    + by injection E2.
    + apply Hr in Hin2. lia.
    + injection E2 as -> ->. apply Hr in Hin1. lia.
    + by apply (Hv v).
  - intros v cr' [[= _ ->]|Hin]%elem_of_cons; [done|]. by apply (Hreach v).
Qed.

Lemma store_inv_remove s key : store_inv s → store_inv (remove s key).
Proof. intros [Hl Hr Hv Hreach]. split; simpl; try done. intros k v cr [_ Hk]%lookup_delete_Some. by apply Hl. Qed.

Lemma holds_mono s s' key h base : sr_log s ⊆ sr_log s' → holds s key h base → holds s' key h base.
Proof. intros Hs. destruct base as [v|]; [|done]. intros (cr & Hcr & Hin & Hk). exists cr. split_and!; auto. Qed.

Lemma thread_inv_mono s s' t : sr_log s ⊆ sr_log s' → thread_inv s t → thread_inv s' t.
Proof. intros Hs [? ? Hh]. split; [done..|]. by eapply holds_mono. Qed.

Lemma log_put s cr : sr_log s ⊆ sr_log (put s cr).
Proof. intros x Hx. by right. Qed.

Lemma effect_log key s s' : pass_effect key s s' → sr_log s ⊆ sr_log s'.
Proof. intros [->|(v & old & new & _ & _ & ->)]; [done|apply log_put]. Qed.

Lemma pass_write_world old new : pass_write old new → world_step old new.
Proof. intros (_ & _ & _ & [Hs|Hu]); [by apply w_status|by apply w_user]. Qed.

Lemma effect_inv key s s' : store_inv s → pass_effect key s s' → store_inv s'.
Proof.
  intros Hs [->|(v & old & new & Hl & Hw & ->)]; [done|]. apply store_inv_put; [done|].
  eapply r_step; [|by apply pass_write_world]. by eapply (si_reachable s Hs v), (si_live s Hs).
Qed.

Lemma with_status_keeps old new : keeps_identity old new → with_status new old = new.
Proof. unfold with_status. intros [<- <-]. by destruct new. Qed.

Lemma with_object_keeps old new : sv_Status new = sv_Status old → with_object new old = new.
Proof. unfold with_object. intros <-. by destruct new. Qed.

Lemma status_pass_write old new : status_write old new → pass_write old new.
Proof.
  intros Hw. pose proof Hw as [[Hm Hs] _]. unfold pass_write, cr_key, sv_Namespace, sv_Name. rewrite Hm. by auto.
Qed.

Lemma update_pass_write h old new : may_update old new h → pass_write old new.
Proof.
  intros (Hsp & Hst & Hm & _). assert (∀ A (f : ObjectMeta → A), (∀ fs m, f (set_Finalizers fs m) = f m) → f (sv_Meta new) = f (sv_Meta old)) as Hf.
  { intros A f Hf. by rewrite Hm, Hf. }
  unfold pass_write, cr_key, sv_Namespace, sv_Name. rewrite !Hf by done. split_and!; try done. right.
  apply u_meta; try done; unfold sv_Generation, live; by rewrite Hf.
Qed.

(** ** One call *)

(** An accepted update replaces the object that the pass last got. *)
Lemma replaces_current s key h base k old : store_inv s → holds s key h base → replaces s base k = Some old →
  current_cr h = Some old ∧ cr_key old = key ∧ ∃ v, sr_live s !! key = Some (v, old).
Proof.
  intros Hs Hh. unfold replaces. destruct (sr_live s !! k) as [[v old']|] eqn:Hl; [|done].
  case_decide as Hb; [|done]. intros [= ->]. subst base. destruct Hh as (cr & Hcr & Hin & Hkey).
  destruct (si_live s Hs _ _ _ Hl) as [Hk Hlog]. assert (old = cr) as -> by (by apply (si_version s Hs v)).
  split_and!; [done..|]. exists v. by rewrite <- Hkey, Hk.
Qed.

(** Such an update, when it is a write a pass may make and stores what it is sent. *)
Lemma updates_inv s key h base k merge new (res : res ScaleValidation) s' base' : store_inv s → holds s key h base →
  (∀ cr, current_cr h = Some cr → pass_write cr new ∧ merge cr = new) →
  updates s base k merge res s' base' →
  pass_effect key s s' ∧
  match res with
  | Ok cr => cr = new ∧ ∃ v, base' = Some v ∧ (v, cr) ∈ sr_log s' ∧ cr_key cr = key
  | Err _ => base' = base
  end.
Proof.
  intros Hs Hh Hm Hup. destruct Hup as [old Hr|old e Hr|e]; [| |by split; [left|]];
    destruct (replaces_current _ _ _ _ _ _ Hs Hh Hr) as (Hcur & Hk & v & Hl); destruct (Hm _ Hcur) as [Hw ->].
  - split; [right; by exists v, old, new|]. split; [done|]. exists (S (sr_rev s)). split_and!; [done|left|].
    destruct Hw as (_ & _ & -> & _). done.
  - split; [right; by exists v, old, new|done].
Qed.

(** A call of a thread keeps the store and the thread in order, and changes nothing but the
    thread's object. *)
Lemma call_inv s key c (k : answer c → M (res Result)) h base r s' base' :
  store_inv s → thread_inv s (mkThread key (Call c k) h base) → serves s base c r s' base' →
  pass_effect key s s' ∧ thread_inv s' (mkThread key (k r) (Ev c r :: h) base').
Proof.
  intros Hs [[Hown Hstays] [Hg Hk] Hh] Hserve. simpl in Hown, Hstays, Hg, Hk, Hh.
  assert (pass_effect key s s' ∧ stored (Ev c r) ∧ located (Ev c r) ∧ holds s' key (Ev c r :: h) base') as (He & Hst & Hl & Hh').
  2:{ split; [done|]. split; simpl; [by apply Hstays|by apply Hk|done]. }
  assert (Hother : located (Ev c r) ∧ s' = s ∧ base' = base → current_cr (Ev c r :: h) = current_cr h →
    pass_effect key s s' ∧ located (Ev c r) ∧ holds s' key (Ev c r :: h) base').
  { intros (? & -> & ->) Hc. split; [by left|]. split; [done|]. unfold holds in *. by rewrite Hc. }
  destruct c as [k0|new|new|cr0|k0|job|job|pod|ns f|ns gvk nm|ns gvk nm|k0|k0|gvk|ns nm ct| | |cr0 ty rs ms|ns nm vd|ns nm al sv|ns nm sc|ns nm sc];
    cbn [serves stored] in *;
    try (destruct (Hother Hserve eq_refl) as (? & ? & ?); by split_and!).
  - simpl in Hown. subst k0. destruct Hserve as [-> Hr]. split; [by left|]. split; [done|]. destruct r as [cr|e].
    + destruct Hr as (Hkey & v & -> & Hin). split; [done|]. by exists cr.
    + subst base'. by split.
  - destruct Hg as (cr & Hcr & Hw). destruct (updates_inv s key h base (cr_key new) (with_object new) new r s' base')
      as [He Hr]; [done..| |done|].
    { intros cr1 Hcr1. rewrite Hcr in Hcr1. injection Hcr1 as <-. split; [by eapply update_pass_write|].
      apply with_object_keeps. by destruct Hw as (_ & ? & _). }
    split; [done|]. destruct r as [cr1|e].
    + destruct Hr as (-> & v & -> & Hin & Hkey). split; [done|]. split; [done|]. by exists new.
    + subst base'. do 2 (split; [done|]). by eapply (holds_mono s), Hh; eapply effect_log.
  - destruct Hg as (cr & Hcr & Hw). destruct (updates_inv s key h base (cr_key new) (with_status new) new r s' base')
      as [He Hr]; [done..| |done|].
    { intros cr1 Hcr1. rewrite Hcr in Hcr1. injection Hcr1 as <-. split; [by apply status_pass_write|].
      by apply with_status_keeps, Hw. }
    split; [done|]. destruct r as [cr1|e].
    + destruct Hr as (-> & v & -> & Hin & Hkey). split; [done|]. split; [done|]. by exists new.
    + subst base'. do 2 (split; [done|]). by eapply (holds_mono s), Hh; eapply effect_log.
Qed.

Lemma pass_step_inv key w w' : world_inv w → pass_step key w w' →
  world_inv w' ∧ pass_effect key (w_store w) (w_store w').
Proof.
  intros [Hs Ht] Hstep. destruct Hstep as [s ts i c k h base r s' base' Hi Hserve]. simpl in *.
  pose proof (proj1 (Forall_lookup _ _) Ht _ _ Hi) as Hthread.
  destruct (call_inv s key c k h base r s' base' Hs Hthread Hserve) as [He Hnew].
  split; [|done]. split; simpl; [by eapply effect_inv|]. apply Forall_insert; [|done].
  eapply Forall_impl; [exact Ht|]. intros t. eapply thread_inv_mono. by eapply effect_log.
Qed.

Lemma world_inv_put s ts cr : world_inv (mkWorld s ts) → reachable cr → world_inv (mkWorld (put s cr) ts).
Proof.
  intros [Hs Ht] Hr. split; simpl; [by apply store_inv_put|].
  eapply Forall_impl; [exact Ht|]. intros t. apply thread_inv_mono, log_put.
Qed.

Lemma world_moves_inv r w w' : world_inv w → world_moves r w w' → world_inv w'.
Proof.
  intros Hw Hm. destruct Hm as [s ts cr Hl Hc|s ts v old new Hl Hu Hk|s ts key|s ts key|key w w' Hp].
  - apply world_inv_put; [done|]. by apply r_created.
  - apply world_inv_put; [done|]. pose proof (wi_store _ Hw) as Hs. simpl in Hs.
    eapply r_step; [|by apply w_user]. eapply (si_reachable s Hs v), (si_live s Hs), Hl.
  - destruct Hw as [Hs Ht]. split; [by apply store_inv_remove|].
    eapply Forall_impl; [exact Ht|]. intros t. by apply thread_inv_mono.
  - destruct Hw as [Hs Ht]. split; [done|]. apply Forall_app. split; [done|]. constructor; [|constructor].
    split; [apply stays_Reconcile|apply Reconcile_safe|done].
  - by apply (pass_step_inv key w w').
Qed.

Lemma comes_about_inv r w : comes_about r w → world_inv w.
Proof.
  unfold comes_about. intros Hr.
  assert (world_inv empty_world) as Hw by (split; [apply store_inv_empty|constructor]).
  revert Hw. induction Hr as [|x y z Hxy _ IH]; [done|]. intros Hx. by eapply IH, world_moves_inv.
Qed.

(** C2: Whatever the interleaving of passes, users and the work queue on a versioned API server, with
    stale reads, lost answers, conflicts and passes that stop anywhere: every version ever stored
    of any object is one the lifecycle machine reaches, so the invariant holds of it.  And a call
    of a pass for [key] leaves every other object alone and changes its own only by a write of the
    lifecycle machine or of the finalizers from exactly the stored version: it never undoes an
    edit of the spec or a deletion, and never brings a removed object back. *)
Theorem api_server_refines_lifecycle (r : Reconciler) (w : world) : comes_about r w →
  (∀ v cr, (v, cr) ∈ sr_log (w_store w) → reachable cr ∧ lifecycle_inv cr) ∧
  (∀ key w', pass_step key w w' → pass_effect key (w_store w) (w_store w')).
Proof.
  intros Hw%comes_about_inv. split.
  - intros v cr Hin. pose proof (si_reachable _ (wi_store _ Hw) _ _ Hin) as Hr. split; [done|by apply reachable_inv].
  - intros key w' Hp. by apply (pass_step_inv key w w').
Qed.
End refinement.

(** ** A race *)

#[local] Existing Instance SimpleLib.
#[local] Existing Instance sample_codec.
#[local] Existing Instance sample_phases.
#[local] Existing Instance sample_platform.

(** A server that answers at once, from the stored objects. *)
Definition serve_update (s : store) (base : option nat) (key : NamespacedName)
    (merge : ScaleValidation → ScaleValidation) : res ScaleValidation * store * option nat :=
  match replaces s base key with
  | Some old => (Ok (merge old), put s (merge old), Some (S (sr_rev s)))
  | None => (Err conflict, s, base)
  end.

Definition serve (s : store) (base : option nat) (c : api) : answer c * store * option nat :=
  match c as c return answer c * store * option nat with
  | GetCR key => match sr_live s !! key with Some (v, cr) => (Ok cr, s, Some v) | None => (Err not_found, s, base) end
  | UpdateCR new => serve_update s base (cr_key new) (with_object new)
  | UpdateStatus new => serve_update s base (cr_key new) (with_status new)
  | c => (sample_env fresh (Err not_found) [] 0 true [] c, s, base)
  end.

Lemma serve_update_updates s base key merge :
  let '(r, s', base') := serve_update s base key merge in updates s base key merge r s' base'.
Proof. unfold serve_update. destruct (replaces s base key) eqn:Hr; [by apply up_answered|apply up_refused]. Qed.

Lemma serve_serves s base c : store_inv s → let '(r, s', base') := serve s base c in serves s base c r s' base'.
Proof.
  intros Hs. destruct c as [key|new|new|?|?|?|?|?|? ?|? ? ?|? ? ?|?|?|?|? ? ?| | |? ? ? ?|? ? ?|? ? ? ?|? ? ?|? ? ?];
    try done; try apply serve_update_updates; try (by split_and!; repeat constructor).
  simpl. destruct (sr_live s !! key) as [[v cr]|] eqn:Hl; [|done]. destruct (si_live s Hs _ _ _ Hl) as [Hk Hin].
  split; [done|]. split; [done|]. by exists v.
Qed.

(** What happens next: a user edits the spec, a pass begins, or a pass makes its next call. *)
Inductive action :=
| Edit (key : NamespacedName) (spec : ScaleValidationSpec)
| Begin (key : NamespacedName)
| Step (i : nat).

Definition bump (m : ObjectMeta) : ObjectMeta :=
  mkMeta (om_Name m) (om_Namespace m) (om_Generation m + 1) (om_CreationTimestamp m) (om_DeletionTimestamp m)
    (om_Labels m) (om_Annotations m) (om_OwnerReferences m) (om_Finalizers m).

Definition act (w : world) (a : action) : world :=
  let s := w_store w in
  match a with
  | Edit key spec =>
      match sr_live s !! key with
      | Some (v, old) => mkWorld (put s (mkSV (bump (sv_Meta old)) spec (sv_Status old))) (w_threads w)
      | None => w
      end
  | Begin key => mkWorld s (w_threads w ++ [mkThread key (Reconcile sample_reconciler key) [] None])
  | Step i =>
      match w_threads w !! i with
      | Some (mkThread key (Call c k) h base) =>
          let '(r, s', base') := serve s base c in
          mkWorld s' (<[ i := mkThread key (k r) (Ev c r :: h) base' ]> (w_threads w))
      | _ => w
      end
  end.

Lemma act_comes_about w a : comes_about sample_reconciler w → comes_about sample_reconciler (act w a).
Proof.
  intros Hw. pose proof (wi_store _ (comes_about_inv _ _ Hw)) as Hs. destruct w as [s ts]. simpl in Hs.
  destruct a as [key spec|key|i]; simpl.
  - destruct (sr_live s !! key) as [[v old]|] eqn:Hl; [|done]. destruct (si_live s Hs _ _ _ Hl) as [Hk _].
    eapply rtc_r; [exact Hw|]. apply (m_user _ _ _ v old); [by rewrite Hk| |done].
    apply u_edit; try done. unfold sv_Generation. simpl. lia.
  - eapply rtc_r; [exact Hw|]. apply m_begin.
  - destruct (ts !! i) as [[key [a|c k] h base]|] eqn:Hi; [done| |done].
    pose proof (serve_serves s base c Hs) as Hserve. destruct (serve s base c) as [[r s'] base'].
    eapply rtc_r; [exact Hw|]. apply (m_pass _ key). by eapply p_call.
Qed.

Definition acts (w : world) (l : list action) : world := fold_left act l w.

Lemma acts_come_about w l : comes_about sample_reconciler w → comes_about sample_reconciler (acts w l).
Proof. revert w. induction l as [|a l IH]; intros w Hw; [done|]. by apply IH, act_comes_about. Qed.

Definition new_world : world := mkWorld (put empty_store fresh) [].

Lemma new_world_comes_about : comes_about sample_reconciler new_world.
Proof. apply rtc_once. by apply m_create. Qed.

(** Two passes read the new object; the first takes the finalizer and the second is refused it; a
    user edits the spec, so the first is refused its status; a third pass goes through. *)
Definition race : world :=
  acts new_world
    ([Begin sample_key; Begin sample_key; Step 0; Step 1; Step 0; Step 1; Edit sample_key (sample_spec "@hourly" false);
      Step 0; Begin sample_key; Step 2; Step 2])%nat.

Lemma api_server_refines_lifecycle_witness :
  ((λ x, (x.1, sv_Generation x.2, sv_Phase x.2)) <$> sr_log (w_store race)
    = [(4%nat, 2, PhasePending); (3%nat, 2, ""); (2%nat, 1, ""); (1%nat, 1, "")]) ∧
  (∀ v cr, (v, cr) ∈ sr_log (w_store race) → reachable cr ∧ lifecycle_inv cr).
Proof.
  split; [vm_compute; reflexivity|].
  exact (proj1 (api_server_refines_lifecycle sample_reconciler race (acts_come_about _ _ new_world_comes_about))).
Defined.
