(* ===== verification/EndToEnd.v ===== *)
(** * From a new validation to its verdict

    The parts joined: the passes of the reconciler, the Job they create, the observer that its
    container runs, and the log through which the report comes back.  Each pass is against an
    environment of its own, which answers as a healthy cluster does and accepts the writes. *)

From S2P Require Import Chaos.
From S2P Require Import Observer.
From S2P Require Import Prelude GoText Flags Api K8s Effects Correlation Collector Cluster Target.
From S2P Require Import LoadPhase LoadProfile LoadgenJob Clients Commands Wiring Report Status Lifecycle Controller Refinement Guarantees Scenarios Wakeup.

Open Scope Z_scope.

Section validation.
Context `{K8sLaws, !PhasesJson, !ReportJson, !ReportJsonLaws, !Platform}.
Context `{PflagLaws, Correlation.SortSlice, ResultJson, CAdvisor}.
Context (r : Reconciler) (key : NamespacedName).

Notation environment := (history answer → ∀ c, answer c).

(** Writes are accepted and stored as they are sent. *)
Definition accepts (env : environment) : Prop :=
  ∀ h new, env h (UpdateCR new) = Ok new ∧ env h (UpdateStatus new) = Ok new.

(** The object that a pass leaves in the cluster. *)
Definition leaves (env : environment) (cr : ScaleValidation) : Prop :=
  current_cr (exec env (Reconcile r key) []).1 = Some cr.

(** A validation that is run once, at its creation. *)
Definition one_shot (cr : ScaleValidation) : Prop :=
  sp_Suspend (sv_Spec cr) = false ∧ sp_Schedule (sv_Spec cr) = "".

Lemma one_shot_schedule cr : one_shot cr → is_ok (parseSchedule cr) = true.
Proof. intros [_ Hs]. unfold parseSchedule. by rewrite decide_True. Qed.

(** What the reconciler's lifecycle keeps of the object: it is live, carries the finalizer, and has
    the generation and spec of the one that was created. *)
Record admitted (cr0 cr : ScaleValidation) : Prop := {
  ad_live : live cr;
  ad_finalizer : ContainsFinalizer (om_Finalizers (sv_Meta cr)) scaleValidationFinalizer = true;
  ad_meta : sv_Meta cr = set_Finalizers (om_Finalizers (sv_Meta cr)) (sv_Meta cr0);
  ad_spec : sv_Spec cr = sv_Spec cr0
}.

Lemma admitted_keeps cr0 cr cr' : admitted cr0 cr → keeps_identity cr cr' → admitted cr0 cr'.
Proof. intros [Hl Hf Hm Hs] [Hme Hsp]. unfold live in *. split; unfold live; congruence. Qed.

Lemma admitted_namespace cr0 cr : admitted cr0 cr → sv_Namespace cr = sv_Namespace cr0.
Proof. intros [_ _ Hm _]. unfold sv_Namespace. by rewrite Hm. Qed.

Lemma admitted_generation cr0 cr : admitted cr0 cr → sv_Generation cr = sv_Generation cr0.
Proof. intros [_ _ Hm _]. unfold sv_Generation. by rewrite Hm. Qed.

(** ** The first pass *)

Lemma exec_admit (env : environment) (cr0 : ScaleValidation) :
  created cr0 → is_ok (parseSchedule cr0) = true → env [] (GetCR key) = Ok cr0 → accepts env →
  ∃ cr, leaves env cr ∧ admitted cr0 cr ∧ sv_Phase cr = PhasePending.
Proof.
  intros (Hl & _ & Hst) Hs Hread Hacc. unfold leaves, Reconcile. exec_step. rewrite Hread.
  pose proof Hl as Hlive. unfold live in Hlive. rewrite Hlive.
  assert (Hpend : ∀ cr h, sv_Status cr = sv_Status cr0 → sv_Spec cr = sv_Spec cr0 →
    current_cr (exec env (reconcile_live r cr) h).1 = Some (on_Status (set_Phase PhasePending) cr)).
  { intros cr h Hst' Hsp. unfold reconcile_live.
    assert (sv_Phase cr = "") as Hph by (unfold sv_Phase; by rewrite Hst', Hst).
    rewrite Hph. rewrite decide_False by (by intros [|[|]]). rewrite decide_True by done.
    unfold parseSchedule in *. rewrite Hsp. destruct (if decide _ then _ else _); [|done].
    unfold setPhase. rewrite exec_write_return. simpl. by rewrite (proj2 (Hacc _ _)). }
  destruct (ContainsFinalizer _ _) eqn:Hf.
  - rewrite Hpend by done. eexists. split; [done|]. split; [|done]. split; try done. by destruct cr0 as [[]].
  - exec_step. rewrite (proj1 (Hacc _ _)). rewrite Hpend by done. eexists. split; [done|]. split; [|done].
    split; try done. apply contains_add.
Qed.

(** ** The end of the run *)

Lemma finished_cr_done now rep cr :
  terminal (sv_Phase (finished_cr now rep cr)) ∧ keeps_identity cr (finished_cr now rep cr) ∧
  st_ObservedGeneration (sv_Status (finished_cr now rep cr)) = sv_Generation cr.
Proof.
  split; [apply finished_cr_terminal|]. unfold finished_cr.
  by destruct (finishedVerdict _ _ _ _) as [[phase reason] msg].
Qed.

(** ** A run *)

(** A pending validation is started: the pass creates its Job and leaves it Running, and the observer
    of that Job watches the CR's target. *)
Lemma pending_starts (env : environment) (cr0 cr : ScaleValidation) gvk scale selector sel pods mapping missing :
  admitted cr0 cr → sv_Phase cr = PhasePending →
  start_answers env key cr gvk scale selector sel pods mapping missing →
  in_int64 (sp_SLA (sv_Spec cr)) → buildable cr → accepts env →
  ∃ job cr' obs cfg, Ev (CreateJob job) (Ok tt) ∈ (exec env (Reconcile r key) []).1 ∧
    leaves env cr' ∧ admitted cr0 cr' ∧ sv_Phase cr' = PhaseRunning ∧ same_history cr cr' ∧
    js_InitContainers (job_Spec job) = [obs] ∧ observer_main (jc_Args obs) = Ok cfg ∧
    watches_target cr0 gvk mapping (session_config cfg).
Proof.
  intros Ha Hp Hs Hsla Hb Hacc.
  destruct (exec_start r env key cr gvk scale selector sel pods mapping missing) as (job & t0 & h2 & Hh2 & Hin & _ & Hobs);
    [done|apply Ha|by rewrite Hp; split; [|intros [|[|]]]|by rewrite Hp|apply Ha|done..|].
  set (cr' := on_Status (set_Phase PhaseRunning) (on_Status (set_LastRunTime (Some t0)) cr)) in Hh2.
  destruct (js_InitContainers (job_Spec job)) as [|obs [|]] eqn:Hinit; [done| |done]. injection Hobs as Hobs.
  exists job, cr', obs, (observer_config cr gvk mapping). split_and!; try done.
  - rewrite Hh2. by right.
  - unfold leaves. rewrite Hh2, (proj2 (Hacc _ _)). done.
  - by apply (admitted_keeps cr0 cr).
  - rewrite Hobs. by apply observer_main_reads.
  - pose proof (observer_config_watches cr gvk mapping) as Hw. unfold watches_target in *. cbv zeta in *.
    unfold sv_TargetRef in *. by rewrite (ad_spec _ _ Ha), (admitted_namespace _ _ Ha) in Hw.
Qed.

(** A running validation whose Job is complete and whose observer printed [line] gets its verdict. *)
Lemma running_finishes (env : environment) (cr0 cr : ScaleValidation) job pod pods rep line before after tail :
  admitted cr0 cr → sv_Phase cr = PhaseRunning → MarshalReportLine rep = Ok line →
  finish_answers env key cr job pod pods (pod_log before line after tail) → Forall plain_line before → accepts env →
  ∃ now cr', leaves env cr' ∧ admitted cr0 cr' ∧ terminal (sv_Phase cr') ∧ shows rep now (sv_Status cr') ∧
    records_run now cr cr' ∧ st_ObservedGeneration (sv_Status cr') = sv_Generation cr'.
Proof.
  intros Ha Hp Hline Hf Hb Hacc.
  destruct (exec_finish r env key cr job pod pods rep line before after tail) as (now & h3 & l & Hh3 & Hq);
    [done|apply Ha|by rewrite Hp; split; [|intros [|[|]]]|apply Ha|done..|].
  destruct (finished_cr_done now rep cr) as (Hterm & Hkeep & Hgen).
  pose proof (admitted_keeps _ _ _ Ha Hkeep) as Ha'.
  exists now, (finished_cr now rep cr). split_and!; [|done..|apply finished_cr_status| |].
  - unfold leaves. rewrite Hh3, current_quiet by done. simpl. by rewrite (proj2 (Hacc _ _)).
  - apply finished_cr_records.
  - by rewrite Hgen, (admitted_generation _ _ Ha'), (admitted_generation _ _ Ha).
Qed.

(** C3: A validation whose schedule, if it has one, parses gets its first verdict in three passes,
    in a cluster that accepts the writes.  The first pass puts it to Pending.  When its target is
    ready, its probe and CA bundle are there if it asks for them, its load profile translates into
    phases that can be encoded and the API server accepts it as an owner, the second creates its
    Job and puts it to Running, and the command of the observer in that Job reads the arguments
    back as a session on the CR's target with its SLA.  Whenever such an observer exits without an
    error, whatever it saw, it has printed a line; and a pass that finds the Job complete with that
    line in the log of the observer's container, and no marked line before it, ends the validation
    with exactly the printed report in its status.  If the validation is neither scheduled nor
    suspended, the pass after that, and so every further one, only reads the object. *)
Theorem validation_gets_verdict (env1 : environment) (cr0 : ScaleValidation) :
  created cr0 → in_int64 (sp_SLA (sv_Spec cr0)) → is_ok (parseSchedule cr0) = true →
  env1 [] (GetCR key) = Ok cr0 → accepts env1 →
  ∃ cr1, leaves env1 cr1 ∧ admitted cr0 cr1 ∧ sv_Phase cr1 = PhasePending ∧
  ∀ (env2 : environment) gvk scale selector sel pods mapping missing,
    start_answers env2 key cr1 gvk scale selector sel pods mapping missing → buildable cr1 → accepts env2 →
  ∃ job cr2 obs cfg, Ev (CreateJob job) (Ok tt) ∈ (exec env2 (Reconcile r key) []).1 ∧
    leaves env2 cr2 ∧ admitted cr0 cr2 ∧ sv_Phase cr2 = PhaseRunning ∧
    js_InitContainers (job_Spec job) = [obs] ∧ observer_main (jc_Args obs) = Ok cfg ∧
    watches_target cr0 gvk mapping (session_config cfg) ∧
  ∀ (ticks : nat) (hv : history vanswer), runs (observer_run cfg ticks) [] hv (Ok tt) →
  ∃ rep line rest, hv = Ev (VPrintln line) (Ok tt) :: rest ∧ sound_report (session_config cfg) (session_history rest) rep ∧
  ∀ (env3 : environment) job' pod pods' before after tail,
    finish_answers env3 key cr2 job' pod pods' (pod_log before line after tail) →
    Forall plain_line before → accepts env3 →
  ∃ now cr3, leaves env3 cr3 ∧ admitted cr0 cr3 ∧ terminal (sv_Phase cr3) ∧ shows rep now (sv_Status cr3) ∧
  ∀ env4 : environment, one_shot cr0 → env4 [] (GetCR key) = Ok cr3 →
    exec env4 (Reconcile r key) [] = ([Ev (GetCR key) (Ok cr3)], Ok done_result).
Proof.
  intros Hc Hsla Hsch Hread Hacc1.
  destruct (exec_admit env1 cr0) as (cr1 & Hl1 & Ha1 & Hp1); [done..|]. exists cr1. do 3 (split; [done|]).
  intros env2 gvk scale selector sel pods mapping missing Hs Hb Hacc2.
  destruct (pending_starts env2 cr0 cr1 gvk scale selector sel pods mapping missing)
    as (job & cr2 & obs & cfg & Hin & Hl2 & Ha2 & Hp2 & _ & Hobs & Hcfg & Hw); try done; [by rewrite (ad_spec _ _ Ha1)|].
  exists job, cr2, obs, cfg. split_and!; try done.
  intros ticks hv (rep & line & rest & Hhv & Hsound & Hline)%observer_prints_report.
  exists rep, line, rest. do 2 (split; [done|]). intros env3 job' pod pods' before after tail Hf Hplain Hacc3.
  destruct (running_finishes env3 cr0 cr2 job' pod pods' rep line before after tail)
    as (now & cr3 & Hl3 & Ha3 & Hterm & Hshows & _ & Hgen); [done..|].
  exists now, cr3. do 4 (split; [done|]). intros env4 [Hsus Hone] Hread4.
  apply one_shot_left_alone; [|done|by rewrite (ad_spec _ _ Ha3)..].
  split_and!; [done|apply Ha3|apply Ha3|done|].
  rewrite Hgen, (admitted_generation _ _ Ha3). destruct Hc as (_ & Hpos & _). lia.
Qed.
End validation.

(** ** One validation of Deployment web *)

#[local] Existing Instance SimpleLib.
#[local] Existing Instance SimpleFlags.
#[local] Existing Instance sample_phases.
#[local] Existing Instance sample_platform.
#[local] Existing Instance empty_codec.
#[local] Existing Instance example_sort.
#[local] Existing Instance example_cadvisor.
#[local] Existing Instance example_result_json.

Definition pass_of (env : history answer → ∀ c, answer c) : history answer * res Result :=
  exec env (Reconcile sample_reconciler sample_key) [].

Definition waiting : ScaleValidation := on_Status (set_Phase PhasePending) finalized.

Definition env_new := sample_env fresh (Err not_found) [] 0 true.

Definition env_ready := sample_env waiting (Err not_found) [target_pod "a"] Second true.

Definition job_of (e : event answer) : option Job := match ev_call e with CreateJob job => Some job | _ => None end.

Definition web_job : Job := default (sample_job "") (head (omap job_of (pass_of env_ready).1)).

Definition in_progress : ScaleValidation := default waiting (current_cr (pass_of env_ready).1).

Definition web_cfg : Config :=
  observer_config waiting (mkGVK "apps" "v1" "Deployment") (mkGVR "apps" "v1" "deployments").

Definition web_session : history vanswer := (exec example_observer (observer_run web_cfg 3) []).1.

Definition web_line : string := match web_session with Ev (VPrintln line) _ :: _ => line | _ => "" end.

Definition env_over (h : history answer) (c : api) : answer c :=
  match c with
  | PodLog _ _ _ => Ok (pod_log ["observer: watching prod/web"] web_line [] "")
  | c => sample_env in_progress (Ok (sample_job JobComplete)) [observer_pod] (70 * Second) true h c
  end.

Lemma web_job_only job : Ev (CreateJob job) (Ok tt) ∈ (pass_of env_ready).1 → job = web_job.
Proof.
  intros Hin. assert (job ∈ omap job_of (pass_of env_ready).1) as Hj by (apply list_elem_of_omap; by exists (Ev (CreateJob job) (Ok tt))).
  assert (omap job_of (pass_of env_ready).1 = [web_job]) as Heq by (vm_compute; reflexivity).
  rewrite Heq in Hj. by apply list_elem_of_singleton in Hj.
Qed.

Lemma validation_gets_verdict_witness :
  ∃ rep now cr3, current_cr (pass_of env_over).1 = Some cr3 ∧ terminal (sv_Phase cr3) ∧ shows rep now (sv_Status cr3) ∧
    (pass_of (sample_env cr3 (Err not_found) [] (80 * Second) true)).1 = [Ev (GetCR sample_key) (Ok cr3)].
Proof.
  destruct (validation_gets_verdict sample_reconciler sample_key env_new fresh) as (cr1 & Hl1 & _ & _ & H2);
    [by split_and!|done..|].
  assert (Some cr1 = Some waiting) as [= ->] by (rewrite <- Hl1; vm_compute; reflexivity).
  destruct (H2 env_ready (mkGVK "apps" "v1" "Deployment") (Branch [("status", Branch [("selector", Leaf "web")])]) "web"
    {[ "app" := "web" ]} [target_pod "a"] (mkGVR "apps" "v1" "deployments") not_found)
    as (job & cr2 & obs & cfg & Hin & Hl2 & _ & _ & Hobs & Hcfg & _ & H3);
    [by split|split; try done; intros m Hm; simpl; by rewrite decide_True|done|].
  apply web_job_only in Hin as ->.
  assert (Some cr2 = Some in_progress) as [= ->] by (rewrite <- Hl2; vm_compute; reflexivity).
  assert (Ok cfg = Ok web_cfg) as [= ->].
  { rewrite <- Hcfg. apply (f_equal (fmap jc_Args)) in Hobs. injection Hobs as <-. vm_compute. reflexivity. }
  destruct (H3 3%nat web_session) as (rep & line & rest & Hhv & _ & H4).
  { assert (Hok : (exec example_observer (observer_run web_cfg 3) []).2 = Ok tt) by (vm_compute; reflexivity).
    rewrite <- Hok. apply exec_runs. }
  assert (line = web_line) as -> by (unfold web_line; by rewrite Hhv).
  destruct (H4 env_over (sample_job JobComplete) observer_pod [] ["observer: watching prod/web"] [] "")
    as (now & cr3 & Hl3 & _ & Hterm & Hshows & H5); [by split|by repeat constructor|done|].
  exists rep, now, cr3. split_and!; [exact Hl3|exact Hterm|exact Hshows|].
  unfold pass_of. by rewrite (H5 (sample_env cr3 (Err not_found) [] (80 * Second) true)).
Defined.
