(* ===== verification/Lifetime.v ===== *)
(** * After the verdict: the next run, and the end

    EndToEnd.v follows a validation to its first verdict.  Here a finished one is run again, because
    its spec was edited or its schedule is due, and a deleted one is released.  Again each pass is
    against an environment of its own. *)

From S2P Require Import Chaos.
From S2P Require Import Observer.
From S2P Require Import Prelude GoText Flags Api K8s Effects Correlation Collector Cluster Target.
From S2P Require Import LoadPhase LoadProfile LoadgenJob Clients Commands Wiring Report Status Lifecycle Controller Refinement Guarantees Scenarios Wakeup EndToEnd.

Open Scope Z_scope.

Section lifetime.
Context `{K8sLaws, !PhasesJson, !ReportJson, !ReportJsonLaws, !Platform}.
Context `{PflagLaws, Correlation.SortSlice, ResultJson, CAdvisor}.
Context (r : Reconciler) (key : NamespacedName).

Notation environment := (history answer → ∀ c, answer c).

Notation job_key_of cr := (mkKey (sv_Namespace cr) (loadgenJobName cr)).

(** The Job of [cr] is there and not being deleted yet, and can be deleted. *)
Definition job_present (env : environment) (cr : ScaleValidation) (job : Job) : Prop :=
  om_DeletionTimestamp (job_Meta job) = None ∧ ∀ h, env h (GetJob (job_key_of cr)) = Ok job ∧ env h (DeleteJob job) = Ok tt.

Definition job_missing (env : environment) (cr : ScaleValidation) : Prop :=
  ∃ e, IsNotFound e = true ∧ ∀ h, env h (GetJob (job_key_of cr)) = Err e.

(** A finished validation is due for another run: its spec was edited since, or its schedule has an
    activation that has passed. *)
Definition due (env : environment) (cr : ScaleValidation) : Prop :=
  sp_Suspend (sv_Spec cr) = false ∧
  ((sv_Generation cr ≠ st_ObservedGeneration (sv_Status cr) ∧ is_ok (parseSchedule cr) = true) ∨
   (sv_Generation cr = st_ObservedGeneration (sv_Status cr) ∧
    ∃ sched, parseSchedule cr = Ok (Some sched) ∧ ∀ h, CronNext sched (lastRunAnchor cr) <= env h Now)).

(** ** The next run *)

(** The pass gets to [startNextRun] without having changed anything. *)
Lemma exec_due (env : environment) (cr : ScaleValidation) : finished_read env key cr → due env cr →
  ∃ l, exec env (Reconcile r key) [] = exec env (startNextRun r cr) (l ++ [Ev (GetCR key) (Ok cr)]) ∧
    Forall (λ e, quiet (ev_call e)) l.
Proof.
  intros Hr [Hsus Hdue]. rewrite (exec_finished _ _ _ cr) by done. destruct Hr as (_ & _ & _ & _ & Ho).
  unfold reconcileTerminal. destruct (Z.eqb_spec (st_ObservedGeneration (sv_Status cr)) 0); [done|]. rewrite Hsus.
  destruct Hdue as [[Hgen Hok]|(Hgen & sched & Hs & Hnow)].
  - destruct (Z.eqb_spec (sv_Generation cr) (st_ObservedGeneration (sv_Status cr))); [done|]. cbn [negb].
    unfold restartForSpecChange. destruct (parseSchedule cr); [|done]. exec_into.
    match goal with |- context [exec env (eventf ?r ?c ?ty ?rs ?ms) ?h] =>
      destruct (exec_only_calls env quiet (eventf r c ty rs ms) h) as (l & -> & Hl); [auto with quiet|] end.
    by exists l.
  - rewrite Hgen, Z.eqb_refl. cbn [negb]. rewrite Hs. exec_step. set (now := env _ Now).
    assert (CronNext sched (lastRunAnchor cr) <= now) as Hle by apply Hnow.
    destruct (Z.ltb_spec 0 (time_sub (CronNext sched (lastRunAnchor cr)) now)) as [Hw|_].
    { unfold time_sub, minDuration, maxDuration in Hw. lia. }
    exists [Ev Now now]. split; [done|by repeat constructor].
Qed.

(** The old Job is deleted first; the object stays as it is. *)
Lemma exec_clear (env : environment) (cr : ScaleValidation) (job : Job) :
  finished_read env key cr → due env cr → job_present env cr job →
  leaves r key env cr ∧ Ev (DeleteJob job) (Ok tt) ∈ (exec env (Reconcile r key) []).1 ∧
  (exec env (Reconcile r key) []).2 = Ok (mkResult childTerminationRequeue).
Proof.
  intros Hr Hd [Hdel Hj]. destruct (exec_due env cr Hr Hd) as (l & Heq & Hl). unfold leaves. rewrite Heq.
  unfold startNextRun. exec_step. destruct (Hj (l ++ [Ev (GetCR key) (Ok cr)])) as [-> _]. rewrite Hdel.
  exec_step. match goal with |- context [env ?h (DeleteJob job)] => destruct (Hj h) as [_ ->] end.
  simpl. split_and!; [by rewrite current_quiet|left|done].
Qed.

(** Once the Job is gone, the validation is pending again, without the results of the last run. *)
Lemma exec_reset (env : environment) (cr : ScaleValidation) :
  finished_read env key cr → due env cr → job_missing env cr → accepts env →
  ∃ cr', leaves r key env cr' ∧ admitted cr cr' ∧ sv_Phase cr' = PhasePending ∧
    results_clear (sv_Status cr') ∧ same_history cr cr'.
Proof.
  intros Hr Hd (e & He & Hj) Hacc. destruct (exec_due env cr Hr Hd) as (l & Heq & Hl).
  exists (on_Status (set_Phase PhasePending) (resetForNextRun cr)). split_and!; [|split|done..].
  - unfold leaves. rewrite Heq. unfold startNextRun. exec_step. rewrite Hj, He. cbn [negb]. exec_into.
    unfold setPhase. rewrite exec_write_return. simpl. by rewrite (proj2 (Hacc _ _)).
  - apply Hr.
  - apply Hr.
  - by destruct cr as [[]].
  - done.
Qed.
(** C4: A finished validation that is due gets its next verdict: it is not suspended, and either its
    spec was edited since its last run and its schedule, if any, parses, or its schedule has an
    activation that has passed.  The first pass deletes the old Job, leaves the object as it is and
    asks to be repeated; once the Job is gone the next pass puts the validation back to Pending
    with the old results cleared and the history kept.  When its target is ready, its probe and CA
    bundle are there if it asks for them, its load profile translates into phases that can be
    encoded and the API server accepts it as an owner, the third creates a new Job and puts it to
    Running.  A pass that finds that Job complete, with the line that an observer of the Job printed
    in its log and no marked line before it, ends it with exactly that report in the status, as a
    new first entry of the history that was there before, and with its generation observed, so that
    it is not due again for the same edit. *)
Theorem next_verdict (env1 : environment) (cr : ScaleValidation) (job : Job) :
  in_int64 (sp_SLA (sv_Spec cr)) → finished_read env1 key cr → due env1 cr → job_present env1 cr job →
  leaves r key env1 cr ∧ Ev (DeleteJob job) (Ok tt) ∈ (exec env1 (Reconcile r key) []).1 ∧
  (exec env1 (Reconcile r key) []).2 = Ok (mkResult childTerminationRequeue) ∧
  ∀ env2 : environment, finished_read env2 key cr → due env2 cr → job_missing env2 cr → accepts env2 →
  ∃ cr2, leaves r key env2 cr2 ∧ admitted cr cr2 ∧ sv_Phase cr2 = PhasePending ∧
    results_clear (sv_Status cr2) ∧ same_history cr cr2 ∧
  ∀ (env3 : environment) gvk scale selector sel pods mapping missing,
    start_answers env3 key cr2 gvk scale selector sel pods mapping missing → buildable cr2 → accepts env3 →
  ∃ job' cr3 obs cfg, Ev (CreateJob job') (Ok tt) ∈ (exec env3 (Reconcile r key) []).1 ∧
    leaves r key env3 cr3 ∧ admitted cr cr3 ∧ sv_Phase cr3 = PhaseRunning ∧
    js_InitContainers (job_Spec job') = [obs] ∧ observer_main (jc_Args obs) = Ok cfg ∧
  ∀ (ticks : nat) (hv : history vanswer), runs (observer_run cfg ticks) [] hv (Ok tt) →
  ∃ rep line rest, hv = Ev (VPrintln line) (Ok tt) :: rest ∧ sound_report (session_config cfg) (session_history rest) rep ∧
  ∀ (env4 : environment) job'' pod pods' before after tail,
    finish_answers env4 key cr3 job'' pod pods' (pod_log before line after tail) →
    Forall plain_line before → accepts env4 →
  ∃ now cr4, leaves r key env4 cr4 ∧ admitted cr cr4 ∧ terminal (sv_Phase cr4) ∧ shows rep now (sv_Status cr4) ∧
    records_run now cr cr4 ∧ st_ObservedGeneration (sv_Status cr4) = sv_Generation cr4.
Proof.
  intros Hsla Hr Hd Hj. destruct (exec_clear env1 cr job Hr Hd Hj) as (Hl1 & Hdel & Hres). do 3 (split; [done|]).
  intros env2 Hr2 Hd2 Hm Hacc2.
  destruct (exec_reset env2 cr Hr2 Hd2 Hm Hacc2) as (cr2 & Hl2 & Ha2 & Hp2 & Hclear & Hh2).
  exists cr2. do 5 (split; [done|]). intros env3 gvk scale selector sel pods mapping missing Hs Hb Hacc3.
  destruct (pending_starts r key env3 cr cr2 gvk scale selector sel pods mapping missing)
    as (job' & cr3 & obs & cfg & Hin & Hl3 & Ha3 & Hp3 & Hh3 & Hobs & Hcfg & _); try done; [by rewrite (ad_spec _ _ Ha2)|].
  exists job', cr3, obs, cfg. do 6 (split; [done|]).
  intros ticks hv (rep & line & rest & Hhv & Hsound & Hline)%observer_prints_report.
  exists rep, line, rest. do 2 (split; [done|]). intros env4 job'' pod pods' before after tail Hf Hplain Hacc4.
  destruct (running_finishes r key env4 cr cr3 job'' pod pods' rep line before after tail)
    as (now & cr4 & Hl4 & Ha4 & Hterm & Hshows & Hrec & Hgen); [done..|].
  exists now, cr4. split_and!; try done. unfold records_run in *. by rewrite Hrec, Hh3, Hh2.
Qed.

(** ** The end *)

(** A validation under deletion that still carries the finalizer. *)
Definition leaving (env : environment) (cr : ScaleValidation) : Prop :=
  env [] (GetCR key) = Ok cr ∧ ~ live cr ∧
  ContainsFinalizer (om_Finalizers (sv_Meta cr)) scaleValidationFinalizer = true.

Definition released (cr : ScaleValidation) : ScaleValidation :=
  set_Meta (set_Finalizers (RemoveFinalizer (om_Finalizers (sv_Meta cr)) scaleValidationFinalizer) (sv_Meta cr)) cr.

Lemma exec_leaving (env : environment) (cr : ScaleValidation) : leaving env cr →
  exec env (Reconcile r key) [] = exec env (finalize r cr) [Ev (GetCR key) (Ok cr)].
Proof.
  intros (Hr & Hl & _). unfold Reconcile. exec_step. rewrite Hr. unfold live in Hl.
  by destruct (om_DeletionTimestamp (sv_Meta cr)).
Qed.

Lemma set_phase_same (cr : ScaleValidation) (p : Phase) : sv_Phase cr = p → on_Status (set_Phase p) cr = cr.
Proof. unfold on_Status, set_Status. destruct cr as [m s []]. unfold sv_Phase. simpl. by intros ->. Qed.

(** Surfacing the phase: a write unless it is there already. *)
Lemma exec_terminating (env : environment) (cr : ScaleValidation) (h : history answer) : accepts env →
  let terminating := on_Status (set_Phase PhaseTerminating) cr in
  exec env (if decide (sv_Phase cr = PhaseTerminating) then mret (Ok cr) else write_status terminating "set Terminating phase") h
  = (if decide (sv_Phase cr = PhaseTerminating) then h else Ev (UpdateStatus terminating) (Ok terminating) :: h, Ok terminating).
Proof.
  intros Hacc terminating. case_decide as Hp.
  - unfold terminating. by rewrite set_phase_same.
  - unfold write_status. exec_step. by rewrite (proj2 (Hacc _ _)).
Qed.

(** The first pass of a deleted validation whose Job is there. *)
Lemma exec_drain (env : environment) (cr : ScaleValidation) (job : Job) :
  leaving env cr → job_present env cr job → accepts env →
  ∃ l, exec env (Reconcile r key) [] = (l, Ok (mkResult childTerminationRequeue)) ∧
    current_cr l = Some (on_Status (set_Phase PhaseTerminating) cr) ∧ Ev (DeleteJob job) (Ok tt) ∈ l.
Proof.
  intros Hlv [Hdel Hj] Hacc. rewrite (exec_leaving env cr) by done. destruct Hlv as (_ & _ & Hf). unfold finalize. rewrite Hf. cbn [negb].
  exec_step. match goal with |- context [env ?h (GetJob _)] => destruct (Hj h) as [-> _] end.
  exec_into. rewrite exec_terminating by done. cbn [fst snd]. unfold drain_job. rewrite Hdel. exec_step.
  match goal with |- context [env ?h (DeleteJob job)] => destruct (Hj h) as [_ ->] end. cbn [delete_failed].
  exec_into. match goal with |- context [exec env (eventf ?r ?c ?ty ?rs ?ms) ?h] =>
    destruct (exec_only_calls env quiet (eventf r c ty rs ms) h) as (l & -> & Hl); [auto with quiet|] end.
  eexists. split; [done|]. split; [|by apply elem_of_app; right; left].
  rewrite current_quiet by done. simpl. case_decide; [|done]. simpl. by rewrite set_phase_same.
Qed.

(** C5: A validation that is deleted is let go.  While its Job is there, the pass shows Terminating,
    asks for the Job's deletion and comes back; while the Job is going, a pass changes nothing and
    comes back; once it is gone, the pass takes the finalizer off, and changes nothing else of the
    object; after that a pass only reads, whether the object is gone or kept by others. *)
Theorem deleted_is_released (env1 : environment) (cr : ScaleValidation) (job : Job) :
  leaving env1 cr → job_present env1 cr job → accepts env1 →
  let cr1 := on_Status (set_Phase PhaseTerminating) cr in
  leaves r key env1 cr1 ∧ Ev (DeleteJob job) (Ok tt) ∈ (exec env1 (Reconcile r key) []).1 ∧
  (exec env1 (Reconcile r key) []).2 = Ok (mkResult childTerminationRequeue) ∧
  (∀ (env2 : environment) job' t, leaving env2 cr1 → om_DeletionTimestamp (job_Meta job') = Some t →
     (∀ h, env2 h (GetJob (job_key_of cr)) = Ok job') → accepts env2 →
     exec env2 (Reconcile r key) []
       = ([Ev (GetJob (job_key_of cr)) (Ok job'); Ev (GetCR key) (Ok cr1)], Ok (mkResult childTerminationRequeue))) ∧
  ∀ env3 : environment, leaving env3 cr1 → job_missing env3 cr → accepts env3 →
    (∃ e, exec env3 (Reconcile r key) []
       = ([Ev (UpdateCR (released cr1)) (Ok (released cr1)); Ev (GetJob (job_key_of cr)) (Err e); Ev (GetCR key) (Ok cr1)],
          Ok done_result)) ∧
    ∀ env4 : environment, env4 [] (GetCR key) = Ok (released cr1) ∨ (∃ e, env4 [] (GetCR key) = Err e ∧ IsNotFound e = true) →
      exec env4 (Reconcile r key) [] = ([Ev (GetCR key) (env4 [] (GetCR key))], Ok done_result).
Proof.
  intros Hlv [Hdel Hj] Hacc cr1.
  destruct (exec_drain env1 cr job Hlv (conj Hdel Hj) Hacc) as (l & Heq & Hcur & Hin). unfold leaves. rewrite Heq. do 3 (split; [done|]). split.
  - intros env2 job' t Hlv2 Ht Hj2 Hacc2. rewrite (exec_leaving env2 cr1) by done. destruct Hlv2 as (_ & _ & Hf).
    unfold finalize. rewrite Hf. cbn [negb]. exec_step. change (job_key_of cr1) with (job_key_of cr). rewrite Hj2.
    exec_into. rewrite exec_terminating by done. rewrite decide_True by done. cbn [fst snd]. unfold drain_job. by rewrite Ht.
  - intros env3 Hlv3 (e & He & Hm) Hacc3. split.
    + exists e. rewrite (exec_leaving env3 cr1) by done. destruct Hlv3 as (_ & _ & Hf). unfold finalize. rewrite Hf. cbn [negb].
      exec_step. change (job_key_of cr1) with (job_key_of cr). rewrite Hm, He. exec_step. fold (released cr1). by rewrite (proj1 (Hacc3 _ _)).
    + intros env4 [Hr4|(e' & Hr4 & He')]; unfold Reconcile; exec_step; rewrite Hr4; [|by rewrite He'].
      destruct Hlv as (_ & Hl & _). unfold live in Hl. simpl. destruct (om_DeletionTimestamp (sv_Meta cr)); [|done].
      unfold finalize. change (om_Finalizers (sv_Meta (released cr1))) with (RemoveFinalizer (om_Finalizers (sv_Meta cr)) scaleValidationFinalizer).
      by rewrite contains_remove.
Qed.
End lifetime.

(** ** Deployment web again *)

#[local] Existing Instance SimpleLib.
#[local] Existing Instance SimpleFlags.
#[local] Existing Instance sample_phases.
#[local] Existing Instance sample_platform.
#[local] Existing Instance empty_codec.
#[local] Existing Instance example_sort.
#[local] Existing Instance example_cadvisor.
#[local] Existing Instance example_result_json.

(** A finished validation whose spec was edited since. *)
Definition edited : ScaleValidation := Eval vm_compute in
  mkSV (sample_meta 2 None [scaleValidationFinalizer]) (sample_spec "" false)
    (sv_Status (default waiting (current_cr (pass_of env_over).1))).

Definition env_old_job := sample_env edited (Ok (sample_job JobComplete)) [] (90 * Second) true.

Definition env_no_job := sample_env edited (Err not_found) [] (100 * Second) true.

Definition pending_again : ScaleValidation := Eval vm_compute in default waiting (current_cr (pass_of env_no_job).1).

Definition env_ready_again := sample_env pending_again (Err not_found) [target_pod "a"] (110 * Second) true.

Definition running_again : ScaleValidation := Eval vm_compute in default waiting (current_cr (pass_of env_ready_again).1).

Definition again_job : Job := default (sample_job "") (head (omap job_of (pass_of env_ready_again).1)).

Definition again_cfg : Config :=
  observer_config pending_again (mkGVK "apps" "v1" "Deployment") (mkGVR "apps" "v1" "deployments").

Definition env_over_again (h : history answer) (c : api) : answer c :=
  match c with
  | PodLog _ _ _ => Ok (pod_log ["observer: watching prod/web"] web_line [] "")
  | c => sample_env running_again (Ok (sample_job JobComplete)) [observer_pod] (180 * Second) true h c
  end.

Lemma again_job_only job : Ev (CreateJob job) (Ok tt) ∈ (pass_of env_ready_again).1 → job = again_job.
Proof.
  intros Hin. assert (job ∈ omap job_of (pass_of env_ready_again).1) as Hj by (apply list_elem_of_omap; by exists (Ev (CreateJob job) (Ok tt))).
  assert (omap job_of (pass_of env_ready_again).1 = [again_job]) as Heq by (vm_compute; reflexivity).
  rewrite Heq in Hj. by apply list_elem_of_singleton in Hj.
Qed.

Lemma next_verdict_witness :
  changes (pass_of env_old_job).1 = ["delete job web-loadgen"] ∧
  changes (pass_of env_no_job).1 = ["status Pending"] ∧
  changes (pass_of env_ready_again).1 = ["create job web-loadgen"; "status Running"] ∧
  ∃ rep now cr4, current_cr (pass_of env_over_again).1 = Some cr4 ∧ terminal (sv_Phase cr4) ∧ shows rep now (sv_Status cr4) ∧
    records_run now edited cr4 ∧ length (st_History (sv_Status cr4)) = 2%nat.
Proof.
  do 3 (split; [vm_compute; reflexivity|]).
  assert (finished_read env_old_job sample_key edited) as Hr1 by (split_and!; [done..|vm_compute; auto|vm_compute; done]).
  assert (finished_read env_no_job sample_key edited) as Hr2 by (split_and!; [done..|vm_compute; auto|vm_compute; done]).
  destruct (next_verdict sample_reconciler sample_key env_old_job edited (sample_job JobComplete))
    as (_ & _ & _ & H2); [done|done|split; [done|left; split; [vm_compute; done|done]]|by split|].
  destruct (H2 env_no_job) as (cr2 & Hl2 & _ & _ & _ & _ & H3);
    [done|split; [done|left; split; [vm_compute; done|done]]|by exists not_found|done|].
  assert (Some cr2 = Some pending_again) as [= ->] by (rewrite <- Hl2; vm_compute; reflexivity).
  destruct (H3 env_ready_again (mkGVK "apps" "v1" "Deployment") (Branch [("status", Branch [("selector", Leaf "web")])]) "web"
    {[ "app" := "web" ]} [target_pod "a"] (mkGVR "apps" "v1" "deployments") not_found)
    as (job & cr3 & obs & cfg & Hin & Hl3 & _ & _ & Hobs & Hcfg & H4);
    [by split|split; try done; intros m Hm; simpl; by rewrite decide_True|done|].
  apply again_job_only in Hin as ->.
  assert (Some cr3 = Some running_again) as [= ->] by (rewrite <- Hl3; vm_compute; reflexivity).
  assert (Ok cfg = Ok web_cfg) as [= ->].
  { rewrite <- Hcfg. apply (f_equal (fmap jc_Args)) in Hobs. injection Hobs as <-. vm_compute. reflexivity. }
  destruct (H4 3%nat web_session) as (rep & line & rest & Hhv & _ & H5).
  { assert (Hok : (exec example_observer (observer_run web_cfg 3) []).2 = Ok tt) by (vm_compute; reflexivity).
    rewrite <- Hok. apply exec_runs. }
  assert (line = web_line) as -> by (unfold web_line; by rewrite Hhv).
  destruct (H5 env_over_again (sample_job JobComplete) observer_pod [] ["observer: watching prod/web"] [] "")
    as (now & cr4 & Hl4 & _ & Hterm & Hshows & Hrec & _); [by split|by repeat constructor|done|].
  exists rep, now, cr4. split_and!; [exact Hl4|exact Hterm|exact Hshows|exact Hrec|].
  unfold records_run in Hrec. rewrite Hrec. reflexivity.
Defined.

(** A validation deleted in the middle of its run. *)
Definition dying : ScaleValidation :=
  mkSV (sample_meta 1 (Some (30 * Second)) [scaleValidationFinalizer]) (sample_spec "" false) (sample_status PhaseRunning 0).

Definition dying_shown : ScaleValidation := on_Status (set_Phase PhaseTerminating) dying.

Definition terminating_job : Job :=
  mkJob (mkMeta "web-loadgen" "prod" 1 0 (Some (31 * Second)) ∅ ∅ [] []) (job_Spec in_flight) [].

Definition env_job_gone := sample_env dying_shown (Err not_found) [] (40 * Second) true.

Lemma deleted_is_released_witness :
  changes (pass_of (sample_env dying (Ok in_flight) [] (31 * Second) true)).1 = ["status Terminating"; "delete job web-loadgen"] ∧
  changes (pass_of (sample_env dying_shown (Ok terminating_job) [] (35 * Second) true)).1 = [] ∧
  (∃ e, (pass_of env_job_gone).1 = [Ev (UpdateCR (released dying_shown)) (Ok (released dying_shown));
    Ev (GetJob (mkKey "prod" "web-loadgen")) (Err e); Ev (GetCR sample_key) (Ok dying_shown)]).
Proof.
  destruct (deleted_is_released sample_reconciler sample_key (sample_env dying (Ok in_flight) [] (31 * Second) true) dying in_flight)
    as (_ & _ & _ & Hwait & Hgone); [by split_and!|by split|done|].
  split; [vm_compute; reflexivity|]. split.
  - unfold pass_of. rewrite (Hwait (sample_env dying_shown (Ok terminating_job) [] (35 * Second) true) terminating_job (31 * Second));
      [reflexivity|by split_and!|done..].
  - destruct (Hgone env_job_gone) as [[e Hex] _]; [by split_and!|by exists not_found|done|].
    exists e. unfold pass_of. by rewrite Hex.
Defined.
